(** * Spawn Engine v3 (reference/spawn-engine.js): embedding and properties

    The development follows the three classes of the bundle:
    [SpawnManager] (generation, selection, cascade functions),
    [EntityManager] (store, tick, modifiers, thresholds, pools) and the
    [SpawnEngine] facade.

    Conventions of the embedding.
    - A JavaScript object used as a dictionary and a [Map] are association
      lists in insertion order ([JS.Obj]): the engine iterates over them
      ([Object.entries], [for .. of map]) and the order is observable.
    - Entity objects are shared by reference between the store, the active
      set, the pools and the facade; they live in a heap ([World.heap]) and
      are passed around as locations.
    - Numbers of the entity state, thresholds and rates are integers ([Z]):
      exact for JavaScript doubles while the values are integers below 2^53.
      Selection weights are binary64 floats, because the diminishing-returns
      formula takes square roots; integer configuration values enter weight
      arithmetic through [JS.Z2F]. Derived values are what a formula of the
      configuration returns, an integer, NaN or an infinity ([JS.Num]); a
      snapshot, which is a JSON copy, records the last three as null.
    - [Date.now()] and [Math.random()] are supplied by the host
      ([Host.now], [Host.rng]); every call of the three cascade functions is
      recorded in [Host.calls], the way a test spy would. Event listeners are
      host code: [emit] records the event in [World.events]. *)

From Stdlib Require Import ZArith Ascii String List Bool Lia Floats DecimalString Sorted.
From stdpp Require Import base tactics list option.
Import ListNotations.
Local Open Scope Z_scope.
Local Open Scope string_scope.
Local Open Scope list_scope.

(** ** JavaScript data *)

Module JS.

Definition Obj (V : Type) : Type := list (string * V).

Section Obj.
Context {V : Type}.

Fixpoint get (k : string) (o : Obj V) : option V :=
  match o with
  | [] => None
  | (k', v) :: o' => if String.eqb k k' then Some v else get k o'
  end.

(* [o[k] = v]: an existing key keeps its position, a new key is appended *)
Fixpoint set (k : string) (v : V) (o : Obj V) : Obj V :=
  match o with
  | [] => [(k, v)]
  | (k', v') :: o' =>
      if String.eqb k k' then (k, v) :: o' else (k', v') :: set k v o'
  end.

Fixpoint delete (k : string) (o : Obj V) : Obj V :=
  match o with
  | [] => []
  | (k', v') :: o' =>
      if String.eqb k k' then delete k o' else (k', v') :: delete k o'
  end.

Definition has (k : string) (o : Obj V) : bool :=
  match get k o with Some _ => true | None => false end.

Definition keys (o : Obj V) : list string := map fst o.
Definition values (o : Obj V) : list V := map snd o.

(* [Object.assign(target, source)], also [{...target, ...source}] *)
Definition assign (target source : Obj V) : Obj V :=
  fold_left (fun t kv => set (fst kv) (snd kv) t) source target.
End Obj.

(* [x ?? d] *)
Definition nullish {A : Type} (x : option A) (d : A) : A :=
  match x with Some a => a | None => d end.

(* [s || d] on strings: the empty string is falsy *)
Definition orStr (s : option string) (d : string) : string :=
  match s with
  | Some s' => if String.eqb s' "" then d else s'
  | None => d
  end.

(* [n || d] on numbers: 0 is falsy *)
Definition orNum (n : option Z) (d : Z) : Z :=
  match n with
  | Some n' => if Z.eqb n' 0 then d else n'
  | None => d
  end.

Definition truthyStr (s : option string) : bool :=
  match s with Some s' => negb (String.eqb s' "") | None => false end.

Definition isSome {A : Type} (x : option A) : bool :=
  match x with Some _ => true | None => false end.

Definition strIs (s : option string) (lit : string) : bool :=
  match s with Some s' => String.eqb s' lit | None => false end.

(* [array.includes(x)], [array.indexOf(x)] and [array.splice(i, 1)] *)
Definition includes (x : string) (l : list string) : bool :=
  existsb (String.eqb x) l.

Fixpoint indexOf (x : string) (l : list string) : option nat :=
  match l with
  | [] => None
  | y :: l' => if String.eqb x y then Some O
               else match indexOf x l' with Some i => Some (S i) | None => None end
  end.

Fixpoint splice1 {A : Type} (i : nat) (l : list A) : list A :=
  match l, i with
  | [], _ => []
  | _ :: l', O => l'
  | y :: l', S i' => y :: splice1 i' l'
  end.

(* [array.pop()] *)
Definition pop {A : Type} (l : list A) : option A * list A :=
  match rev l with
  | [] => (None, [])
  | x :: r => (Some x, rev r)
  end.

(* [array.sort(cmp)]: the stable sort by a comparator; [x] goes before
   the first [y] that [cmp] puts strictly after it *)
Fixpoint insertBy {A : Type} (cmp : A -> A -> Z) (x : A) (l : list A) : list A :=
  match l with
  | [] => [x]
  | y :: l' => if Z.ltb (cmp x y) 0 then x :: y :: l' else y :: insertBy cmp x l'
  end.

Definition sort {A : Type} (cmp : A -> A -> Z) (l : list A) : list A :=
  fold_left (fun acc x => insertBy cmp x acc) l [].

(* [Math.max(lo, Math.min(hi, v))] *)
Definition clamp (lo hi v : Z) : Z := Z.max lo (Z.min hi v).

(** Numbers that need not be finite: a formula can divide by zero. *)

Inductive Num : Type :=
| Int (z : Z)
| NaN
| PosInf
| NegInf.

(* [Math.min] and [Math.max] *)
Definition minNum (a b : Num) : Num :=
  match a, b with
  | NaN, _ | _, NaN => NaN
  | NegInf, _ | _, NegInf => NegInf
  | PosInf, x | x, PosInf => x
  | Int x, Int y => Int (Z.min x y)
  end.

Definition maxNum (a b : Num) : Num :=
  match a, b with
  | NaN, _ | _, NaN => NaN
  | PosInf, _ | _, PosInf => PosInf
  | NegInf, x | x, NegInf => x
  | Int x, Int y => Int (Z.max x y)
  end.

(* [a < b] and [a === b]; every comparison with NaN is false *)
Definition ltNum (a b : Num) : bool :=
  match a, b with
  | NaN, _ | _, NaN => false
  | _, NegInf | PosInf, _ => false
  | NegInf, _ | _, PosInf => true
  | Int x, Int y => Z.ltb x y
  end.

Definition eqNum (a b : Num) : bool :=
  match a, b with
  | Int x, Int y => Z.eqb x y
  | PosInf, PosInf | NegInf, NegInf => true
  | _, _ => false
  end.

Definition leNum (a b : Num) : bool := ltNum a b || eqNum a b.

(* [Math.max(lo ?? -Infinity, Math.min(hi ?? Infinity, v))] *)
Definition clampOpt (lo hi : option Z) (v : Num) : Num :=
  maxNum (match lo with Some l => Int l | None => NegInf end)
    (minNum (match hi with Some h => Int h | None => PosInf end) v).

(* [Math.max(lo, Math.min(hi, v))] for a [v] that need not be finite *)
Definition clampNum (lo hi : Z) (v : Num) : Num := maxNum (Int lo) (minNum (Int hi) v).

(* a number read back from [JSON.parse(JSON.stringify(x))]: NaN and the
   infinities are written as [null] *)
Definition jsonNum (x : Num) : option Z :=
  match x with Int z => Some z | _ => None end.

(** Doubles. *)

(* the double nearest to an integer (ties to even), an infinity past the
   largest double: the value of an integer literal of any size *)
Definition Z2F (z : Z) : float := SF2Prim (binary_normalize prec emax z 0 false).

Definition Math_sign (x : float) : float :=
  if PrimFloat.is_nan x then x
  else if PrimFloat.ltb 0 x then 1%float
  else if PrimFloat.ltb x 0 then (-1)%float
  else x.

Definition Math_max (a b : float) : float :=
  if PrimFloat.is_nan a then a
  else if PrimFloat.is_nan b then b
  else if PrimFloat.ltb a b then b
  else if PrimFloat.ltb b a then a
  else if PrimFloat.get_sign a then b else a.

(* [Math.round]: the integer nearest to a finite double, halves up;
   an integer attribute cannot hold NaN or an infinity, read as 0 *)
Definition roundHalfUp (m e : Z) : Z :=
  if Z.leb 0 e then m * 2 ^ e
  else (2 * m + 2 ^ (- e)) / 2 ^ (1 - e).

Definition Math_round (x : float) : Z :=
  match Prim2SF x with
  | S754_finite s m e => roundHalfUp (if s then Z.neg m else Z.pos m) e
  | _ => 0
  end.

(* [Math.floor] of a finite double *)
Definition Math_floor (x : float) : Z :=
  match Prim2SF x with
  | S754_finite s m e =>
      let n := if s then Z.neg m else Z.pos m in
      if Z.leb 0 e then n * 2 ^ e else n / 2 ^ (- e)
  | _ => 0
  end.

(** Strings. *)

Definition showZ (z : Z) : string := NilZero.string_of_int (Z.to_int z).

Definition digit36 (d : Z) : string :=
  String.substring (Z.to_nat d) 1 "0123456789abcdefghijklmnopqrstuvwxyz".

(* the base-36 digits of a fraction [n / d], at most [k] of them *)
Fixpoint frac36 (k : nat) (n d : Z) : string :=
  match k with
  | O => ""
  | S k' =>
      if Z.eqb n 0 then ""
      else String.append (digit36 ((36 * n) / d)) (frac36 k' ((36 * n) mod d) d)
  end.

(* [u.toString(36).substr(2, 9)] for a draw [u] of [Math.random()] *)
Definition random36 (u : float) : string :=
  match Prim2SF u with
  | S754_finite false m e =>
      if Z.ltb e 0 then frac36 9 (Z.pos m) (2 ^ (- e)) else ""
  | _ => ""
  end.

(* a line feed or a carriage return: what [.] of a regular expression
   does not match *)
Definition lineTerminator (c : ascii) : bool :=
  Ascii.eqb c "010"%char || Ascii.eqb c "013"%char.

(* [new RegExp('^' + pattern.replace(/\*/g, '.*') + '$').test(str)] for a
   pattern whose other characters are literal *)
Fixpoint glob (p : string) : string -> bool :=
  match p with
  | EmptyString => fun s => match s with EmptyString => true | _ => false end
  | String c p' =>
      if Ascii.eqb c "*"%char then
        fix star (s : string) : bool :=
          glob p' s || match s with
                       | EmptyString => false
                       | String c' s' => negb (lineTerminator c') && star s'
                       end
      else fun s => match s with
                    | EmptyString => false
                    | String c' s' => Ascii.eqb c c' && glob p' s'
                    end
  end.

Fixpoint containsStar (p : string) : bool :=
  match p with
  | EmptyString => false
  | String c p' => Ascii.eqb c "*"%char || containsStar p'
  end.

End JS.

(** ** Configuration (the output of [validateAndNormalize]) *)

Set Warnings "-register-all".

(* a condition of [SpawnManager.evaluateCondition]: a boolean tree whose
   leaves are [{type, target, operator, value}] *)
Inductive Condition : Type :=
| CondAll (all : list Condition)
| CondAny (any : list Condition)
| CondNot (not : Condition)
| CondLeaf (type target operator : string) (value : Z).

Module Relationship.
(* [config.{operation, value, scaling, perPointSource, invert}] are kept
   flat; normalization fills [operation], [value] and [scaling] *)
Record t : Type := mk {
  id : string;
  sourceId : string;
  targetId : string;
  type : string;
  operation : string;
  value : Z;
  scaling : string;
  perPointSource : option string;
  invert : bool;
  conditions : list Condition
}.
End Relationship.

Module AttributeCfg.
(* attributes roll with the default [precision] 0 *)
Record t : Type := mk {
  min : option Z;
  max : option Z;
  defaultRange : option (Z * Z);
  spawnOrder : option Z
}.
End AttributeCfg.

Module VariableCfg.
Record t : Type := mk {
  initial : option Z;
  baseRate : option Z;
  min : option Z;
  max : option Z;
  changeMode : option string;
  direction : option string
}.
End VariableCfg.

Module ContextCfg.
Record t : Type := mk { default : option Z }.
End ContextCfg.

Module LayerCfg.
(* [selection.*] and [timing.rollAt] are kept flat *)
Record t : Type := mk {
  order : option Z;
  mode : option string;
  maxItems : option Z;
  initialRolls : option Z;
  pickCount : option Z;
  diminishingReturns : bool;
  weightFloor : option Z;
  rollAt : option string;
  traitIds : option (list string);
  itemIds : option (list string)
}.
End LayerCfg.

Module Threshold.
(* a threshold trait's [trigger] or [autoRemove] *)
Record t : Type := mk {
  target : option string;
  operator : option string;
  op : option string;
  value : Z
}.
End Threshold.

Module WeightModifier.
Record t : Type := mk {
  condition : option Condition;
  operation : string;
  value : Z
}.
End WeightModifier.

Module TraitCfg.
Record t : Type := mk {
  layerId : option string;
  baseWeight : option Z;
  mode : option string;
  weightModifiers : list WeightModifier.t;
  trigger : option Threshold.t;
  autoRemove : option Threshold.t;
  replaces : list string;
  incompatibleWith : list string;
  eligibility : list Condition
}.
End TraitCfg.

Module SCond.
(* one expression of a modifier trigger *)
Record t : Type := mk {
  target : option string;
  operator : option string;
  op : option string;
  value : Z;
  connector : option string
}.
End SCond.

Module TCond.
(* an entry of [trigger.conditions]: an expression, or with
   [group = Some cs] an entry [{type: 'group', conditions: cs}] *)
Record t : Type := mk {
  leaf : SCond.t;
  group : option (list SCond.t)
}.
End TCond.

Module Trigger.
Record t : Type := mk {
  type : option string;
  static : bool;
  conditions : option (list TCond.t);
  logic : option string;
  removeConditions : option (list TCond.t);
  removeLogic : option string;
  target : option string;
  operator : option string;
  value : Z
}.
End Trigger.

Module ModifierCfg.
Record t : Type := mk {
  durationType : option string;
  duration : option Z;
  stacking : option string;
  maxStacks : option Z;
  trigger : option Trigger.t;
  exclusiveWith : list string
}.
End ModifierCfg.

Module ReqObj.
Record t : Type := mk {
  id : option string;
  operator : option string;
  value : option Z;
  item : option string;
  trait : option string;
  modifier : option string;
  condition : option Condition
}.
End ReqObj.

Inductive Requirement : Type :=
| ReqString (nodeId : string)
| ReqObject (req : ReqObj.t).

Module CompoundCfg.
Record t : Type := mk {
  requires : list Requirement;
  requirementLogic : option string
}.
End CompoundCfg.

Module DerivedCfg.
(* [formula] is the function that [new Function(...keys, 'return ' + formula)]
   compiles to, applied to the context object; [None] when it throws *)
Record t : Type := mk {
  formula : JS.Obj (option Z) -> option JS.Num;
  min : option Z;
  max : option Z
}.
End DerivedCfg.

Module ActionCfg.
Record t : Type := mk {
  baseWeight : option Z;
  cooldown : option Z;
  costs : JS.Obj Z;
  requirements : list string;
  blockedBy : list string;
  eligibility : option (list Condition)
}.
End ActionCfg.

(* the payload of a node is determined by its [type]; a field of another
   kind reads as [undefined] *)
Inductive NodeConfig : Type :=
| Attribute (cfg : AttributeCfg.t)
| Variable_ (cfg : VariableCfg.t)
| Context_ (cfg : ContextCfg.t)
| Layer (cfg : LayerCfg.t)
| Trait (cfg : TraitCfg.t)
| Item (cfg : TraitCfg.t)
| Modifier (cfg : ModifierCfg.t)
| Compound (cfg : CompoundCfg.t)
| Derived (cfg : DerivedCfg.t)
| Action (cfg : ActionCfg.t)
| Other (type : string).

Module Node.
Record t : Type := mk {
  id : string;
  name : string;
  taxonomy : option (JS.Obj string);
  config : NodeConfig
}.

Definition type (n : t) : string :=
  match config n with
  | Attribute _ => "attribute"
  | Variable_ _ => "variable"
  | Context_ _ => "context"
  | Layer _ => "layer"
  | Trait _ => "trait"
  | Item _ => "item"
  | Modifier _ => "modifier"
  | Compound _ => "compound"
  | Derived _ => "derived"
  | Action _ => "action"
  | Other ty => ty
  end.

Definition trait (n : t) : option TraitCfg.t :=
  match config n with Trait c | Item c => Some c | _ => None end.
Definition layer (n : t) : option LayerCfg.t :=
  match config n with Layer c => Some c | _ => None end.
Definition variable (n : t) : option VariableCfg.t :=
  match config n with Variable_ c => Some c | _ => None end.
Definition attribute (n : t) : option AttributeCfg.t :=
  match config n with Attribute c => Some c | _ => None end.
Definition modifier (n : t) : option ModifierCfg.t :=
  match config n with Modifier c => Some c | _ => None end.
Definition action (n : t) : option ActionCfg.t :=
  match config n with Action c => Some c | _ => None end.
End Node.

(** Presets. *)

Inductive AttrSpec : Type :=
| SpecNumber (n : Z)
| SpecObject (min max base variance value : option Z).

Inductive PoolItem : Type :=
| PoolId (id : string)
| PoolWeighted (id : string) (weight : option Z).

Module TraitSpecObj.
Record t : Type := mk {
  mode : option string;
  pool : list PoolItem;
  chance : option float;
  count : option Z;
  taxonomyFilter : option (JS.Obj string)
}.
End TraitSpecObj.

Inductive TraitSpec : Type :=
| SpecString (traitId : string)
| SpecArray (traitIds : list string)
| SpecMode (spec : TraitSpecObj.t).

Inductive PresetAction : Type :=
| ActionWeight (weight : Z)
| ActionObject (weight : option Z) (condition : option Condition).

Module Preset.
Record t : Type := mk {
  id : string;
  name : string;
  attributes : JS.Obj AttrSpec;
  contexts : JS.Obj (option Z);
  forceTraits : list string;
  traits : option (JS.Obj TraitSpec);
  actions : option (JS.Obj PresetAction)
}.
End Preset.

Module Overrides.
(* the [overrides] argument of [generate], [spawn] and [acquire] *)
Record t : Type := mk {
  id : option string;
  name : option string;
  attributes : option (JS.Obj AttrSpec);
  contexts : option (JS.Obj (option Z));
  forceTraits : option (list string);
  traits : option (JS.Obj TraitSpec)
}.

Definition empty : t := mk None None None None None None.
End Overrides.

Module Config.
Record t : Type := mk {
  id : string;
  nodes : list Node.t;
  relationships : list Relationship.t
}.
End Config.

(** ** Entities *)

Module VarState.
Record t : Type := mk {
  value : Z;
  baseRate : Z;
  currentRate : Z;
  min : Z;
  max : Z;
  changeMode : string;
  direction : string
}.

Definition set_value (v : Z) (s : t) : t :=
  mk v (baseRate s) (currentRate s) (min s) (max s) (changeMode s) (direction s).
Definition set_currentRate (r : Z) (s : t) : t :=
  mk (value s) (baseRate s) r (min s) (max s) (changeMode s) (direction s).
End VarState.

Module LayerState.
Record t : Type := mk {
  active : list string;
  lastRoll : option Z
}.
Definition empty : t := mk [] None.
End LayerState.

Module ModState.
Record t : Type := mk {
  appliedAt : Z;
  stacks : option Z;
  isStatic : bool;
  expiresAt : option Z;
  ticksRemaining : option Z
}.
End ModState.

Module LogEntry.
Record t : Type := mk {
  timestamp : Z;
  event : string;
  data : list string
}.
End LogEntry.

Module Entity.
(* [_modifierStates] is absent until the first [applyModifier];
   [_internal.{log, lastTick}] are kept flat *)
Record t : Type := mk {
  id : string;
  configId : string;
  createdAt : Z;
  presetId : option string;
  name : option string;
  attributes : JS.Obj Z;
  variables : JS.Obj VarState.t;
  contexts : JS.Obj (option Z);
  layers : JS.Obj LayerState.t;
  modifiers : list string;
  modifierStates : option (JS.Obj ModState.t);
  compounds : list string;
  derived : JS.Obj (option JS.Num);
  actions : JS.Obj Z;
  poolId : option string;
  log : list LogEntry.t;
  lastTick : Z
}.

Definition set_id (x : string) (e : t) : t :=
  let '(mk _ b c d f g h i j k l m n o p q r) := e in mk x b c d f g h i j k l m n o p q r.
Definition set_createdAt (x : Z) (e : t) : t :=
  let '(mk a b _ d f g h i j k l m n o p q r) := e in mk a b x d f g h i j k l m n o p q r.
Definition set_presetId (x : option string) (e : t) : t :=
  let '(mk a b c _ f g h i j k l m n o p q r) := e in mk a b c x f g h i j k l m n o p q r.
Definition set_name (x : option string) (e : t) : t :=
  let '(mk a b c d _ g h i j k l m n o p q r) := e in mk a b c d x g h i j k l m n o p q r.
Definition set_attributes (x : JS.Obj Z) (e : t) : t :=
  let '(mk a b c d f _ h i j k l m n o p q r) := e in mk a b c d f x h i j k l m n o p q r.
Definition set_variables (x : JS.Obj VarState.t) (e : t) : t :=
  let '(mk a b c d f g _ i j k l m n o p q r) := e in mk a b c d f g x i j k l m n o p q r.
Definition set_contexts (x : JS.Obj (option Z)) (e : t) : t :=
  let '(mk a b c d f g h _ j k l m n o p q r) := e in mk a b c d f g h x j k l m n o p q r.
Definition set_layers (x : JS.Obj LayerState.t) (e : t) : t :=
  let '(mk a b c d f g h i _ k l m n o p q r) := e in mk a b c d f g h i x k l m n o p q r.
Definition set_modifiers (x : list string) (e : t) : t :=
  let '(mk a b c d f g h i j _ l m n o p q r) := e in mk a b c d f g h i j x l m n o p q r.
Definition set_modifierStates (x : option (JS.Obj ModState.t)) (e : t) : t :=
  let '(mk a b c d f g h i j k _ m n o p q r) := e in mk a b c d f g h i j k x m n o p q r.
Definition set_compounds (x : list string) (e : t) : t :=
  let '(mk a b c d f g h i j k l _ n o p q r) := e in mk a b c d f g h i j k l x n o p q r.
Definition set_derived (x : JS.Obj (option JS.Num)) (e : t) : t :=
  let '(mk a b c d f g h i j k l m _ o p q r) := e in mk a b c d f g h i j k l m x o p q r.
Definition set_actions (x : JS.Obj Z) (e : t) : t :=
  let '(mk a b c d f g h i j k l m n _ p q r) := e in mk a b c d f g h i j k l m n x p q r.
Definition set_poolId (x : option string) (e : t) : t :=
  let '(mk a b c d f g h i j k l m n o _ q r) := e in mk a b c d f g h i j k l m n o x q r.
Definition set_log (x : list LogEntry.t) (e : t) : t :=
  let '(mk a b c d f g h i j k l m n o p _ r) := e in mk a b c d f g h i j k l m n o p x r.
Definition set_lastTick (x : Z) (e : t) : t :=
  let '(mk a b c d f g h i j k l m n o p q _) := e in mk a b c d f g h i j k l m n o p q x.
End Entity.

(** ** The host: clock, random source and the spy on the cascade functions *)

Module Host.
Record t : Type := mk {
  now : Z;
  rng : list float;
  calls : list string
}.
End Host.

(* computations of the generation side: they read the clock, draw random
   numbers and are observed by the spy *)
Definition H (A : Type) : Type := Host.t -> A * Host.t.

Definition hret {A : Type} (a : A) : H A := fun h => (a, h).
Definition hbind {A B : Type} (m : H A) (f : A -> H B) : H B :=
  fun h => let (a, h') := m h in f a h'.

Declare Scope host_scope.
Delimit Scope host_scope with host.
Notation "x <- m ;; k" := (hbind m (fun x => k))
  (at level 100, m at next level, right associativity) : host_scope.

(* [Date.now()] *)
Definition Date_now : H Z := fun h => (Host.now h, h).

(* [Math.random()]; an exhausted source keeps answering 0 *)
Definition Math_random : H float :=
  fun h => match Host.rng h with
           | [] => (0%float, h)
           | u :: r => (u, Host.mk (Host.now h) r (Host.calls h))
           end.

Definition spy (name : string) : H unit :=
  fun h => (tt, Host.mk (Host.now h) (Host.rng h) (Host.calls h ++ [name])).

Fixpoint hfold {A S : Type} (f : S -> A -> H S) (l : list A) (s : S) : H S :=
  match l with
  | [] => hret s
  | x :: l' => hbind (f s x) (hfold f l')
  end.

(** ** SpawnManager: node queries, conditions and the cascade functions *)

Module SpawnManager.

Module SpawnItem.
Record t : Type := mk { node : Node.t; type : string; order : Z }.
End SpawnItem.

Module RollResult.
(* [selected] may hold [undefined]; a pool entry is [{id, weight}] *)
Record t : Type := mk {
  success : bool;
  selected : option (list (option string));
  error : option string;
  pool : option (list (option string * float))
}.
End RollResult.

Module OutcomeResult.
Record t : Type := mk {
  success : bool;
  selected : list (option string);
  previousActive : list string;
  error : option string
}.
End OutcomeResult.

(* [obj[key]] with an [undefined] key reads the property "undefined" *)
Definition keyOf (k : option string) : string := JS.nullish k "undefined".

(* the second [compareValues] of the class, the one in force *)
Definition compareValues (actual : option Z) (operator : string) (expected : Z) : bool :=
  let num (f : Z -> Z -> bool) :=
    match actual with Some a => f a expected | None => false end in
  if String.eqb operator "<" || String.eqb operator "lt" then num Z.ltb
  else if String.eqb operator "<=" || String.eqb operator "lte" then num Z.leb
  else if String.eqb operator ">" || String.eqb operator "gt" then num Z.gtb
  else if String.eqb operator ">=" || String.eqb operator "gte" then num Z.geb
  else if String.eqb operator "==" || String.eqb operator "eq" then num Z.eqb
  else if String.eqb operator "===" then num Z.eqb
  else if String.eqb operator "!=" || String.eqb operator "ne" then negb (num Z.eqb)
  else if String.eqb operator "!==" then negb (num Z.eqb)
  else false.

Definition log (now : Z) (event : string) (data : list string) (entity : Entity.t)
  : Entity.t :=
  let l := Entity.log entity ++ [LogEntry.mk now event data] in
  Entity.set_log
    (if Nat.ltb 1000 (length l) then skipn (length l - 500)%nat l else l) entity.

Section WithConfig.
Variable self : Config.t.

(* [nodeIndex]: a later node replaces an earlier one with the same id *)
Definition getNode (nodeId : string) : option Node.t :=
  find (fun n => String.eqb (Node.id n) nodeId) (rev (Config.nodes self)).

Definition getNodesByType (type : string) : list Node.t :=
  if String.eqb type "_traits" then
    List.filter (fun n => String.eqb (Node.type n) "trait") (Config.nodes self)
    ++ List.filter (fun n => String.eqb (Node.type n) "item") (Config.nodes self)
  else List.filter (fun n => String.eqb (Node.type n) type) (Config.nodes self).

Definition getAttributes := getNodesByType "attribute".
Definition getVariables := getNodesByType "variable".
Definition getContexts := getNodesByType "context".
Definition getModifiers := getNodesByType "modifier".
Definition getCompounds := getNodesByType "compound".
Definition getDerived := getNodesByType "derived".
Definition getActions := getNodesByType "action".
Definition getTraits := getNodesByType "_traits".

Definition layerOrder (n : Node.t) : option Z :=
  match Node.layer n with Some c => LayerCfg.order c | None => None end.

Definition getLayers : list Node.t :=
  JS.sort (fun a b => JS.orNum (layerOrder a) 0 - JS.orNum (layerOrder b) 0)
    (getNodesByType "layer").

Definition getSpawnOrder : list SpawnItem.t :=
  let attrs :=
    map (fun attr =>
           SpawnItem.mk attr "attribute"
             (JS.nullish
                (match Node.attribute attr with
                 | Some c => AttributeCfg.spawnOrder c | None => None end) 0))
      getAttributes in
  let layers :=
    flat_map (fun layer =>
                let rollAt := match Node.layer layer with
                              | Some c => LayerCfg.rollAt c | None => None end in
                if JS.strIs rollAt "create" || JS.strIs rollAt "spawn"
                then [SpawnItem.mk layer "layer" (JS.nullish (layerOrder layer) 0)]
                else [])
      (getNodesByType "layer") in
  JS.sort (fun a b => SpawnItem.order a - SpawnItem.order b) (attrs ++ layers).

Definition getLayerTraits (layerId : string) : list Node.t :=
  match getNode layerId with
  | Some layer =>
      match Node.layer layer with
      | Some c =>
          let ids := match LayerCfg.traitIds c with
                     | Some l => l
                     | None => JS.nullish (LayerCfg.itemIds c) []
                     end in
          flat_map (fun id => match getNode id with Some n => [n] | None => [] end) ids
      | None => []
      end
  | None => []
  end.

Definition isTrait (node : Node.t) : bool :=
  String.eqb (Node.type node) "trait" || String.eqb (Node.type node) "item".

Definition getRelationshipsTo (nodeId : string) : list Relationship.t :=
  List.filter (fun r => String.eqb (Relationship.targetId r) nodeId)
    (Config.relationships self).

(* [trait.config.layerId] *)
Definition layerIdOf (node : Node.t) : option string :=
  match Node.trait node with Some c => TraitCfg.layerId c | None => None end.

Definition layerActive (entity : Entity.t) (layerId : option string) : list string :=
  match JS.get (keyOf layerId) (Entity.layers entity) with
  | Some st => LayerState.active st
  | None => []
  end.

Definition isNodeActive (entity : Entity.t) (nodeId : string) : bool :=
  match getNode nodeId with
  | None => false
  | Some node =>
      if isTrait node then JS.includes nodeId (layerActive entity (layerIdOf node))
      else
        let ty := Node.type node in
        if String.eqb ty "modifier" then JS.includes nodeId (Entity.modifiers entity)
        else if String.eqb ty "compound" then JS.includes nodeId (Entity.compounds entity)
        else String.eqb ty "attribute" || String.eqb ty "variable"
             || String.eqb ty "context"
  end.

(* the second [getNodeValue] of the class, the one in force *)
Definition getNodeValue (entity : Entity.t) (nodeId : string) : Z :=
  match getNode nodeId with
  | None => 0
  | Some node =>
      let ty := Node.type node in
      if String.eqb ty "attribute" then
        JS.nullish (JS.get nodeId (Entity.attributes entity)) 0
      else if String.eqb ty "variable" then
        match JS.get nodeId (Entity.variables entity) with
        | Some vs => VarState.value vs
        | None => 0
        end
      else if String.eqb ty "context" then
        match JS.get nodeId (Entity.contexts entity) with
        | Some (Some v) => v
        | _ => 0
        end
      else 0
  end.

Fixpoint evaluateCondition (entity : Entity.t) (condition : Condition) : bool :=
  match condition with
  | CondAll cs => forallb (evaluateCondition entity) cs
  | CondAny cs => existsb (evaluateCondition entity) cs
  | CondNot c => negb (evaluateCondition entity c)
  | CondLeaf type target operator value =>
      if String.eqb type "attribute" then
        compareValues (JS.get target (Entity.attributes entity)) operator value
      else if String.eqb type "variable" then
        compareValues
          (match JS.get target (Entity.variables entity) with
           | Some vs => Some (VarState.value vs) | None => None end)
          operator value
      else if String.eqb type "context" then
        compareValues
          (match JS.get target (Entity.contexts entity) with
           | Some v => v | None => None end)
          operator value
      else if String.eqb type "trait" || String.eqb type "item" then
        isNodeActive entity target
      else if String.eqb type "modifier" then
        JS.includes target (Entity.modifiers entity)
      else if String.eqb type "compound" then
        JS.includes target (Entity.compounds entity)
      else false
  end.

Definition evaluateConditionOpt (entity : Entity.t) (condition : option Condition)
  : bool :=
  match condition with Some c => evaluateCondition entity c | None => true end.

Definition evaluateConditions (entity : Entity.t) (conditions : list Condition) : bool :=
  forallb (evaluateCondition entity) conditions.

(* [sourceNode?.config?.max] *)
Definition nodeMax (node : Node.t) : option Z :=
  match Node.config node with
  | Attribute c => AttributeCfg.max c
  | Variable_ c => VariableCfg.max c
  | Derived c => DerivedCfg.max c
  | _ => None
  end.

Definition calculateRelationshipValue (entity : Entity.t) (rel : Relationship.t) : Z :=
  let value := Relationship.value rel in
  if String.eqb (Relationship.scaling rel) "perPoint"
     && JS.truthyStr (Relationship.perPointSource rel) then
    let src := keyOf (Relationship.perPointSource rel) in
    let sourceValue := getNodeValue entity src in
    let sourceValue :=
      if Relationship.invert rel then
        let max := JS.nullish
                     (match getNode src with Some n => nodeMax n | None => None end) 10 in
        max - sourceValue
      else sourceValue in
    value * sourceValue
  else value.

(* [trait.config.eligibility || []], [trait.config.incompatibleWith || []]
   and [trait.config.selection?.mode] of a node listed in a layer *)
Definition eligibilityOf (node : Node.t) : list Condition :=
  match Node.config node with
  | Trait c | Item c => TraitCfg.eligibility c
  | Action c => JS.nullish (ActionCfg.eligibility c) []
  | _ => []
  end.

Definition incompatibleWithOf (node : Node.t) : list string :=
  match Node.trait node with Some c => TraitCfg.incompatibleWith c | None => [] end.

Definition selectionModeOf (node : Node.t) : option string :=
  match Node.config node with
  | Trait c | Item c => TraitCfg.mode c
  | Layer c => LayerCfg.mode c
  | _ => None
  end.

Definition checkEligibility (entity : Entity.t) (trait : Node.t) : bool :=
  evaluateConditions entity (eligibilityOf trait).

Definition hasIncompatibility (entity : Entity.t) (trait : Node.t) : bool :=
  existsb (isNodeActive entity) (incompatibleWithOf trait).

(** Trait activation. *)

Definition setLayerActive (layerId : option string) (active : list string)
    (entity : Entity.t) : Entity.t :=
  let k := keyOf layerId in
  let lastRoll := match JS.get k (Entity.layers entity) with
                  | Some st => LayerState.lastRoll st | None => None end in
  Entity.set_layers (JS.set k (LayerState.mk active lastRoll) (Entity.layers entity))
    entity.

Definition ensureLayer (layerId : option string) (entity : Entity.t) : Entity.t :=
  if JS.has (keyOf layerId) (Entity.layers entity) then entity
  else Entity.set_layers
         (JS.set (keyOf layerId) LayerState.empty (Entity.layers entity)) entity.

Definition deactivateTrait (entity : Entity.t) (traitId : string) : bool * Entity.t :=
  match getNode traitId with
  | None => (false, entity)
  | Some trait =>
      if negb (isTrait trait) then (false, entity)
      else
        let layerId := layerIdOf trait in
        if negb (JS.has (keyOf layerId) (Entity.layers entity)) then (false, entity)
        else
          match JS.indexOf traitId (layerActive entity layerId) with
          | None => (false, entity)
          | Some index =>
              (true, setLayerActive layerId
                       (JS.splice1 index (layerActive entity layerId)) entity)
          end
  end.

Definition replacesOf (node : Node.t) : list string :=
  match Node.trait node with Some c => TraitCfg.replaces c | None => [] end.

Definition activateTrait (now : Z) (entity : Entity.t) (traitId : string)
  : bool * Entity.t :=
  match getNode traitId with
  | None => (false, entity)
  | Some trait =>
      if negb (isTrait trait) then (false, entity)
      else
        let layerId := layerIdOf trait in
        let entity := ensureLayer layerId entity in
        if JS.includes traitId (layerActive entity layerId) then (false, entity)
        else
          let entity :=
            fold_left (fun e replaceId => snd (deactivateTrait e replaceId))
              (replacesOf trait) entity in
          let entity :=
            setLayerActive layerId (layerActive entity layerId ++ [traitId]) entity in
          (true, log now "traitActivated" [traitId; keyOf layerId] entity)
  end.

Definition forceActivateTrait (entity : Entity.t) (traitId : string) : bool * Entity.t :=
  match getNode traitId with
  | None => (false, entity)
  | Some trait =>
      if negb (isTrait trait) then (false, entity)
      else
        let layerId := layerIdOf trait in
        let entity := ensureLayer layerId entity in
        if JS.includes traitId (layerActive entity layerId) then (true, entity)
        else (true, setLayerActive layerId
                      (layerActive entity layerId ++ [traitId]) entity)
  end.

(** Compounds, derived values, rates. *)

Definition checkRequirement (entity : Entity.t) (req : Requirement) : bool :=
  match req with
  | ReqString nodeId => isNodeActive entity nodeId
  | ReqObject r =>
      if JS.truthyStr (ReqObj.id r) && JS.truthyStr (ReqObj.operator r)
         && JS.isSome (ReqObj.value r) then
        compareValues (Some (getNodeValue entity (keyOf (ReqObj.id r))))
          (keyOf (ReqObj.operator r)) (JS.nullish (ReqObj.value r) 0)
      else if JS.truthyStr (ReqObj.item r) then isNodeActive entity (keyOf (ReqObj.item r))
      else if JS.truthyStr (ReqObj.trait r) then isNodeActive entity (keyOf (ReqObj.trait r))
      else if JS.truthyStr (ReqObj.modifier r) then
        JS.includes (keyOf (ReqObj.modifier r)) (Entity.modifiers entity)
      else match ReqObj.condition r with
           | Some c => evaluateCondition entity c
           | None =>
               if JS.truthyStr (ReqObj.id r) then isNodeActive entity (keyOf (ReqObj.id r))
               else false
           end
  end.

Definition compoundCfg (node : Node.t) : CompoundCfg.t :=
  match Node.config node with
  | Compound c => c
  | _ => CompoundCfg.mk [] None
  end.

Definition checkCompoundRequirements (entity : Entity.t) (compound : Node.t) : bool :=
  let requires := CompoundCfg.requires (compoundCfg compound) in
  let logic := JS.orStr (CompoundCfg.requirementLogic (compoundCfg compound)) "all" in
  match requires with
  | [] => false
  | _ =>
      let results := map (checkRequirement entity) requires in
      if String.eqb logic "all" then forallb (fun r => r) results
      else existsb (fun r => r) results
  end.

Definition checkCompound (entity : Entity.t) (compound : Node.t) : Entity.t :=
  let isActive := JS.includes (Node.id compound) (Entity.compounds entity) in
  let requirementsMet := checkCompoundRequirements entity compound in
  if requirementsMet && negb isActive then
    Entity.set_compounds (Entity.compounds entity ++ [Node.id compound]) entity
  else if negb requirementsMet && isActive then
    match JS.indexOf (Node.id compound) (Entity.compounds entity) with
    | Some index =>
        Entity.set_compounds (JS.splice1 index (Entity.compounds entity)) entity
    | None => entity
    end
  else entity.

Definition checkCompounds (entity : Entity.t) : Entity.t :=
  fold_left checkCompound getCompounds entity.

Definition formulaContext (entity : Entity.t) : JS.Obj (option Z) :=
  JS.assign
    (JS.assign (map (fun kv => (fst kv, Some (snd kv))) (Entity.attributes entity))
       (map (fun kv => (fst kv, Some (VarState.value (snd kv))))
          (Entity.variables entity)))
    (Entity.contexts entity).

Definition calculateDerived1 (entity : Entity.t) (derived : Node.t) : Entity.t :=
  match Node.config derived with
  | Derived c =>
      let v := match DerivedCfg.formula c (formulaContext entity) with
               | Some value => JS.clampOpt (DerivedCfg.min c) (DerivedCfg.max c) value
               | None => JS.Int 0
               end in
      Entity.set_derived (JS.set (Node.id derived) (Some v) (Entity.derived entity)) entity
  | _ => entity
  end.

Definition calculateDerived (entity : Entity.t) : Entity.t :=
  fold_left calculateDerived1 getDerived entity.

Definition rateStep (entity : Entity.t) (rate : Z) (rel : Relationship.t) : Z :=
  if negb (isNodeActive entity (Relationship.sourceId rel)) then rate
  else if negb (evaluateConditions entity (Relationship.conditions rel)) then rate
  else
    let value := calculateRelationshipValue entity rel in
    if String.eqb (Relationship.operation rel) "add" then rate + value
    else if String.eqb (Relationship.operation rel) "multiply" then rate * value
    else rate.

Definition recalculateRate (entity : Entity.t) (varNode : Node.t) : Entity.t :=
  match JS.get (Node.id varNode) (Entity.variables entity) with
  | None => entity
  | Some varState =>
      let rateRels :=
        List.filter (fun r => String.eqb (Relationship.type r) "rate_modifier")
          (getRelationshipsTo (Node.id varNode)) in
      let rate := fold_left (rateStep entity) rateRels (VarState.baseRate varState) in
      Entity.set_variables
        (JS.set (Node.id varNode) (VarState.set_currentRate rate varState)
           (Entity.variables entity)) entity
  end.

Definition recalculateRates (entity : Entity.t) : Entity.t :=
  fold_left recalculateRate getVariables entity.


(** Weights. *)

Definition diminish (useDR : bool) (baseWeight effect : float) : float :=
  if useDR && negb (PrimFloat.eqb effect 0) then
    (JS.Math_sign effect * PrimFloat.sqrt (PrimFloat.abs effect)
     * PrimFloat.sqrt baseWeight)%float
  else effect.

Definition weightModifierStep (entity : Entity.t) (useDR : bool) (baseWeight : float)
    (weight : float) (mod_ : WeightModifier.t) : float :=
  if evaluateConditionOpt entity (WeightModifier.condition mod_) then
    if String.eqb (WeightModifier.operation mod_) "add" then
      (weight + diminish useDR baseWeight (JS.Z2F (WeightModifier.value mod_)))%float
    else if String.eqb (WeightModifier.operation mod_) "multiply" then
      (weight * JS.Z2F (WeightModifier.value mod_))%float
    else weight
  else weight.

Definition influenceStep (entity : Entity.t) (useDR : bool) (baseWeight : float)
    (weight : float) (rel : Relationship.t) : float :=
  if negb (isNodeActive entity (Relationship.sourceId rel)) then weight
  else if negb (evaluateConditions entity (Relationship.conditions rel)) then weight
  else
    let value := JS.Z2F (calculateRelationshipValue entity rel) in
    if String.eqb (Relationship.operation rel) "add" then
      (weight + diminish useDR baseWeight value)%float
    else if String.eqb (Relationship.operation rel) "multiply" then
      (weight * value)%float
    else weight.

(* [layerNode?.config?.selection || {}] of the trait's layer *)
Definition layerSelectionOf (trait : Node.t) : option LayerCfg.t :=
  if JS.truthyStr (layerIdOf trait) then
    match getNode (keyOf (layerIdOf trait)) with
    | Some layerNode => Node.layer layerNode
    | None => None
    end
  else None.

Definition calculateWeight (entity : Entity.t) (trait : Node.t) : float :=
  let baseWeight :=
    JS.Z2F (JS.nullish (match Node.trait trait with
                        | Some c => TraitCfg.baseWeight c | None => None end) 20) in
  let layerSelection := layerSelectionOf trait in
  let useDR := match layerSelection with
               | Some c => LayerCfg.diminishingReturns c | None => false end in
  let weight :=
    fold_left (weightModifierStep entity useDR baseWeight)
      (match Node.trait trait with
       | Some c => TraitCfg.weightModifiers c | None => [] end)
      baseWeight in
  let influences :=
    List.filter (fun r => String.eqb (Relationship.type r) "weight_influence")
      (getRelationshipsTo (Node.id trait)) in
  let weight := fold_left (influenceStep entity useDR baseWeight) influences weight in
  let weightFloor :=
    JS.nullish (match layerSelection with
                | Some c => LayerCfg.weightFloor c | None => None end) 0 in
  JS.Math_max (JS.Z2F weightFloor) weight.

(** Selection. *)

(* [rollRange(min, max)] at its default precision 0, the precision of an
   attribute that declares none *)
Definition rollRange (min max : Z) : H Z :=
  (u <- Math_random ;;
   hret (JS.Math_round (JS.Z2F min + u * (JS.Z2F max - JS.Z2F min))%float))%host.

Definition getModifiedAttributeRange (entity : Entity.t) (attr : Node.t) : Z * Z :=
  let cfg := match Node.attribute attr with
             | Some c => c | None => AttributeCfg.mk None None None None end in
  let min0 := match AttributeCfg.defaultRange cfg with
              | Some r => fst r | None => JS.nullish (AttributeCfg.min cfg) 1 end in
  let max0 := match AttributeCfg.defaultRange cfg with
              | Some r => snd r | None => JS.nullish (AttributeCfg.max cfg) 10 end in
  fold_left
    (fun range rel =>
       if negb (isNodeActive entity (Relationship.sourceId rel)) then range
       else if negb (evaluateConditions entity (Relationship.conditions rel)) then range
       else
         let value := calculateRelationshipValue entity rel in
         let op := JS.orStr (Some (Relationship.operation rel)) "add" in
         if String.eqb op "add" then (fst range + value, snd range + value)
         else if String.eqb op "multiply" then (fst range * value, snd range * value)
         else range)
    (List.filter (fun r => String.eqb (Relationship.type r) "value_modifier")
       (getRelationshipsTo (Node.id attr)))
    (min0, max0).

(* the walk [roll -= weight; if (roll <= 0) return ...] over a pool: the
   entry it stops at and its index *)
Fixpoint walk {A : Type} (weight : A -> float) (roll : float) (pool : list A)
  : option (nat * A) :=
  match pool with
  | [] => None
  | p :: pool' =>
      let roll := (roll - weight p)%float in
      if PrimFloat.leb roll 0 then Some (O, p)
      else match walk weight roll pool' with
           | Some (j, q) => Some (S j, q)
           | None => None
           end
  end.

Definition totalWeight {A : Type} (weight : A -> float) (pool : list A) : float :=
  fold_left (fun sum p => (sum + weight p)%float) pool 0%float.

Definition weightedPool (entity : Entity.t) (layerId : string)
  : list (Node.t * float) :=
  let currentActive := layerActive entity (Some layerId) in
  flat_map
    (fun trait =>
       if JS.includes (Node.id trait) currentActive then []
       else if JS.strIs (selectionModeOf trait) "threshold" then []
       else if negb (checkEligibility entity trait) then []
       else if hasIncompatibility entity trait then []
       else
         let weight := calculateWeight entity trait in
         if PrimFloat.ltb 0 weight then [(trait, weight)] else [])
    (getLayerTraits layerId).

Definition selectWeighted (entity : Entity.t) (layerId : string) : H RollResult.t :=
  let pool := weightedPool entity layerId in
  match pool with
  | [] => hret (RollResult.mk false None (Some "No eligible traits") (Some []))
  | first :: _ =>
      (u <- Math_random ;;
       let roll := (u * totalWeight snd pool)%float in
       match walk snd roll pool with
       | Some (_, p) =>
           hret (RollResult.mk true (Some [Some (Node.id (fst p))]) None
                   (Some (map (fun p => (Some (Node.id (fst p)), snd p)) pool)))
       | None =>
           hret (RollResult.mk true (Some [Some (Node.id (fst first))]) None
                   (Some (map (fun p => (None, snd p)) pool)))
       end)%host
  end.

Definition selectAllMatching (entity : Entity.t) (layerId : string) : RollResult.t :=
  let currentActive := layerActive entity (Some layerId) in
  RollResult.mk true
    (Some (flat_map
             (fun trait =>
                if JS.includes (Node.id trait) currentActive then []
                else if negb (checkEligibility entity trait) then []
                else if hasIncompatibility entity trait then []
                else [Some (Node.id trait)])
             (getLayerTraits layerId)))
    None None.

Fixpoint pickLoop (n : nat) (remainingPool : list (option string * float))
    (selected : list (option string)) : H (list (option string)) :=
  match n, remainingPool with
  | O, _ | _, [] => hret selected
  | S n', _ =>
      (u <- Math_random ;;
       let roll := (u * totalWeight snd remainingPool)%float in
       match walk snd roll remainingPool with
       | Some (j, p) =>
           pickLoop n' (JS.splice1 j remainingPool) (selected ++ [fst p])
       | None => pickLoop n' remainingPool selected
       end)%host
  end.

Definition selectPickN (entity : Entity.t) (layerId : string) (n : Z)
  : H RollResult.t :=
  (result <- selectWeighted entity layerId ;;
   match RollResult.pool result with
   | None | Some [] =>
       hret (RollResult.mk false None (Some "No eligible traits") None)
   | Some pool =>
       selected <- pickLoop (Z.to_nat n) pool [] ;;
       hret (RollResult.mk true (Some selected) None None)
   end)%host.

Definition selectFirstMatch (entity : Entity.t) (layerId : string) : RollResult.t :=
  let currentActive := layerActive entity (Some layerId) in
  match
    find (fun trait =>
            negb (JS.includes (Node.id trait) currentActive)
            && checkEligibility entity trait
            && negb (hasIncompatibility entity trait))
      (getLayerTraits layerId)
  with
  | Some trait => RollResult.mk true (Some [Some (Node.id trait)]) None None
  | None => RollResult.mk false None (Some "No matching traits") None
  end.

Definition activateSelected (now : Z) (entity : Entity.t)
    (selected : list (option string)) : Entity.t :=
  fold_left
    (fun e traitId =>
       match traitId with
       | Some t => snd (activateTrait now e t)
       | None => e
       end)
    selected entity.

(* [entity.layers[layerId].lastRoll = Date.now()]; the container exists
   for every layer of an entity made by [generate]. On an object without
   it the assignment throws a TypeError: the entity is then left as the
   activations made it, which is what [None] gives here, and the result of
   [rollLayer] is not returned to the caller *)
Definition setLastRoll (now : Z) (layerId : string) (entity : Entity.t) : Entity.t :=
  match JS.get layerId (Entity.layers entity) with
  | Some st =>
      Entity.set_layers
        (JS.set layerId (LayerState.mk (LayerState.active st) (Some now))
           (Entity.layers entity)) entity
  | None => entity
  end.

Definition rollLayer (entity : Entity.t) (layerId : string)
  : H (RollResult.t * Entity.t) :=
  match getNode layerId with
  | None => hret (RollResult.mk false None (Some "Invalid layer") None, entity)
  | Some layer =>
      match Node.layer layer with
      | None => hret (RollResult.mk false None (Some "Invalid layer") None, entity)
      | Some selection =>
          let mode := JS.orStr (LayerCfg.mode selection) "weighted" in
          let maxItems := JS.nullish (LayerCfg.maxItems selection) 10 in
          let currentActive := layerActive entity (Some layerId) in
          if Z.geb (Z.of_nat (length currentActive)) maxItems then
            hret (RollResult.mk false None (Some "Layer at capacity") None, entity)
          else
            (result <-
               (if String.eqb mode "weighted" then selectWeighted entity layerId
                else if String.eqb mode "allMatching" then
                  hret (selectAllMatching entity layerId)
                else if String.eqb mode "pickN" then
                  selectPickN entity layerId (JS.orNum (LayerCfg.pickCount selection) 1)
                else if String.eqb mode "firstMatch" then
                  hret (selectFirstMatch entity layerId)
                else selectWeighted entity layerId) ;;
             match RollResult.selected result with
             | Some (t :: ts) =>
                 now <- Date_now ;;
                 hret (result,
                       setLastRoll now layerId (activateSelected now entity (t :: ts)))
             | _ => hret (result, entity)
             end)%host
      end
  end.

Definition spied (name : string) (f : Entity.t -> Entity.t) (entity : Entity.t)
  : H Entity.t :=
  (_ <- spy name ;; hret (f entity))%host.

Fixpoint rollTimes (n : nat) (layerId : string) (entity : Entity.t)
    (allSelected : list (option string)) : H (list (option string) * Entity.t) :=
  match n with
  | O => hret (allSelected, entity)
  | S n' =>
      (r <- rollLayer entity layerId ;;
       let allSelected :=
         if RollResult.success (fst r)
         then allSelected ++ JS.nullish (RollResult.selected (fst r)) []
         else allSelected in
       rollTimes n' layerId (snd r) allSelected)%host
  end.

Definition rollOutcome (entity : Entity.t) (layerId : string) (rolls : Z)
  : H (OutcomeResult.t * Entity.t) :=
  match getNode layerId with
  | None => hret (OutcomeResult.mk false [] [] (Some "Invalid layer"), entity)
  | Some layer =>
      if negb (String.eqb (Node.type layer) "layer") then
        hret (OutcomeResult.mk false [] [] (Some "Invalid layer"), entity)
      else
        let entity := ensureLayer (Some layerId) entity in
        let previousActive := layerActive entity (Some layerId) in
        let entity :=
          fold_left (fun e traitId => snd (deactivateTrait e traitId))
            previousActive entity in
        let entity := setLayerActive (Some layerId) [] entity in
        (r <- rollTimes (Z.to_nat rolls) layerId entity [] ;;
         entity <- spied "checkCompounds" checkCompounds (snd r) ;;
         entity <- spied "calculateDerived" calculateDerived entity ;;
         hret (OutcomeResult.mk (Nat.ltb 0 (length (fst r))) (fst r) previousActive None,
               entity))%host
  end.


(** Presets. *)

Definition resolvePresetAttributeValue (attrValue : AttrSpec) : H Z :=
  match attrValue with
  | SpecNumber n => hret n
  | SpecObject (Some min) (Some max) _ _ _ => rollRange min max
  | SpecObject _ _ (Some base) variance _ =>
      let variance := JS.orNum variance 0 in
      rollRange (base - variance) (base + variance)
  | SpecObject _ _ None _ (Some value) => hret value
  | SpecObject _ _ None _ None => hret 0
  end.

Definition resolvePresetAttributes (attributes : option (JS.Obj AttrSpec))
  : H (JS.Obj Z) :=
  hfold (fun resolved kv =>
           (v <- resolvePresetAttributeValue (snd kv) ;;
            hret (JS.set (fst kv) v resolved))%host)
    (JS.nullish attributes []) [].

Definition itemId (item : PoolItem) : string :=
  match item with PoolId id => id | PoolWeighted id _ => id end.
Definition itemWeight (item : PoolItem) : float :=
  match item with
  | PoolId _ => 1%float
  | PoolWeighted _ w => JS.Z2F (JS.nullish w 1)
  end.

Definition selectWeightedFromPool (pool : list PoolItem) : H (option string) :=
  match pool with
  | [] => hret None
  | first :: _ =>
      (u <- Math_random ;;
       let roll := (u * totalWeight itemWeight pool)%float in
       match walk itemWeight roll pool with
       | Some (_, item) => hret (Some (itemId item))
       | None => hret (Some (itemId first))
       end)%host
  end.

Fixpoint selectNLoop (n : nat) (remaining : list PoolItem) (picks : list string)
  : H (list string) :=
  match n, remaining with
  | O, _ | _, [] => hret picks
  | S n', _ =>
      (u <- Math_random ;;
       let roll := (u * totalWeight itemWeight remaining)%float in
       match walk itemWeight roll remaining with
       | Some (j, picked) =>
           selectNLoop n' (JS.splice1 j remaining) (picks ++ [itemId picked])
       | None => selectNLoop n' remaining picks
       end)%host
  end.

Definition selectNFromPool (pool : list PoolItem) (n : Z) : H (list string) :=
  selectNLoop (Z.to_nat n) pool [].

Definition getNodesByTaxonomy (filter_ : JS.Obj string) : list Node.t :=
  match filter_ with
  | [] => []
  | _ =>
      List.filter (fun n =>
                match Node.taxonomy n with
                | None => false
                | Some taxonomy =>
                    forallb (fun kv =>
                               match JS.get (fst kv) taxonomy with
                               | Some v => String.eqb v (snd kv)
                               | None => false
                               end) filter_
                end)
        (Config.nodes self)
  end.

Definition taxonomyPool (layerId : string) (filter_ : JS.Obj string) : list PoolItem :=
  let layerItemIds :=
    match getNode layerId with
    | Some layer =>
        match Node.layer layer with
        | Some c => match LayerCfg.itemIds c with
                    | Some l => l
                    | None => JS.nullish (LayerCfg.traitIds c) []
                    end
        | None => []
        end
    | None => []
    end in
  map (fun n =>
         PoolWeighted (Node.id n)
           (Some (JS.orNum (match Node.trait n with
                            | Some c => TraitCfg.baseWeight c | None => None end) 1)))
    (List.filter (fun n => JS.includes (Node.id n) layerItemIds)
       (getNodesByTaxonomy filter_)).

Definition resolveTraitSpec (layerId : string) (spec : TraitSpec) : H (list string) :=
  match spec with
  | SpecString traitId => hret [traitId]
  | SpecArray traitIds => hret traitIds
  | SpecMode spec =>
      let mode := JS.orStr (TraitSpecObj.mode spec) "weighted" in
      let pool :=
        match TraitSpecObj.taxonomyFilter spec with
        | Some (kv :: rest) => taxonomyPool layerId (kv :: rest)
        | _ => TraitSpecObj.pool spec
        end in
      match pool with
      | [] => hret []
      | _ =>
          if String.eqb mode "chance" then
            (u <- Math_random ;;
             if PrimFloat.ltb u (JS.nullish (TraitSpecObj.chance spec) 0.5%float) then
               v <- Math_random ;;
               let idx := JS.Math_floor (v * JS.Z2F (Z.of_nat (length pool)))%float in
               hret (match nth_error pool (Z.to_nat idx) with
                     | Some item => [itemId item]
                     | None => []
                     end)
             else hret [])%host
          else if String.eqb mode "pickN" then
            selectNFromPool pool (JS.nullish (TraitSpecObj.count spec) 1)
          else if String.eqb mode "all" then hret (map itemId pool)
          else
            (picked <- selectWeightedFromPool pool ;;
             hret (match picked with Some t => [t] | None => [] end))%host
      end
  end.

Definition resolvePresetTraits (traits : option (JS.Obj TraitSpec)) : H (list string) :=
  hfold (fun resolved kv =>
           (ts <- resolveTraitSpec (fst kv) (snd kv) ;; hret (resolved ++ ts))%host)
    (JS.nullish traits []) [].

(** Generation. *)

Definition initVariable (entity : Entity.t) (varNode : Node.t) : Entity.t :=
  let cfg := match Node.variable varNode with
             | Some c => c
             | None => VariableCfg.mk None None None None None None
             end in
  Entity.set_variables
    (JS.set (Node.id varNode)
       (VarState.mk
          (JS.nullish (VariableCfg.initial cfg) 100)
          (JS.nullish (VariableCfg.baseRate cfg) 0)
          (JS.nullish (VariableCfg.baseRate cfg) 0)
          (JS.nullish (VariableCfg.min cfg) 0)
          (JS.nullish (VariableCfg.max cfg) 100)
          (JS.orStr (VariableCfg.changeMode cfg) "manual")
          (JS.orStr (VariableCfg.direction cfg) "none"))
       (Entity.variables entity)) entity.

Definition initContext (overrides : Overrides.t) (entity : Entity.t) (ctx : Node.t)
  : Entity.t :=
  let default := match Node.config ctx with
                 | Context_ c => ContextCfg.default c | _ => None end in
  let v := match JS.get (Node.id ctx) (JS.nullish (Overrides.contexts overrides) []) with
           | Some (Some v) => Some v
           | _ => default
           end in
  Entity.set_contexts (JS.set (Node.id ctx) v (Entity.contexts entity)) entity.

Definition initLayer (entity : Entity.t) (layer : Node.t) : Entity.t :=
  Entity.set_layers (JS.set (Node.id layer) LayerState.empty (Entity.layers entity))
    entity.

(* an override of [generate] is stored as it is; the integer attributes
   of the model hold a number, an object-valued override reads as 0 *)
Definition rawAttr (spec : AttrSpec) : Z :=
  match spec with SpecNumber n => n | SpecObject _ _ _ _ _ => 0 end.

Fixpoint rollInitial (n : nat) (layerId : string) (entity : Entity.t) : H Entity.t :=
  match n with
  | O => hret entity
  | S n' =>
      (r <- rollLayer entity layerId ;; rollInitial n' layerId (snd r))%host
  end.

Definition spawnStep (overrides : Overrides.t) (entity : Entity.t)
    (item : SpawnManager.SpawnItem.t) : H Entity.t :=
  let node := SpawnManager.SpawnItem.node item in
  if String.eqb (SpawnManager.SpawnItem.type item) "attribute" then
    match JS.get (Node.id node) (JS.nullish (Overrides.attributes overrides) []) with
    | Some spec =>
        hret (Entity.set_attributes
                (JS.set (Node.id node) (rawAttr spec) (Entity.attributes entity)) entity)
    | None =>
        let range := getModifiedAttributeRange entity node in
        (v <- rollRange (fst range) (snd range) ;;
         hret (Entity.set_attributes
                 (JS.set (Node.id node) v (Entity.attributes entity)) entity))%host
    end
  else if String.eqb (SpawnManager.SpawnItem.type item) "layer" then
    let initialRolls :=
      JS.orNum (match Node.layer node with
                | Some c => LayerCfg.initialRolls c | None => None end) 1 in
    rollInitial (Z.to_nat initialRolls) (Node.id node) entity
  else hret entity.

Definition remainingOverrides (overrides : Overrides.t) (entity : Entity.t) : Entity.t :=
  fold_left
    (fun e kv =>
       if JS.has (fst kv) (Entity.attributes e) then e
       else Entity.set_attributes
              (JS.set (fst kv) (rawAttr (snd kv)) (Entity.attributes e)) e)
    (JS.nullish (Overrides.attributes overrides) []) entity.

Definition initActions (entity : Entity.t) : Entity.t :=
  fold_left
    (fun e action =>
       Entity.set_actions (JS.set (Node.id action) 0 (Entity.actions e)) e)
    getActions entity.

Definition newEntityId : H string :=
  (now <- Date_now ;;
   u <- Math_random ;;
   hret (String.append "entity_"
           (String.append (JS.showZ now) (String.append "_" (JS.random36 u)))))%host.

Definition generate (overrides : Overrides.t) : H Entity.t :=
  (entityId <-
     (if JS.truthyStr (Overrides.id overrides)
      then hret (keyOf (Overrides.id overrides)) else newEntityId) ;;
   now <- Date_now ;;
   let entity :=
     Entity.mk entityId (Config.id self) now None None [] [] [] [] [] None [] [] []
       None [] now in
   let entity := fold_left initVariable getVariables entity in
   let entity := fold_left (initContext overrides) getContexts entity in
   let entity := fold_left initLayer getLayers entity in
   entity <- hfold (spawnStep overrides) getSpawnOrder entity ;;
   let entity := remainingOverrides overrides entity in
   entity <- spied "checkCompounds" checkCompounds entity ;;
   entity <- spied "calculateDerived" calculateDerived entity ;;
   entity <- spied "recalculateRates" recalculateRates entity ;;
   let entity := initActions entity in
   now <- Date_now ;;
   hret (log now "generated" [] entity))%host.

(* [this.entityManager.getPreset(id)]; no presets without a linked
   EntityManager *)
Definition getPreset (presets : option (JS.Obj Preset.t)) (presetId : string)
  : option Preset.t :=
  match presets with
  | Some ps => JS.get presetId ps
  | None => None
  end.

Definition spawn (presets : option (JS.Obj Preset.t)) (presetId : string)
    (overrides : Overrides.t) : H (option Entity.t) :=
  match getPreset presets presetId with
  | None => hret None
  | Some preset =>
      (pa <- resolvePresetAttributes (Some (Preset.attributes preset)) ;;
       oa <- resolvePresetAttributes (Overrides.attributes overrides) ;;
       pt <- resolvePresetTraits (Preset.traits preset) ;;
       ot <- resolvePresetTraits (Overrides.traits overrides) ;;
       let forceTraits :=
         Preset.forceTraits preset ++ pt
         ++ JS.nullish (Overrides.forceTraits overrides) [] ++ ot in
       let merged :=
         Overrides.mk (Overrides.id overrides) (Overrides.name overrides)
           (Some (map (fun kv => (fst kv, SpecNumber (snd kv))) (JS.assign pa oa)))
           (Some (JS.assign (Preset.contexts preset)
                    (JS.nullish (Overrides.contexts overrides) [])))
           (Some forceTraits) (Overrides.traits overrides) in
       entity <- generate merged ;;
       let entity :=
         fold_left (fun e traitId => snd (forceActivateTrait e traitId))
           forceTraits entity in
       let entity := Entity.set_presetId (Some presetId) entity in
       let entity :=
         Entity.set_name
           (Some (JS.orStr (Overrides.name overrides) (Preset.name preset))) entity in
       now <- Date_now ;;
       hret (Some (log now "spawned" [presetId] entity)))%host
  end.

(** Actions. *)

Definition actionCfg (action : Node.t) : ActionCfg.t :=
  match Node.action action with
  | Some c => c
  | None => ActionCfg.mk None None [] [] [] None
  end.

Definition isActionAvailable (entity : Entity.t) (actionId : string) : bool :=
  match getNode actionId with
  | None => false
  | Some action =>
      if negb (String.eqb (Node.type action) "action") then false
      else
        let cfg := actionCfg action in
        if match JS.get actionId (Entity.actions entity) with
           | Some cooldownRemaining => Z.gtb cooldownRemaining 0
           | None => false
           end then false
        else if negb (forallb
                        (fun kv =>
                           match JS.get (fst kv) (Entity.variables entity) with
                           | Some varState => negb (Z.ltb (VarState.value varState) (snd kv))
                           | None => false
                           end)
                        (ActionCfg.costs cfg)) then false
        else if negb (forallb (isNodeActive entity) (ActionCfg.requirements cfg)) then false
        else if existsb (isNodeActive entity) (ActionCfg.blockedBy cfg) then false
        else match ActionCfg.eligibility cfg with
             | Some conds => evaluateConditions entity conds
             | None => true
             end
  end.

Definition presetActionWeight (entity : Entity.t) (weight : Z) (pa : PresetAction) : Z :=
  match pa with
  | ActionWeight w => if Z.eqb w 0 then weight else w
  | ActionObject (Some w) (Some condition) =>
      if evaluateCondition entity condition then w else weight
  | ActionObject (Some w) None => w
  | ActionObject None _ => weight
  end.

Definition actionWeight (presets : option (JS.Obj Preset.t)) (entity : Entity.t)
    (action : Node.t) : Z :=
  let weight := JS.nullish (ActionCfg.baseWeight (actionCfg action)) 50 in
  let weight :=
    match Entity.presetId entity, presets with
    | Some presetId, Some _ =>
        if String.eqb presetId "" then weight
        else
          match getPreset presets presetId with
          | Some preset =>
              match JS.get (Node.id action) (JS.nullish (Preset.actions preset) []) with
              | Some pa => presetActionWeight entity weight pa
              | None => weight
              end
          | None => weight
          end
    | _, _ => weight
    end in
  fold_left (rateStep entity)
    (List.filter (fun r => String.eqb (Relationship.type r) "weight_influence")
       (getRelationshipsTo (Node.id action)))
    weight.

Definition getAvailableActions (presets : option (JS.Obj Preset.t)) (entity : Entity.t)
  : list (string * Z) :=
  flat_map
    (fun action =>
       if negb (isActionAvailable entity (Node.id action)) then []
       else
         let weight := actionWeight presets entity action in
         if Z.gtb weight 0 then [(Node.id action, weight)] else [])
    getActions.

Definition selectAction (presets : option (JS.Obj Preset.t)) (entity : Entity.t)
  : H (option (string * Z)) :=
  match getAvailableActions presets entity with
  | [] => hret None
  | first :: rest =>
      let available := first :: rest in
      let weight := fun a : string * Z => JS.Z2F (snd a) in
      (u <- Math_random ;;
       let roll := (u * totalWeight weight available)%float in
       match walk weight roll available with
       | Some (_, a) => hret (Some a)
       | None => hret (Some first)
       end)%host
  end.

Definition deductCost (entity : Entity.t) (kv : string * Z) : Entity.t :=
  match JS.get (fst kv) (Entity.variables entity) with
  | Some varState =>
      Entity.set_variables
        (JS.set (fst kv)
           (VarState.set_value
              (Z.max (VarState.min varState) (VarState.value varState - snd kv))
              varState)
           (Entity.variables entity)) entity
  | None => entity
  end.

Definition executeAction (now : Z) (entity : Entity.t) (actionId : string)
  : bool * Entity.t :=
  if negb (isActionAvailable entity actionId) then (false, entity)
  else
    let cfg := match getNode actionId with
               | Some action => actionCfg action
               | None => ActionCfg.mk None None [] [] [] None
               end in
    let entity := fold_left deductCost (ActionCfg.costs cfg) entity in
    let entity :=
      Entity.set_actions
        (JS.set actionId (JS.orNum (ActionCfg.cooldown cfg) 0) (Entity.actions entity))
        entity in
    (true, log now "actionExecuted" [actionId] entity).

(* [{cooldownRemaining, cooldownTotal, ready}] *)
Definition getActionCooldown (entity : Entity.t) (actionId : string) : Z * Z * bool :=
  let cooldownTotal :=
    JS.orNum (match getNode actionId with
              | Some action => ActionCfg.cooldown (actionCfg action)
              | None => None
              end) 0 in
  let cooldownRemaining := JS.orNum (JS.get actionId (Entity.actions entity)) 0 in
  (cooldownRemaining, cooldownTotal, Z.leb cooldownRemaining 0).


(** The indexes of [buildIndexes] that the runtime side reads. *)

Definition modifierCfg (node : Node.t) : ModifierCfg.t :=
  match Node.modifier node with
  | Some c => c
  | None => ModifierCfg.mk None None None None None []
  end.

Definition _thresholdModifiers : list Node.t :=
  List.filter
    (fun n => match ModifierCfg.trigger (modifierCfg n) with
              | Some trigger => JS.strIs (Trigger.type trigger) "threshold"
              | None => false
              end)
    (getNodesByType "modifier").

Definition thresholdTarget (trait : Node.t) : option string :=
  match Node.trait trait with
  | Some c => match TraitCfg.trigger c with
              | Some trigger => Threshold.target trigger
              | None => None
              end
  | None => None
  end.

Definition _thresholdTraitsByVar (varId : string) : list Node.t :=
  List.filter
    (fun trait =>
       JS.strIs (selectionModeOf trait) "threshold"
       && JS.truthyStr (thresholdTarget trait)
       && JS.strIs (thresholdTarget trait) varId)
    getTraits.

(* [set.add(x)] on an insertion-ordered Set *)
Definition setAdd (x : string) (s : list string) : list string :=
  if JS.includes x s then s else s ++ [x].

Definition ensureKey (k : string) (groups : JS.Obj (list string))
  : JS.Obj (list string) :=
  if JS.has k groups then groups else JS.set k [] groups.

Definition addPartner (modId : string) (groups : JS.Obj (list string))
    (partnerId : string) : JS.Obj (list string) :=
  let groups := JS.set modId (setAdd partnerId (JS.nullish (JS.get modId groups) []))
                  groups in
  let groups := ensureKey partnerId groups in
  JS.set partnerId (setAdd modId (JS.nullish (JS.get partnerId groups) [])) groups.

Definition _exclusiveGroups : JS.Obj (list string) :=
  fold_left
    (fun groups mod_ =>
       match ModifierCfg.exclusiveWith (modifierCfg mod_) with
       | [] => groups
       | exclusive =>
           fold_left (addPartner (Node.id mod_)) exclusive
             (ensureKey (Node.id mod_) groups)
       end)
    _thresholdModifiers [].

End WithConfig.
End SpawnManager.

(** ** EntityManager: the world it manages *)

Definition loc : Type := nat.

Module Stats.
Record t : Type := mk {
  size : Z;
  available : Z;
  inUse : Z;
  totalAcquired : Z;
  totalReleased : Z;
  totalCreated : Z
}.
Definition zero : t := mk 0 0 0 0 0 0.
End Stats.

Module PoolConfig.
Record t : Type := mk {
  maxSize : Z;
  preWarm : Z;
  preWarmPreset : option string;
  shrinkThreshold : float;
  shrinkDelay : Z
}.
End PoolConfig.

Module PoolCondition.
Record t : Type := mk {
  source : string;
  match_ : option string;
  operator : option string;
  value : option Z;
  weight : option Z
}.
End PoolCondition.

Module PoolRules.
Record t : Type := mk {
  conditions : option (list PoolCondition.t);
  priority : option Z
}.
End PoolRules.

Module Pool.
(* [_shrinkTimeout] is a pending timer or null *)
Record t : Type := mk {
  id : string;
  name : string;
  config : PoolConfig.t;
  stats : Stats.t;
  entities : list loc;
  rules : option PoolRules.t;
  shrinkTimeout : bool
}.

Definition set_stats (x : Stats.t) (p : t) : t :=
  mk (id p) (name p) (config p) x (entities p) (rules p) (shrinkTimeout p).
Definition set_entities (x : list loc) (p : t) : t :=
  mk (id p) (name p) (config p) (stats p) x (rules p) (shrinkTimeout p).
Definition set_shrinkTimeout (x : bool) (p : t) : t :=
  mk (id p) (name p) (config p) (stats p) (entities p) (rules p) x.
End Pool.

Module PoolOptions.
Record t : Type := mk {
  name : option string;
  maxSize : option Z;
  preWarm : option Z;
  preWarmPreset : option string;
  shrinkThreshold : option float;
  shrinkDelay : option Z;
  rules : option PoolRules.t
}.
End PoolOptions.

Module Snapshot.
(* [state] is the deep copy made by [JSON.parse(JSON.stringify(..))] *)
Record t : Type := mk {
  timestamp : Z;
  attributes : JS.Obj Z;
  variables : JS.Obj VarState.t;
  contexts : JS.Obj (option Z);
  layers : JS.Obj LayerState.t;
  modifiers : list string;
  compounds : list string;
  derived : JS.Obj (option Z)
}.
End Snapshot.

Module Event.
Record t : Type := mk { name : string; data : JS.Obj string }.
End Event.

Module World.
(* [heap]: the entity objects; [stored], [active], the pools and the
   facade's [entities] hold references to them. The legacy [pool] array is
   the default pool's [entities] (one shared array). *)
Record t : Type := mk {
  host : Host.t;
  heap : list Entity.t;
  spawnManager : option Config.t;
  presets : JS.Obj Preset.t;
  groups : JS.Obj (list string);
  stored : JS.Obj loc;
  active : JS.Obj loc;
  history : JS.Obj (list Snapshot.t);
  maxHistory : Z;
  maxEntities : option Z;
  batchingCascade : bool;
  cascadeDirty : bool;
  cascadeEntity : option loc;
  pools : JS.Obj Pool.t;
  poolStats : Stats.t;
  entities : JS.Obj loc;
  events : list Event.t
}.

Definition set_host (x : Host.t) (w : t) : t :=
  let '(mk _ b c d f g h i j k l m n o p q r) := w in mk x b c d f g h i j k l m n o p q r.
Definition set_heap (x : list Entity.t) (w : t) : t :=
  let '(mk a _ c d f g h i j k l m n o p q r) := w in mk a x c d f g h i j k l m n o p q r.
Definition set_presets (x : JS.Obj Preset.t) (w : t) : t :=
  let '(mk a b c _ f g h i j k l m n o p q r) := w in mk a b c x f g h i j k l m n o p q r.
Definition set_groups (x : JS.Obj (list string)) (w : t) : t :=
  let '(mk a b c d _ g h i j k l m n o p q r) := w in mk a b c d x g h i j k l m n o p q r.
Definition set_stored (x : JS.Obj loc) (w : t) : t :=
  let '(mk a b c d f _ h i j k l m n o p q r) := w in mk a b c d f x h i j k l m n o p q r.
Definition set_active (x : JS.Obj loc) (w : t) : t :=
  let '(mk a b c d f g _ i j k l m n o p q r) := w in mk a b c d f g x i j k l m n o p q r.
Definition set_history (x : JS.Obj (list Snapshot.t)) (w : t) : t :=
  let '(mk a b c d f g h _ j k l m n o p q r) := w in mk a b c d f g h x j k l m n o p q r.
Definition set_batchingCascade (x : bool) (w : t) : t :=
  let '(mk a b c d f g h i j k _ m n o p q r) := w in mk a b c d f g h i j k x m n o p q r.
Definition set_cascadeDirty (x : bool) (w : t) : t :=
  let '(mk a b c d f g h i j k l _ n o p q r) := w in mk a b c d f g h i j k l x n o p q r.
Definition set_cascadeEntity (x : option loc) (w : t) : t :=
  let '(mk a b c d f g h i j k l m _ o p q r) := w in mk a b c d f g h i j k l m x o p q r.
Definition set_pools (x : JS.Obj Pool.t) (w : t) : t :=
  let '(mk a b c d f g h i j k l m n _ p q r) := w in mk a b c d f g h i j k l m n x p q r.
Definition set_poolStats (x : Stats.t) (w : t) : t :=
  let '(mk a b c d f g h i j k l m n o _ q r) := w in mk a b c d f g h i j k l m n o x q r.
Definition set_entities (x : JS.Obj loc) (w : t) : t :=
  let '(mk a b c d f g h i j k l m n o p _ r) := w in mk a b c d f g h i j k l m n o p x r.
Definition set_events (x : list Event.t) (w : t) : t :=
  let '(mk a b c d f g h i j k l m n o p q _) := w in mk a b c d f g h i j k l m n o p q x.
End World.

(* computations of the runtime side *)
Definition M (A : Type) : Type := World.t -> A * World.t.

Definition ret {A : Type} (a : A) : M A := fun w => (a, w).
Definition bind {A B : Type} (m : M A) (f : A -> M B) : M B :=
  fun w => let (a, w') := m w in f a w'.

Declare Scope world_scope.
Delimit Scope world_scope with world.
Notation "x <- m ;; k" := (bind m (fun x => k))
  (at level 100, m at next level, right associativity) : world_scope.

Definition gets {A : Type} (f : World.t -> A) : M A := fun w => (f w, w).
Definition modify (f : World.t -> World.t) : M unit := fun w => (tt, f w).

Definition liftH {A : Type} (m : H A) : M A :=
  fun w => let (a, h) := m (World.host w) in (a, World.set_host h w).

Fixpoint forEach {A : Type} (l : list A) (f : A -> M unit) : M unit :=
  match l with
  | [] => ret tt
  | x :: l' => bind (f x) (fun _ => forEach l' f)
  end.

(* a dereference; every location handed out by [alloc] is on the heap *)
Definition deref (l : loc) : M (option Entity.t) :=
  gets (fun w => World.heap w !! l).

Definition update (l : loc) (f : Entity.t -> Entity.t) : M unit :=
  modify (fun w =>
            match World.heap w !! l with
            | Some e => World.set_heap (<[l := f e]> (World.heap w)) w
            | None => w
            end).

Definition alloc (e : Entity.t) : M loc :=
  fun w => (length (World.heap w), World.set_heap (World.heap w ++ [e]) w).

(* run a generation-side computation on the object at [l] *)
Definition onEntity {A : Type} (l : loc) (d : A)
    (f : Entity.t -> H (A * Entity.t)) : M A :=
  (oe <- deref l ;;
   match oe with
   | Some e =>
       r <- liftH (f e) ;;
       _ <- update l (fun _ => snd r) ;;
       ret (fst r)
   | None => ret d
   end)%world.

(* a call that may throw *)
Inductive Outcome (A : Type) : Type :=
| Returned (a : A)
| Thrown (error : string).
Arguments Returned {A} a.
Arguments Thrown {A} error.

(** ** EntityManager: store, cascade, modifiers, thresholds, tick *)

Module EntityManager.

Module ApplyConfig.
(* the [config] argument of [applyModifier]: the fields it reads *)
Record t : Type := mk {
  isStatic : bool;
  triggerStatic : bool;
  stacking : option string;
  duration : option Z;
  durationType : option string;
  maxStacks : option Z
}.

Definition empty : t := mk false false None None None None.

(* [{...modifier.config, isStatic: isStatic}] *)
Definition ofModifier (c : ModifierCfg.t) (isStatic : bool) : t :=
  mk isStatic
    (match ModifierCfg.trigger c with Some tr => Trigger.static tr | None => false end)
    (ModifierCfg.stacking c) (ModifierCfg.duration c) (ModifierCfg.durationType c)
    (ModifierCfg.maxStacks c).

(* [modifier?.config || {}] *)
Definition ofNode (n : option Node.t) : t :=
  match n with
  | Some node =>
      match Node.modifier node with
      | Some c =>
          mk false
            (match ModifierCfg.trigger c with
             | Some tr => Trigger.static tr | None => false end)
            (ModifierCfg.stacking c) (ModifierCfg.duration c)
            (ModifierCfg.durationType c) (ModifierCfg.maxStacks c)
      | None => empty
      end
  | None => empty
  end.
End ApplyConfig.

Definition emit (event : string) (data : JS.Obj string) : M unit :=
  modify (fun w => World.set_events (World.events w ++ [Event.mk event data]) w).

Definition showBool (b : bool) : string := if b then "true" else "false".

(** Presets and groups. *)

Definition registerPreset (id : string) (template : Preset.t) : M unit :=
  (_ <- modify (fun w => World.set_presets (JS.set id template (World.presets w)) w) ;;
   emit "presetRegistered" [("id", id)])%world.

Definition getPreset (id : string) : M (option Preset.t) :=
  gets (fun w => JS.get id (World.presets w)).

Definition addToGroup (groupId entityId : string) : M unit :=
  (has <- gets (fun w => JS.has groupId (World.groups w)) ;;
   _ <- (if has then ret tt
         else
           (_ <- modify (fun w => World.set_groups (JS.set groupId [] (World.groups w)) w) ;;
            emit "groupCreated" [("groupId", groupId)])) ;;
   _ <- modify (fun w =>
                  World.set_groups
                    (JS.set groupId
                       (SpawnManager.setAdd entityId
                          (JS.nullish (JS.get groupId (World.groups w)) []))
                       (World.groups w)) w) ;;
   emit "addedToGroup" [("groupId", groupId); ("entityId", entityId)])%world.

Definition removeFromAllGroups (entityId : string) : M unit :=
  modify (fun w =>
            World.set_groups
              (map (fun kv =>
                      (fst kv,
                       List.filter (fun x => negb (String.eqb x entityId)) (snd kv)))
                 (World.groups w)) w).

(** Storage. *)

(* [store(entity)] without options, as every call of the bundle has it *)
Definition store (entity : loc) : M (option loc) :=
  (oe <- deref entity ;;
   match oe with
   | None => ret None
   | Some e =>
       full <- gets (fun w =>
                       match World.maxEntities w with
                       | Some limit => Z.geb (Z.of_nat (length (World.stored w))) limit
                       | None => false
                       end) ;;
       if full then
         (_ <- emit "storageLimitReached" [] ;; ret None)
       else
         (_ <- modify (fun w =>
                         World.set_stored (JS.set (Entity.id e) entity (World.stored w)) w) ;;
          _ <- (if String.eqb (Entity.configId e) "" then ret tt
                else addToGroup (String.append "config:" (Entity.configId e))
                       (Entity.id e)) ;;
          _ <- emit "entityStored" [("entityId", Entity.id e)] ;;
          ret (Some entity))
   end)%world.

Definition retrieve (entityId : string) : M (option loc) :=
  gets (fun w =>
          match JS.get entityId (World.stored w) with
          | Some l => Some l
          | None => JS.get entityId (World.active w)
          end).

Definition remove (entityId : string) : M bool :=
  (ol <- retrieve entityId ;;
   match ol with
   | None => ret false
   | Some _ =>
       _ <- modify (fun w => World.set_stored (JS.delete entityId (World.stored w)) w) ;;
       _ <- modify (fun w => World.set_active (JS.delete entityId (World.active w)) w) ;;
       _ <- modify (fun w => World.set_history (JS.delete entityId (World.history w)) w) ;;
       _ <- removeFromAllGroups entityId ;;
       _ <- emit "entityRemoved" [("entityId", entityId)] ;;
       ret true
   end)%world.

Definition activate (entityOrId : string + loc) : M (option loc) :=
  (ol <- match entityOrId with
         | inl id => gets (fun w => JS.get id (World.stored w))
         | inr l => ret (Some l)
         end ;;
   match ol with
   | None => ret None
   | Some entity =>
       oe <- deref entity ;;
       match oe with
       | None => ret None
       | Some e =>
           has <- gets (fun w => JS.has (Entity.id e) (World.stored w)) ;;
           _ <- (if has then ret tt else (_ <- store entity ;; ret tt)) ;;
           _ <- modify (fun w =>
                          World.set_active (JS.set (Entity.id e) entity (World.active w)) w) ;;
           now <- liftH Date_now ;;
           _ <- update entity (Entity.set_lastTick now) ;;
           _ <- emit "entityActivated" [("entityId", Entity.id e)] ;;
           ret (Some entity)
       end
   end)%world.

Definition deactivate (entityId : string) : M bool :=
  (has <- gets (fun w => JS.has entityId (World.active w)) ;;
   if has then
     (_ <- modify (fun w => World.set_active (JS.delete entityId (World.active w)) w) ;;
      _ <- emit "entityDeactivated" [("entityId", entityId)] ;;
      ret true)
   else ret false)%world.

(** History. *)

(* a derived value as [JSON.stringify] writes it: [null] stays, and NaN
   and the infinities become [null] *)
Definition jsonDerived (kv : string * option JS.Num) : string * option Z :=
  (fst kv, match snd kv with Some x => JS.jsonNum x | None => None end).

Definition takeSnapshot (now : Z) (e : Entity.t) : Snapshot.t :=
  Snapshot.mk now (Entity.attributes e) (Entity.variables e)
    (List.filter (fun kv => JS.isSome (snd kv)) (Entity.contexts e))
    (Entity.layers e) (Entity.modifiers e) (Entity.compounds e)
    (map jsonDerived (Entity.derived e)).

Definition snapshot (entityId : string) : M (option Snapshot.t) :=
  (ol <- retrieve entityId ;;
   match ol with
   | None => ret None
   | Some l =>
       oe <- deref l ;;
       match oe with
       | None => ret None
       | Some e =>
           now <- liftH Date_now ;;
           let snap := takeSnapshot now e in
           _ <- modify (fun w =>
                          let snapshots :=
                            JS.nullish (JS.get entityId (World.history w)) [] ++ [snap] in
                          let n := length snapshots in
                          let snapshots :=
                            if Z.gtb (Z.of_nat n) (World.maxHistory w)
                            then skipn (n - Z.to_nat (World.maxHistory w))%nat snapshots
                            else snapshots in
                          World.set_history (JS.set entityId snapshots (World.history w)) w) ;;
           _ <- emit "snapshotTaken" [("entityId", entityId)] ;;
           ret (Some snap)
       end
   end)%world.

Definition getHistory (entityId : string) : M (list Snapshot.t) :=
  gets (fun w => JS.nullish (JS.get entityId (World.history w)) []).

Definition restoreValue (vars : JS.Obj VarState.t) (kv : string * VarState.t)
  : JS.Obj VarState.t :=
  match JS.get (fst kv) vars with
  | Some varState =>
      JS.set (fst kv) (VarState.set_value (VarState.value (snd kv)) varState) vars
  | None => vars
  end.

(* [{ ...snapshot.state.derived }] *)
Definition restoredDerived (snap : Snapshot.t) : JS.Obj (option JS.Num) :=
  map (fun kv => (fst kv, option_map JS.Int (snd kv))) (Snapshot.derived snap).

Definition restore (snap : Snapshot.t) (entity : Entity.t) : Entity.t :=
  let entity :=
    Entity.set_attributes (JS.assign (Entity.attributes entity) (Snapshot.attributes snap))
      entity in
  let entity :=
    Entity.set_contexts (JS.assign (Entity.contexts entity) (Snapshot.contexts snap))
      entity in
  let entity := Entity.set_layers (Snapshot.layers snap) entity in
  let entity := Entity.set_modifiers (Snapshot.modifiers snap) entity in
  let entity := Entity.set_compounds (Snapshot.compounds snap) entity in
  let entity := Entity.set_derived (restoredDerived snap) entity in
  Entity.set_variables
    (fold_left restoreValue (Snapshot.variables snap) (Entity.variables entity)) entity.

Definition rollback (entityId : string) (timestamp : Z) : M bool :=
  (ol <- retrieve entityId ;;
   osnaps <- gets (fun w => JS.get entityId (World.history w)) ;;
   match ol, osnaps with
   | Some l, Some snapshots =>
       match find (fun s => Z.leb (Snapshot.timestamp s) timestamp) (rev snapshots) with
       | None => ret false
       | Some snap =>
           _ <- update l (restore snap) ;;
           _ <- emit "entityRolledBack" [("entityId", entityId)] ;;
           ret true
       end
   | _, _ => ret false
   end)%world.

(** Cascade. *)

Definition cascadeTriple (cfg : Config.t) (entity : loc) : M unit :=
  onEntity entity tt
    (fun e =>
       (e <- SpawnManager.spied "recalculateRates" (SpawnManager.recalculateRates cfg) e ;;
        e <- SpawnManager.spied "checkCompounds" (SpawnManager.checkCompounds cfg) e ;;
        e <- SpawnManager.spied "calculateDerived" (SpawnManager.calculateDerived cfg) e ;;
        hret (tt, e))%host).

Definition _runCascade (entity : loc) : M unit :=
  (batching <- gets World.batchingCascade ;;
   if batching then
     modify (fun w => World.set_cascadeEntity (Some entity) (World.set_cascadeDirty true w))
   else
     sm <- gets World.spawnManager ;;
     match sm with
     | None => ret tt
     | Some cfg => cascadeTriple cfg entity
     end)%world.

(** Modifiers. *)

Definition applyTo (now : Z) (modifierId : string) (config : ApplyConfig.t)
    (entity : Entity.t) : Entity.t :=
  let states := JS.nullish (Entity.modifierStates entity) [] in
  let existing := JS.includes modifierId (Entity.modifiers entity) in
  let isStatic := ApplyConfig.isStatic config || ApplyConfig.triggerStatic config in
  match existing, JS.get modifierId states with
  | true, Some modState =>
      let modState :=
        if JS.strIs (ApplyConfig.stacking config) "refresh" then
          ModState.mk now (ModState.stacks modState) (ModState.isStatic modState)
            (if negb isStatic && negb (Z.eqb (JS.orNum (ApplyConfig.duration config) 0) 0)
                && JS.strIs (ApplyConfig.durationType config) "timed"
             then Some (now + JS.orNum (ApplyConfig.duration config) 0 * 1000)
             else ModState.expiresAt modState)
            (ModState.ticksRemaining modState)
        else if JS.strIs (ApplyConfig.stacking config) "stack" then
          ModState.mk (ModState.appliedAt modState)
            (Some (Z.min (JS.orNum (ModState.stacks modState) 1 + 1)
                     (JS.orNum (ApplyConfig.maxStacks config) 99)))
            (ModState.isStatic modState) (ModState.expiresAt modState)
            (ModState.ticksRemaining modState)
        else modState in
      Entity.set_modifierStates (Some (JS.set modifierId modState states)) entity
  | _, _ =>
      let modState :=
        ModState.mk now (Some 1) isStatic
          (if negb isStatic && JS.strIs (ApplyConfig.durationType config) "timed"
              && negb (Z.eqb (JS.orNum (ApplyConfig.duration config) 0) 0)
           then Some (now + JS.orNum (ApplyConfig.duration config) 0 * 1000)
           else None)
          (if negb isStatic && JS.strIs (ApplyConfig.durationType config) "ticks"
           then ApplyConfig.duration config else None) in
      Entity.set_modifierStates (Some (JS.set modifierId modState states))
        (Entity.set_modifiers (Entity.modifiers entity ++ [modifierId]) entity)
  end.

Definition applyModifier (entityId modifierId : string) (config : ApplyConfig.t) : M bool :=
  (ol <- retrieve entityId ;;
   match ol with
   | None => ret false
   | Some entity =>
       now <- liftH Date_now ;;
       _ <- update entity (applyTo now modifierId config) ;;
       _ <- _runCascade entity ;;
       _ <- emit "modifierApplied" [("entityId", entityId); ("modifierId", modifierId)] ;;
       ret true
   end)%world.

Definition removeFrom (modifierId : string) (index : nat) (entity : Entity.t) : Entity.t :=
  Entity.set_modifierStates
    (match Entity.modifierStates entity with
     | Some states => Some (JS.delete modifierId states)
     | None => None
     end)
    (Entity.set_modifiers (JS.splice1 index (Entity.modifiers entity)) entity).

Definition removeModifier (entityId modifierId : string) : M bool :=
  (ol <- retrieve entityId ;;
   match ol with
   | None => ret false
   | Some entity =>
       oe <- deref entity ;;
       match oe with
       | None => ret false
       | Some e =>
           match JS.indexOf modifierId (Entity.modifiers e) with
           | None => ret false
           | Some index =>
               _ <- update entity (removeFrom modifierId index) ;;
               _ <- _runCascade entity ;;
               _ <- emit "modifierRemoved"
                      [("entityId", entityId); ("modifierId", modifierId)] ;;
               ret true
           end
       end
   end)%world.

(** Traits. *)

Definition activateTrait (entityId traitId : string) : M bool :=
  (ol <- retrieve entityId ;;
   sm <- gets World.spawnManager ;;
   match ol, sm with
   | Some entity, Some cfg =>
       now <- liftH Date_now ;;
       result <- onEntity entity false
                   (fun e => hret (SpawnManager.activateTrait cfg now e traitId)) ;;
       if result then
         (_ <- _runCascade entity ;;
          _ <- emit "traitActivated" [("entityId", entityId); ("traitId", traitId)] ;;
          ret true)
       else ret false
   | _, _ => ret false
   end)%world.

Definition deactivateTrait (entityId traitId : string) : M bool :=
  (ol <- retrieve entityId ;;
   sm <- gets World.spawnManager ;;
   match ol, sm with
   | Some entity, Some cfg =>
       result <- onEntity entity false
                   (fun e => hret (SpawnManager.deactivateTrait cfg e traitId)) ;;
       if result then
         (_ <- _runCascade entity ;;
          _ <- emit "traitDeactivated" [("entityId", entityId); ("traitId", traitId)] ;;
          ret true)
       else ret false
   | _, _ => ret false
   end)%world.

(** Thresholds. *)

Definition evaluateThreshold (value : Z) (operator op : option string) (threshold : Z)
  : bool :=
  let o := if JS.truthyStr operator then operator else op in
  if JS.strIs o "<" then Z.ltb value threshold
  else if JS.strIs o "<=" then Z.leb value threshold
  else if JS.strIs o ">" then Z.gtb value threshold
  else if JS.strIs o ">=" then Z.geb value threshold
  else if JS.strIs o "=" || JS.strIs o "==" then Z.eqb value threshold
  else if JS.strIs o "!=" then negb (Z.eqb value threshold)
  else false.

(* the same comparisons for a value that need not be finite *)
Definition evaluateThresholdNum (value : JS.Num) (operator op : option string)
    (threshold : Z) : bool :=
  match value with
  | JS.Int z => evaluateThreshold z operator op threshold
  | _ =>
      let o := if JS.truthyStr operator then operator else op in
      let t := JS.Int threshold in
      if JS.strIs o "<" then JS.ltNum value t
      else if JS.strIs o "<=" then JS.leNum value t
      else if JS.strIs o ">" then JS.ltNum t value
      else if JS.strIs o ">=" then JS.leNum t value
      else if JS.strIs o "=" || JS.strIs o "==" then JS.eqNum value t
      else if JS.strIs o "!=" then negb (JS.eqNum value t)
      else false
  end.

(* [evaluateThreshold(value, trigger)] for a trait's [trigger] or [autoRemove] *)
Definition evaluateTraitThreshold (value : Z) (condition : option Threshold.t) : bool :=
  match condition with
  | None => false
  | Some c =>
      evaluateThreshold value (Threshold.operator c) (Threshold.op c) (Threshold.value c)
  end.

Definition traitCfg (trait : Node.t) : TraitCfg.t :=
  match Node.trait trait with
  | Some c => c
  | None => TraitCfg.mk None None None [] None None [] [] []
  end.

Definition checkThreshold (entity : loc) (varId : string) (trait : Node.t) : M unit :=
  (oe <- deref entity ;;
   match oe with
   | None => ret tt
   | Some e =>
       match JS.get varId (Entity.variables e) with
       | None => ret tt
       | Some varState =>
           let isActive :=
             JS.includes (Node.id trait)
               (SpawnManager.layerActive e (TraitCfg.layerId (traitCfg trait))) in
           _ <- (if negb isActive
                    && evaluateTraitThreshold (VarState.value varState)
                         (TraitCfg.trigger (traitCfg trait))
                 then (_ <- activateTrait (Entity.id e) (Node.id trait) ;; ret tt)
                 else ret tt) ;;
           if isActive
              && evaluateTraitThreshold (VarState.value varState)
                   (TraitCfg.autoRemove (traitCfg trait))
           then (_ <- deactivateTrait (Entity.id e) (Node.id trait) ;; ret tt)
           else ret tt
       end
   end)%world.

Definition checkThresholds (entity : loc) (varId : string) : M unit :=
  (sm <- gets World.spawnManager ;;
   match sm with
   | None => ret tt
   | Some cfg =>
       forEach (SpawnManager._thresholdTraitsByVar cfg varId) (checkThreshold entity varId)
   end)%world.

Section Evaluation.
(* [this.spawnManager] *)
Variable sm : option Config.t.

(* [None] is [null] or [undefined] *)
Definition getNodeValue (entity : Entity.t) (nodeId : string) : option JS.Num :=
  match sm with
  | Some cfg => Some (JS.Int (SpawnManager.getNodeValue cfg entity nodeId))
  | None =>
      match JS.get nodeId (Entity.attributes entity) with
      | Some v => Some (JS.Int v)
      | None =>
          match JS.get nodeId (Entity.variables entity) with
          | Some vs => Some (JS.Int (VarState.value vs))
          | None =>
              match JS.get nodeId (Entity.derived entity) with
              | Some (Some v) => Some v
              | _ => None
              end
          end
      end
  end.

Definition isNodeActive (entity : Entity.t) (nodeId : string) : bool :=
  match sm with
  | Some cfg => SpawnManager.isNodeActive cfg entity nodeId
  | None => false
  end.

Definition evaluateSingleCondition (entity : Entity.t) (cond : SCond.t) : bool :=
  if negb (JS.truthyStr (SCond.target cond)) then false
  else
    let target := SpawnManager.keyOf (SCond.target cond) in
    if JS.strIs (SCond.operator cond) "active" then isNodeActive entity target
    else if JS.strIs (SCond.operator cond) "inactive" then
      negb (isNodeActive entity target)
    else
      match getNodeValue entity target with
      | None => false
      | Some value =>
          evaluateThresholdNum value (SCond.operator cond) (SCond.op cond)
            (SCond.value cond)
      end.

(* the fold [result = result || r] / [result = result && r] over the
   expressions after the first *)
Definition connect (default : string) (eval : SCond.t -> bool)
    (connectorOf : SCond.t -> option string) (result : bool) (cond : SCond.t) : bool :=
  let r := eval cond in
  if String.eqb (JS.orStr (connectorOf cond) default) "OR" then result || r
  else result && r.

Definition evaluateConditionOrGroup (entity : Entity.t) (cond : TCond.t) : bool :=
  match TCond.group cond with
  | Some (c0 :: rest) =>
      fold_left (connect "OR" (evaluateSingleCondition entity) SCond.connector) rest
        (evaluateSingleCondition entity c0)
  | _ => evaluateSingleCondition entity (TCond.leaf cond)
  end.

Definition evaluateConditionsWithConnectors (entity : Entity.t)
    (conditions : list TCond.t) (fallbackLogic : option string) : bool :=
  match conditions with
  | [] => false
  | c0 :: rest =>
      let default := if JS.strIs fallbackLogic "any" then "OR" else "AND" in
      fold_left
        (fun result cond =>
           let r := evaluateConditionOrGroup entity cond in
           if String.eqb (JS.orStr (SCond.connector (TCond.leaf cond)) default) "OR"
           then result || r else result && r)
        rest (evaluateConditionOrGroup entity c0)
  end.

Definition evaluateModifierTrigger (entity : Entity.t) (trigger : option Trigger.t)
  : bool :=
  match trigger with
  | None => false
  | Some trigger =>
      match Trigger.conditions trigger with
      | Some (c :: cs) =>
          evaluateConditionsWithConnectors entity (c :: cs) (Trigger.logic trigger)
      | _ =>
          if JS.truthyStr (Trigger.target trigger) then
            match getNodeValue entity (SpawnManager.keyOf (Trigger.target trigger)) with
            | None => false
            | Some value =>
                evaluateThresholdNum value (Trigger.operator trigger) None
                  (Trigger.value trigger)
            end
          else false
      end
  end.

Definition evaluateRemoveConditions (entity : Entity.t) (trigger : option Trigger.t)
  : bool :=
  match trigger with
  | None => false
  | Some trigger =>
      match Trigger.removeConditions trigger with
      | Some (c :: cs) =>
          evaluateConditionsWithConnectors entity (c :: cs) (Trigger.removeLogic trigger)
      | _ =>
          match Trigger.static trigger, Trigger.conditions trigger with
          | true, Some (c :: cs) =>
              negb (evaluateConditionsWithConnectors entity (c :: cs)
                      (Trigger.logic trigger))
          | _, _ => false
          end
      end
  end.

(** The arbiter of exclusive groups. *)

Definition triggerOf (mod_ : Node.t) : option Trigger.t :=
  ModifierCfg.trigger (SpawnManager.modifierCfg mod_).

(* [m.config.trigger?.conditions?.length === 1]: the only condition *)
Definition singleCondition (mod_ : Node.t) : option SCond.t :=
  match triggerOf mod_ with
  | Some trigger =>
      match Trigger.conditions trigger with
      | Some [c] => Some (TCond.leaf c)
      | _ => None
      end
  | None => None
  end.

Definition sameTargets (conds : list (Node.t * SCond.t)) : bool :=
  match conds with
  | [] => false
  | c0 :: rest =>
      forallb (fun c =>
                 match SCond.target (snd c), SCond.target (snd c0) with
                 | Some a, Some b => String.eqb a b
                 | None, None => true
                 | _, _ => false
                 end) rest
  end.

Definition isLe (c : Node.t * SCond.t) : bool :=
  JS.strIs (SCond.operator (snd c)) "<=" || JS.strIs (SCond.operator (snd c)) "<".
Definition isGe (c : Node.t * SCond.t) : bool :=
  JS.strIs (SCond.operator (snd c)) ">=" || JS.strIs (SCond.operator (snd c)) ">".

Definition getMostSpecificModifier (candidates : list Node.t) : option Node.t :=
  let singleCondCandidates :=
    flat_map (fun m => match singleCondition m with
                       | Some c => [(m, c)] | None => [] end) candidates in
  let specific :=
    if Nat.eqb (length singleCondCandidates) (length candidates) then
      let conds := singleCondCandidates in
      if sameTargets conds then
        let leOps := List.filter isLe conds in
        let geOps := List.filter isGe conds in
        if Nat.eqb (length leOps) (length conds) then
          head (JS.sort (fun a b => SCond.value (snd a) - SCond.value (snd b)) leOps)
        else if Nat.eqb (length geOps) (length conds) then
          head (JS.sort (fun a b => SCond.value (snd b) - SCond.value (snd a)) geOps)
        else None
      else None
    else None in
  match specific with
  | Some c => Some (fst c)
  | None => head candidates
  end.

(* the transitive closure of one member, in the order the traversal adds
   to the Set; [queue.pop()] takes the last pushed *)
Fixpoint collectGroup (fuel : nat) (exclusiveMap : JS.Obj (list string))
    (queue group : list string) : list string :=
  match fuel with
  | O => group
  | S fuel' =>
      match JS.pop queue with
      | (None, _) => group
      | (Some current, queue) =>
          let gq :=
            fold_left
              (fun gq p =>
                 if JS.includes p (fst gq) then gq
                 else (fst gq ++ [p], snd gq ++ [p]))
              (JS.nullish (JS.get current exclusiveMap) []) (group, queue) in
          collectGroup fuel' exclusiveMap (snd gq) (fst gq)
      end
  end.

(* every push adds a new member, and members are partners of the map *)
Definition groupFuel (exclusiveMap : JS.Obj (list string)) : nat :=
  S (S (length (concat (JS.values exclusiveMap)))).

Definition resolveGroup (entity : Entity.t) (exclusiveMap : JS.Obj (list string))
    (modifiers : list Node.t) (acc : JS.Obj bool * list string)
    (entry : string * list string) : JS.Obj bool * list string :=
  let modId := fst entry in
  if JS.includes modId (snd acc) then acc
  else
    let group := collectGroup (groupFuel exclusiveMap) exclusiveMap [modId] [modId] in
    let visited := fold_left (fun v id => SpawnManager.setAdd id v) group (snd acc) in
    let candidates :=
      flat_map
        (fun id =>
           match find (fun m => String.eqb (Node.id m) id) modifiers with
           | Some mod_ =>
               if evaluateModifierTrigger entity (triggerOf mod_) then [mod_] else []
           | None => []
           end)
        group in
    let winner :=
      match candidates with
      | [] => None
      | [only] => Some only
      | _ => getMostSpecificModifier candidates
      end in
    (fold_left
       (fun results id =>
          JS.set id
            (match winner with
             | Some w => String.eqb id (Node.id w)
             | None => false
             end) results)
       group (fst acc),
     visited).

Definition resolveExclusiveGroups (entity : Entity.t)
    (exclusiveMap : JS.Obj (list string)) (modifiers : list Node.t) : JS.Obj bool :=
  fst (fold_left (resolveGroup entity exclusiveMap modifiers) exclusiveMap ([], [])).

End Evaluation.

Definition checkModifier (cfg : Config.t) (groupWinners : JS.Obj bool) (entity : loc)
    (modifier : Node.t) : M unit :=
  (oe <- deref entity ;;
   match oe with
   | None => ret tt
   | Some e =>
       let trigger := triggerOf modifier in
       let isActive := JS.includes (Node.id modifier) (Entity.modifiers e) in
       let isStatic := match trigger with Some tr => Trigger.static tr | None => false end in
       let shouldApply := evaluateModifierTrigger (Some cfg) e trigger in
       let config :=
         ApplyConfig.ofModifier (SpawnManager.modifierCfg modifier) isStatic in
       match JS.get (Node.id modifier) groupWinners with
       | Some groupResult =>
           if groupResult && negb isActive then
             (_ <- applyModifier (Entity.id e) (Node.id modifier) config ;; ret tt)
           else if negb groupResult && isActive then
             (_ <- removeModifier (Entity.id e) (Node.id modifier) ;; ret tt)
           else ret tt
       | None =>
           if negb isActive && shouldApply then
             (_ <- applyModifier (Entity.id e) (Node.id modifier) config ;; ret tt)
           else if isActive && isStatic then
             if evaluateRemoveConditions (Some cfg) e trigger then
               (_ <- removeModifier (Entity.id e) (Node.id modifier) ;; ret tt)
             else ret tt
           else ret tt
       end
   end)%world.

Definition checkModifierThresholds (entity : loc) : M unit :=
  (sm <- gets World.spawnManager ;;
   oe <- deref entity ;;
   match sm, oe with
   | Some cfg, Some e =>
       let modifiers := SpawnManager._thresholdModifiers cfg in
       let exclusiveGroups := SpawnManager._exclusiveGroups cfg in
       let groupWinners := resolveExclusiveGroups (Some cfg) e exclusiveGroups modifiers in
       _ <- modify (fun w => World.set_cascadeDirty false (World.set_batchingCascade true w)) ;;
       _ <- forEach modifiers (checkModifier cfg groupWinners entity) ;;
       _ <- modify (World.set_batchingCascade false) ;;
       dirty <- gets World.cascadeDirty ;;
       if dirty then
         (_ <- modify (fun w => World.set_cascadeEntity None (World.set_cascadeDirty false w)) ;;
          cascadeTriple cfg entity)
       else ret tt
   | _, _ => ret tt
   end)%world.

(** Variables. *)

Definition writeValue (varId : string) (value : Z) (entity : Entity.t) : Entity.t :=
  match JS.get varId (Entity.variables entity) with
  | Some varState =>
      Entity.set_variables
        (JS.set varId (VarState.set_value value varState) (Entity.variables entity)) entity
  | None => entity
  end.

Definition calculateDerived (entity : loc) : M unit :=
  (sm <- gets World.spawnManager ;;
   match sm with
   | Some cfg =>
       onEntity entity tt
         (fun e =>
            (e <- SpawnManager.spied "calculateDerived" (SpawnManager.calculateDerived cfg) e ;;
             hret (tt, e))%host)
   | None => ret tt
   end)%world.

(* the common body of [modifyVariable] and [setVariable] *)
Definition changeVariable (entityId varId : string) (newValue : VarState.t -> Z) : M bool :=
  (ol <- retrieve entityId ;;
   match ol with
   | None => ret false
   | Some entity =>
       oe <- deref entity ;;
       match oe with
       | None => ret false
       | Some e =>
           match JS.get varId (Entity.variables e) with
           | None => ret false
           | Some varState =>
               let oldValue := VarState.value varState in
               let value :=
                 JS.clamp (VarState.min varState) (VarState.max varState)
                   (newValue varState) in
               _ <- update entity (writeValue varId value) ;;
               _ <- (if negb (Z.eqb value oldValue) then
                       (_ <- checkThresholds entity varId ;;
                        _ <- checkModifierThresholds entity ;;
                        _ <- calculateDerived entity ;;
                        emit "variableChanged"
                          [("entityId", entityId); ("varId", varId);
                           ("oldValue", JS.showZ oldValue); ("newValue", JS.showZ value)])
                     else ret tt) ;;
               ret true
           end
       end
   end)%world.

Definition modifyVariable (entityId varId : string) (delta : Z) : M bool :=
  changeVariable entityId varId (fun varState => VarState.value varState + delta).

Definition setVariable (entityId varId : string) (value : Z) : M bool :=
  changeVariable entityId varId (fun _ => value).

(** Tick. *)

Definition tickVariable (entity : loc) (deltaSeconds : Z) (varId : string) : M unit :=
  (oe <- deref entity ;;
   match oe with
   | None => ret tt
   | Some e =>
       match JS.get varId (Entity.variables e) with
       | None => ret tt
       | Some varState =>
           if String.eqb (VarState.changeMode varState) "timed"
              && negb (String.eqb (VarState.direction varState) "none") then
             let oldValue := VarState.value varState in
             let value :=
               JS.clamp (VarState.min varState) (VarState.max varState)
                 (VarState.value varState + VarState.currentRate varState * deltaSeconds) in
             _ <- update entity (writeValue varId value) ;;
             if negb (Z.eqb value oldValue) then
               (_ <- checkThresholds entity varId ;;
                emit "variableChanged"
                  [("entityId", Entity.id e); ("varId", varId);
                   ("oldValue", JS.showZ oldValue); ("newValue", JS.showZ value)])
             else ret tt
           else ret tt
       end
   end)%world.

(* the backwards scan of [entity.modifiers] for expired modifiers; it
   decrements the tick counters on the way *)
Definition expireStep (now : Z) (acc : list string * JS.Obj ModState.t) (modId : string)
  : list string * JS.Obj ModState.t :=
  match JS.get modId (snd acc) with
  | None => acc
  | Some modState =>
      if ModState.isStatic modState then acc
      else if match ModState.expiresAt modState with
              | Some t => negb (Z.eqb t 0) && Z.geb now t
              | None => false
              end then (fst acc ++ [modId], snd acc)
      else
        match ModState.ticksRemaining modState with
        | Some n =>
            let modState :=
              ModState.mk (ModState.appliedAt modState) (ModState.stacks modState)
                (ModState.isStatic modState) (ModState.expiresAt modState) (Some (n - 1)) in
            (if Z.leb (n - 1) 0 then fst acc ++ [modId] else fst acc,
             JS.set modId modState (snd acc))
        | None => acc
        end
  end.

Definition expireModifiers (now : Z) (entity : Entity.t) : list string * Entity.t :=
  match Entity.modifierStates entity with
  | None => ([], entity)
  | Some states =>
      let r := fold_left (expireStep now) (rev (Entity.modifiers entity)) ([], states) in
      (fst r, Entity.set_modifierStates (Some (snd r)) entity)
  end.

Definition tickCooldowns (deltaSeconds : Z) (entity : Entity.t) : Entity.t :=
  Entity.set_actions
    (map (fun kv =>
            (fst kv,
             if Z.gtb (snd kv) 0 then Z.max 0 (snd kv - deltaSeconds) else snd kv))
       (Entity.actions entity)) entity.

(* [deltaSeconds = null] takes the whole seconds since [lastTick] *)
Definition tick (entityId : string) (deltaSeconds : option Z) : M (option loc) :=
  (ol <- gets (fun w => JS.get entityId (World.active w)) ;;
   match ol with
   | None => ret None
   | Some entity =>
       oe <- deref entity ;;
       match oe with
       | None => ret None
       | Some e =>
           now <- liftH Date_now ;;
           let deltaSeconds :=
             match deltaSeconds with
             | Some d => d
             | None => (now - Entity.lastTick e) / 1000
             end in
           _ <- update entity (Entity.set_lastTick now) ;;
           _ <- forEach (JS.keys (Entity.variables e)) (tickVariable entity deltaSeconds) ;;
           expired <- onEntity entity [] (fun e => hret (expireModifiers now e)) ;;
           _ <- forEach expired
                  (fun modId => (_ <- removeModifier (Entity.id e) modId ;; ret tt)) ;;
           _ <- checkModifierThresholds entity ;;
           _ <- update entity (tickCooldowns deltaSeconds) ;;
           _ <- calculateDerived entity ;;
           _ <- emit "tick" [("entityId", Entity.id e); ("deltaSeconds", JS.showZ deltaSeconds)] ;;
           ret (Some entity)
       end
   end)%world.

(** Pools. *)

Definition defaultPoolId : string := "default".

Definition defaultPoolConfig : PoolConfig.t :=
  PoolConfig.mk 100 0 None 0.5%float 30000.

(* the pool made by [_initDefaultPool] *)
Definition defaultPool : Pool.t :=
  Pool.mk defaultPoolId "Default Pool" defaultPoolConfig Stats.zero [] None false.

Definition getPool (poolId : string) : M (option Pool.t) :=
  gets (fun w => JS.get poolId (World.pools w)).

Definition updatePool (poolId : string) (f : Pool.t -> Pool.t) : M unit :=
  modify (fun w =>
            match JS.get poolId (World.pools w) with
            | Some pool => World.set_pools (JS.set poolId (f pool) (World.pools w)) w
            | None => w
            end).

Definition updateStats (poolId : string) (f : Stats.t -> Stats.t) : M unit :=
  updatePool poolId (fun pool => Pool.set_stats (f (Pool.stats pool)) pool).

Definition clearLayers (entity : Entity.t) : Entity.t :=
  Entity.set_layers (map (fun kv => (fst kv, LayerState.empty)) (Entity.layers entity))
    entity.

Definition _prepareEntityForPool (entity : Entity.t) : Entity.t :=
  clearLayers
    (Entity.set_modifierStates (Some [])
       (Entity.set_compounds []
          (Entity.set_modifiers []
             (Entity.set_lastTick 0 (Entity.set_log [] entity))))).

Definition _scheduleShrinkCheckForPool (poolId : string) : M unit :=
  updatePool poolId
    (fun pool =>
       if Pool.shrinkTimeout pool then pool
       else if Z.eqb (PoolConfig.shrinkDelay (Pool.config pool)) 0 then pool
       else Pool.set_shrinkTimeout true pool).

(* the legacy [poolStats] mirror the default pool *)
Definition syncLegacy (poolId : string) (f : Stats.t -> Stats.t -> Stats.t) : M unit :=
  if String.eqb poolId defaultPoolId then
    modify (fun w =>
              match JS.get poolId (World.pools w) with
              | Some pool => World.set_poolStats (f (Pool.stats pool) (World.poolStats w)) w
              | None => w
              end)
  else ret tt.

Definition _evaluateOperator (value : Z) (operator : string) (target : option Z) : bool :=
  let num (f : Z -> Z -> bool) := match target with Some t => f value t | None => false end in
  if String.eqb operator "eq" then num Z.eqb
  else if String.eqb operator "ne" then negb (num Z.eqb)
  else if String.eqb operator "gt" then num Z.gtb
  else if String.eqb operator "gte" then num Z.geb
  else if String.eqb operator "lt" then num Z.ltb
  else if String.eqb operator "lte" then num Z.leb
  else false.

Definition _matchPattern (str pattern : string) : bool :=
  if negb (JS.containsStar pattern) then String.eqb str pattern
  else JS.glob pattern str.

(* a condition names what it matches in [match] *)
Definition _evaluatePoolCondition (entity : Entity.t) (condition : PoolCondition.t) : bool :=
  let source := PoolCondition.source condition in
  let match_ := SpawnManager.keyOf (PoolCondition.match_ condition) in
  if String.eqb source "preset" then
    if JS.truthyStr (Entity.presetId entity)
    then _matchPattern (SpawnManager.keyOf (Entity.presetId entity)) match_
    else false
  else if String.eqb source "trait" then
    existsb (fun layer => JS.includes match_ (LayerState.active layer))
      (JS.values (Entity.layers entity))
  else if String.eqb source "attribute" then
    match JS.get match_ (Entity.attributes entity) with
    | None => false
    | Some attrValue =>
        _evaluateOperator attrValue (JS.orStr (PoolCondition.operator condition) "eq")
          (PoolCondition.value condition)
    end
  else if String.eqb source "variable" then
    match JS.get match_ (Entity.variables entity) with
    | None => false
    | Some varState =>
        _evaluateOperator (VarState.value varState)
          (JS.orStr (PoolCondition.operator condition) "eq")
          (PoolCondition.value condition)
    end
  else if String.eqb source "modifier" then JS.includes match_ (Entity.modifiers entity)
  else if String.eqb source "compound" then JS.includes match_ (Entity.compounds entity)
  else false.

Definition _evaluatePoolRules (entity : Entity.t) (rules : PoolRules.t) : Z :=
  fold_left
    (fun score condition =>
       if _evaluatePoolCondition entity condition
       then score + JS.orNum (PoolCondition.weight condition) 1
       else score)
    (JS.nullish (PoolRules.conditions rules) []) 0.

Module Match.
Record t : Type := mk { poolId : string; score : Z; priority : Z }.
End Match.

Definition getPoolForEntity (pools : JS.Obj Pool.t) (entity : Entity.t) : string :=
  if JS.truthyStr (Entity.poolId entity)
     && JS.has (SpawnManager.keyOf (Entity.poolId entity)) pools
  then SpawnManager.keyOf (Entity.poolId entity)
  else
    let matches :=
      flat_map
        (fun kv =>
           if String.eqb (fst kv) defaultPoolId then []
           else
             match Pool.rules (snd kv) with
             | Some rules =>
                 match PoolRules.conditions rules with
                 | Some _ =>
                     let score := _evaluatePoolRules entity rules in
                     if Z.gtb score 0
                     then [Match.mk (fst kv) score (JS.orNum (PoolRules.priority rules) 0)]
                     else []
                 | None => []
                 end
             | None => []
             end)
        pools in
    match JS.sort
            (fun a b =>
               if negb (Z.eqb (Match.priority a) (Match.priority b))
               then Match.priority b - Match.priority a
               else Match.score b - Match.score a)
            matches
    with
    | m :: _ => Match.poolId m
    | [] => defaultPoolId
    end.

(* [{...presetIdOrOverrides, ...overrides}] *)
Definition mergeOverrides (a b : Overrides.t) : Overrides.t :=
  let pick {A : Type} (x y : option A) := match y with Some _ => y | None => x end in
  Overrides.mk
    (pick (Overrides.id a) (Overrides.id b))
    (pick (Overrides.name a) (Overrides.name b))
    (pick (Overrides.attributes a) (Overrides.attributes b))
    (pick (Overrides.contexts a) (Overrides.contexts b))
    (pick (Overrides.forceTraits a) (Overrides.forceTraits b))
    (pick (Overrides.traits a) (Overrides.traits b)).

Definition resetVariable (entity : Entity.t) (varNode : Node.t) : Entity.t :=
  let cfg := match Node.variable varNode with
             | Some c => c
             | None => VariableCfg.mk None None None None None None
             end in
  Entity.set_variables
    (JS.set (Node.id varNode)
       (VarState.mk
          (match VariableCfg.initial cfg with
           | Some v => v
           | None => JS.nullish (VariableCfg.min cfg) 0
           end)
          (JS.nullish (VariableCfg.baseRate cfg) 0)
          (JS.nullish (VariableCfg.baseRate cfg) 0)
          (JS.nullish (VariableCfg.min cfg) 0)
          (JS.nullish (VariableCfg.max cfg) 100)
          (JS.orStr (VariableCfg.changeMode cfg) "manual")
          (JS.orStr (VariableCfg.direction cfg) "none"))
       (Entity.variables entity)) entity.

(* re-roll of one attribute; a range with an undefined bound rolls NaN,
   which the integer attribute reads as 0 *)
Definition resetAttribute (cfg : Config.t) (preset : option Preset.t)
    (finalOverrides : Overrides.t) (entity : Entity.t) (attr : Node.t) : H Entity.t :=
  let c := match Node.attribute attr with
           | Some c => c | None => AttributeCfg.mk None None None None end in
  let fromPreset :=
    match preset with
    | Some p => JS.get (Node.id attr) (Preset.attributes p)
    | None => None
    end in
  let spec :=
    match fromPreset with
    | Some s => Some s
    | None => JS.get (Node.id attr) (JS.nullish (Overrides.attributes finalOverrides) [])
    end in
  (v <- match spec with
        | Some s => SpawnManager.resolvePresetAttributeValue s
        | None =>
            match AttributeCfg.defaultRange c, AttributeCfg.min c, AttributeCfg.max c with
            | Some r, _, _ => SpawnManager.rollRange (fst r) (snd r)
            | None, Some lo, Some hi => SpawnManager.rollRange lo hi
            | None, _, _ => (_ <- Math_random ;; hret 0)
            end
        end ;;
   hret (Entity.set_attributes (JS.set (Node.id attr) v (Entity.attributes entity)) entity)
  )%host.

Definition rerollLayer (cfg : Config.t) (entity : Entity.t) (layer : Node.t) : H Entity.t :=
  let timing := JS.orStr (match Node.layer layer with
                          | Some c => LayerCfg.rollAt c | None => None end) "spawn" in
  if String.eqb timing "spawn" || String.eqb timing "create" then
    (r <- SpawnManager.rollLayer cfg entity (Node.id layer) ;; hret (snd r))%host
  else hret entity.

(* the part of [_resetEntityForReuse] before the cascade *)
Definition resetEntity (cfg : Config.t) (presets : JS.Obj Preset.t)
    (presetIdOrOverrides : option (string + Overrides.t)) (overrides : Overrides.t)
    (entity : Entity.t) : H Entity.t :=
  let preset :=
    match presetIdOrOverrides with
    | Some (inl presetId) => JS.get presetId presets
    | _ => None
    end in
  let finalOverrides :=
    match presetIdOrOverrides with
    | Some (inr o) => mergeOverrides o overrides
    | _ => overrides
    end in
  (id <- SpawnManager.newEntityId ;;
   now <- Date_now ;;
   let entity := Entity.set_id id entity in
   let entity := Entity.set_createdAt now entity in
   let entity :=
     Entity.set_presetId
       (match preset with
        | Some p => if String.eqb (Preset.id p) "" then None else Some (Preset.id p)
        | None => None
        end) entity in
   entity <- hfold (resetAttribute cfg preset finalOverrides)
               (SpawnManager.getAttributes cfg) entity ;;
   let entity := fold_left resetVariable (SpawnManager.getVariables cfg) entity in
   let entity := clearLayers entity in
   let entity := Entity.set_modifiers [] entity in
   let entity := Entity.set_compounds [] entity in
   let entity := Entity.set_modifierStates (Some []) entity in
   let entity := Entity.set_derived [] entity in
   now <- Date_now ;;
   let entity := Entity.set_lastTick now (Entity.set_log [] entity) in
   entity <- hfold (rerollLayer cfg) (SpawnManager.getLayers cfg) entity ;;
   pt <- SpawnManager.resolvePresetTraits cfg
           (match preset with Some p => Preset.traits p | None => None end) ;;
   ot <- SpawnManager.resolvePresetTraits cfg (Overrides.traits finalOverrides) ;;
   let forceTraits :=
     match preset with Some p => Preset.forceTraits p | None => [] end ++ pt
     ++ JS.nullish (Overrides.forceTraits finalOverrides) [] ++ ot in
   hret (fold_left (fun e traitId => snd (SpawnManager.forceActivateTrait cfg e traitId))
           forceTraits entity))%host.

Definition _resetEntityForReuse (entity : loc)
    (presetIdOrOverrides : option (string + Overrides.t)) (overrides : Overrides.t)
  : M unit :=
  (sm <- gets World.spawnManager ;;
   match sm with
   | None => ret tt
   | Some cfg =>
       presets <- gets World.presets ;;
       _ <- onEntity entity tt
              (fun e =>
                 (e <- resetEntity cfg presets presetIdOrOverrides overrides e ;;
                  hret (tt, e))%host) ;;
       _runCascade entity
   end)%world.

(* [spawn(presetId, overrides)] or [generate(overrides)] of the linked
   SpawnManager, the new object put on the heap *)
Definition create (cfg : Config.t) (presetIdOrOverrides : option (string + Overrides.t))
    (overrides : Overrides.t) : M (option loc) :=
  (presets <- gets World.presets ;;
   oe <- liftH
           (match presetIdOrOverrides with
            | Some (inl presetId) => SpawnManager.spawn cfg (Some presets) presetId overrides
            | Some (inr o) => (e <- SpawnManager.generate cfg o ;; hret (Some e))%host
            | None => (e <- SpawnManager.generate cfg overrides ;; hret (Some e))%host
            end) ;;
   match oe with
   | Some e => (l <- alloc e ;; ret (Some l))
   | None => ret None
   end)%world.

Definition preWarmOne (cfg : Config.t) (presetId : option string) (targetPoolId : string)
  : M unit :=
  (ol <- create cfg (match presetId with
                     | Some p => if String.eqb p "" then None else Some (inl p)
                     | None => None
                     end) Overrides.empty ;;
   match ol with
   | None => ret tt
   | Some l =>
       _ <- update l (fun e => Entity.set_poolId (Some targetPoolId)
                                 (_prepareEntityForPool e)) ;;
       _ <- updatePool targetPoolId
              (fun pool => Pool.set_entities (Pool.entities pool ++ [l]) pool) ;;
       updateStats targetPoolId
         (fun s => Stats.mk (Stats.size s) (Stats.available s) (Stats.inUse s)
                     (Stats.totalAcquired s) (Stats.totalReleased s)
                     (Stats.totalCreated s + 1))
   end)%world.

Definition preWarmPool (count : Z) (presetId poolId : option string) : M unit :=
  (let targetPoolId := JS.orStr poolId defaultPoolId in
   op <- getPool targetPoolId ;;
   sm <- gets World.spawnManager ;;
   match op, sm with
   | Some pool, Some cfg =>
       let toCreate :=
         Z.min count (PoolConfig.maxSize (Pool.config pool)
                      - Z.of_nat (length (Pool.entities pool))) in
       _ <- forEach (repeat tt (Z.to_nat toCreate))
              (fun _ => preWarmOne cfg presetId targetPoolId) ;;
       _ <- updatePool targetPoolId
              (fun pool =>
                 let n := Z.of_nat (length (Pool.entities pool)) in
                 let s := Pool.stats pool in
                 Pool.set_stats
                   (Stats.mk n n (Stats.inUse s) (Stats.totalAcquired s)
                      (Stats.totalReleased s) (Stats.totalCreated s)) pool) ;;
       syncLegacy targetPoolId
         (fun s legacy =>
            Stats.mk (Stats.size s) (Stats.available s) (Stats.inUse legacy)
              (Stats.totalAcquired legacy) (Stats.totalReleased legacy)
              (Stats.totalCreated s))
   | _, _ => ret tt
   end)%world.

Definition createPool (poolId : string) (options : PoolOptions.t) : M unit :=
  (has <- gets (fun w => JS.has poolId (World.pools w)) ;;
   if has then ret tt
   else
     let pool :=
       Pool.mk poolId (JS.orStr (PoolOptions.name options) poolId)
         (PoolConfig.mk
            (JS.nullish (PoolOptions.maxSize options) 100)
            (JS.nullish (PoolOptions.preWarm options) 0)
            (PoolOptions.preWarmPreset options)
            (JS.nullish (PoolOptions.shrinkThreshold options) 0.5%float)
            (JS.nullish (PoolOptions.shrinkDelay options) 30000))
         Stats.zero [] (PoolOptions.rules options) false in
     _ <- modify (fun w => World.set_pools (JS.set poolId pool (World.pools w)) w) ;;
     _ <- emit "poolCreated" [("poolId", poolId)] ;;
     if Z.gtb (PoolConfig.preWarm (Pool.config pool)) 0 then
       preWarmPool (PoolConfig.preWarm (Pool.config pool))
         (PoolConfig.preWarmPreset (Pool.config pool)) (Some poolId)
     else ret tt)%world.

Definition getPoolStats (poolId : option string) : M Stats.t :=
  (op <- getPool (JS.orStr poolId defaultPoolId) ;;
   match op with
   | None => ret Stats.zero
   | Some pool =>
       let n := Z.of_nat (length (Pool.entities pool)) in
       let s := Pool.stats pool in
       ret (Stats.mk n n (Stats.inUse s) (Stats.totalAcquired s)
              (Stats.totalReleased s) (Stats.totalCreated s))
   end)%world.

(* the second [acquire] of the class, the one in force; the pool chosen
   before the entity exists is [targetPoolId] or the default pool *)
Definition acquire (presetIdOrOverrides : option (string + Overrides.t))
    (overrides : Overrides.t) (targetPoolId : option string)
  : M (Outcome (option loc)) :=
  (let explicit := JS.truthyStr targetPoolId in
   let poolId := if explicit then SpawnManager.keyOf targetPoolId else defaultPoolId in
   known <- gets (fun w => JS.has poolId (World.pools w)) ;;
   let poolId := if known then poolId else defaultPoolId in
   let actualPoolId := poolId in
   oactual <- getPool actualPoolId ;;
   sm <- gets World.spawnManager ;;
   match oactual with
   | None => ret (Thrown "TypeError")
   | Some actualPool =>
       r <- match JS.pop (Pool.entities actualPool) with
            | (Some entity, rest) =>
                _ <- updatePool actualPoolId (Pool.set_entities rest) ;;
                _ <- _resetEntityForReuse entity presetIdOrOverrides overrides ;;
                _ <- updateStats actualPoolId
                       (fun s => Stats.mk (Stats.size s) (Stats.available s - 1)
                                   (Stats.inUse s) (Stats.totalAcquired s)
                                   (Stats.totalReleased s) (Stats.totalCreated s)) ;;
                ret (Returned (Some entity, true))
            | (None, _) =>
                match sm with
                | None =>
                    ret (Thrown
                           "EntityManager requires a linked SpawnManager for acquire()")
                | Some cfg =>
                    ol <- create cfg presetIdOrOverrides overrides ;;
                    _ <- updateStats actualPoolId
                           (fun s => Stats.mk (Stats.size s) (Stats.available s)
                                       (Stats.inUse s) (Stats.totalAcquired s)
                                       (Stats.totalReleased s) (Stats.totalCreated s + 1)) ;;
                    ret (Returned (ol, false))
                end
            end ;;
       match r with
       | Thrown err => ret (Thrown err)
       | Returned (None, _) => ret (Returned None)
       | Returned (Some entity, fromPool) =>
           oe <- deref entity ;;
           pools <- gets World.pools ;;
           let poolId :=
             match oe with
             | Some e => if explicit then poolId else getPoolForEntity pools e
             | None => poolId
             end in
           _ <- update entity (Entity.set_poolId (Some poolId)) ;;
           _ <- store entity ;;
           _ <- activate (inr entity) ;;
           _ <- updateStats actualPoolId
                  (fun s => Stats.mk (Stats.size s) (Stats.available s) (Stats.inUse s + 1)
                              (Stats.totalAcquired s + 1) (Stats.totalReleased s)
                              (Stats.totalCreated s)) ;;
           _ <- (if String.eqb poolId defaultPoolId then
                   modify (fun w =>
                             match JS.get actualPoolId (World.pools w) with
                             | Some pool =>
                                 let s := Pool.stats pool in
                                 let legacy := World.poolStats w in
                                 World.set_poolStats
                                   (Stats.mk (Stats.size legacy) (Stats.available legacy)
                                      (Stats.inUse s) (Stats.totalAcquired s)
                                      (Stats.totalReleased legacy) (Stats.totalCreated s)) w
                             | None => w
                             end)
                 else ret tt) ;;
           id <- gets (fun w => match World.heap w !! entity with
                                | Some e => Entity.id e | None => "" end) ;;
           _ <- emit "entityAcquired"
                  [("entityId", id); ("fromPool", showBool fromPool); ("poolId", poolId)] ;;
           ret (Returned (Some entity))
       end
   end)%world.

(* the second [release] of the class, the one in force. The default pool
   is made by the constructor; in a state without it and without the named
   pool, [pool.stats] throws a TypeError where this definition gives false *)
Definition release (entityOrId : string + loc) (targetPoolId : option string) : M bool :=
  (entityId <- match entityOrId with
               | inl id => ret id
               | inr l => gets (fun w => match World.heap w !! l with
                                         | Some e => Entity.id e | None => "" end)
               end ;;
   ol <- gets (fun w => JS.get entityId (World.stored w)) ;;
   match ol with
   | None => ret false
   | Some entity =>
       oe <- deref entity ;;
       let entityPool := match oe with Some e => Entity.poolId e | None => None end in
       let poolId :=
         if JS.truthyStr targetPoolId then SpawnManager.keyOf targetPoolId
         else JS.orStr entityPool defaultPoolId in
       known <- gets (fun w => JS.has poolId (World.pools w)) ;;
       let actualPoolId := if known then poolId else defaultPoolId in
       _ <- deactivate entityId ;;
       _ <- modify (fun w => World.set_stored (JS.delete entityId (World.stored w)) w) ;;
       _ <- modify (fun w => World.set_active (JS.delete entityId (World.active w)) w) ;;
       _ <- modify (fun w => World.set_history (JS.delete entityId (World.history w)) w) ;;
       _ <- removeFromAllGroups entityId ;;
       _ <- updateStats actualPoolId
              (fun s => Stats.mk (Stats.size s) (Stats.available s)
                          (Z.max 0 (Stats.inUse s - 1)) (Stats.totalAcquired s)
                          (Stats.totalReleased s + 1) (Stats.totalCreated s)) ;;
       _ <- (if String.eqb poolId defaultPoolId then
               syncLegacy actualPoolId
                 (fun s legacy =>
                    Stats.mk (Stats.size legacy) (Stats.available legacy) (Stats.inUse s)
                      (Stats.totalAcquired legacy) (Stats.totalReleased s)
                      (Stats.totalCreated legacy))
             else ret tt) ;;
       opool <- getPool actualPoolId ;;
       match opool with
       | None => ret false
       | Some pool =>
           if Z.ltb (Z.of_nat (length (Pool.entities pool)))
                (PoolConfig.maxSize (Pool.config pool)) then
             (_ <- update entity (fun e => Entity.set_poolId (Some poolId)
                                             (_prepareEntityForPool e)) ;;
              _ <- updatePool actualPoolId
                     (fun pool =>
                        let entities := Pool.entities pool ++ [entity] in
                        let s := Pool.stats pool in
                        Pool.set_stats
                          (Stats.mk (Z.of_nat (length entities)) (Stats.available s + 1)
                             (Stats.inUse s) (Stats.totalAcquired s)
                             (Stats.totalReleased s) (Stats.totalCreated s))
                          (Pool.set_entities entities pool)) ;;
              _ <- (if String.eqb poolId defaultPoolId then
                      syncLegacy actualPoolId
                        (fun s legacy =>
                           Stats.mk (Stats.size s) (Stats.available s) (Stats.inUse legacy)
                             (Stats.totalAcquired legacy) (Stats.totalReleased legacy)
                             (Stats.totalCreated legacy))
                    else ret tt) ;;
              _ <- emit "entityReleased"
                     [("entityId", entityId); ("toPool", "true"); ("poolId", poolId)] ;;
              _ <- _scheduleShrinkCheckForPool poolId ;;
              ret true)
           else
             (_ <- emit "entityReleased"
                     [("entityId", entityId); ("toPool", "false"); ("poolId", poolId)] ;;
              ret false)
       end
   end)%world.

(** Groups: the rest of the interface. *)

(* [createGroup(groupId)] with no metadata, as [addToGroup] calls it *)
Definition createGroup (groupId : string) : M unit :=
  (has <- gets (fun w => JS.has groupId (World.groups w)) ;;
   if has then ret tt
   else
     (_ <- modify (fun w => World.set_groups (JS.set groupId [] (World.groups w)) w) ;;
      emit "groupCreated" [("groupId", groupId)]))%world.

Definition removeFromGroup (groupId entityId : string) : M unit :=
  (og <- gets (fun w => JS.get groupId (World.groups w)) ;;
   match og with
   | Some members =>
       _ <- modify (fun w =>
                      World.set_groups
                        (JS.set groupId
                           (List.filter (fun x => negb (String.eqb x entityId)) members)
                           (World.groups w)) w) ;;
       emit "removedFromGroup" [("groupId", groupId); ("entityId", entityId)]
   | None => ret tt
   end)%world.

(* the members that are still stored or active, as objects *)
Definition getGroup (groupId : string) : M (list loc) :=
  gets (fun w =>
          match JS.get groupId (World.groups w) with
          | None => []
          | Some members =>
              flat_map
                (fun id =>
                   match JS.get id (World.stored w) with
                   | Some l => [l]
                   | None =>
                       match JS.get id (World.active w) with
                       | Some l => [l]
                       | None => []
                       end
                   end)
                members
          end).

Definition deleteGroup (groupId : string) : M bool :=
  (existed <- gets (fun w => JS.has groupId (World.groups w)) ;;
   _ <- modify (fun w => World.set_groups (JS.delete groupId (World.groups w)) w) ;;
   if existed then (_ <- emit "groupDeleted" [("groupId", groupId)] ;; ret true)
   else ret false)%world.

(** Pools: the rest of the interface. *)

(* the condition of the timer callback's check: the pool is used below its
   threshold and holds more than 10 entities *)
Definition shrinks (pool : Pool.t) : bool :=
  let n := Z.of_nat (length (Pool.entities pool)) in
  let inUse := Stats.inUse (Pool.stats pool) in
  let usage := (JS.Z2F inUse / JS.Z2F (inUse + n))%float in
  PrimFloat.ltb usage (PoolConfig.shrinkThreshold (Pool.config pool)) && Z.gtb n 10.

(* such a pool is cut to half its size, and not below 10 *)
Definition _checkPoolShrink (poolId : string) : M unit :=
  (op <- getPool poolId ;;
   match op with
   | None => ret tt
   | Some pool =>
       if shrinks pool then
         (_ <- updatePool poolId
                 (fun pool =>
                    let n := Z.of_nat (length (Pool.entities pool)) in
                    let targetSize := Z.max 10 (n / 2) in
                    let entities := firstn (Z.to_nat targetSize) (Pool.entities pool) in
                    let m := Z.of_nat (length entities) in
                    let s := Pool.stats pool in
                    Pool.set_stats
                      (Stats.mk m m (Stats.inUse s) (Stats.totalAcquired s)
                         (Stats.totalReleased s) (Stats.totalCreated s))
                      (Pool.set_entities entities pool)) ;;
          syncLegacy poolId
            (fun s legacy =>
               Stats.mk (Stats.size s) (Stats.available s) (Stats.inUse legacy)
                 (Stats.totalAcquired legacy) (Stats.totalReleased legacy)
                 (Stats.totalCreated legacy)))
       else ret tt
   end)%world.

(* the body of [removePool]'s loop: a pooled entity goes to the default
   pool while that pool has room *)
Definition moveToDefault (entity : loc) : M unit :=
  (od <- getPool defaultPoolId ;;
   match od with
   | None => ret tt
   | Some defaultPool =>
       if Z.ltb (Z.of_nat (length (Pool.entities defaultPool)))
            (PoolConfig.maxSize (Pool.config defaultPool)) then
         (_ <- update entity (Entity.set_poolId (Some defaultPoolId)) ;;
          updatePool defaultPoolId
            (fun pool =>
               let s := Pool.stats pool in
               Pool.set_stats
                 (Stats.mk (Stats.size s + 1) (Stats.available s + 1) (Stats.inUse s)
                    (Stats.totalAcquired s) (Stats.totalReleased s) (Stats.totalCreated s))
                 (Pool.set_entities (Pool.entities pool ++ [entity]) pool)))
       else ret tt
   end)%world.

(* without a default pool the method reads a property of [undefined]: in
   the loop if the pool holds an entity, else after the pool is deleted *)
Definition removePool (poolId : string) : M (Outcome bool) :=
  if String.eqb poolId defaultPoolId then ret (Returned false)
  else
    (op <- getPool poolId ;;
     match op with
     | None => ret (Returned false)
     | Some pool =>
         od <- getPool defaultPoolId ;;
         match od, Pool.entities pool with
         | None, _ :: _ => ret (Thrown "TypeError: Cannot read properties of undefined")
         | _, _ =>
             _ <- forEach (Pool.entities pool) moveToDefault ;;
             _ <- modify (fun w => World.set_pools (JS.delete poolId (World.pools w)) w) ;;
             _ <- emit "poolRemoved" [("poolId", poolId)] ;;
             od <- getPool defaultPoolId ;;
             match od with
             | None => ret (Thrown "TypeError: Cannot read properties of undefined")
             | Some defaultPool =>
                 _ <- modify (fun w =>
                                let s := Pool.stats defaultPool in
                                let legacy := World.poolStats w in
                                World.set_poolStats
                                  (Stats.mk (Stats.size s) (Stats.available s)
                                     (Stats.inUse legacy) (Stats.totalAcquired legacy)
                                     (Stats.totalReleased legacy)
                                     (Stats.totalCreated legacy)) w) ;;
                 ret (Returned true)
             end
         end
     end)%world.

(* the second [clearPool] of the class, the one in force *)
Definition clearPool (poolId : option string) : M unit :=
  (let targetPoolId := JS.orStr poolId defaultPoolId in
   _ <- updatePool targetPoolId
          (fun pool =>
             let s := Pool.stats pool in
             Pool.set_shrinkTimeout false
               (Pool.set_stats
                  (Stats.mk 0 0 (Stats.inUse s) (Stats.totalAcquired s)
                     (Stats.totalReleased s) (Stats.totalCreated s))
                  (Pool.set_entities [] pool))) ;;
   syncLegacy targetPoolId
     (fun _ legacy =>
        Stats.mk 0 0 (Stats.inUse legacy) (Stats.totalAcquired legacy)
          (Stats.totalReleased legacy) (Stats.totalCreated legacy)))%world.

Definition moveToPool (entityOrId : string + loc) (targetPoolId : string) : M bool :=
  (entityId <- match entityOrId with
               | inl id => ret id
               | inr l => gets (fun w => match World.heap w !! l with
                                         | Some e => Entity.id e | None => "" end)
               end ;;
   ol <- gets (fun w => JS.get entityId (World.stored w)) ;;
   match ol with
   | None => ret false
   | Some entity =>
       known <- gets (fun w => JS.has targetPoolId (World.pools w)) ;;
       if negb known then ret false
       else
         oe <- deref entity ;;
         let fromPoolId :=
           JS.orStr (match oe with Some e => Entity.poolId e | None => None end)
             defaultPoolId in
         if String.eqb fromPoolId targetPoolId then ret true
         else
           (_ <- updateStats fromPoolId
                   (fun s => Stats.mk (Stats.size s) (Stats.available s)
                               (Z.max 0 (Stats.inUse s - 1)) (Stats.totalAcquired s)
                               (Stats.totalReleased s) (Stats.totalCreated s)) ;;
            _ <- updateStats targetPoolId
                   (fun s => Stats.mk (Stats.size s) (Stats.available s)
                               (Stats.inUse s + 1) (Stats.totalAcquired s)
                               (Stats.totalReleased s) (Stats.totalCreated s)) ;;
            _ <- update entity (Entity.set_poolId (Some targetPoolId)) ;;
            _ <- emit "entityMovedPool"
                   [("entityId", entityId); ("fromPool", fromPoolId);
                    ("toPool", targetPoolId)] ;;
            ret true)
   end)%world.

Definition setPoolRules (poolId : string) (rules : option PoolRules.t) : M unit :=
  (known <- gets (fun w => JS.has poolId (World.pools w)) ;;
   if known then
     (_ <- updatePool poolId
             (fun pool =>
                Pool.mk (Pool.id pool) (Pool.name pool) (Pool.config pool) (Pool.stats pool)
                  (Pool.entities pool) rules (Pool.shrinkTimeout pool)) ;;
      emit "poolRulesUpdated" [("poolId", poolId)])
   else ret tt)%world.

(** The methods of the class. *)

Definition methods : list string :=
  ["linkSpawnManager"; "registerPreset"; "registerPresets"; "getPreset"; "listPresets";
   "getPresetsByTaxonomy"; "removePreset"; "registerPresetGroup"; "getPresetGroup";
   "listPresetGroups"; "listPresetsByGroup"; "removePresetGroup"; "createGroup";
   "addToGroup"; "removeFromGroup"; "getGroup"; "getGroupInfo"; "listGroups";
   "deleteGroup"; "store"; "retrieve"; "remove"; "getAllStored"; "activate";
   "deactivate"; "getActive"; "getAllActive"; "isActive"; "setSpawnContext";
   "getSpawnContext"; "clearSpawnContext"; "snapshot"; "getHistory"; "rollback"; "tick";
   "tickAll"; "startAutoTick"; "stopAutoTick"; "modifyVariable"; "setVariable";
   "applyModifier"; "removeModifier"; "activateTrait"; "deactivateTrait"; "_runCascade";
   "checkThresholds"; "evaluateThreshold"; "getNodeValue"; "evaluateModifierTrigger";
   "evaluateConditionsWithConnectors"; "evaluateRemoveConditions";
   "evaluateConditionOrGroup"; "evaluateSingleCondition"; "isNodeActive";
   "checkModifierThresholds"; "buildExclusiveGroups"; "resolveExclusiveGroups";
   "getMostSpecificModifier"; "query"; "matchesWhere"; "getNestedValue"; "compareValues";
   "getState"; "configurePool"; "acquire"; "release"; "preWarmPool"; "clearPool";
   "getPoolStats"; "_resetEntityForReuse"; "_prepareEntityForPool";
   "_scheduleShrinkCheck"; "_checkPoolShrink"; "_scheduleShrinkCheckForPool";
   "createPool"; "getPool"; "listPools"; "removePool"; "moveToPool"; "getAllPoolStats";
   "setPoolRules"; "getPoolForEntity"; "_evaluatePoolRules"; "_evaluatePoolCondition";
   "_matchPattern"; "_evaluateOperator"; "export"; "import"; "on"; "off"; "emit"].

Definition getActive (entityId : string) : M (option loc) :=
  gets (fun w => JS.get entityId (World.active w)).

(* [this.entityManager[name](entityId)] for the methods that look an
   entity up by id; a name the class does not define is [undefined], and
   calling it throws *)
Definition lookupMethod (name : string) : option (string -> M (option loc)) :=
  if negb (JS.includes name methods) then None
  else if String.eqb name "retrieve" then Some retrieve
  else if String.eqb name "getActive" then Some getActive
  else None.

End EntityManager.

(** ** SpawnEngine: the facade *)

Module SpawnEngine.

Definition typeError (what : string) : string :=
  String.append "TypeError: " (String.append what " is not a function").

(* what calling the undefined [this.entityManager.getEntity] throws *)
Definition noGetEntity {A : Type} : Outcome A :=
  Thrown (typeError "this.entityManager.getEntity").

(* [this.spawnManager.config]; the facade always owns a SpawnManager, with
   no node before a configuration is loaded *)
Definition config : M Config.t :=
  gets (fun w => JS.nullish (World.spawnManager w) (Config.mk "unnamed-config" [] [])).

Definition getEntity (entityId : string) : M (option loc) :=
  (own <- gets (fun w => JS.get entityId (World.entities w)) ;;
   match own with
   | Some l => ret (Some l)
   | None => EntityManager.retrieve entityId
   end)%world.

Definition register (entity : loc) : M unit :=
  (oe <- deref entity ;;
   match oe with
   | None => ret tt
   | Some e =>
       _ <- modify (fun w =>
                      World.set_entities (JS.set (Entity.id e) entity (World.entities w)) w) ;;
       _ <- EntityManager.store entity ;;
       ret tt
   end)%world.

Definition spawn (presetIdOrOverrides : option (string + Overrides.t))
    (overrides : Overrides.t) : M (option loc) :=
  (cfg <- config ;;
   presets <- gets World.presets ;;
   e <- liftH
          (match presetIdOrOverrides with
           | None => SpawnManager.generate cfg Overrides.empty
           | Some (inl presetId) =>
               (oe <- SpawnManager.spawn cfg (Some presets) presetId overrides ;;
                match oe with
                | Some e => hret e
                | None => SpawnManager.generate cfg overrides
                end)%host
           | Some (inr o) => SpawnManager.generate cfg o
           end) ;;
   l <- alloc e ;;
   _ <- register l ;;
   _ <- EntityManager.activate (inr l) ;;
   ret (Some l))%world.

Definition generate (overrides : Overrides.t) : M (option loc) :=
  (cfg <- config ;;
   e <- liftH (SpawnManager.generate cfg overrides) ;;
   l <- alloc e ;;
   _ <- register l ;;
   ret (Some l))%world.

Definition despawn (entityId : string) : M bool :=
  (_ <- modify (fun w => World.set_entities (JS.delete entityId (World.entities w)) w) ;;
   EntityManager.remove entityId)%world.

(* [typeof entity === 'string' ? this.getEntity(entity) : entity] *)
Definition resolve (entityOrId : string + loc) : M (option loc) :=
  match entityOrId with
  | inl id => getEntity id
  | inr l => ret (Some l)
  end.

Definition idOf (l : loc) : M string :=
  gets (fun w => match World.heap w !! l with Some e => Entity.id e | None => "" end).

Definition tick (entityOrId : string + loc) (deltaSeconds : option Z) : M (option loc) :=
  (ol <- resolve entityOrId ;;
   match ol with
   | None => ret None
   | Some entity =>
       id <- idOf entity ;;
       isActive <- gets (fun w => JS.has id (World.active w)) ;;
       _ <- (if isActive then ret tt
             else (_ <- EntityManager.activate (inr entity) ;; ret tt)) ;;
       EntityManager.tick id deltaSeconds
   end)%world.

Definition withEntityId (entityOrId : string + loc) (k : string -> M bool) : M bool :=
  (ol <- resolve entityOrId ;;
   match ol with
   | None => ret false
   | Some entityObj => (id <- idOf entityObj ;; k id)
   end)%world.

Definition modifyVariable (entity : string + loc) (varId : string) (delta : Z) : M bool :=
  withEntityId entity (fun id => EntityManager.modifyVariable id varId delta).

Definition setVariable (entity : string + loc) (varId : string) (value : Z) : M bool :=
  withEntityId entity (fun id => EntityManager.setVariable id varId value).

Definition applyModifier (entity : string + loc) (modifierId : string) : M bool :=
  withEntityId entity
    (fun id =>
       (cfg <- config ;;
        EntityManager.applyModifier id modifierId
          (EntityManager.ApplyConfig.ofNode (SpawnManager.getNode cfg modifierId)))%world).

Definition removeModifier (entity : string + loc) (modifierId : string) : M bool :=
  withEntityId entity (fun id => EntityManager.removeModifier id modifierId).

Definition activateTrait (entity : string + loc) (traitId : string) : M bool :=
  withEntityId entity (fun id => EntityManager.activateTrait id traitId).

Definition deactivateTrait (entity : string + loc) (traitId : string) : M bool :=
  withEntityId entity (fun id => EntityManager.deactivateTrait id traitId).

(** The action and roll methods resolve an id through the EntityManager:
    [typeof entityOrId === 'string' ? this.entityManager.getEntity(entityOrId)
    : entityOrId]. *)

Definition resolveViaManager (entityOrId : string + loc) : M (Outcome (option loc)) :=
  match entityOrId with
  | inl id =>
      match EntityManager.lookupMethod "getEntity" with
      | Some method => (l <- method id ;; ret (Returned l))%world
      | None => ret noGetEntity
      end
  | inr l => ret (Returned (Some l))
  end.

(* the SpawnManager method applied to the resolved entity; a [null]
   entity is read by the method, which is modelled as a throw *)
Definition onResolved {A : Type} (entityOrId : string + loc)
    (k : Config.t -> Entity.t -> H (A * Entity.t)) : M (Outcome A) :=
  (r <- resolveViaManager entityOrId ;;
   match r with
   | Thrown err => ret (Thrown err)
   | Returned None => ret (Thrown "TypeError: Cannot read properties of null")
   | Returned (Some l) =>
       cfg <- config ;;
       oe <- deref l ;;
       match oe with
       | None => ret (Thrown "TypeError: Cannot read properties of null")
       | Some e =>
           res <- liftH (k cfg e) ;;
           _ <- update l (fun _ => snd res) ;;
           ret (Returned (fst res))
       end
   end)%world.

Definition isActionAvailable (entityOrId : string + loc) (actionId : string)
  : M (Outcome bool) :=
  onResolved entityOrId
    (fun cfg e => hret (SpawnManager.isActionAvailable cfg e actionId, e)).

Definition getAvailableActions (entityOrId : string + loc)
  : M (Outcome (list (string * Z))) :=
  (presets <- gets World.presets ;;
   onResolved entityOrId
     (fun cfg e => hret (SpawnManager.getAvailableActions cfg (Some presets) e, e)))%world.

Definition selectAction (entityOrId : string + loc) : M (Outcome (option (string * Z))) :=
  (presets <- gets World.presets ;;
   onResolved entityOrId
     (fun cfg e =>
        (a <- SpawnManager.selectAction cfg (Some presets) e ;; hret (a, e))%host))%world.

Definition executeAction (entityOrId : string + loc) (actionId : string)
  : M (Outcome bool) :=
  onResolved entityOrId
    (fun cfg e =>
       (now <- Date_now ;; hret (SpawnManager.executeAction cfg now e actionId))%host).

Definition getActionCooldown (entityOrId : string + loc) (actionId : string)
  : M (Outcome (Z * Z * bool)) :=
  onResolved entityOrId
    (fun cfg e => hret (SpawnManager.getActionCooldown cfg e actionId, e)).

Definition rollOutcome (entityOrId : string + loc) (layerId : string) (rolls : Z)
  : M (Outcome SpawnManager.OutcomeResult.t) :=
  onResolved entityOrId (fun cfg e => SpawnManager.rollOutcome cfg e layerId rolls).

Definition rollLayer (entityOrId : string + loc) (layerId : string)
  : M (Outcome SpawnManager.RollResult.t) :=
  onResolved entityOrId (fun cfg e => SpawnManager.rollLayer cfg e layerId).

(* the facade passes two arguments on: no target pool *)
Definition acquire (presetIdOrOverrides : option (string + Overrides.t))
    (overrides : Overrides.t) : M (Outcome (option loc)) :=
  (r <- EntityManager.acquire presetIdOrOverrides overrides None ;;
   match r with
   | Returned (Some entity) =>
       id <- idOf entity ;;
       _ <- modify (fun w =>
                      World.set_entities (JS.set id entity (World.entities w)) w) ;;
       ret r
   | _ => ret r
   end)%world.

Definition release (entityOrId : string + loc) : M bool :=
  (entityId <- match entityOrId with
               | inl id => ret id
               | inr l => idOf l
               end ;;
   _ <- modify (fun w => World.set_entities (JS.delete entityId (World.entities w)) w) ;;
   EntityManager.release entityOrId None)%world.

(* the state made by [new SpawnEngine(config)], before any preset is
   registered *)
Definition new (cfg : Config.t) (host : Host.t) : World.t :=
  World.mk host [] (Some cfg) [] [] [] [] [] 50 None false false None
    [(EntityManager.defaultPoolId, EntityManager.defaultPool)] Stats.zero [] [].

End SpawnEngine.

(** ** CSVImporter: the line parser *)

Module CSVImporter.

(* the double quote *)
Definition quote : ascii := "034"%char.

(* the loop of [parseLine] over the rest of the line; [values], [current]
   and [inQuotes] are its variables, and a doubled quote inside quotes
   consumes two characters *)
Fixpoint scan (delimiter : string) (line : string) (values : list string)
    (current : string) (inQuotes : bool) : list string :=
  match line with
  | EmptyString => values ++ [current]
  | String char rest =>
      if Ascii.eqb char quote then
        match inQuotes, rest with
        | true, String next rest' =>
            if Ascii.eqb next quote then
              scan delimiter rest' values (String.append current (String quote "")) true
            else scan delimiter rest values current (negb inQuotes)
        | _, _ => scan delimiter rest values current (negb inQuotes)
        end
      else if String.eqb (String char "") delimiter && negb inQuotes then
        scan delimiter rest (values ++ [current]) "" inQuotes
      else scan delimiter rest values (String.append current (String char "")) inQuotes
  end.

Definition parseLine (line delimiter : string) : list string :=
  scan delimiter line [] "" false.

End CSVImporter.

(** * Scenarios: configurations and states used in examples *)

Module Scenario.

Definition node (id : string) (c : NodeConfig) : Node.t := Node.mk id id None c.

Definition variable (id : string) (initial baseRate min max : option Z) : Node.t :=
  node id (Variable_ (VariableCfg.mk initial baseRate min max None None)).

Definition withId (id : string) : Overrides.t :=
  Overrides.mk (Some id) None None None None None.

Definition host0 : Host.t := Host.mk 1000 [] [].

Definition run {A : Type} (m : M A) (w : World.t) : World.t := snd (m w).

Definition entityAt (l : loc) (w : World.t) : option Entity.t := World.heap w !! l.

(** An action that costs stamina. *)

Definition cfgActions : Config.t :=
  Config.mk "actions"
    [ variable "stamina" (Some 10) None (Some 0) (Some 10);
      node "strike" (Action (ActionCfg.mk None (Some 2) [("stamina", 3)] [] [] None)) ]
    [].

Definition wActions : World.t :=
  run (SpawnEngine.generate (withId "hero")) (SpawnEngine.new cfgActions host0).

(** S4: a trait of base weight 16 in a layer with diminishing returns,
    two active traits that each add 9 to its weight. *)

Definition layer (id : string) (diminishingReturns : bool) (traitIds : list string)
  : Node.t :=
  node id (Layer (LayerCfg.mk None None None None None diminishingReturns None
                    (Some "manual") (Some traitIds) None)).

Definition trait (id layerId : string) (baseWeight : option Z)
    (incompatibleWith : list string) : Node.t :=
  node id (Trait (TraitCfg.mk (Some layerId) baseWeight None [] None None []
                    incompatibleWith [])).

Definition influence (sourceId targetId type operation : string) (value : Z)
  : Relationship.t :=
  Relationship.mk (String.append "rel_" (String.append sourceId (String.append "_" targetId)))
    sourceId targetId type operation value "flat" None false [].

Definition cfgS4 : Config.t :=
  Config.mk "s4"
    [ layer "background" false ["veteran"; "armed"];
      layer "class" true ["warrior"];
      trait "veteran" "background" None [];
      trait "armed" "background" None [];
      trait "warrior" "class" (Some 16) [] ]
    [ influence "veteran" "warrior" "weight_influence" "add" 9;
      influence "armed" "warrior" "weight_influence" "add" 9 ].

Definition warrior : Node.t := trait "warrior" "class" (Some 16) [].

(* the same trait among influences of several kinds: an addition of 9, a
   doubling, and an addition of 25 whose source is not active *)
Definition cfgS4Mixed : Config.t :=
  Config.mk "s4-mixed"
    [ layer "background" false ["veteran"; "armed"; "cursed"];
      layer "class" true ["warrior"];
      trait "veteran" "background" None [];
      trait "armed" "background" None [];
      trait "cursed" "background" None [];
      trait "warrior" "class" (Some 16) [] ]
    [ influence "veteran" "warrior" "weight_influence" "add" 9;
      influence "armed" "warrior" "weight_influence" "multiply" 2;
      influence "cursed" "warrior" "weight_influence" "add" 25 ].

Definition eS4Mixed : Entity.t :=
  let e := fst (SpawnManager.generate cfgS4Mixed (withId "s4") host0) in
  snd (SpawnManager.forceActivateTrait cfgS4Mixed
         (snd (SpawnManager.forceActivateTrait cfgS4Mixed e "veteran")) "armed").

(* the generated entity, with both sources forced active *)
Definition eS4 : Entity.t :=
  let e := fst (SpawnManager.generate cfgS4 (withId "s4") host0) in
  snd (SpawnManager.forceActivateTrait cfgS4
         (snd (SpawnManager.forceActivateTrait cfgS4 e "veteran")) "armed").

(** A compound met at generation that speeds up a variable. *)

Definition compound (id : string) (requires : list Requirement) : Node.t :=
  node id (Compound (CompoundCfg.mk requires None)).

Definition threshold (id operator : string) (value : Z) : Requirement :=
  ReqObject (ReqObj.mk (Some id) (Some operator) (Some value) None None None None).

Definition cfgEnraged : Config.t :=
  Config.mk "enraged"
    [ variable "hp" (Some 30) None (Some 0) (Some 100);
      variable "fury" (Some 0) (Some 1) (Some 0) (Some 100);
      compound "enraged" [threshold "hp" "<=" 50];
      node "roar" (Action (ActionCfg.mk None None [] [] [] None)) ]
    [ influence "enraged" "fury" "rate_modifier" "add" 5 ].

(** A modifier that speeds a variable up, applied after a snapshot. *)

Definition manualModifier (id : string) : Node.t :=
  node id (Modifier (ModifierCfg.mk (Some "permanent") None None None None [])).

Definition cfgHaste : Config.t :=
  Config.mk "haste"
    [ variable "speed" (Some 10) (Some 2) (Some 0) (Some 100);
      manualModifier "haste" ]
    [ influence "haste" "speed" "rate_modifier" "add" 5 ].

(* generate, snapshot, apply the modifier *)
Definition wHaste : World.t :=
  run (EntityManager.applyModifier "runner" "haste" EntityManager.ApplyConfig.empty)
    (run (EntityManager.snapshot "runner")
       (run (SpawnEngine.generate (withId "runner")) (SpawnEngine.new cfgHaste host0))).

(** S5: a pool for the presets named enemy_*, two goblins acquired and
    released. *)

Definition cfgEnemies : Config.t :=
  Config.mk "enemies" [ variable "hp" (Some 30) None (Some 0) (Some 100) ] [].

Definition goblin : Preset.t := Preset.mk "enemy_goblin" "Goblin" [] [] [] None None.

Definition enemiesPool : PoolOptions.t :=
  PoolOptions.mk None (Some 4) None None None None
    (Some (PoolRules.mk
             (Some [PoolCondition.mk "preset" (Some "enemy_*") None None None]) None)).

Definition hostS5 : Host.t :=
  Host.mk 1000 [0.5; 0.25; 0.125; 0.75; 0.375; 0.625]%float [].

Definition wPool : World.t :=
  run (EntityManager.createPool "enemies" enemiesPool)
    (run (EntityManager.registerPreset "enemy_goblin" goblin)
       (SpawnEngine.new cfgEnemies hostS5)).

Definition acquireGoblin (targetPoolId : option string) : M (Outcome (option loc)) :=
  EntityManager.acquire (Some (inl "enemy_goblin")) Overrides.empty targetPoolId.

(* acquire twice, release both *)
Definition wReleased : World.t :=
  run (EntityManager.release (inr 1%nat) None)
    (run (EntityManager.release (inr 0%nat) None)
       (run (acquireGoblin None) (run (acquireGoblin None) wPool))).

Definition statsOf (poolId : string) (w : World.t) : Stats.t :=
  fst (EntityManager.getPoolStats (Some poolId) w).

Definition lastEvent (w : World.t) : option Event.t := last (map Some (World.events w)) None.

(** A compound that depends on a variable only. *)

Definition cfgWeakened : Config.t :=
  Config.mk "weakened"
    [ variable "hp" (Some 80) None (Some 0) (Some 100);
      compound "weakened" [threshold "hp" "<=" 20] ]
    [].

Definition weakened : Node.t := compound "weakened" [threshold "hp" "<=" 20].

Definition wHero : World.t :=
  run (SpawnEngine.generate (withId "hero")) (SpawnEngine.new cfgWeakened host0).

(* [setVariable('hero', 'hp', 10)] *)
Definition wHurt : World.t := run (EntityManager.setVariable "hero" "hp" 10) wHero.

(** S2: three threshold modifiers on hp, exclusive with each other. *)

Definition when (target operator : string) (value : Z) : TCond.t :=
  TCond.mk (SCond.mk (Some target) (Some operator) None value None) None.

Definition thresholdModifier (id : string) (conditions : list TCond.t)
    (exclusiveWith : list string) : Node.t :=
  node id
    (Modifier
       (ModifierCfg.mk (Some "permanent") None None None
          (Some (Trigger.mk (Some "threshold") true (Some conditions) None None None
                   None None 0))
          exclusiveWith)).

Definition cfgWounds : Config.t :=
  Config.mk "wounds"
    [ variable "hp" (Some 100) None (Some 0) (Some 100);
      thresholdModifier "lightly_wounded" [when "hp" "<=" 80] ["wounded"; "critical"];
      thresholdModifier "wounded" [when "hp" "<=" 50] ["lightly_wounded"; "critical"];
      thresholdModifier "critical" [when "hp" "<=" 20] ["lightly_wounded"; "wounded"] ]
    [].

Definition wWounds : World.t :=
  run (SpawnEngine.generate (withId "hero")) (SpawnEngine.new cfgWounds host0).

Definition setHp (value : Z) : World.t -> World.t :=
  run (EntityManager.setVariable "hero" "hp" value).

Definition modifiersAt (l : loc) (w : World.t) : option (list string) :=
  option_map Entity.modifiers (entityAt l w).

(** Two exclusive modifiers with thresholds in opposite directions: 'low'
    is declared first, 'high' declares the exclusion. *)

Definition cfgMixed : Config.t :=
  Config.mk "mixed"
    [ variable "hp" (Some 100) None (Some 0) (Some 100);
      thresholdModifier "low" [when "hp" "<=" 50] [];
      thresholdModifier "high" [when "hp" ">=" 10] ["low"] ]
    [].

Definition wMixed : World.t :=
  run (SpawnEngine.generate (withId "hero")) (SpawnEngine.new cfgMixed host0).

(* the entity of [wMixed] with hp = 30 *)
Definition eMixed : option Entity.t :=
  option_map (EntityManager.writeValue "hp" 30) (entityAt 0%nat wMixed).

(** S3: two threshold modifiers that are not exclusive, each adding to the
    rate of one variable. *)

Definition cfgBatch (baseRate delta1 delta2 : Z) : Config.t :=
  Config.mk "batch"
    [ variable "hp" (Some 40) None (Some 0) (Some 100);
      variable "energy" (Some 50) (Some baseRate) (Some 0) (Some 100);
      thresholdModifier "bleeding" [when "hp" "<=" 50] [];
      thresholdModifier "panicked" [when "hp" "<=" 60] [] ]
    [ influence "bleeding" "energy" "rate_modifier" "add" delta1;
      influence "panicked" "energy" "rate_modifier" "add" delta2 ].

(* generated with hp = 40: both thresholds hold, no pass has run yet *)
Definition wBatch (baseRate delta1 delta2 : Z) : World.t :=
  run (SpawnEngine.generate (withId "hero"))
    (SpawnEngine.new (cfgBatch baseRate delta1 delta2) host0).

(* one pass of [checkModifierThresholds(entity)] *)
Definition wBatched (baseRate delta1 delta2 : Z) : World.t :=
  run (EntityManager.checkModifierThresholds 0%nat) (wBatch baseRate delta1 delta2).

(** A variable whose default initial value is above its maximum, and an
    action with a negative cost. *)

Definition cfgCapped : Config.t :=
  Config.mk "capped" [ variable "mana" None None None (Some 50) ] [].

Definition cfgRefund : Config.t :=
  Config.mk "refund"
    [ variable "stamina" (Some 10) None (Some 0) (Some 10);
      node "rest" (Action (ActionCfg.mk None None [("stamina", -5)] [] [] None)) ]
    [].

Definition valueOf (varId : string) (e : Entity.t) : option Z :=
  option_map VarState.value (JS.get varId (Entity.variables e)).

(** Two traits that exclude each other, in one layer. *)

Definition layerOf (id : string) (mode : option string) (pickCount : option Z)
    (traitIds : list string) : Node.t :=
  node id (Layer (LayerCfg.mk None mode None None pickCount false None
                    (Some "manual") (Some traitIds) None)).

Definition optimist : Node.t := trait "optimist" "mood" None ["pessimist"].
Definition pessimist : Node.t := trait "pessimist" "mood" None ["optimist"].

Definition cfgMoods (mode : option string) (pickCount : option Z) : Config.t :=
  Config.mk "moods" [ layerOf "mood" mode pickCount ["optimist"; "pessimist"];
                      optimist; pessimist ] [].

(* 'pessimist' excludes 'optimist', 'optimist' declares nothing *)
Definition cfgOneSided : Config.t :=
  Config.mk "one-sided"
    [ layerOf "mood" None None ["optimist"; "pessimist"];
      trait "optimist" "mood" None [];
      pessimist ]
    [].

Definition hostMoods : Host.t := Host.mk 1000 [0.25; 0.25; 0.25; 0.25]%float [].

Definition eMoods (cfg : Config.t) : Entity.t :=
  fst (SpawnManager.generate cfg (withId "hero") hostMoods).

(* both traits forced by a preset *)
Definition bipolar : Preset.t :=
  Preset.mk "bipolar" "Bipolar" [] [] ["optimist"; "pessimist"] None None.

Definition moodOf (e : Entity.t) : list string := SpawnManager.layerActive e (Some "mood").

(* S-actions on the entity itself: the generated hero, and the hero after a strike *)
Definition eActions : Entity.t :=
  fst (SpawnManager.generate cfgActions (withId "hero") host0).

Definition eStruck : Entity.t :=
  snd (SpawnManager.executeAction cfgActions 1000 eActions "strike").

(* the hero of [cfgWeakened] with hp written down to 10, no check run *)
Definition eHurt : Entity.t :=
  EntityManager.writeValue "hp" 10
    (fst (SpawnManager.generate cfgWeakened (withId "hero") host0)).

(* the hero of [wHero], as generated *)
Definition eHero : Entity.t :=
  fst (SpawnManager.generate cfgWeakened (withId "hero") host0).

(** Derived values: the formulas [load * 2] and [Math.floor(100 / load)]
    of a variable that starts at 0 or at 4. *)

(* a formula of one name: arithmetic on [undefined] gives NaN, and a name
   the context lacks throws a ReferenceError *)
Definition read (id : string) (ctx : JS.Obj (option Z)) (f : Z -> JS.Num)
  : option JS.Num :=
  match JS.get id ctx with
  | Some (Some v) => Some (f v)
  | Some None => Some JS.NaN
  | None => None
  end.

Definition cfgLoad (initial : Z) : Config.t :=
  Config.mk "load"
    [ variable "load" (Some initial) None (Some 0) (Some 100);
      node "double"
        (Derived (DerivedCfg.mk (fun ctx => read "load" ctx (fun v => JS.Int (v * 2)))
                    None None));
      node "perUnit"
        (Derived (DerivedCfg.mk
                    (fun ctx => read "load" ctx
                                  (fun v => if Z.eqb v 0 then JS.PosInf else JS.Int (100 / v)))
                    None None)) ]
    [].

Definition wLoad (initial : Z) : World.t :=
  run (SpawnEngine.generate (withId "cart")) (SpawnEngine.new (cfgLoad initial) host0).

Definition eLoad (initial : Z) : Entity.t :=
  fst (SpawnManager.generate (cfgLoad initial) (withId "cart") host0).

(** A timed variable: hunger grows by 3 a second. *)

Definition cfgHunger : Config.t :=
  Config.mk "hunger"
    [ node "hunger"
        (Variable_ (VariableCfg.mk (Some 95) (Some 3) (Some 0) (Some 100) (Some "timed")
                      (Some "up"))) ]
    [].

Definition wHungry : World.t :=
  run (EntityManager.activate (inl "pet"))
    (run (SpawnEngine.generate (withId "pet")) (SpawnEngine.new cfgHunger host0)).

Definition eHungry : Entity.t :=
  Entity.set_lastTick 1000 (fst (SpawnManager.generate cfgHunger (withId "pet") host0)).

(** Stages of life: becoming an adult replaces being a child. *)

Definition cfgStages : Config.t :=
  Config.mk "stages"
    [ layerOf "stage" None None ["child"; "adult"];
      trait "child" "stage" None [];
      node "adult" (Trait (TraitCfg.mk (Some "stage") None None [] None None ["child"]
                             [] [])) ]
    [].

Definition eChild : Entity.t :=
  snd (SpawnManager.activateTrait cfgStages 1000
         (fst (SpawnManager.generate cfgStages (withId "hero") host0)) "child").

(** A threshold trait: starving from hunger 80 on, until hunger falls below 50. *)

Definition starving : Node.t :=
  node "starving"
    (Trait (TraitCfg.mk (Some "mood") None (Some "threshold") []
              (Some (Threshold.mk (Some "hunger") (Some ">=") None 80))
              (Some (Threshold.mk (Some "hunger") (Some "<") None 50))
              [] [] [])).

Definition cfgStarving : Config.t :=
  Config.mk "starving"
    [ variable "hunger" (Some 95) None (Some 0) (Some 100);
      layerOf "mood" None None ["starving"];
      starving ]
    [].

Definition wStarving : World.t :=
  run (EntityManager.activate (inl "pet"))
    (run (SpawnEngine.generate (withId "pet")) (SpawnEngine.new cfgStarving host0)).

Definition eStarving : Entity.t :=
  Entity.set_lastTick 1000 (fst (SpawnManager.generate cfgStarving (withId "pet") host0)).

End Scenario.

(** * Notions used in the statements *)

(** Diminishing returns. *)

(* the spec's dampened effect of an additive influence [delta] *)
Definition dampened (baseWeight delta : float) : float :=
  (JS.Math_sign delta * PrimFloat.sqrt (PrimFloat.abs delta) * PrimFloat.sqrt baseWeight)%float.

(* the weight_influence relationships that target a trait *)
Definition influencesOf (cfg : Config.t) (trait : Node.t) : list Relationship.t :=
  List.filter (fun r => String.eqb (Relationship.type r) "weight_influence")
    (SpawnManager.getRelationshipsTo cfg (Node.id trait)).

(* the trait's base weight and its weight after its own weightModifiers *)
Definition baseWeightOf (trait : Node.t) : float :=
  JS.Z2F (JS.nullish (match Node.trait trait with
                      | Some c => TraitCfg.baseWeight c | None => None end) 20).

Definition ownWeight (cfg : Config.t) (entity : Entity.t) (useDR : bool) (trait : Node.t)
  : float :=
  fold_left (SpawnManager.weightModifierStep cfg entity useDR (baseWeightOf trait))
    (match Node.trait trait with Some c => TraitCfg.weightModifiers c | None => [] end)
    (baseWeightOf trait).

(* an additive, flat influence whose source is active and whose conditions
   pass, of a non-zero value *)
Definition additiveActive (cfg : Config.t) (entity : Entity.t) (rel : Relationship.t) : Prop :=
  Relationship.operation rel = "add" /\
  Relationship.scaling rel = "flat" /\
  SpawnManager.isNodeActive cfg entity (Relationship.sourceId rel) = true /\
  SpawnManager.evaluateConditions cfg entity (Relationship.conditions rel) = true /\
  PrimFloat.eqb (JS.Z2F (Relationship.value rel)) 0 = false.

(** Computations of the host that leave the clock and the spy alone. *)

Definition quiet {A : Type} (m : H A) : Prop :=
  forall h, Host.now (snd (m h)) = Host.now h /\ Host.calls (snd (m h)) = Host.calls h.

(** The three cascade functions in the order [generate] runs them. *)

Definition generationCascade : list string :=
  ["checkCompounds"; "calculateDerived"; "recalculateRates"].

(* the order of [_runCascade] *)
Definition cascadeTripleCalls : list string :=
  ["recalculateRates"; "checkCompounds"; "calculateDerived"].

(** Rollback. *)

(* the value a snapshot records for variable [k], or [current] if none *)
Definition restoredValue (snapshot : JS.Obj VarState.t) (k : string) (current : Z) : Z :=
  fold_left (fun v kv => if String.eqb (fst kv) k then VarState.value (snd kv) else v)
    snapshot current.

(* the rate of variable [k] *)
Definition rateOf (k : string) (e : Entity.t) : option Z :=
  option_map VarState.currentRate (JS.get k (Entity.variables e)).

(** Specifications of runtime computations. *)

Definition hoare {A : Type} (P : World.t -> Prop) (m : M A) (Q : A -> World.t -> Prop)
  : Prop :=
  forall w, P w -> Q (fst (m w)) (snd (m w)).

(* the computation leaves the observation [f] of the state as it was *)
Definition keeps {A B : Type} (f : World.t -> B) (m : M A) : Prop :=
  forall w, f (snd (m w)) = f w.

(* observations that do not read the host, the events, or anything of the
   heap but its size *)
Class HostFree {B : Type} (f : World.t -> B) : Prop :=
  host_free : forall w h, f (World.set_host h w) = f w.
Class EventFree {B : Type} (f : World.t -> B) : Prop :=
  event_free : forall w x, f (World.set_events x w) = f w.
Class HeapShape {B : Type} (f : World.t -> B) : Prop :=
  heap_shape : forall w l x, f (World.set_heap (<[l := x]> (World.heap w)) w) = f w.
Class IndexFree {B : Type} (f : World.t -> B) : Prop :=
  index_free : forall w,
      (forall x, f (World.set_stored x w) = f w) /\
      (forall x, f (World.set_active x w) = f w) /\
      (forall x, f (World.set_groups x w) = f w) /\
      (forall x, f (World.set_history x w) = f w) /\
      (forall x, f (World.set_poolStats x w) = f w).
Class FlagFree {B : Type} (f : World.t -> B) : Prop :=
  flag_free : forall w,
      (forall x, f (World.set_batchingCascade x w) = f w) /\
      (forall x, f (World.set_cascadeDirty x w) = f w) /\
      (forall x, f (World.set_cascadeEntity x w) = f w).

Definition heapSize (w : World.t) : nat := length (World.heap w).

(** Pools. *)

Definition pooled (poolId : string) (w : World.t) : option (list loc) :=
  option_map Pool.entities (JS.get poolId (World.pools w)).

Definition createdBy (poolId : string) (w : World.t) : option Z :=
  option_map (fun pool => Stats.totalCreated (Pool.stats pool)) (JS.get poolId (World.pools w)).

(* the statements about pools read the pools and the size of the heap *)
Definition poolFramed (I : World.t -> Prop) : Prop :=
  forall w w', World.pools w' = World.pools w -> heapSize w' = heapSize w -> I w -> I w'.

(* an update of a pool's counters that leaves [totalCreated] as it is *)
Definition keepsCreated (g : Stats.t -> Stats.t) : Prop :=
  forall s, Stats.totalCreated (g s) = Stats.totalCreated s.

(* what a pop from pool [poolId] leaves: the entities [rest], the counter of
   created entities and the size of the heap as they were *)
Definition popped (poolId : string) (rest : list loc) (created : Z) (size : nat)
    (w : World.t) : Prop :=
  pooled poolId w = Some rest /\ createdBy poolId w = Some created /\ heapSize w = size.

(* what an acquire that found the default pool empty leaves: every pool
   holds the entities it held in [w0], and the default pool has counted one
   more created entity *)
Definition createdAnew (w0 : World.t) (created : Z) (w : World.t) : Prop :=
  (forall poolId, pooled poolId w = pooled poolId w0) /\
  createdBy EntityManager.defaultPoolId w = Some (created + 1).

(** Compounds. *)

(* the compound lists of the entities of the heap *)
Definition compoundsOf (w : World.t) : list (list string) :=
  map Entity.compounds (World.heap w).

(* the state a variable change without threshold traits or threshold
   modifiers keeps: the linked configuration and the compound lists *)
Definition compoundsKept (cfg : Config.t) (c : list (list string)) (w : World.t) : Prop :=
  World.spawnManager w = Some cfg /\ compoundsOf w = c.

(** The arbiter of exclusive modifiers. *)

(* the candidates with the only condition of their trigger *)
Definition singleConditions (candidates : list Node.t) : list (Node.t * SCond.t) :=
  flat_map (fun m => match EntityManager.singleCondition m with
                     | Some c => [(m, c)] | None => [] end) candidates.

(* the threshold of a candidate's only condition *)
Definition thresholdOf (c : Node.t * SCond.t) : Z := SCond.value (snd c).

(* every candidate has a trigger of one condition, all on one target, and
   all of the direction [dir] *)
Definition comparable (dir : Node.t * SCond.t -> bool) (candidates : list Node.t) : Prop :=
  candidates <> [] /\
  Forall (fun m => EntityManager.singleCondition m <> None) candidates /\
  EntityManager.sameTargets (singleConditions candidates) = true /\
  forallb dir (singleConditions candidates) = true.

(* the list's first element is one of its least by [key] *)
Definition headLeast {A : Type} (key : A -> Z) (l : list A) : Prop :=
  match l with
  | [] => True
  | m :: _ => Forall (fun y => key m <= key y) l
  end.

(** One pass of the threshold arbiter. *)

(* the events that report an applied or a removed modifier *)
Definition isModifierChange (ev : Event.t) : bool :=
  String.eqb (Event.name ev) "modifierApplied" || String.eqb (Event.name ev) "modifierRemoved".

(* what was emitted, and what the spy saw, between two states *)
Definition eventsSince (w w' : World.t) : list Event.t :=
  skipn (length (World.events w)) (World.events w').

Definition callsSince (w w' : World.t) : list string :=
  skipn (length (Host.calls (World.host w))) (Host.calls (World.host w')).

(* the state during the pass started in [w0]: the batch is open, the spy has
   seen no call, the entity is on the heap, and the batch is dirty exactly
   when a modifier change was emitted *)
Definition batching (w0 : World.t) (entity : loc) (w : World.t) : Prop :=
  World.batchingCascade w = true /\
  Host.calls (World.host w) = Host.calls (World.host w0) /\
  (entity < length (World.heap w))%nat /\
  exists evs,
    World.events w = World.events w0 ++ evs /\
    World.cascadeDirty w = existsb isModifierChange evs.

(* the same, after a modifier was changed and before its event *)
Definition batchingDirty (w0 : World.t) (entity : loc) (w : World.t) : Prop :=
  World.batchingCascade w = true /\
  Host.calls (World.host w) = Host.calls (World.host w0) /\
  (entity < length (World.heap w))%nat /\
  (exists evs, World.events w = World.events w0 ++ evs) /\
  World.cascadeDirty w = true.

(** Ranges of variables. *)

(* what a variable node declares, with the defaults [generate] applies *)
Definition varCfg (n : Node.t) : VariableCfg.t :=
  match Node.variable n with
  | Some c => c
  | None => VariableCfg.mk None None None None None None
  end.
Definition minOf (n : Node.t) : Z := JS.nullish (VariableCfg.min (varCfg n)) 0.
Definition maxOf (n : Node.t) : Z := JS.nullish (VariableCfg.max (varCfg n)) 100.
Definition initialOf (n : Node.t) : Z := JS.nullish (VariableCfg.initial (varCfg n)) 100.

(* every variable declares an initial value within its bounds *)
Definition rangedConfig (cfg : Config.t) : Prop :=
  Forall (fun n => minOf n <= initialOf n <= maxOf n) (SpawnManager.getVariables cfg).

(* no action has a negative cost *)
Definition nonNegativeCosts (cfg : Config.t) : Prop :=
  Forall
    (fun node => Forall (fun kv => 0 <= snd kv) (ActionCfg.costs (SpawnManager.actionCfg node)))
    (Config.nodes cfg).

(* the node that decides the state of variable [k]: the last of that id *)
Definition lastVariable (cfg : Config.t) (k : string) : option Node.t :=
  find (fun n => String.eqb (Node.id n) k) (rev (SpawnManager.getVariables cfg)).

Definition boundsOf (cfg : Config.t) (k : string) : option (Z * Z) :=
  option_map (fun n => (minOf n, maxOf n)) (lastVariable cfg k).

Definition inRange (vs : VarState.t) : Prop :=
  VarState.min vs <= VarState.value vs <= VarState.max vs.

(* the entity's variables carry the bounds of the configuration and hold a
   value within them *)
Definition conforms (cfg : Config.t) (e : Entity.t) : Prop :=
  List.NoDup (JS.keys (Entity.variables e)) /\
  forall k vs,
    JS.get k (Entity.variables e) = Some vs ->
    boundsOf cfg k = Some (VarState.min vs, VarState.max vs) /\ inRange vs.

(* a snapshot records values within the bounds of the configuration *)
Definition snapConforms (cfg : Config.t) (snap : Snapshot.t) : Prop :=
  Forall
    (fun kv =>
       exists lo hi,
         boundsOf cfg (fst kv) = Some (lo, hi) /\ lo <= VarState.value (snd kv) <= hi)
    (Snapshot.variables snap).

(* the invariant of the runtime: the configuration is linked, every entity
   and every snapshot conforms to it *)
Definition ranged (cfg : Config.t) (w : World.t) : Prop :=
  World.spawnManager w = Some cfg /\
  Forall (conforms cfg) (World.heap w) /\
  (forall id snaps snap,
      JS.get id (World.history w) = Some snaps -> In snap snaps -> snapConforms cfg snap).

(* value and bounds of the variables of an entity *)
Definition range (vs : VarState.t) : Z * Z * Z :=
  (VarState.value vs, VarState.min vs, VarState.max vs).
Definition ranges (e : Entity.t) : JS.Obj (Z * Z * Z) :=
  map (fun kv => (fst kv, range (snd kv))) (Entity.variables e).

(* a result of a computation of the host *)
Definition hresult {A : Type} (m : H A) (P : A -> Prop) : Prop :=
  forall h, P (fst (m h)).

(* the state [generate] gives a variable, and the one a pool reset gives *)
Definition initState (n : Node.t) : VarState.t :=
  VarState.mk (initialOf n)
    (JS.nullish (VariableCfg.baseRate (varCfg n)) 0)
    (JS.nullish (VariableCfg.baseRate (varCfg n)) 0)
    (minOf n) (maxOf n)
    (JS.orStr (VariableCfg.changeMode (varCfg n)) "manual")
    (JS.orStr (VariableCfg.direction (varCfg n)) "none").

Definition resetState (n : Node.t) : VarState.t :=
  VarState.set_value
    (match VariableCfg.initial (varCfg n) with Some v => v | None => minOf n end)
    (initState n).

(* the variables of a generated entity before anything else ran *)
Definition template (cfg : Config.t) : JS.Obj VarState.t :=
  fold_left (fun o n => JS.set (Node.id n) (initState n) o) (SpawnManager.getVariables cfg) [].

(** Incompatible traits. *)

(* whenever a trait is active on the entity, no member of its
   incompatibleWith is *)
Definition compatible (cfg : Config.t) (e : Entity.t) : Prop :=
  forall id trait,
    SpawnManager.getNode cfg id = Some trait ->
    SpawnManager.isTrait trait = true ->
    SpawnManager.isNodeActive cfg e id = true ->
    SpawnManager.hasIncompatibility cfg e trait = false.

(* traits declare their exclusions on both sides, and none excludes itself *)
Definition symmetricExclusion (cfg : Config.t) : Prop :=
  forall id trait id' trait',
    SpawnManager.getNode cfg id = Some trait -> SpawnManager.isTrait trait = true ->
    SpawnManager.getNode cfg id' = Some trait' -> SpawnManager.isTrait trait' = true ->
    In id' (SpawnManager.incompatibleWithOf trait) ->
    In id (SpawnManager.incompatibleWithOf trait').

Definition noSelfExclusion (cfg : Config.t) : Prop :=
  forall id trait,
    SpawnManager.getNode cfg id = Some trait -> SpawnManager.isTrait trait = true ->
    ~ In id (SpawnManager.incompatibleWithOf trait).

(* the selection mode [rollLayer] dispatches on *)
Definition modeOf (cfg : Config.t) (layerId : string) : string :=
  match SpawnManager.getNode cfg layerId with
  | Some layer =>
      match Node.layer layer with
      | Some selection => JS.orStr (LayerCfg.mode selection) "weighted"
      | None => "weighted"
      end
  | None => "weighted"
  end.

(* the modes that select one trait per roll *)
Definition selectsOne (mode : string) : bool :=
  negb (String.eqb mode "allMatching") && negb (String.eqb mode "pickN").

(* the entity [e'] has no active node that [e] has not, but [t] *)
Definition activatedOnly (cfg : Config.t) (t : string) (e e' : Entity.t) : Prop :=
  forall i, SpawnManager.isNodeActive cfg e' i = true ->
            i = t \/ SpawnManager.isNodeActive cfg e i = true.

(* a selection of at most one trait, not incompatible with the entity *)
Definition oneCompatible (cfg : Config.t) (e : Entity.t)
    (selected : option (list (option string))) : Prop :=
  match selected with
  | Some (t :: ts) =>
      ts = [] /\
      exists trait,
        t = Some (Node.id trait) /\
        SpawnManager.getNode cfg (Node.id trait) = Some trait /\
        SpawnManager.hasIncompatibility cfg e trait = false
  | _ => True
  end.

(** The line parser of the CSV importer. *)

(* a quoted field: wrapped in quotes, its own quotes doubled *)
Fixpoint escape (field : string) : string :=
  match field with
  | EmptyString => EmptyString
  | String c field' =>
      if Ascii.eqb c CSVImporter.quote
      then String CSVImporter.quote (String CSVImporter.quote (escape field'))
      else String c (escape field')
  end.

Definition quoted (field : string) : string :=
  String CSVImporter.quote (String.append (escape field) (String CSVImporter.quote "")).

(* a field that needs no quotes: it holds no quote and no delimiter *)
Fixpoint plain (delimiter : ascii) (field : string) : bool :=
  match field with
  | EmptyString => true
  | String c field' =>
      negb (Ascii.eqb c CSVImporter.quote) && negb (Ascii.eqb c delimiter)
      && plain delimiter field'
  end.

(* a line written from fields, each either quoted or plain and as it is *)
Inductive written (delimiter : ascii) : string -> string -> Prop :=
| written_quoted field : written delimiter field (quoted field)
| written_plain field : plain delimiter field = true -> written delimiter field field.

(** The order of generation. *)

(* the items of [getSpawnOrder] before it sorts them: the attributes, then
   the layers rolled at spawn or create time *)
Definition spawnItems (cfg : Config.t) : list SpawnManager.SpawnItem.t :=
  map (fun attr =>
         SpawnManager.SpawnItem.mk attr "attribute"
           (JS.nullish
              (match Node.attribute attr with
               | Some c => AttributeCfg.spawnOrder c | None => None end) 0))
    (SpawnManager.getAttributes cfg)
  ++ flat_map
       (fun layer =>
          let rollAt := match Node.layer layer with
                        | Some c => LayerCfg.rollAt c | None => None end in
          if JS.strIs rollAt "create" || JS.strIs rollAt "spawn"
          then [SpawnManager.SpawnItem.mk layer "layer"
                  (JS.nullish (SpawnManager.layerOrder layer) 0)]
          else [])
       (SpawnManager.getNodesByType cfg "layer").

(* the items of [l] of order [k], in the order of [l] *)
Definition ofOrder {A : Type} (key : A -> Z) (k : Z) (l : list A) : list A :=
  List.filter (fun x => Z.eqb (key x) k) l.

(** Actions. *)

(* the cooldown an action declares, 0 if it declares none *)
Definition cooldownOf (cfg : Config.t) (actionId : string) : Z :=
  JS.orNum (match SpawnManager.getNode cfg actionId with
            | Some action => ActionCfg.cooldown (SpawnManager.actionCfg action)
            | None => None
            end) 0.

(* the remaining cooldown that [getActionCooldown] reports *)
Definition cooldownRemaining (cfg : Config.t) (e : Entity.t) (actionId : string) : Z :=
  fst (fst (SpawnManager.getActionCooldown cfg e actionId)).

(** Compounds whose requirements do not read the compounds. *)

(* the requirements of the compound evaluate the same whatever the list of
   active compounds is *)
Definition compoundFree (cfg : Config.t) (compound : Node.t) : Prop :=
  forall e c,
    SpawnManager.checkCompoundRequirements cfg (Entity.set_compounds c e) compound
    = SpawnManager.checkCompoundRequirements cfg e compound.

(** The exclusive partners of a modifier. *)

(* [exclusiveMap.get(id)], no partner for an id the map does not hold *)
Definition partnersOf (exclusiveMap : JS.Obj (list string)) (id : string) : list string :=
  JS.nullish (JS.get id exclusiveMap) [].

(** Expiry of modifiers. *)

(* the state the entity keeps for a modifier *)
Definition modStateOf (e : Entity.t) (modId : string) : option ModState.t :=
  JS.get modId (JS.nullish (Entity.modifierStates e) []).

(* a modifier that is not static and whose time is up at [now] *)
Definition timeUp (now : Z) (st : ModState.t) : Prop :=
  ModState.isStatic st = false /\
  exists t, ModState.expiresAt st = Some t /\ t <> 0 /\ t <= now.

(** Storage. *)

(* the check [store] makes first: a limit is set and the store has reached it *)
Definition storageFull (w : World.t) : bool :=
  match World.maxEntities w with
  | Some limit => Z.geb (Z.of_nat (length (World.stored w))) limit
  | None => false
  end.

(* what [retrieve] finds for an id *)
Definition retrieved (entityId : string) (w : World.t) : option loc :=
  fst (EntityManager.retrieve entityId w).

(* the last event emitted *)
Definition lastEmitted (w : World.t) : option Event.t :=
  last (map Some (World.events w)) None.

(** History. *)

(* the snapshots kept for an entity, oldest first *)
Definition historyOf (entityId : string) (w : World.t) : list Snapshot.t :=
  fst (EntityManager.getHistory entityId w).

(* the keys of the entity's attributes, variables and contexts are
   distinct, as the properties of an object are *)
Definition wellKeyed (e : Entity.t) : Prop :=
  List.NoDup (JS.keys (Entity.attributes e)) /\
  List.NoDup (JS.keys (Entity.variables e)) /\
  List.NoDup (JS.keys (Entity.contexts e)).

(* every derived value is null or a finite number *)
Definition finiteDerived (e : Entity.t) : Prop :=
  Forall (fun kv => match snd kv with
                    | None | Some (JS.Int _) => True
                    | Some _ => False
                    end)
    (Entity.derived e).

(* a pool holds no more entities than its [maxSize] allows *)
Definition fits (pool : Pool.t) : Prop :=
  Z.of_nat (length (Pool.entities pool)) <= Z.max 0 (PoolConfig.maxSize (Pool.config pool)).

(* the default pool exists and every pool fits *)
Definition capacity (w : World.t) : Prop :=
  JS.has EntityManager.defaultPoolId (World.pools w) = true /\
  forall poolId pool, JS.get poolId (World.pools w) = Some pool -> fits pool.

(* pool [poolId], if there is one, has room for [n] more entities *)
Definition roomFor (poolId : string) (n : Z) (w : World.t) : Prop :=
  forall pool,
    JS.get poolId (World.pools w) = Some pool ->
    Z.of_nat (length (Pool.entities pool)) + n <= PoolConfig.maxSize (Pool.config pool).

(* [targetPoolId || entity.poolId || this.defaultPoolId] *)
Definition destination (targetPoolId : option string) (e : Entity.t) : string :=
  if JS.truthyStr targetPoolId then SpawnManager.keyOf targetPoolId
  else JS.orStr (Entity.poolId e) EntityManager.defaultPoolId.

(* the pool has room for one more entity *)
Definition hasRoom (pool : Pool.t) : bool :=
  Z.ltb (Z.of_nat (length (Pool.entities pool))) (PoolConfig.maxSize (Pool.config pool)).

(* the modifiers of an entity with their states *)
Definition mods (e : Entity.t) : list string * option (JS.Obj ModState.t) :=
  (Entity.modifiers e, Entity.modifierStates e).

(* each active modifier is listed once and has a state *)
Definition tracked (e : Entity.t) : Prop :=
  List.NoDup (Entity.modifiers e) /\
  forall modId, In modId (Entity.modifiers e) -> modStateOf e modId <> None.

Definition allTracked (w : World.t) : Prop := Forall tracked (World.heap w).

(* the modifiers and states of the object at [l] *)
Definition modsAt (l : loc) (w : World.t)
  : option (list string * option (JS.Obj ModState.t)) :=
  option_map mods (World.heap w !! l).

(* the [stacks] field of a modifier's state *)
Definition stacksOf (e : Entity.t) (modId : string) : option (option Z) :=
  option_map ModState.stacks (modStateOf e modId).

(* the rank (priority, score) that the rules of a pool give [entity]: none
   for the default pool, for a pool without conditions and for a score
   that is not positive *)
Definition rankOf (entity : Entity.t) (kv : string * Pool.t) : option (Z * Z) :=
  if String.eqb (fst kv) EntityManager.defaultPoolId then None
  else
    match Pool.rules (snd kv) with
    | Some rules =>
        match PoolRules.conditions rules with
        | Some _ =>
            if Z.gtb (EntityManager._evaluatePoolRules entity rules) 0
            then Some (JS.orNum (PoolRules.priority rules) 0,
                       EntityManager._evaluatePoolRules entity rules)
            else None
        | None => None
        end
    | None => None
    end.

(* rank [a] is above rank [b]: a higher priority, or the same priority and
   a higher score *)
Definition outranks (a b : Z * Z) : Prop :=
  fst a > fst b \/ (fst a = fst b /\ snd a > snd b).

(* the entity is assigned to an existing pool *)
Definition assigned (pools : JS.Obj Pool.t) (entity : Entity.t) : bool :=
  JS.truthyStr (Entity.poolId entity)
  && JS.has (SpawnManager.keyOf (Entity.poolId entity)) pools.

(* the value of a variable after a tick of [deltaSeconds]: a timed
   variable moves by its current rate, within its bounds *)
Definition ticked (deltaSeconds : Z) (vs : VarState.t) : Z :=
  if String.eqb (VarState.changeMode vs) "timed"
     && negb (String.eqb (VarState.direction vs) "none")
  then JS.clamp (VarState.min vs) (VarState.max vs)
         (VarState.value vs + VarState.currentRate vs * deltaSeconds)
  else VarState.value vs.

(* an observation of the object at [l] *)
Definition obsAt {B : Type} (proj : Entity.t -> B) (l : loc) (w : World.t) : option B :=
  option_map proj (World.heap w !! l).

(* no trait is switched by a threshold on a variable of the entity *)
Definition noThresholdTraits (w : World.t) (e : Entity.t) : Prop :=
  forall cfg varId,
    World.spawnManager w = Some cfg ->
    In varId (JS.keys (Entity.variables e)) ->
    SpawnManager._thresholdTraitsByVar cfg varId = [].

(* one step of the loop of [tick] on the object itself *)
Definition tickVar (deltaSeconds : Z) (e : Entity.t) (varId : string) : Entity.t :=
  match JS.get varId (Entity.variables e) with
  | Some vs => EntityManager.writeValue varId (ticked deltaSeconds vs) e
  | None => e
  end.

(* no trait is listed twice among the active traits of a layer *)
Definition uniquelyActive (e : Entity.t) : Prop :=
  forall layerId, List.NoDup (SpawnManager.layerActive e layerId).

(* [x] is a trait of layer [layerId] *)
Definition traitOf (cfg : Config.t) (layerId : option string) (x : string) : Prop :=
  exists trait,
    SpawnManager.getNode cfg x = Some trait /\
    SpawnManager.isTrait trait = true /\
    SpawnManager.keyOf (SpawnManager.layerIdOf trait) = SpawnManager.keyOf layerId.

(* what a check of thresholds reads of the manager: the spawn manager and
   the object an id stands for *)
Definition directory (entityId : string) (w : World.t) : option Config.t * option loc :=
  (World.spawnManager w, retrieved entityId w).

(* what the traits read of an entity and the cascade leaves alone *)
Definition standing (e : Entity.t) : string * JS.Obj LayerState.t * JS.Obj (Z * Z * Z) :=
  (Entity.id e, Entity.layers e, ranges e).

(* whether a threshold trait is active once the thresholds on [value] are
   checked: an active one stays unless [autoRemove] holds, an inactive one
   starts when [trigger] holds *)
Definition switched (e : Entity.t) (value : Z) (trait : Node.t) : bool :=
  if JS.includes (Node.id trait)
       (SpawnManager.layerActive e (SpawnManager.layerIdOf trait))
  then negb (EntityManager.evaluateTraitThreshold value
               (TraitCfg.autoRemove (EntityManager.traitCfg trait)))
  else EntityManager.evaluateTraitThreshold value
         (TraitCfg.trigger (EntityManager.traitCfg trait)).

(* the state [w'] after variable [varId] of the entity [e] at [l] was set to
   [v]: the variable holds [v], the other variables are as in [e], no layer
   lists a trait twice, and if [v] is a new value the threshold traits of
   the variable are switched by their standing in [e] *)
Definition settledAt (cfg : Config.t) (l : loc) (e : Entity.t) (varId : string)
    (old v : Z) (w' : World.t) : Prop :=
  exists e',
    World.heap w' !! l = Some e' /\
    (exists vs', JS.get varId (Entity.variables e') = Some vs' /\ VarState.value vs' = v) /\
    (forall k, k <> varId -> JS.get k (ranges e') = JS.get k (ranges e)) /\
    uniquelyActive e' /\
    (v <> old ->
     forall t,
       In t (SpawnManager._thresholdTraitsByVar cfg varId) ->
       (In (Node.id t) (SpawnManager.layerActive e' (SpawnManager.layerIdOf t))
        <-> switched e v t = true)) /\
    (v = old ->
     forall layerId,
       SpawnManager.layerActive e' layerId = SpawnManager.layerActive e layerId).

(** * Properties *)

(** ** The facade resolves ids through a method the manager lacks *)

Lemma lookup_getEntity : EntityManager.lookupMethod "getEntity" = None.
Proof. vm_compute. reflexivity. Qed.

Lemma resolveViaManager_id (entityId : string) (w : World.t) :
  SpawnEngine.resolveViaManager (inl entityId) w = (SpawnEngine.noGetEntity, w).
Proof. unfold SpawnEngine.resolveViaManager. rewrite lookup_getEntity. reflexivity. Qed.

Lemma onResolved_id {A : Type} (entityId : string)
    (k : Config.t -> Entity.t -> H (A * Entity.t)) (w : World.t) :
  SpawnEngine.onResolved (inl entityId) k w = (SpawnEngine.noGetEntity, w).
Proof.
  unfold SpawnEngine.onResolved, bind. rewrite resolveViaManager_id. reflexivity.
Qed.



(** ** Diminishing returns *)

Lemma influenceStep_dampened (cfg : Config.t) (entity : Entity.t) (baseWeight weight : float)
    (rel : Relationship.t) :
  additiveActive cfg entity rel ->
  SpawnManager.influenceStep cfg entity true baseWeight weight rel
  = (weight + dampened baseWeight (JS.Z2F (Relationship.value rel)))%float.
Proof.
  intros (Hop & Hsc & Hact & Hcond & Hnz).
  unfold SpawnManager.influenceStep, SpawnManager.calculateRelationshipValue,
    SpawnManager.diminish, dampened.
  rewrite Hact, Hcond, Hop, Hsc. cbn. rewrite Hnz. reflexivity.
Qed.

Lemma influences_dampened (cfg : Config.t) (entity : Entity.t) (baseWeight : float)
    (rels : list Relationship.t) :
  Forall (additiveActive cfg entity) rels ->
  forall weight,
    fold_left (SpawnManager.influenceStep cfg entity true baseWeight) rels weight
    = fold_left (fun w rel =>
                   (w + dampened baseWeight (JS.Z2F (Relationship.value rel)))%float)
        rels weight.
Proof.
  induction 1 as [|rel rels Hrel _ IH]; intros weight; [reflexivity|].
  cbn [fold_left]. rewrite influenceStep_dampened by exact Hrel. apply IH.
Qed.

(** C8. In a layer with [diminishingReturns = true], each weight_influence
    relationship with operation 'add' and flat scaling whose source is
    active and whose conditions pass changes the trait's weight by
    [sign(d) * sqrt|d| * sqrt(baseWeight)] instead of its raw value [d],
    where [baseWeight] is the trait's base weight before any influence:
    whatever the relationships before and after it do (additions,
    multiplications, influences that do not apply), the weight that reaches
    it leaves it increased by that amount, and the rest of the loop and the
    floor at the layer's [weightFloor] follow. When every influence on the
    trait is of this kind the weight is the trait's own weight plus the sum
    of the dampened values, floored. (A zero [d] is added as it is.) *)
Theorem calculateWeight_diminishing_returns (cfg : Config.t) (entity : Entity.t)
    (trait : Node.t) (layer : LayerCfg.t) :
  SpawnManager.layerSelectionOf cfg trait = Some layer ->
  LayerCfg.diminishingReturns layer = true ->
  (forall (before after : list Relationship.t) (rel : Relationship.t),
      influencesOf cfg trait = before ++ rel :: after ->
      additiveActive cfg entity rel ->
      SpawnManager.calculateWeight cfg entity trait
      = JS.Math_max (JS.Z2F (JS.nullish (LayerCfg.weightFloor layer) 0))
          (fold_left (SpawnManager.influenceStep cfg entity true (baseWeightOf trait)) after
             (fold_left (SpawnManager.influenceStep cfg entity true (baseWeightOf trait))
                before (ownWeight cfg entity true trait)
              + dampened (baseWeightOf trait) (JS.Z2F (Relationship.value rel)))%float)) /\
  (Forall (additiveActive cfg entity) (influencesOf cfg trait) ->
   SpawnManager.calculateWeight cfg entity trait
   = JS.Math_max (JS.Z2F (JS.nullish (LayerCfg.weightFloor layer) 0))
       (fold_left
          (fun w rel =>
             (w + dampened (baseWeightOf trait) (JS.Z2F (Relationship.value rel)))%float)
          (influencesOf cfg trait) (ownWeight cfg entity true trait))).
Proof.
  intros Hlayer HDR.
  assert (Hw : SpawnManager.calculateWeight cfg entity trait
               = JS.Math_max (JS.Z2F (JS.nullish (LayerCfg.weightFloor layer) 0))
                   (fold_left
                      (SpawnManager.influenceStep cfg entity true (baseWeightOf trait))
                      (influencesOf cfg trait) (ownWeight cfg entity true trait))).
  { unfold SpawnManager.calculateWeight. rewrite Hlayer, HDR. reflexivity. }
  split.
  - intros before after rel Hsplit Hrel.
    rewrite Hw, Hsplit, fold_left_app. cbn [fold_left].
    rewrite (influenceStep_dampened cfg entity _ _ rel Hrel). reflexivity.
  - intros Hrels. rewrite Hw.
    rewrite (influences_dampened cfg entity (baseWeightOf trait) _ Hrels). reflexivity.
Qed.

Lemma calculateWeight_diminishing_returns_witness :
  (SpawnManager.calculateWeight Scenario.cfgS4 Scenario.eS4 Scenario.warrior
   = (16 + PrimFloat.sqrt 9 * PrimFloat.sqrt 16
      + PrimFloat.sqrt 9 * PrimFloat.sqrt 16)%float
   /\ SpawnManager.calculateWeight Scenario.cfgS4 Scenario.eS4 Scenario.warrior = 40%float) /\
  (SpawnManager.calculateWeight Scenario.cfgS4Mixed Scenario.eS4Mixed Scenario.warrior
   = ((16 + PrimFloat.sqrt 9 * PrimFloat.sqrt 16) * 2)%float
   /\ SpawnManager.calculateWeight Scenario.cfgS4Mixed Scenario.eS4Mixed Scenario.warrior
      = 56%float).
Proof.
  assert (Hlayer : forall cfg,
             cfg = Scenario.cfgS4 \/ cfg = Scenario.cfgS4Mixed ->
             SpawnManager.layerSelectionOf cfg Scenario.warrior
             = Some (LayerCfg.mk None None None None None true None
                       (Some "manual") (Some ["warrior"]) None))
    by (intros cfg [->| ->]; vm_compute; reflexivity).
  split.
  - assert (Hrels : Forall (additiveActive Scenario.cfgS4 Scenario.eS4)
                      (influencesOf Scenario.cfgS4 Scenario.warrior)).
    { repeat constructor; vm_compute; reflexivity. }
    rewrite (proj2 (calculateWeight_diminishing_returns _ _ _ _
                      (Hlayer _ (or_introl eq_refl)) eq_refl) Hrels).
    split; vm_compute; reflexivity.
  - assert (Hrel : additiveActive Scenario.cfgS4Mixed Scenario.eS4Mixed
                     (Scenario.influence "veteran" "warrior" "weight_influence" "add" 9))
      by (repeat split; vm_compute; reflexivity).
    rewrite (proj1 (calculateWeight_diminishing_returns Scenario.cfgS4Mixed
                      Scenario.eS4Mixed Scenario.warrior _
                      (Hlayer _ (or_intror eq_refl)) eq_refl)
               []
               [Scenario.influence "armed" "warrior" "weight_influence" "multiply" 2;
                Scenario.influence "cursed" "warrior" "weight_influence" "add" 25]
               (Scenario.influence "veteran" "warrior" "weight_influence" "add" 9)
               ltac:(vm_compute; reflexivity) Hrel).
    split; vm_compute; reflexivity.
Defined.

(** ** Facts on objects and lists *)

Section ObjFacts.
Context {V : Type}.
Implicit Types (o : JS.Obj V) (k : string) (v : V).

Lemma get_set_eq k v o : JS.get k (JS.set k v o) = Some v.
Proof.
  induction o as [|[k' v'] o IH]; cbn.
  - rewrite String.eqb_refl. reflexivity.
  - destruct (String.eqb k k') eqn:E; cbn; rewrite ?String.eqb_refl, ?E; auto.
Qed.

Lemma get_set_ne k k' v o : k <> k' -> JS.get k' (JS.set k v o) = JS.get k' o.
Proof.
  intros Hne. induction o as [|[k0 v0] o IH]; cbn.
  - destruct (String.eqb k' k) eqn:E; [apply String.eqb_eq in E; congruence|reflexivity].
  - destruct (String.eqb k k0) eqn:E; cbn.
    + apply String.eqb_eq in E. subst k0.
      destruct (String.eqb k' k) eqn:E'; [apply String.eqb_eq in E'; congruence|reflexivity].
    + destruct (String.eqb k' k0); auto.
Qed.

Lemma get_set k k' v o :
  JS.get k' (JS.set k v o) = if String.eqb k k' then Some v else JS.get k' o.
Proof.
  destruct (String.eqb k k') eqn:E.
  - apply String.eqb_eq in E. subst. apply get_set_eq.
  - apply String.eqb_neq in E. apply get_set_ne. exact E.
Qed.
End ObjFacts.

Lemma last_skipn_snoc {A : Type} (l : list A) (x d : A) (n : nat) :
  (n <= length l)%nat -> last (skipn n (l ++ [x])) d = x.
Proof.
  intros Hn. rewrite skipn_app.
  replace (n - length l)%nat with O by lia. cbn. apply last_last.
Qed.

(** ** Quiet computations *)

Lemma quiet_ret {A : Type} (a : A) : quiet (hret a).
Proof. intros h. split; reflexivity. Qed.

Lemma quiet_bind {A B : Type} (m : H A) (f : A -> H B) :
  quiet m -> (forall a, quiet (f a)) -> quiet (hbind m f).
Proof.
  intros Hm Hf h. unfold hbind. destruct (m h) as [a h'] eqn:E.
  destruct (Hm h) as [Hn Hc]. rewrite E in Hn, Hc. cbn in Hn, Hc.
  destruct (Hf a h') as [Hn' Hc']. split; congruence.
Qed.

Lemma quiet_Date_now : quiet Date_now.
Proof. intros h. split; reflexivity. Qed.

Lemma quiet_Math_random : quiet Math_random.
Proof. intros h. unfold Math_random. destruct (Host.rng h); split; reflexivity. Qed.

Lemma quiet_hfold {A S : Type} (f : S -> A -> H S) (l : list A) :
  (forall s x, quiet (f s x)) -> forall s, quiet (hfold f l s).
Proof.
  intros Hf. induction l as [|x l IH]; intros s; cbn.
  - apply quiet_ret.
  - apply quiet_bind; auto.
Qed.

Create HintDb quiet.
#[local] Hint Resolve quiet_ret quiet_Date_now quiet_Math_random : quiet.

Ltac quiet_step :=
  match goal with
  | |- quiet (hbind _ _) => apply quiet_bind; [|intros ?]
  | |- quiet (hfold _ _ _) => apply quiet_hfold; intros ? ?
  | |- quiet (match ?x with _ => _ end) => destruct x
  | |- quiet _ => solve [auto with quiet]
  end.

Ltac quiet_tac := repeat quiet_step.

Lemma quiet_rollRange (lo hi : Z) : quiet (SpawnManager.rollRange lo hi).
Proof. unfold SpawnManager.rollRange. quiet_tac. Qed.
#[local] Hint Resolve quiet_rollRange : quiet.

Lemma quiet_selectWeighted cfg e layerId : quiet (SpawnManager.selectWeighted cfg e layerId).
Proof. unfold SpawnManager.selectWeighted. quiet_tac. Qed.
#[local] Hint Resolve quiet_selectWeighted : quiet.

Lemma quiet_pickLoop n :
  forall pool selected, quiet (SpawnManager.pickLoop n pool selected).
Proof.
  induction n as [|n IH]; intros pool selected; cbn.
  - destruct pool; apply quiet_ret.
  - destruct pool; [apply quiet_ret|]. quiet_tac; apply IH.
Qed.
#[local] Hint Resolve quiet_pickLoop : quiet.

Lemma quiet_selectPickN cfg e layerId n : quiet (SpawnManager.selectPickN cfg e layerId n).
Proof. unfold SpawnManager.selectPickN. quiet_tac. Qed.
#[local] Hint Resolve quiet_selectPickN : quiet.

Lemma quiet_rollLayer cfg e layerId : quiet (SpawnManager.rollLayer cfg e layerId).
Proof. unfold SpawnManager.rollLayer. quiet_tac. Qed.
#[local] Hint Resolve quiet_rollLayer : quiet.

Lemma quiet_rollInitial cfg n layerId :
  forall e, quiet (SpawnManager.rollInitial cfg n layerId e).
Proof. induction n as [|n IH]; intros e; cbn; quiet_tac. Qed.
#[local] Hint Resolve quiet_rollInitial : quiet.

Lemma quiet_spawnStep cfg ov e item : quiet (SpawnManager.spawnStep cfg ov e item).
Proof. unfold SpawnManager.spawnStep. quiet_tac. Qed.
#[local] Hint Resolve quiet_spawnStep : quiet.

Lemma quiet_newEntityId : quiet SpawnManager.newEntityId.
Proof. unfold SpawnManager.newEntityId. quiet_tac. Qed.
#[local] Hint Resolve quiet_newEntityId : quiet.

Lemma quiet_resolvePresetAttributeValue spec :
  quiet (SpawnManager.resolvePresetAttributeValue spec).
Proof. unfold SpawnManager.resolvePresetAttributeValue. quiet_tac. Qed.
#[local] Hint Resolve quiet_resolvePresetAttributeValue : quiet.

Lemma quiet_resolvePresetAttributes attributes :
  quiet (SpawnManager.resolvePresetAttributes attributes).
Proof. unfold SpawnManager.resolvePresetAttributes. quiet_tac. Qed.
#[local] Hint Resolve quiet_resolvePresetAttributes : quiet.

Lemma quiet_selectWeightedFromPool pool : quiet (SpawnManager.selectWeightedFromPool pool).
Proof. unfold SpawnManager.selectWeightedFromPool. quiet_tac. Qed.
#[local] Hint Resolve quiet_selectWeightedFromPool : quiet.

Lemma quiet_selectNLoop n :
  forall remaining picks, quiet (SpawnManager.selectNLoop n remaining picks).
Proof.
  induction n as [|n IH]; intros remaining picks; cbn.
  - destruct remaining; apply quiet_ret.
  - destruct remaining; [apply quiet_ret|]. quiet_tac.
Qed.
#[local] Hint Resolve quiet_selectNLoop : quiet.

Lemma quiet_resolveTraitSpec cfg layerId spec :
  quiet (SpawnManager.resolveTraitSpec cfg layerId spec).
Proof.
  unfold SpawnManager.resolveTraitSpec, SpawnManager.selectNFromPool. quiet_tac.
Qed.
#[local] Hint Resolve quiet_resolveTraitSpec : quiet.

Lemma quiet_resolvePresetTraits cfg traits :
  quiet (SpawnManager.resolvePresetTraits cfg traits).
Proof. unfold SpawnManager.resolvePresetTraits. quiet_tac. Qed.
#[local] Hint Resolve quiet_resolvePresetTraits : quiet.

(** ** Generation ends with compounds, derived values, then rates *)

Lemma log_actions now event data e :
  Entity.actions (SpawnManager.log now event data e) = Entity.actions e.
Proof. destruct e; reflexivity. Qed.

Lemma log_last now event data e d :
  last (Entity.log (SpawnManager.log now event data e)) d = LogEntry.mk now event data.
Proof.
  unfold SpawnManager.log.
  assert (Hlog : forall l, Entity.log (Entity.set_log l e) = l) by (destruct e; reflexivity).
  rewrite Hlog. destruct (Nat.ltb 1000 _) eqn:E.
  - apply last_skipn_snoc. rewrite length_app. cbn [length]. lia.
  - apply last_last.
Qed.

Lemma initActions_keeps (k : string) (actions : list Node.t) :
  forall e,
    JS.get k (Entity.actions e) = Some 0 ->
    JS.get k (Entity.actions
                (fold_left
                   (fun e action =>
                      Entity.set_actions (JS.set (Node.id action) 0 (Entity.actions e)) e)
                   actions e)) = Some 0.
Proof.
  induction actions as [|a actions IH]; intros e He; cbn; [exact He|].
  apply IH. destruct e; cbn in *. rewrite get_set.
  destruct (String.eqb (Node.id a) k); auto.
Qed.

Lemma initActions_zero cfg (e : Entity.t) :
  Forall (fun action => JS.get (Node.id action) (Entity.actions (SpawnManager.initActions cfg e))
                        = Some 0)
    (SpawnManager.getActions cfg).
Proof.
  unfold SpawnManager.initActions. generalize (SpawnManager.getActions cfg) as actions.
  intros actions. revert e. induction actions as [|a actions IH]; intros e; constructor.
  - cbn. apply initActions_keeps. destruct e; cbn. apply get_set_eq.
  - cbn. apply IH.
Qed.

Lemma generate_shape (cfg : Config.t) (overrides : Overrides.t) (h : Host.t) :
  exists rolled rng,
    SpawnManager.generate cfg overrides h
    = (SpawnManager.log (Host.now h) "generated" []
         (SpawnManager.initActions cfg
            (SpawnManager.recalculateRates cfg
               (SpawnManager.calculateDerived cfg
                  (SpawnManager.checkCompounds cfg rolled)))),
       Host.mk (Host.now h) rng (Host.calls h ++ generationCascade)).
Proof.
  unfold SpawnManager.generate.
  set (mkId := if JS.truthyStr (Overrides.id overrides) then _ else _).
  assert (Hid : quiet mkId) by (subst mkId; quiet_tac).
  unfold hbind at 1. destruct (mkId h) as [entityId h1] eqn:E1.
  destruct (Hid h) as [Hn1 Hc1]. rewrite E1 in Hn1, Hc1. cbn in Hn1, Hc1.
  unfold hbind at 1. unfold Date_now at 1. cbn beta iota.
  set (e0 := fold_left _ (SpawnManager.getLayers cfg) _).
  unfold hbind at 1.
  destruct (hfold (SpawnManager.spawnStep cfg overrides) (SpawnManager.getSpawnOrder cfg) e0 h1)
    as [e1 h2] eqn:E2.
  assert (H2 : quiet (hfold (SpawnManager.spawnStep cfg overrides)
                        (SpawnManager.getSpawnOrder cfg) e0)) by quiet_tac.
  destruct (H2 h1) as [Hn2 Hc2]. rewrite E2 in Hn2, Hc2. cbn in Hn2, Hc2.
  destruct h2 as [now2 rng2 calls2]. cbn in Hn2, Hc2. subst now2 calls2.
  exists (SpawnManager.remainingOverrides overrides e1), rng2.
  unfold SpawnManager.spied, spy, hbind, hret, Date_now. cbn.
  rewrite Hn1, Hc1. rewrite <- !app_assoc. reflexivity.
Qed.

Lemma spawn_calls cfg presets presetId overrides h :
  Host.calls (snd (SpawnManager.spawn cfg presets presetId overrides h))
  = Host.calls h
    ++ (if JS.isSome (fst (SpawnManager.spawn cfg presets presetId overrides h))
        then generationCascade else []).
Proof.
  unfold SpawnManager.spawn.
  destruct (SpawnManager.getPreset presets presetId) as [preset|];
    [|cbn; rewrite app_nil_r; reflexivity].
  unfold hbind.
  destruct (SpawnManager.resolvePresetAttributes (Some (Preset.attributes preset)) h)
    as [pa h1] eqn:E1.
  pose proof (quiet_resolvePresetAttributes (Some (Preset.attributes preset)) h) as [_ Q1].
  rewrite E1 in Q1. cbn in Q1.
  destruct (SpawnManager.resolvePresetAttributes (Overrides.attributes overrides) h1)
    as [oa h2] eqn:E2.
  pose proof (quiet_resolvePresetAttributes (Overrides.attributes overrides) h1) as [_ Q2].
  rewrite E2 in Q2. cbn in Q2.
  destruct (SpawnManager.resolvePresetTraits cfg (Preset.traits preset) h2) as [pt h3] eqn:E3.
  pose proof (quiet_resolvePresetTraits cfg (Preset.traits preset) h2) as [_ Q3].
  rewrite E3 in Q3. cbn in Q3.
  destruct (SpawnManager.resolvePresetTraits cfg (Overrides.traits overrides) h3)
    as [ot h4] eqn:E4.
  pose proof (quiet_resolvePresetTraits cfg (Overrides.traits overrides) h3) as [_ Q4].
  rewrite E4 in Q4. cbn in Q4.
  match goal with
  | |- context [SpawnManager.generate cfg ?m h4] =>
      destruct (generate_shape cfg m h4) as (rolled & rng & ->)
  end.
  cbn. congruence.
Qed.

(** C5 (as amended). Generation finishes by running the three cascade
    functions in the order checkCompounds, calculateDerived,
    recalculateRates (not the order of the cascade triple), then sets every
    action's cooldownRemaining to 0 and logs 'generated'. A spawn from a
    preset runs that generation once and no further cascade function. *)
Theorem generate_finishes_compounds_derived_rates
    (cfg : Config.t) (overrides : Overrides.t) (h : Host.t) :
  let entity := fst (SpawnManager.generate cfg overrides h) in
  Host.calls (snd (SpawnManager.generate cfg overrides h))
  = Host.calls h ++ generationCascade /\
  (exists rolled,
      entity
      = SpawnManager.log (Host.now h) "generated" []
          (SpawnManager.initActions cfg
             (SpawnManager.recalculateRates cfg
                (SpawnManager.calculateDerived cfg
                   (SpawnManager.checkCompounds cfg rolled))))) /\
  Forall (fun action => JS.get (Node.id action) (Entity.actions entity) = Some 0)
    (SpawnManager.getActions cfg) /\
  last (Entity.log entity) (LogEntry.mk 0 "" []) = LogEntry.mk (Host.now h) "generated" []
  /\
  forall presets presetId,
    Host.calls (snd (SpawnManager.spawn cfg presets presetId overrides h))
    = Host.calls h
      ++ (if JS.isSome (fst (SpawnManager.spawn cfg presets presetId overrides h))
          then generationCascade else []).
Proof.
  split; [|split; [|split; [|split]]].
  5: { intros presets presetId. apply spawn_calls. }
  all: destruct (generate_shape cfg overrides h) as (rolled & rng & ->); cbn.
  - reflexivity.
  - eexists; reflexivity.
  - rewrite Forall_forall. intros action Hin. rewrite log_actions.
    pose proof (initActions_zero cfg
                  (SpawnManager.recalculateRates cfg
                     (SpawnManager.calculateDerived cfg
                        (SpawnManager.checkCompounds cfg rolled)))) as Hz.
    rewrite Forall_forall in Hz. apply Hz. exact Hin.
  - apply log_last.
Qed.

(** C5, counterexample: on a configuration with one compound that is met
    at generation, the spy sees rates recalculated last, not first; the rate
    already counts the compound's modifier. *)
Lemma generate_cascade_order_counterexample :
  let r := SpawnManager.generate Scenario.cfgEnraged (Scenario.withId "c5") Scenario.host0 in
  Host.calls (snd r) <> cascadeTripleCalls /\
  Host.calls (snd r) = ["checkCompounds"; "calculateDerived"; "recalculateRates"] /\
  Entity.compounds (fst r) = ["enraged"] /\
  option_map VarState.currentRate (JS.get "fury" (Entity.variables (fst r))) = Some 6.
Proof. vm_compute. repeat split; try reflexivity. discriminate. Qed.

(** ** Rollback restores the snapshot and runs no cascade *)

Lemma restoreValue_get (snapshot : JS.Obj VarState.t) :
  forall (vars : JS.Obj VarState.t) (k : string),
    JS.get k (fold_left EntityManager.restoreValue snapshot vars)
    = option_map (fun vs => VarState.set_value (restoredValue snapshot k (VarState.value vs)) vs)
        (JS.get k vars).
Proof.
  unfold restoredValue.
  induction snapshot as [|[k0 sv] snapshot IH]; intros vars k; cbn.
  - destruct (JS.get k vars) as [[]|]; reflexivity.
  - rewrite IH. unfold EntityManager.restoreValue. cbn.
    destruct (JS.get k0 vars) as [vs0|] eqn:E0.
    + rewrite get_set. destruct (String.eqb k0 k) eqn:E.
      * apply String.eqb_eq in E. subst k0. rewrite E0. cbn. destruct vs0; reflexivity.
      * destruct (JS.get k vars) as [[]|]; reflexivity.
    + destruct (String.eqb k0 k) eqn:E.
      * apply String.eqb_eq in E. subst k0. rewrite E0. reflexivity.
      * destruct (JS.get k vars) as [[]|]; reflexivity.
Qed.

Lemma restoredValue_recorded (snapshot : JS.Obj VarState.t) (k : string) (sv : VarState.t) :
  List.NoDup (JS.keys snapshot) ->
  JS.get k snapshot = Some sv ->
  forall current, restoredValue snapshot k current = VarState.value sv.
Proof.
  unfold restoredValue.
  induction snapshot as [|[k0 sv0] snapshot IH]; intros Hnd Hget current; [discriminate|].
  cbn in *. inversion Hnd as [|? ? Hnotin Hnd']; subst.
  destruct (String.eqb k k0) eqn:E.
  - apply String.eqb_eq in E. subst k0. inversion Hget; subst sv0.
    rewrite String.eqb_refl.
    assert (Hrest : forall v, fold_left
                                (fun v kv => if String.eqb (fst kv) k
                                             then VarState.value (snd kv) else v)
                                snapshot v = v).
    { clear -Hnotin. induction snapshot as [|[k1 sv1] snapshot IH]; intros v; [reflexivity|].
      cbn in *. destruct (String.eqb k1 k) eqn:E1.
      - apply String.eqb_eq in E1. subst. exfalso. apply Hnotin. left. reflexivity.
      - apply IH. intros Hin. apply Hnotin. right. exact Hin. }
    apply Hrest.
  - rewrite String.eqb_sym in E. rewrite E. apply IH; assumption.
Qed.

Lemma restore_fields (snap : Snapshot.t) (e : Entity.t) :
  let e' := EntityManager.restore snap e in
  Entity.layers e' = Snapshot.layers snap /\
  Entity.modifiers e' = Snapshot.modifiers snap /\
  Entity.compounds e' = Snapshot.compounds snap /\
  Entity.derived e'
  = map (fun kv => (fst kv, option_map JS.Int (snd kv))) (Snapshot.derived snap) /\
  Entity.attributes e' = JS.assign (Entity.attributes e) (Snapshot.attributes snap) /\
  Entity.contexts e' = JS.assign (Entity.contexts e) (Snapshot.contexts snap) /\
  Entity.variables e'
  = fold_left EntityManager.restoreValue (Snapshot.variables snap) (Entity.variables e).
Proof. destruct e; cbn. repeat split; reflexivity. Qed.

(** C6. What [rollback(entityId, t)] does. It takes the newest snapshot
    whose timestamp is at most [t]; it sets the entity's layers, modifiers
    and compounds to the snapshotted ones and its derived values to the
    snapshot's record of them (a number or null), assigns the snapshotted
    attributes and contexts over the current ones, and restores the value
    of every variable the snapshot records. Unlike [applyModifier],
    [removeModifier], [activateTrait], [deactivateTrait] and
    [_resetEntityForReuse], which change the same lists and then run
    [_runCascade], it runs no cascade: every other field of a variable,
    its currentRate included, stays as it was just before the rollback,
    whatever the restored modifiers and traits would give. It returns
    false, changing nothing, when the entity, its history or a qualifying
    snapshot is absent. *)
Theorem rollback_restores_without_cascade
    (w : World.t) (entityId : string) (timestamp : Z) :
  (forall l e snapshots snap,
      fst (EntityManager.retrieve entityId w) = Some l ->
      World.heap w !! l = Some e ->
      JS.get entityId (World.history w) = Some snapshots ->
      find (fun s => Z.leb (Snapshot.timestamp s) timestamp) (rev snapshots) = Some snap ->
      let w' := snd (EntityManager.rollback entityId timestamp w) in
      fst (EntityManager.rollback entityId timestamp w) = true /\
      Host.calls (World.host w') = Host.calls (World.host w) /\
      exists e',
        World.heap w' !! l = Some e' /\
        Entity.layers e' = Snapshot.layers snap /\
        Entity.modifiers e' = Snapshot.modifiers snap /\
        Entity.compounds e' = Snapshot.compounds snap /\
        Entity.derived e'
        = map (fun kv => (fst kv, option_map JS.Int (snd kv))) (Snapshot.derived snap) /\
        Entity.attributes e' = JS.assign (Entity.attributes e) (Snapshot.attributes snap) /\
        Entity.contexts e' = JS.assign (Entity.contexts e) (Snapshot.contexts snap) /\
        (forall k,
            JS.get k (Entity.variables e')
            = option_map
                (fun vs =>
                   VarState.set_value
                     (restoredValue (Snapshot.variables snap) k (VarState.value vs)) vs)
                (JS.get k (Entity.variables e))) /\
        (forall k, rateOf k e' = rateOf k e)) /\
  (fst (EntityManager.retrieve entityId w) = None
   \/ JS.get entityId (World.history w) = None
   \/ (exists snapshots,
          JS.get entityId (World.history w) = Some snapshots /\
          find (fun s => Z.leb (Snapshot.timestamp s) timestamp) (rev snapshots) = None) ->
   EntityManager.rollback entityId timestamp w = (false, w)).
Proof.
  split.
  - intros l e snapshots snap Hl He Hh Hs.
    unfold EntityManager.rollback, bind, gets in *.
    destruct (EntityManager.retrieve entityId w) as [ol w0] eqn:Er.
    assert (w0 = w) by (unfold EntityManager.retrieve, gets in Er; congruence). subst w0.
    cbn in Hl. subst ol. rewrite Hh, Hs.
    unfold update, modify, EntityManager.emit, ret. cbn. rewrite He.
    destruct w; cbn in *. split; [reflexivity|]. split; [reflexivity|].
    exists (EntityManager.restore snap e).
    pose proof (restore_fields snap e) as (H1 & H2 & H3 & H4 & H5 & H6 & H7).
    split.
    { apply list_lookup_insert_eq. eapply lookup_lt_Some. exact He. }
    repeat (split; [assumption|]).
    split.
    + intros k. rewrite H7. apply restoreValue_get.
    + intros k. unfold rateOf. rewrite H7, restoreValue_get.
      destruct (JS.get k (Entity.variables e)) as [[]|]; reflexivity.
  - intros Hfail. unfold EntityManager.rollback, bind, gets.
    destruct (EntityManager.retrieve entityId w) as [ol w0] eqn:Er.
    assert (w0 = w) by (unfold EntityManager.retrieve, gets in Er; congruence). subst w0.
    cbn in Hfail. destruct Hfail as [Hnone | [Hnone | (snapshots & Hh & Hs)]].
    + subst ol. reflexivity.
    + rewrite Hnone. destruct ol; reflexivity.
    + rewrite Hh, Hs. destruct ol; reflexivity.
Qed.

(* after a snapshot, applying a modifier that adds 5 to a rate and rolling
   back to the snapshot: the modifier list is empty again and the rate is
   still 7, while the cascade from the restored state gives 2 *)
Lemma rollback_restores_without_cascade_witness :
  let r := EntityManager.rollback "runner" 1000 Scenario.wHaste in
  fst r = true /\
  Host.calls (World.host (snd r)) = Host.calls (World.host Scenario.wHaste) /\
  option_map Entity.modifiers (Scenario.entityAt 0%nat Scenario.wHaste)
  = Some ["haste"] /\
  option_map (rateOf "speed") (Scenario.entityAt 0%nat Scenario.wHaste)
  = Some (Some 7) /\
  option_map Entity.modifiers (Scenario.entityAt 0%nat (snd r)) = Some [] /\
  option_map (rateOf "speed") (Scenario.entityAt 0%nat (snd r)) = Some (Some 7) /\
  option_map (fun e => rateOf "speed" (SpawnManager.recalculateRates Scenario.cfgHaste e))
    (Scenario.entityAt 0%nat (snd r)) = Some (Some 2).
Proof.
  assert (He : exists e, World.heap Scenario.wHaste !! 0%nat = Some e)
    by (vm_compute; eexists; reflexivity).
  assert (Hs : exists snapshots snap,
             JS.get "runner" (World.history Scenario.wHaste) = Some snapshots /\
             find (fun s => Z.leb (Snapshot.timestamp s) 1000) (rev snapshots) = Some snap)
    by (do 2 eexists; split; vm_compute; reflexivity).
  destruct He as (e & He). destruct Hs as (snapshots & snap & Hh & Hs).
  destruct (proj1 (rollback_restores_without_cascade Scenario.wHaste "runner" 1000)
              0%nat e snapshots snap eq_refl He Hh Hs) as (Hr & Hc & _).
  split; [exact Hr|]. split; [exact Hc|].
  vm_compute. repeat split; reflexivity.
Defined.

(** ** Specifications and frames of runtime computations *)

Lemma hoare_ret {A : Type} (P : World.t -> Prop) (a : A) (Q : A -> World.t -> Prop) :
  (forall w, P w -> Q a w) -> hoare P (ret a) Q.
Proof. intros H w Hw. apply H, Hw. Qed.

Lemma hoare_bind {A B : Type} (P : World.t -> Prop) (m : M A) (k : A -> M B)
    (R : A -> World.t -> Prop) (Q : B -> World.t -> Prop) :
  hoare P m R -> (forall a, hoare (R a) (k a) Q) -> hoare P (bind m k) Q.
Proof.
  intros Hm Hk w Hw. unfold bind. specialize (Hm w Hw).
  destruct (m w) as [a w']. apply Hk. exact Hm.
Qed.

Lemma hoare_gets {A : Type} (P : World.t -> Prop) (f : World.t -> A)
    (Q : A -> World.t -> Prop) :
  (forall w, P w -> Q (f w) w) -> hoare P (gets f) Q.
Proof. intros H w Hw. apply H, Hw. Qed.

Lemma hoare_modify (P : World.t -> Prop) (f : World.t -> World.t)
    (Q : unit -> World.t -> Prop) :
  (forall w, P w -> Q tt (f w)) -> hoare P (modify f) Q.
Proof. intros H w Hw. apply H, Hw. Qed.

Lemma hoare_conseq {A : Type} (P P' : World.t -> Prop) (m : M A)
    (Q Q' : A -> World.t -> Prop) :
  hoare P' m Q' -> (forall w, P w -> P' w) -> (forall a w, Q' a w -> Q a w) ->
  hoare P m Q.
Proof. intros H HP HQ w Hw. apply HQ, H, HP, Hw. Qed.

Lemma hoare_forEach {A : Type} (I : World.t -> Prop) (l : list A) (f : A -> M unit) :
  (forall x, In x l -> hoare I (f x) (fun _ => I)) ->
  hoare I (forEach l f) (fun _ => I).
Proof.
  induction l as [|x l IH]; intros H; cbn.
  - apply hoare_ret. auto.
  - eapply hoare_bind.
    + apply H. left. reflexivity.
    + intros ?. apply IH. intros y Hy. apply H. right. exact Hy.
Qed.

Lemma keeps_hoare {A B : Type} (f : World.t -> B) (m : M A) (I : B -> Prop) :
  keeps f m -> hoare (fun w => I (f w)) m (fun _ w => I (f w)).
Proof. intros H w Hw. rewrite H. exact Hw. Qed.

Lemma keeps_ret {A B : Type} (f : World.t -> B) (a : A) : keeps f (ret a).
Proof. intros w. reflexivity. Qed.

Lemma keeps_gets {A B : Type} (f : World.t -> B) (g : World.t -> A) : keeps f (gets g).
Proof. intros w. reflexivity. Qed.

Lemma keeps_bind {A B C : Type} (f : World.t -> C) (m : M A) (k : A -> M B) :
  keeps f m -> (forall a, keeps f (k a)) -> keeps f (bind m k).
Proof.
  intros Hm Hk w. unfold bind. specialize (Hm w).
  destruct (m w) as [a w']. rewrite Hk. exact Hm.
Qed.

Lemma keeps_forEach {A B : Type} (f : World.t -> B) (l : list A) (g : A -> M unit) :
  (forall x, keeps f (g x)) -> keeps f (forEach l g).
Proof.
  intros H. induction l as [|x l IH]; cbn.
  - apply keeps_ret.
  - apply keeps_bind; [apply H|intros ?; exact IH].
Qed.

Lemma keeps_modify {B : Type} (f : World.t -> B) (g : World.t -> World.t) :
  (forall w, f (g w) = f w) -> keeps f (modify g).
Proof. intros H w. apply H. Qed.

Lemma keeps_liftH {A B : Type} (f : World.t -> B) `{!HostFree f} (m : H A) :
  keeps f (liftH m).
Proof. intros w. unfold liftH. destruct (m (World.host w)). apply host_free. Qed.

Lemma keeps_deref {B : Type} (f : World.t -> B) (l : loc) : keeps f (deref l).
Proof. apply keeps_gets. Qed.

Lemma keeps_update {B : Type} (f : World.t -> B) `{!HeapShape f} (l : loc)
    (g : Entity.t -> Entity.t) :
  keeps f (update l g).
Proof.
  intros w. unfold update, modify. cbn.
  destruct (World.heap w !! l); [apply heap_shape|reflexivity].
Qed.

Lemma keeps_emit {B : Type} (f : World.t -> B) `{!EventFree f} (event : string)
    (data : JS.Obj string) :
  keeps f (EntityManager.emit event data).
Proof. intros w. apply event_free. Qed.

Lemma keeps_onEntity {A B : Type} (f : World.t -> B) `{!HostFree f} `{!HeapShape f}
    (l : loc) (d : A) (g : Entity.t -> H (A * Entity.t)) :
  keeps f (onEntity l d g).
Proof.
  unfold onEntity. apply keeps_bind; [apply keeps_deref|]. intros [e|]; [|apply keeps_ret].
  apply keeps_bind; [apply keeps_liftH; assumption|]. intros r.
  apply keeps_bind; [apply keeps_update; assumption|]. intros ?. apply keeps_ret.
Qed.

Create HintDb keeps.
#[local] Hint Resolve keeps_ret keeps_gets keeps_deref keeps_liftH keeps_update keeps_emit
  keeps_onEntity : keeps.

#[local] Instance pools_HostFree : HostFree World.pools.
Proof. intros [] ?. reflexivity. Qed.
#[local] Instance pools_EventFree : EventFree World.pools.
Proof. intros [] ?. reflexivity. Qed.
#[local] Instance pools_HeapShape : HeapShape World.pools.
Proof. intros [] ? ?. reflexivity. Qed.
#[local] Instance pools_IndexFree : IndexFree World.pools.
Proof. intros []. repeat split. Qed.
#[local] Instance pools_FlagFree : FlagFree World.pools.
Proof. intros []. repeat split. Qed.

#[local] Instance heapSize_HostFree : HostFree heapSize.
Proof. intros [] ?. reflexivity. Qed.
#[local] Instance heapSize_EventFree : EventFree heapSize.
Proof. intros [] ?. reflexivity. Qed.
#[local] Instance heapSize_HeapShape : HeapShape heapSize.
Proof. intros [] ? ?. unfold heapSize. cbn. apply length_insert. Qed.
#[local] Instance heapSize_IndexFree : IndexFree heapSize.
Proof. intros []. repeat split. Qed.
#[local] Instance heapSize_FlagFree : FlagFree heapSize.
Proof. intros []. repeat split. Qed.

(* a state change that only writes index, flag or event fields *)
Ltac keeps_field :=
  let w := fresh "w" in
  intros w;
  repeat match goal with
    | |- context [match ?x with _ => _ end] => destruct x
    end;
  try reflexivity;
  match goal with
  | |- ?f _ = ?f _ =>
      repeat first
        [ rewrite (event_free (f := f))
        | rewrite (host_free (f := f))
        | rewrite (proj1 (index_free (f := f) _))
        | rewrite (proj1 (proj2 (index_free (f := f) _)))
        | rewrite (proj1 (proj2 (proj2 (index_free (f := f) _))))
        | rewrite (proj1 (proj2 (proj2 (proj2 (index_free (f := f) _)))))
        | rewrite (proj2 (proj2 (proj2 (proj2 (index_free (f := f) _)))))
        | rewrite (proj1 (flag_free (f := f) _))
        | rewrite (proj1 (proj2 (flag_free (f := f) _)))
        | rewrite (proj2 (proj2 (flag_free (f := f) _))) ];
      reflexivity
  end.

Ltac keeps_step :=
  match goal with
  | |- keeps _ (bind _ _) => apply keeps_bind; [|intros ?]
  | |- keeps _ (forEach _ _) => apply keeps_forEach; intros ?
  | |- keeps _ (modify _) => apply keeps_modify; keeps_field
  | |- keeps _ (match ?x with _ => _ end) => destruct x
  | |- keeps _ _ => solve [eauto with keeps typeclass_instances]
  end.

Ltac keeps_tac := repeat keeps_step.

Section Frames.
Context {B : Type} (f : World.t -> B).
Context `{!HostFree f} `{!EventFree f} `{!HeapShape f} `{!IndexFree f} `{!FlagFree f}.

Lemma keeps_addToGroup groupId entityId :
  keeps f (EntityManager.addToGroup groupId entityId).
Proof. unfold EntityManager.addToGroup. keeps_tac. Qed.
Hint Resolve keeps_addToGroup : keeps.

Lemma keeps_store entity : keeps f (EntityManager.store entity).
Proof. unfold EntityManager.store. keeps_tac. Qed.
Hint Resolve keeps_store : keeps.

Lemma keeps_activate entityOrId : keeps f (EntityManager.activate entityOrId).
Proof. unfold EntityManager.activate. keeps_tac. Qed.

Lemma keeps_cascadeTriple cfg entity : keeps f (EntityManager.cascadeTriple cfg entity).
Proof. unfold EntityManager.cascadeTriple. keeps_tac. Qed.
Hint Resolve keeps_cascadeTriple : keeps.

Lemma keeps_runCascade entity : keeps f (EntityManager._runCascade entity).
Proof. unfold EntityManager._runCascade. keeps_tac. Qed.
Hint Resolve keeps_runCascade : keeps.

Lemma keeps_resetEntityForReuse entity presetIdOrOverrides overrides :
  keeps f (EntityManager._resetEntityForReuse entity presetIdOrOverrides overrides).
Proof. unfold EntityManager._resetEntityForReuse. keeps_tac. Qed.
End Frames.

(** ** Pools: which pool an acquire looks in *)

Lemma pop_snoc {A : Type} (l : list A) (x : A) : JS.pop (l ++ [x]) = (Some x, l).
Proof. unfold JS.pop. rewrite rev_app_distr. cbn. rewrite rev_involutive. reflexivity. Qed.

Lemma hoare_gets_val {A B : Type} (P : World.t -> Prop) (f : World.t -> A) (v : A)
    (k : A -> M B) (Q : B -> World.t -> Prop) :
  (forall w, P w -> f w = v) -> hoare P (k v) Q -> hoare P (bind (gets f) k) Q.
Proof. intros Hv Hk w Hw. unfold bind, gets. rewrite (Hv w Hw). apply Hk, Hw. Qed.

Lemma hoare_gets_any {A B : Type} (P : World.t -> Prop) (f : World.t -> A)
    (k : A -> M B) (Q : B -> World.t -> Prop) :
  (forall a, hoare P (k a) Q) -> hoare P (bind (gets f) k) Q.
Proof. intros Hk w Hw. unfold bind, gets. apply Hk, Hw. Qed.

Lemma hoare_pure {A : Type} (phi : Prop) (P : World.t -> Prop) (m : M A)
    (Q : A -> World.t -> Prop) :
  (phi -> hoare P m Q) -> hoare (fun w => phi /\ P w) m Q.
Proof. intros H w [Hphi Hw]. apply H; assumption. Qed.

Lemma hoare_framed {A : Type} (I : World.t -> Prop) (m : M A) :
  poolFramed I -> keeps World.pools m -> keeps heapSize m -> hoare I m (fun _ => I).
Proof. intros HI Hp Hs w Hw. eapply HI; [apply Hp|apply Hs|exact Hw]. Qed.

Lemma get_updatePool (q q' : string) (g : Pool.t -> Pool.t) (w : World.t) :
  JS.get q' (World.pools (snd (EntityManager.updatePool q g w)))
  = if String.eqb q q' then option_map g (JS.get q (World.pools w))
    else JS.get q' (World.pools w).
Proof.
  unfold EntityManager.updatePool, modify. cbn.
  destruct (JS.get q (World.pools w)) as [pool|] eqn:E.
  - destruct w; cbn in *. rewrite get_set. destruct (String.eqb q q'); reflexivity.
  - destruct (String.eqb q q') eqn:E'; [|reflexivity].
    apply String.eqb_eq in E'. subst q'. rewrite E. reflexivity.
Qed.

Lemma heapSize_updatePool (q : string) (g : Pool.t -> Pool.t) :
  keeps heapSize (EntityManager.updatePool q g).
Proof.
  intros w. unfold EntityManager.updatePool, modify. cbn.
  destruct (JS.get q (World.pools w)); [|reflexivity]. destruct w; reflexivity.
Qed.

Lemma pooled_updateStats (q q' : string) (g : Stats.t -> Stats.t) (w : World.t) :
  pooled q' (snd (EntityManager.updateStats q g w)) = pooled q' w.
Proof.
  unfold pooled, EntityManager.updateStats. rewrite get_updatePool.
  destruct (String.eqb q q') eqn:E; [|reflexivity].
  apply String.eqb_eq in E. subst q'. destruct (JS.get q (World.pools w)); reflexivity.
Qed.

Lemma createdBy_updateStats (q q' : string) (g : Stats.t -> Stats.t) (w : World.t) :
  createdBy q' (snd (EntityManager.updateStats q g w))
  = if String.eqb q q'
    then option_map (fun pool => Stats.totalCreated (g (Pool.stats pool)))
           (JS.get q (World.pools w))
    else createdBy q' w.
Proof.
  unfold createdBy, EntityManager.updateStats. rewrite get_updatePool.
  destruct (String.eqb q q'); [|reflexivity].
  destruct (JS.get q (World.pools w)); reflexivity.
Qed.

Lemma createdBy_updateStats_keeps (q q' : string) (g : Stats.t -> Stats.t) (w : World.t) :
  keepsCreated g -> createdBy q' (snd (EntityManager.updateStats q g w)) = createdBy q' w.
Proof.
  intros Hg. rewrite createdBy_updateStats. destruct (String.eqb q q') eqn:E; [|reflexivity].
  apply String.eqb_eq in E. subst q'. unfold createdBy.
  destruct (JS.get q (World.pools w)); cbn; [rewrite Hg|]; reflexivity.
Qed.

Lemma keeps_pools_alloc (e : Entity.t) : keeps World.pools (alloc e).
Proof. intros []. reflexivity. Qed.

Lemma keeps_pools_create cfg presetIdOrOverrides overrides :
  keeps World.pools (EntityManager.create cfg presetIdOrOverrides overrides).
Proof.
  unfold EntityManager.create.
  apply keeps_bind; [apply keeps_gets|]. intros presets.
  apply keeps_bind; [apply keeps_liftH; exact _|]. intros [e|]; [|apply keeps_ret].
  apply keeps_bind; [apply keeps_pools_alloc|]. intros l. apply keeps_ret.
Qed.

(* a created entity is a new object of the heap *)
Lemma create_fresh cfg presetIdOrOverrides overrides (w : World.t) :
  let r := EntityManager.create cfg presetIdOrOverrides overrides w in
  (fst r = None /\ heapSize (snd r) = heapSize w)
  \/ (fst r = Some (heapSize w) /\ heapSize (snd r) = S (heapSize w)).
Proof.
  unfold EntityManager.create, bind, gets, liftH, alloc, ret, heapSize. cbn.
  match goal with
  | |- context [let (_, _) := ?m (World.host w) in _] => destruct (m (World.host w)) as [[e|] h]
  end; cbn.
  - right. destruct w; cbn. split; [reflexivity|]. rewrite length_app. cbn. lia.
  - left. destruct w; cbn. split; reflexivity.
Qed.

#[local] Hint Resolve keeps_addToGroup keeps_store keeps_activate keeps_cascadeTriple
  keeps_runCascade keeps_resetEntityForReuse : keeps.

Lemma popped_framed q rest c n : poolFramed (popped q rest c n).
Proof.
  intros w w' Hp Hs (H1 & H2 & H3). unfold popped, pooled, createdBy in *.
  rewrite Hp, Hs. auto.
Qed.

Lemma popped_updateStats q q0 g rest c n :
  keepsCreated g ->
  hoare (popped q rest c n) (EntityManager.updateStats q0 g) (fun _ => popped q rest c n).
Proof.
  intros Hg w (H1 & H2 & H3). repeat split.
  - rewrite pooled_updateStats. exact H1.
  - rewrite createdBy_updateStats_keeps by exact Hg. exact H2.
  - unfold EntityManager.updateStats. rewrite heapSize_updatePool. exact H3.
Qed.

Ltac popped_frame :=
  eapply hoare_bind;
  [ apply hoare_framed; [apply popped_framed | keeps_tac | keeps_tac] | intros ? ].

Lemma acquire_named_pops (w : World.t) p o (q : string) (pool : Pool.t)
    (rest : list loc) (l : loc) :
  q <> "" ->
  JS.get q (World.pools w) = Some pool ->
  Pool.entities pool = rest ++ [l] ->
  fst (EntityManager.acquire p o (Some q) w) = Returned (Some l) /\
  popped q rest (Stats.totalCreated (Pool.stats pool)) (heapSize w)
    (snd (EntityManager.acquire p o (Some q) w)).
Proof.
  intros Hq Hget Hent.
  assert (Ht : JS.truthyStr (Some q) = true).
  { cbn. apply String.eqb_neq in Hq. rewrite Hq. reflexivity. }
  enough (Hh : hoare (fun w' => w' = w) (EntityManager.acquire p o (Some q))
                 (fun r w' => r = Returned (Some l) /\
                              popped q rest (Stats.totalCreated (Pool.stats pool))
                                (heapSize w) w'))
    by (apply (Hh w eq_refl)).
  unfold EntityManager.acquire. rewrite Ht. cbv zeta. cbn [SpawnManager.keyOf JS.nullish].
  apply hoare_gets_val with (v := true).
  { intros w' ->. unfold JS.has. rewrite Hget. reflexivity. }
  cbv beta iota. unfold EntityManager.getPool.
  apply hoare_gets_val with (v := Some pool).
  { intros w' ->. exact Hget. }
  apply hoare_gets_any. intros sm. cbv beta iota. rewrite Hent, pop_snoc. cbv beta iota.
  eapply hoare_bind
    with (R := fun r w' => r = Returned (Some l, true) /\
                           popped q rest (Stats.totalCreated (Pool.stats pool))
                             (heapSize w) w').
  - eapply hoare_bind with (R := fun _ => popped q rest _ (heapSize w)).
    + intros w' ->. repeat split.
      * unfold pooled. rewrite get_updatePool, String.eqb_refl, Hget. reflexivity.
      * unfold createdBy. rewrite get_updatePool, String.eqb_refl, Hget. reflexivity.
      * apply heapSize_updatePool.
    + intros ?. popped_frame.
      eapply hoare_bind; [apply popped_updateStats; intros s; reflexivity|]. intros ?.
      apply hoare_ret. auto.
  - intros r. apply hoare_pure. intros ->. cbv beta iota.
    unfold deref. apply hoare_gets_any. intros oe. apply hoare_gets_any. intros pools.
    popped_frame. popped_frame. popped_frame.
    eapply hoare_bind; [apply popped_updateStats; intros s; reflexivity|]. intros ?.
    popped_frame.
    apply hoare_gets_any. intros id. popped_frame.
    apply hoare_ret. auto.
Qed.

Lemma hoare_ex {A X : Type} (P : X -> World.t -> Prop) (m : M A)
    (Q : A -> World.t -> Prop) :
  (forall x, hoare (P x) m Q) -> hoare (fun w => exists x, P x w) m Q.
Proof. intros H w [x Hx]. apply (H x), Hx. Qed.

Lemma createdAnew_framed w0 c k :
  poolFramed (fun w => createdAnew w0 c w /\ heapSize w = k).
Proof.
  intros w w' Hp Hs [[H1 H2] H3]. unfold createdAnew, pooled, createdBy in *.
  rewrite Hp, Hs. auto.
Qed.

Lemma createdAnew_updateStats w0 c k q g :
  keepsCreated g ->
  hoare (fun w => createdAnew w0 c w /\ heapSize w = k) (EntityManager.updateStats q g)
    (fun _ w => createdAnew w0 c w /\ heapSize w = k).
Proof.
  intros Hg w [[H1 H2] H3]. repeat split.
  - intros q'. rewrite pooled_updateStats. apply H1.
  - rewrite createdBy_updateStats_keeps by exact Hg. exact H2.
  - unfold EntityManager.updateStats. rewrite heapSize_updatePool. exact H3.
Qed.

Ltac anew_frame :=
  eapply hoare_bind;
  [ apply hoare_framed; [apply createdAnew_framed | keeps_tac | keeps_tac] | intros ? ].

Lemma acquire_unnamed_creates (w : World.t) p o (cfg : Config.t) (pool : Pool.t) :
  World.spawnManager w = Some cfg ->
  JS.get EntityManager.defaultPoolId (World.pools w) = Some pool ->
  Pool.entities pool = [] ->
  createdAnew w (Stats.totalCreated (Pool.stats pool))
    (snd (EntityManager.acquire p o None w)) /\
  (fst (EntityManager.acquire p o None w) = Returned None
   \/ (fst (EntityManager.acquire p o None w) = Returned (Some (heapSize w)) /\
       heapSize (snd (EntityManager.acquire p o None w)) = S (heapSize w))).
Proof.
  intros Hsm Hget Hent.
  set (c := Stats.totalCreated (Pool.stats pool)).
  enough (Hh : hoare (fun w' => w' = w) (EntityManager.acquire p o None)
                 (fun r w' => createdAnew w c w' /\
                              (r = Returned None
                               \/ (r = Returned (Some (heapSize w)) /\
                                   heapSize w' = S (heapSize w)))))
    by (apply (Hh w eq_refl)).
  unfold EntityManager.acquire. cbv zeta. cbn [JS.truthyStr].
  apply hoare_gets_val with (v := true).
  { intros w' ->. unfold JS.has. rewrite Hget. reflexivity. }
  cbv beta iota. unfold EntityManager.getPool.
  apply hoare_gets_val with (v := Some pool).
  { intros w' ->. exact Hget. }
  apply hoare_gets_val with (v := Some cfg).
  { intros w' ->. exact Hsm. }
  cbv beta iota. rewrite Hent. cbn [JS.pop rev]. cbv beta iota.
  eapply hoare_bind
    with (R := fun r w' =>
                 exists ol k,
                   r = Returned (ol, false) /\
                   ((ol = None /\ k = heapSize w)
                    \/ (ol = Some (heapSize w) /\ k = S (heapSize w))) /\
                   (createdAnew w c w' /\ heapSize w' = k)).
  - eapply hoare_bind
      with (R := fun ol w' =>
                   World.pools w' = World.pools w /\
                   ((ol = None /\ heapSize w' = heapSize w)
                    \/ (ol = Some (heapSize w) /\ heapSize w' = S (heapSize w)))).
    + intros w' ->. split; [apply keeps_pools_create|apply create_fresh].
    + intros ol. eapply hoare_bind
        with (R := fun _ w' =>
                     (createdAnew w c w' /\
                      ((ol = None /\ heapSize w' = heapSize w)
                       \/ (ol = Some (heapSize w) /\ heapSize w' = S (heapSize w))))).
      * intros w' [Hp Hcase]. split; [split|].
        -- intros q'. rewrite pooled_updateStats. unfold pooled. rewrite Hp. reflexivity.
        -- rewrite createdBy_updateStats, String.eqb_refl, Hp, Hget. reflexivity.
        -- unfold EntityManager.updateStats. rewrite heapSize_updatePool. exact Hcase.
      * intros ?. apply hoare_ret. intros w' [Hc Hcase].
        exists ol, (heapSize w'). split; [reflexivity|]. split; [|auto].
        destruct Hcase as [[-> ->]|[-> ->]]; auto.
  - intros r. apply hoare_ex. intros ol. apply hoare_ex. intros k.
    apply hoare_pure. intros ->. apply hoare_pure. intros Hcase. cbv beta iota.
    destruct Hcase as [[-> ->]|[-> ->]].
    + apply hoare_ret. intros w' [Hc _]. auto.
    + unfold deref. apply hoare_gets_any. intros oe. apply hoare_gets_any. intros pools.
      anew_frame. anew_frame. anew_frame.
      eapply hoare_bind; [apply createdAnew_updateStats; intros s; reflexivity|]. intros ?.
      anew_frame.
      apply hoare_gets_any. intros id. anew_frame.
      apply hoare_ret. intros w' [Hc Hs]. auto.
Qed.

(** C9. In scenario S5 (pool 'enemies' of maxSize 4 whose rule glob-matches
    the presets enemy_*, two goblins acquired and released),
    getPoolStats('enemies') reports available = 2 and inUse = 0, as the
    claim says. The third acquire does what the claim says only when it
    names the pool: an acquire that names a pool holding entities pops the
    one pushed last and creates nothing (the heap keeps its size and the
    pool's totalCreated stays). An acquire with no target pool looks in the
    default pool alone: when that is empty, whatever the other pools hold,
    no pool loses an entity, the default pool counts one more created
    entity, and the entity returned, if any, is a new object. So in S5 the
    third acquire('enemy_goblin') leaves both goblins pooled, makes a third
    object and raises the default pool's totalCreated from 2 to 3, and its
    event reports fromPool = false for the pool 'enemies'. The counters
    show the same defect: the default pool has counted both acquires and
    neither release, so it reports inUse = 2 while no entity is active. *)
Theorem acquire_without_target_skips_rule_pool :
  (Stats.available (Scenario.statsOf "enemies" Scenario.wReleased) = 2 /\
   Stats.inUse (Scenario.statsOf "enemies" Scenario.wReleased) = 0 /\
   pooled "enemies" Scenario.wReleased = Some [0%nat; 1%nat] /\
   World.active Scenario.wReleased = [] /\
   Stats.inUse (Scenario.statsOf "default" Scenario.wReleased) = 2 /\
   Stats.totalReleased (Scenario.statsOf "default" Scenario.wReleased) = 0) /\
  (forall (w : World.t) p o (q : string) (pool : Pool.t) (rest : list loc) (l : loc),
      q <> "" ->
      JS.get q (World.pools w) = Some pool ->
      Pool.entities pool = rest ++ [l] ->
      fst (EntityManager.acquire p o (Some q) w) = Returned (Some l) /\
      popped q rest (Stats.totalCreated (Pool.stats pool)) (heapSize w)
        (snd (EntityManager.acquire p o (Some q) w))) /\
  (forall (w : World.t) p o (cfg : Config.t) (pool : Pool.t),
      World.spawnManager w = Some cfg ->
      JS.get EntityManager.defaultPoolId (World.pools w) = Some pool ->
      Pool.entities pool = [] ->
      createdAnew w (Stats.totalCreated (Pool.stats pool))
        (snd (EntityManager.acquire p o None w)) /\
      (fst (EntityManager.acquire p o None w) = Returned None
       \/ (fst (EntityManager.acquire p o None w) = Returned (Some (heapSize w)) /\
           heapSize (snd (EntityManager.acquire p o None w)) = S (heapSize w)))) /\
  (let named := Scenario.run (Scenario.acquireGoblin (Some "enemies")) Scenario.wReleased in
   let unnamed := Scenario.run (Scenario.acquireGoblin None) Scenario.wReleased in
   option_map Event.data (Scenario.lastEvent named)
   = Some [("entityId", "entity_1000_4i"); ("fromPool", "true"); ("poolId", "enemies")] /\
   option_map Entity.id (Scenario.entityAt 1%nat Scenario.wReleased) = Some "entity_1000_9" /\
   option_map Entity.id (Scenario.entityAt 1%nat named) = Some "entity_1000_4i" /\
   pooled "enemies" named = Some [0%nat] /\
   Stats.totalCreated (Scenario.statsOf "enemies" named)
   = Stats.totalCreated (Scenario.statsOf "enemies" Scenario.wReleased) /\
   fst (Scenario.acquireGoblin None Scenario.wReleased) = Returned (Some 2%nat) /\
   heapSize Scenario.wReleased = 2%nat /\ heapSize unnamed = 3%nat /\
   pooled "enemies" unnamed = Some [0%nat; 1%nat] /\
   Stats.totalCreated (Scenario.statsOf "default" Scenario.wReleased) = 2 /\
   Stats.totalCreated (Scenario.statsOf "default" unnamed) = 3 /\
   option_map Event.data (Scenario.lastEvent unnamed)
   = Some [("entityId", "entity_1000_4i"); ("fromPool", "false"); ("poolId", "enemies")]).
Proof.
  split; [vm_compute; repeat split; reflexivity|].
  split; [intros; apply acquire_named_pops; assumption|].
  split; [intros; eapply acquire_unnamed_creates; eassumption|].
  vm_compute. repeat split; reflexivity.
Qed.

Lemma acquire_without_target_skips_rule_pool_witness :
  pooled "enemies" Scenario.wReleased = Some [0%nat; 1%nat] /\
  fst (Scenario.acquireGoblin (Some "enemies") Scenario.wReleased) = Returned (Some 1%nat) /\
  fst (Scenario.acquireGoblin None Scenario.wReleased)
  = Returned (Some (heapSize Scenario.wReleased)) /\
  pooled "enemies" (Scenario.run (Scenario.acquireGoblin None) Scenario.wReleased)
  = Some [0%nat; 1%nat] /\
  createdBy "default" (Scenario.run (Scenario.acquireGoblin None) Scenario.wReleased)
  = Some 3.
Proof.
  destruct acquire_without_target_skips_rule_pool as (_ & Hnamed & Hunnamed & _).
  assert (He : exists pool,
             JS.get "enemies" (World.pools Scenario.wReleased) = Some pool /\
             Pool.entities pool = [0%nat] ++ [1%nat])
    by (vm_compute; eexists; split; reflexivity).
  assert (Hd : exists cfg pool,
             World.spawnManager Scenario.wReleased = Some cfg /\
             JS.get EntityManager.defaultPoolId (World.pools Scenario.wReleased) = Some pool /\
             Pool.entities pool = [] /\ Stats.totalCreated (Pool.stats pool) = 2)
    by (vm_compute; do 2 eexists; repeat split; reflexivity).
  destruct He as (pool & Hget & Hent).
  destruct Hd as (cfg & dpool & Hsm & Hdget & Hdent & Hcreated).
  split; [vm_compute; reflexivity|]. split.
  - apply (Hnamed Scenario.wReleased (Some (inl "enemy_goblin")) Overrides.empty
             "enemies" pool [0%nat] 1%nat); [discriminate|exact Hget|exact Hent].
  - destruct (Hunnamed Scenario.wReleased (Some (inl "enemy_goblin")) Overrides.empty
                cfg dpool Hsm Hdget Hdent) as [[Hpools Hc] Hres].
    rewrite Hcreated in Hc. split; [|split].
    + destruct Hres as [Hn|[Hs _]]; [|exact Hs].
      vm_compute in Hn. discriminate.
    + unfold Scenario.run, Scenario.acquireGoblin. rewrite (Hpools "enemies").
      vm_compute. reflexivity.
    + exact Hc.
Defined.

(** ** Compounds after a change of a variable *)

Lemma map_insert_same {B : Type} (proj : Entity.t -> B) (heap : list Entity.t) (l : loc)
    (e x : Entity.t) :
  heap !! l = Some e -> proj x = proj e -> map proj (<[l := x]> heap) = map proj heap.
Proof.
  revert l. induction heap as [|e0 heap IH]; intros [|l] He Hx; cbn in *; try discriminate.
  - inversion He; subst. rewrite Hx. reflexivity.
  - f_equal. apply IH; assumption.
Qed.

Lemma compoundsKept_update cfg c (l : loc) (g : Entity.t -> Entity.t) :
  (forall e, Entity.compounds (g e) = Entity.compounds e) ->
  hoare (compoundsKept cfg c) (update l g) (fun _ => compoundsKept cfg c).
Proof.
  intros Hg w [Hsm Hc]. unfold update, modify. cbn.
  destruct (World.heap w !! l) as [e|] eqn:He; [|split; assumption].
  split; [destruct w; exact Hsm|].
  unfold compoundsOf in *. destruct w; cbn in *.
  rewrite (map_insert_same Entity.compounds _ l e (g e) He (Hg e)). exact Hc.
Qed.

Lemma compoundsKept_liftH {A : Type} cfg c (m : H A) :
  hoare (compoundsKept cfg c) (liftH m) (fun _ => compoundsKept cfg c).
Proof.
  intros w [Hsm Hc]. unfold liftH. destruct (m (World.host w)) as [a h].
  destruct w; split; assumption.
Qed.

Lemma compoundsKept_emit cfg c event data :
  hoare (compoundsKept cfg c) (EntityManager.emit event data) (fun _ => compoundsKept cfg c).
Proof. intros w [Hsm Hc]. destruct w; split; assumption. Qed.

Lemma writeValue_compounds varId value e :
  Entity.compounds (EntityManager.writeValue varId value e) = Entity.compounds e.
Proof.
  unfold EntityManager.writeValue. destruct (JS.get varId (Entity.variables e)); [|reflexivity].
  destruct e; reflexivity.
Qed.

Lemma calculateDerived_compounds cfg e :
  Entity.compounds (SpawnManager.calculateDerived cfg e) = Entity.compounds e.
Proof.
  unfold SpawnManager.calculateDerived.
  generalize (SpawnManager.getDerived cfg). intros derived. revert e.
  induction derived as [|d derived IH]; intros e; cbn; [reflexivity|].
  rewrite IH. unfold SpawnManager.calculateDerived1.
  destruct (Node.config d); try reflexivity. destruct e; reflexivity.
Qed.

Lemma compoundsKept_onEntity {A : Type} cfg c (l : loc) (d : A)
    (g : Entity.t -> H (A * Entity.t)) :
  (forall e h, Entity.compounds (snd (fst (g e h))) = Entity.compounds e) ->
  hoare (compoundsKept cfg c) (onEntity l d g) (fun _ => compoundsKept cfg c).
Proof.
  intros Hg w [Hsm Hc]. unfold onEntity, deref, bind, gets.
  destruct (World.heap w !! l) as [e|] eqn:He; [|split; assumption].
  unfold liftH. pose proof (Hg e (World.host w)) as Hge.
  destruct (g e (World.host w)) as [r h]. cbn [fst snd] in *.
  unfold update, modify, ret. destruct w; cbn in *. rewrite He. cbn.
  split; [exact Hsm|]. unfold compoundsOf in *. cbn in *.
  rewrite (map_insert_same Entity.compounds _ l e (snd r) He Hge). exact Hc.
Qed.

Lemma compoundsKept_calculateDerived cfg c (entity : loc) :
  hoare (compoundsKept cfg c) (EntityManager.calculateDerived entity)
    (fun _ => compoundsKept cfg c).
Proof.
  unfold EntityManager.calculateDerived.
  apply hoare_gets_val with (v := Some cfg); [intros w [Hsm _]; exact Hsm|].
  cbv beta iota. apply compoundsKept_onEntity. intros e h. apply calculateDerived_compounds.
Qed.

(* without threshold modifiers the pass of [checkModifierThresholds] applies
   and removes nothing, and flushes no cascade *)
Lemma compoundsKept_checkModifierThresholds cfg c (entity : loc) :
  SpawnManager._thresholdModifiers cfg = [] ->
  hoare (compoundsKept cfg c) (EntityManager.checkModifierThresholds entity)
    (fun _ => compoundsKept cfg c).
Proof.
  intros Hmods. unfold EntityManager.checkModifierThresholds.
  apply hoare_gets_val with (v := Some cfg); [intros w [Hsm _]; exact Hsm|].
  unfold deref. apply hoare_gets_any. intros [e|]; [|apply hoare_ret; auto].
  cbv beta iota zeta. rewrite Hmods. cbn [forEach].
  intros w [Hsm Hc]. unfold bind, modify, gets, ret. cbn.
  destruct w; cbn in *. split; assumption.
Qed.

Lemma compoundsKept_checkThresholds cfg c (entity : loc) (varId : string) :
  SpawnManager._thresholdTraitsByVar cfg varId = [] ->
  hoare (compoundsKept cfg c) (EntityManager.checkThresholds entity varId)
    (fun _ => compoundsKept cfg c).
Proof.
  intros Htraits. unfold EntityManager.checkThresholds.
  apply hoare_gets_val with (v := Some cfg); [intros w [Hsm _]; exact Hsm|].
  cbv beta iota. rewrite Htraits. apply hoare_ret. auto.
Qed.

Lemma changeVariable_compounds cfg c entityId varId newValue :
  SpawnManager._thresholdModifiers cfg = [] ->
  SpawnManager._thresholdTraitsByVar cfg varId = [] ->
  hoare (compoundsKept cfg c) (EntityManager.changeVariable entityId varId newValue)
    (fun _ => compoundsKept cfg c).
Proof.
  intros Hmods Htraits. unfold EntityManager.changeVariable, EntityManager.retrieve, deref.
  apply hoare_gets_any. intros [entity|]; [|apply hoare_ret; auto].
  apply hoare_gets_any. intros [e|]; [|apply hoare_ret; auto].
  destruct (JS.get varId (Entity.variables e)) as [varState|]; [|apply hoare_ret; auto].
  cbv zeta.
  eapply hoare_bind; [apply compoundsKept_update, writeValue_compounds|]. intros ?.
  eapply hoare_bind with (R := fun _ => compoundsKept cfg c);
    [|intros ?; apply hoare_ret; auto].
  destruct (negb _); [|apply hoare_ret; auto].
  eapply hoare_bind; [apply compoundsKept_checkThresholds, Htraits|]. intros ?.
  eapply hoare_bind; [apply compoundsKept_checkModifierThresholds, Hmods|]. intros ?.
  eapply hoare_bind; [apply compoundsKept_calculateDerived|]. intros ?.
  apply compoundsKept_emit.
Qed.

(** C1. A change of a variable by setVariable or modifyVariable re-checks no
    compound: in a configuration with no threshold modifier and no threshold
    trait on the variable, the compound lists of all entities are after the
    call what they were before it, whatever the compounds require. In the
    configuration with the compound 'weakened' requiring hp <= 20, after
    generation with hp = 80 and setVariable('hero', 'hp', 10), the
    requirement of 'weakened' is met and 'weakened' is not among the
    entity's compounds; checkCompounds was not called. *)
Theorem setVariable_leaves_compounds_unchecked :
  (forall (w : World.t) (cfg : Config.t) (entityId varId : string) (value delta : Z),
      World.spawnManager w = Some cfg ->
      SpawnManager._thresholdModifiers cfg = [] ->
      SpawnManager._thresholdTraitsByVar cfg varId = [] ->
      compoundsOf (snd (EntityManager.setVariable entityId varId value w)) = compoundsOf w /\
      compoundsOf (snd (EntityManager.modifyVariable entityId varId delta w))
      = compoundsOf w) /\
  (fst (EntityManager.setVariable "hero" "hp" 10 Scenario.wHero) = true /\
   option_map (fun e => SpawnManager.getNodeValue Scenario.cfgWeakened e "hp")
     (Scenario.entityAt 0%nat Scenario.wHurt) = Some 10 /\
   option_map (fun e => SpawnManager.checkCompoundRequirements Scenario.cfgWeakened e
                          Scenario.weakened)
     (Scenario.entityAt 0%nat Scenario.wHurt) = Some true /\
   option_map Entity.compounds (Scenario.entityAt 0%nat Scenario.wHurt) = Some [] /\
   Host.calls (World.host Scenario.wHurt)
   = Host.calls (World.host Scenario.wHero) ++ ["calculateDerived"]).
Proof.
  split.
  - intros w cfg entityId varId value delta Hsm Hmods Htraits. split.
    + apply (changeVariable_compounds cfg (compoundsOf w) entityId varId (fun _ => value)
               Hmods Htraits w). split; [exact Hsm|reflexivity].
    + apply (changeVariable_compounds cfg (compoundsOf w) entityId varId
               (fun varState => VarState.value varState + delta) Hmods Htraits w).
      split; [exact Hsm|reflexivity].
  - vm_compute. repeat split; reflexivity.
Qed.

Lemma setVariable_leaves_compounds_unchecked_witness :
  compoundsOf (snd (EntityManager.setVariable "hero" "hp" 10 Scenario.wHero))
  = compoundsOf Scenario.wHero /\
  compoundsOf (snd (EntityManager.modifyVariable "hero" "hp" (-70) Scenario.wHero))
  = compoundsOf Scenario.wHero.
Proof.
  apply (proj1 setVariable_leaves_compounds_unchecked Scenario.wHero Scenario.cfgWeakened
           "hero" "hp" 10 (-70)); reflexivity.
Defined.

(** ** The arbiter of exclusive modifiers *)

Section Sorting.
Context {A : Type} (cmp : A -> A -> Z) (key : A -> Z).
Hypothesis cmp_key : forall a b, cmp a b = key a - key b.

Lemma insertBy_In (x z : A) (l : list A) : In z (JS.insertBy cmp x l) <-> z = x \/ In z l.
Proof.
  induction l as [|y l IH]; cbn.
  - intuition.
  - destruct (Z.ltb (cmp x y) 0); cbn; [intuition|]. rewrite IH. intuition.
Qed.

Lemma insertBy_headLeast (x : A) (l : list A) :
  headLeast key l -> headLeast key (JS.insertBy cmp x l).
Proof.
  destruct l as [|y l]; cbn.
  - intros _. constructor; [lia|constructor].
  - intros Hy. destruct (Z.ltb (cmp x y) 0) eqn:E; cbn.
    + apply Z.ltb_lt in E. rewrite cmp_key in E.
      constructor; [lia|]. eapply Forall_impl; [|exact Hy]. cbn. intros; lia.
    + apply Z.ltb_ge in E. rewrite cmp_key in E.
      inversion Hy as [|? ? Hyy Hl]; subst. constructor; [lia|].
      rewrite Forall_forall. intros z Hz. apply insertBy_In in Hz.
      destruct Hz as [->|Hz]; [lia|]. rewrite Forall_forall in Hl. apply Hl, Hz.
Qed.

Lemma fold_insertBy (l acc : list A) :
  headLeast key acc ->
  headLeast key (fold_left (fun acc x => JS.insertBy cmp x acc) l acc) /\
  (forall z, In z (fold_left (fun acc x => JS.insertBy cmp x acc) l acc)
             <-> In z l \/ In z acc).
Proof.
  revert acc. induction l as [|x l IH]; intros acc Hacc; cbn.
  - split; [exact Hacc|]. intuition.
  - destruct (IH (JS.insertBy cmp x acc) (insertBy_headLeast x acc Hacc)) as [H1 H2].
    split; [exact H1|]. intros z. rewrite H2, insertBy_In. intuition.
Qed.

Lemma head_sort_least (l : list A) :
  l <> [] ->
  exists x, head (JS.sort cmp l) = Some x /\ In x l /\ Forall (fun y => key x <= key y) l.
Proof.
  intros Hne. unfold JS.sort.
  destruct (fold_insertBy l [] I) as [H1 H2].
  destruct (fold_left (fun acc x => JS.insertBy cmp x acc) l []) as [|m sorted] eqn:E.
  - destruct l as [|x l]; [congruence|]. exfalso.
    destruct (H2 x) as [_ H]. apply H. left. left. reflexivity.
  - exists m. cbn in *. split; [reflexivity|]. split.
    + destruct (H2 m) as [H _]. destruct H as [H|[]]; [left; reflexivity|exact H].
    + rewrite Forall_forall in *. intros y Hy. apply H1. apply H2. left. exact Hy.
Qed.
End Sorting.

Lemma singleConditions_spec (candidates : list Node.t) :
  Forall (fun m => EntityManager.singleCondition m <> None) candidates ->
  length (singleConditions candidates) = length candidates /\
  (forall m c, In (m, c) (singleConditions candidates)
               <-> In m candidates /\ EntityManager.singleCondition m = Some c).
Proof.
  unfold singleConditions.
  induction candidates as [|m0 candidates IH]; intros Hall; cbn.
  - split; [reflexivity|]. intuition.
  - inversion Hall as [|? ? Hm0 Hrest]; subst. destruct (IH Hrest) as [Hlen Hin].
    destruct (EntityManager.singleCondition m0) as [c0|] eqn:E0; [|congruence]. cbn.
    split; [rewrite Hlen; reflexivity|].
    intros m c. rewrite Hin. split.
    + intros [H|H]; [inversion H; subst; auto|]. destruct H; auto.
    + intros [[->|H] Hc]; [left; congruence|right; auto].
Qed.

Lemma filter_all {A : Type} (p : A -> bool) (l : list A) :
  forallb p l = true -> List.filter p l = l.
Proof.
  induction l as [|x l IH]; cbn; [reflexivity|].
  destruct (p x); cbn; [|discriminate]. intros H. rewrite IH by exact H. reflexivity.
Qed.

Lemma filter_none_shorter {A : Type} (p : A -> bool) (l : list A) :
  l <> [] -> forallb (fun x => negb (p x)) l = true ->
  Nat.eqb (length (List.filter p l)) (length l) = false.
Proof.
  intros Hne Hall.
  assert (Hf : List.filter p l = []).
  { induction l as [|x l IH]; [reflexivity|]. cbn in *.
    destruct (p x); cbn in *; [discriminate|].
    destruct l as [|y l]; [reflexivity|]. apply IH; [discriminate|exact Hall]. }
  rewrite Hf. destruct l; [congruence|reflexivity].
Qed.

Lemma getMostSpecificModifier_le (candidates : list Node.t) :
  comparable EntityManager.isLe candidates ->
  exists m c,
    EntityManager.getMostSpecificModifier candidates = Some m /\
    In m candidates /\ EntityManager.singleCondition m = Some c /\
    Forall (fun c' => SCond.value c <= thresholdOf c') (singleConditions candidates).
Proof.
  intros (Hne & Hall & Hsame & Hdir).
  destruct (singleConditions_spec candidates Hall) as [Hlen Hin].
  assert (Hne' : singleConditions candidates <> []).
  { intros E. rewrite E in Hlen. destruct candidates; [congruence|discriminate]. }
  destruct (head_sort_least
              (fun a b => SCond.value (snd a) - SCond.value (snd b)) thresholdOf
              (fun a b => eq_refl) (singleConditions candidates) Hne')
    as ([m c] & Hhead & Hmem & Hleast).
  pose proof (filter_all _ _ Hdir) as Hfilter.
  unfold EntityManager.getMostSpecificModifier. cbv zeta.
  unfold singleConditions in Hlen, Hsame, Hfilter, Hhead.
  rewrite Hfilter, Hlen, !Nat.eqb_refl, Hsame, Hhead. exists m, c. apply Hin in Hmem. destruct Hmem as [Hm Hc].
  repeat split; assumption.
Qed.

Lemma isGe_not_isLe (c : Node.t * SCond.t) :
  EntityManager.isGe c = true -> negb (EntityManager.isLe c) = true.
Proof.
  unfold EntityManager.isGe, EntityManager.isLe, JS.strIs.
  destruct (SCond.operator (snd c)) as [o|]; [|discriminate].
  intros H. apply orb_true_iff in H. destruct H as [H|H]; apply String.eqb_eq in H; subst o;
    reflexivity.
Qed.

Lemma getMostSpecificModifier_ge (candidates : list Node.t) :
  comparable EntityManager.isGe candidates ->
  exists m c,
    EntityManager.getMostSpecificModifier candidates = Some m /\
    In m candidates /\ EntityManager.singleCondition m = Some c /\
    Forall (fun c' => thresholdOf c' <= SCond.value c) (singleConditions candidates).
Proof.
  intros (Hne & Hall & Hsame & Hdir).
  assert (Hnle : forallb (fun c => negb (EntityManager.isLe c)) (singleConditions candidates)
                 = true).
  { rewrite forallb_forall in *. intros c Hc. apply isGe_not_isLe, Hdir, Hc. }
  destruct (singleConditions_spec candidates Hall) as [Hlen Hin].
  assert (Hne' : singleConditions candidates <> []).
  { intros E. rewrite E in Hlen. destruct candidates; [congruence|discriminate]. }
  destruct (head_sort_least
              (fun a b => SCond.value (snd b) - SCond.value (snd a))
              (fun c => - thresholdOf c)
              (fun a b => ltac:(unfold thresholdOf; lia)) (singleConditions candidates) Hne')
    as ([m c] & Hhead & Hmem & Hleast).
  pose proof (filter_all _ _ Hdir) as Hfilter.
  pose proof (filter_none_shorter _ _ Hne' Hnle) as Hshort.
  unfold EntityManager.getMostSpecificModifier. cbv zeta.
  unfold singleConditions in Hlen, Hsame, Hfilter, Hshort, Hhead.
  rewrite Hshort, Hfilter, Hlen, !Nat.eqb_refl, Hsame, Hhead. exists m, c. apply Hin in Hmem. destruct Hmem as [Hm Hc].
  repeat split; try assumption.
  eapply Forall_impl; [|exact Hleast]. cbn. unfold thresholdOf. cbn. intros; lia.
Qed.

(** C3. Among several qualifying members of an exclusive group whose
    triggers have one condition each, all on one target: when all operators
    are < or <= the arbiter picks a candidate of the lowest threshold, when
    all are > or >= one of the highest. In scenario S2 (lightly_wounded
    hp<=80, wounded hp<=50, critical hp<=20, exclusive with each other) only
    critical is active at hp = 15, only wounded at 45, none at 90. With
    operators of both directions the arbiter does not take the first
    candidate in config declaration order: with 'low' (hp <= 50) declared
    before 'high' (hp >= 10, exclusive with 'low'), both qualifying at
    hp = 30, it activates 'high', the first member of the group in the
    order the exclusion map was traversed. *)
Theorem exclusive_fallback_takes_group_order :
  (forall candidates : list Node.t,
      comparable EntityManager.isLe candidates ->
      exists m c,
        EntityManager.getMostSpecificModifier candidates = Some m /\
        In m candidates /\ EntityManager.singleCondition m = Some c /\
        Forall (fun c' => SCond.value c <= thresholdOf c') (singleConditions candidates)) /\
  (forall candidates : list Node.t,
      comparable EntityManager.isGe candidates ->
      exists m c,
        EntityManager.getMostSpecificModifier candidates = Some m /\
        In m candidates /\ EntityManager.singleCondition m = Some c /\
        Forall (fun c' => thresholdOf c' <= SCond.value c) (singleConditions candidates)) /\
  (let w15 := Scenario.setHp 15 Scenario.wWounds in
   let w45 := Scenario.setHp 45 w15 in
   let w90 := Scenario.setHp 90 w45 in
   Scenario.modifiersAt 0%nat w15 = Some ["critical"] /\
   Scenario.modifiersAt 0%nat w45 = Some ["wounded"] /\
   Scenario.modifiersAt 0%nat w90 = Some []) /\
  (let modifiers := SpawnManager._thresholdModifiers Scenario.cfgMixed in
   map Node.id modifiers = ["low"; "high"] /\
   option_map
     (fun e => map (fun m => EntityManager.evaluateModifierTrigger (Some Scenario.cfgMixed) e
                               (EntityManager.triggerOf m)) modifiers)
     Scenario.eMixed = Some [true; true] /\
   option_map Node.id (EntityManager.getMostSpecificModifier modifiers) = Some "low" /\
   option_map
     (fun e => EntityManager.resolveExclusiveGroups (Some Scenario.cfgMixed) e
                 (SpawnManager._exclusiveGroups Scenario.cfgMixed) modifiers)
     Scenario.eMixed = Some [("high", true); ("low", false)] /\
   Scenario.modifiersAt 0%nat (Scenario.setHp 30 Scenario.wMixed) = Some ["high"]).
Proof.
  split; [exact getMostSpecificModifier_le|].
  split; [exact getMostSpecificModifier_ge|].
  split; vm_compute; repeat split; reflexivity.
Qed.

Lemma exclusive_fallback_takes_group_order_witness :
  exists m c,
    EntityManager.getMostSpecificModifier (SpawnManager._thresholdModifiers Scenario.cfgWounds)
    = Some m /\
    In m (SpawnManager._thresholdModifiers Scenario.cfgWounds) /\
    EntityManager.singleCondition m = Some c /\
    Forall (fun c' => SCond.value c <= thresholdOf c')
      (singleConditions (SpawnManager._thresholdModifiers Scenario.cfgWounds)).
Proof.
  apply (proj1 exclusive_fallback_takes_group_order).
  unfold comparable. split; [vm_compute; discriminate|].
  split; [vm_compute; repeat (constructor; [discriminate|]); constructor|].
  split; reflexivity.
Defined.

(** ** One pass of the threshold arbiter flushes at most one cascade *)

Lemma skipn_app_exact {A : Type} (l evs : list A) : skipn (length l) (l ++ evs) = evs.
Proof. rewrite skipn_app, skipn_all, Nat.sub_diag. reflexivity. Qed.

Lemma batching_now w0 entity :
  hoare (batching w0 entity) (liftH Date_now) (fun _ => batching w0 entity).
Proof. intros w H. unfold liftH, Date_now. cbn. destruct w; exact H. Qed.

Lemma batching_update w0 entity (l : loc) (g : Entity.t -> Entity.t) :
  hoare (batching w0 entity) (update l g) (fun _ => batching w0 entity).
Proof.
  intros w (Hb & Hc & Hl & Hev). unfold update, modify. cbn.
  destruct (World.heap w !! l) as [e|]; [|split_and!; assumption].
  pose proof (length_insert (World.heap w) l (g e)) as Hlen.
  destruct w; cbn in *. split_and!; try assumption. rewrite <- Hlen in Hl. exact Hl.
Qed.

Lemma batching_runCascade w0 entity (l : loc) :
  hoare (batching w0 entity) (EntityManager._runCascade l)
    (fun _ => batchingDirty w0 entity).
Proof.
  intros w (Hb & Hc & Hl & evs & Hev & Hd).
  unfold EntityManager._runCascade, bind, gets. rewrite Hb. unfold modify. cbn.
  destruct w; cbn in *. split_and!; cbn; try assumption; try reflexivity.
  exists evs. exact Hev.
Qed.

Lemma batching_emit_change w0 entity (event : string) (data : JS.Obj string) :
  isModifierChange (Event.mk event data) = true ->
  hoare (batchingDirty w0 entity) (EntityManager.emit event data)
    (fun _ => batching w0 entity).
Proof.
  intros Hchange w (Hb & Hc & Hl & [evs Hev] & Hd).
  unfold EntityManager.emit, modify. cbn. destruct w; cbn in *.
  split_and!; cbn; try assumption.
  exists (evs ++ [Event.mk event data]). split.
  - rewrite Hev, app_assoc. reflexivity.
  - rewrite existsb_app. cbn [existsb]. rewrite Hchange, Hd, orb_true_r. reflexivity.
Qed.

Lemma batching_applyModifier w0 entity entityId modifierId config :
  hoare (batching w0 entity) (EntityManager.applyModifier entityId modifierId config)
    (fun _ => batching w0 entity).
Proof.
  unfold EntityManager.applyModifier, EntityManager.retrieve.
  apply hoare_gets_any. intros [l|]; [|apply hoare_ret; auto].
  eapply hoare_bind; [apply batching_now|]. intros now.
  eapply hoare_bind; [apply batching_update|]. intros ?.
  eapply hoare_bind; [apply batching_runCascade|]. intros ?.
  eapply hoare_bind; [apply batching_emit_change; reflexivity|]. intros ?.
  apply hoare_ret. auto.
Qed.

Lemma batching_removeModifier w0 entity entityId modifierId :
  hoare (batching w0 entity) (EntityManager.removeModifier entityId modifierId)
    (fun _ => batching w0 entity).
Proof.
  unfold EntityManager.removeModifier, EntityManager.retrieve, deref.
  apply hoare_gets_any. intros [l|]; [|apply hoare_ret; auto].
  apply hoare_gets_any. intros [e|]; [|apply hoare_ret; auto].
  destruct (JS.indexOf modifierId (Entity.modifiers e)) as [index|]; [|apply hoare_ret; auto].
  eapply hoare_bind; [apply batching_update|]. intros ?.
  eapply hoare_bind; [apply batching_runCascade|]. intros ?.
  eapply hoare_bind; [apply batching_emit_change; reflexivity|]. intros ?.
  apply hoare_ret. auto.
Qed.

Lemma batching_checkModifier w0 entity cfg groupWinners (modifier : Node.t) :
  hoare (batching w0 entity) (EntityManager.checkModifier cfg groupWinners entity modifier)
    (fun _ => batching w0 entity).
Proof.
  unfold EntityManager.checkModifier, deref.
  apply hoare_gets_any. intros [e|]; [|apply hoare_ret; auto].
  cbv zeta.
  destruct (JS.get (Node.id modifier) groupWinners) as [groupResult|].
  - destruct (groupResult && negb _).
    + eapply hoare_bind; [apply batching_applyModifier|]. intros ?. apply hoare_ret. auto.
    + destruct (negb groupResult && _); [|apply hoare_ret; auto].
      eapply hoare_bind; [apply batching_removeModifier|]. intros ?. apply hoare_ret. auto.
  - destruct (negb _ && _).
    + eapply hoare_bind; [apply batching_applyModifier|]. intros ?. apply hoare_ret. auto.
    + destruct (_ && _); [|apply hoare_ret; auto].
      destruct (EntityManager.evaluateRemoveConditions _ _ _); [|apply hoare_ret; auto].
      eapply hoare_bind; [apply batching_removeModifier|]. intros ?. apply hoare_ret. auto.
Qed.

(* the flush of a dirty batch: the three functions, once *)
Lemma cascadeTriple_calls cfg (entity : loc) (w : World.t) :
  (entity < length (World.heap w))%nat ->
  Host.calls (World.host (snd (EntityManager.cascadeTriple cfg entity w)))
  = Host.calls (World.host w) ++ cascadeTripleCalls /\
  World.events (snd (EntityManager.cascadeTriple cfg entity w)) = World.events w.
Proof.
  intros Hl.
  assert (Hsome : exists e, World.heap w !! entity = Some e)
    by (apply lookup_lt_is_Some_2; exact Hl).
  destruct Hsome as [e He].
  unfold EntityManager.cascadeTriple, onEntity, deref, bind, gets. cbv beta iota.
  rewrite He.
  unfold liftH, SpawnManager.spied, spy, hbind, hret, update, modify, ret. cbn.
  destruct w; cbn in *. rewrite He. cbn. rewrite <- !app_assoc. split; reflexivity.
Qed.

Lemma checkModifierThresholds_calls (w : World.t) (entity : loc) (cfg : Config.t)
    (e : Entity.t) :
  World.spawnManager w = Some cfg ->
  World.heap w !! entity = Some e ->
  let w' := snd (EntityManager.checkModifierThresholds entity w) in
  callsSince w w'
  = (if existsb isModifierChange (eventsSince w w') then cascadeTripleCalls else []) /\
  Host.calls (World.host w') = Host.calls (World.host w) ++ callsSince w w'.
Proof.
  intros Hsm He.
  enough (Hh : hoare (fun w' => w' = w) (EntityManager.checkModifierThresholds entity)
                 (fun _ w' =>
                    exists evs,
                      World.events w' = World.events w ++ evs /\
                      Host.calls (World.host w')
                      = Host.calls (World.host w)
                        ++ (if existsb isModifierChange evs then cascadeTripleCalls else []))).
  { destruct (Hh w eq_refl) as (evs & Hev & Hc). cbv zeta.
    unfold callsSince, eventsSince. rewrite Hev, Hc, !skipn_app_exact. split; reflexivity. }
  unfold EntityManager.checkModifierThresholds, deref.
  apply hoare_gets_val with (v := Some cfg); [intros w' ->; exact Hsm|].
  apply hoare_gets_val with (v := Some e); [intros w' ->; exact He|].
  cbv beta iota zeta.
  eapply hoare_bind with (R := fun _ => batching w entity).
  { intros w' ->. unfold modify. cbn. destruct w; cbn in *.
    split_and!; cbn; try reflexivity.
    - eapply lookup_lt_Some. exact He.
    - exists []. rewrite app_nil_r. split; reflexivity. }
  intros ?.
  eapply hoare_bind; [apply hoare_forEach; intros m _; apply batching_checkModifier|].
  intros ?.
  eapply hoare_bind
    with (R := fun _ w1 =>
                 Host.calls (World.host w1) = Host.calls (World.host w) /\
                 (entity < length (World.heap w1))%nat /\
                 exists evs,
                   World.events w1 = World.events w ++ evs /\
                   World.cascadeDirty w1 = existsb isModifierChange evs).
  { intros w1 (Hb & Hc & Hl & Hev). unfold modify. destruct w1; cbn in *. auto. }
  intros ?.
  intros w2 (Hc & Hl & evs & Hev & Hd).
  exists evs. rewrite <- Hd. unfold bind, modify, gets. cbv beta iota.
  destruct (World.cascadeDirty w2).
  - destruct (cascadeTriple_calls cfg entity
                (World.set_cascadeEntity None (World.set_cascadeDirty false w2)))
      as [Hcalls Hevents].
    { destruct w2; exact Hl. }
    rewrite Hcalls, Hevents. destruct w2; cbn in *. rewrite Hc, Hev. split; reflexivity.
  - unfold ret. cbn [snd]. rewrite Hc, Hev, app_nil_r. split; reflexivity.
Qed.

(** C2. One call of checkModifierThresholds(entity) runs the cascade triple
    (recalculateRates, checkCompounds, calculateDerived) exactly once when
    the pass applied or removed at least one modifier, and not at all
    otherwise: what the spy sees during the call is the triple, once, or
    nothing. In scenario S3, for every base rate and every two amounts, the
    pass applies both modifiers, recalculateRates is called exactly once and
    the variable's currentRate is baseRate + delta1 + delta2. Without a
    linked SpawnManager the call does nothing. *)
Theorem checkModifierThresholds_cascades_once :
  (forall (w : World.t) (entity : loc) (cfg : Config.t) (e : Entity.t),
      World.spawnManager w = Some cfg ->
      World.heap w !! entity = Some e ->
      let w' := snd (EntityManager.checkModifierThresholds entity w) in
      callsSince w w'
      = (if existsb isModifierChange (eventsSince w w') then cascadeTripleCalls else []) /\
      Host.calls (World.host w') = Host.calls (World.host w) ++ callsSince w w') /\
  (forall baseRate delta1 delta2 : Z,
      let w := Scenario.wBatch baseRate delta1 delta2 in
      let w' := Scenario.wBatched baseRate delta1 delta2 in
      Scenario.modifiersAt 0%nat w = Some [] /\
      option_map (rateOf "energy") (Scenario.entityAt 0%nat w) = Some (Some baseRate) /\
      Scenario.modifiersAt 0%nat w' = Some ["bleeding"; "panicked"] /\
      count_occ String.string_dec (callsSince w w') "recalculateRates" = 1%nat /\
      callsSince w w' = cascadeTripleCalls /\
      option_map (rateOf "energy") (Scenario.entityAt 0%nat w')
      = Some (Some (baseRate + delta1 + delta2))) /\
  (forall (w : World.t) (entity : loc),
      World.spawnManager w = None ->
      EntityManager.checkModifierThresholds entity w = (tt, w)).
Proof.
  split; [|split].
  - intros w entity cfg e Hsm He. apply (checkModifierThresholds_calls w entity cfg e Hsm He).
  - intros baseRate delta1 delta2. vm_compute. repeat split; reflexivity.
  - intros w entity Hsm. unfold EntityManager.checkModifierThresholds, bind, gets, deref.
    rewrite Hsm. reflexivity.
Qed.

Lemma checkModifierThresholds_cascades_once_witness :
  let w := Scenario.wBatch 3 5 7 in
  let w' := snd (EntityManager.checkModifierThresholds 0%nat w) in
  callsSince w w'
  = (if existsb isModifierChange (eventsSince w w') then cascadeTripleCalls else []) /\
  Host.calls (World.host w') = Host.calls (World.host w) ++ callsSince w w'.
Proof.
  assert (He : exists e, World.heap (Scenario.wBatch 3 5 7) !! 0%nat = Some e)
    by (vm_compute; eexists; reflexivity).
  destruct He as [e He].
  apply (proj1 checkModifierThresholds_cascades_once (Scenario.wBatch 3 5 7) 0%nat
           (Scenario.cfgBatch 3 5 7) e); [reflexivity|exact He].
Defined.

(** ** Variables stay within their bounds *)

Section Setters.
Variable e : Entity.t.

Lemma variables_set_id x : Entity.variables (Entity.set_id x e) = Entity.variables e.
Proof. destruct e; reflexivity. Qed.
Lemma variables_set_createdAt x :
  Entity.variables (Entity.set_createdAt x e) = Entity.variables e.
Proof. destruct e; reflexivity. Qed.
Lemma variables_set_presetId x :
  Entity.variables (Entity.set_presetId x e) = Entity.variables e.
Proof. destruct e; reflexivity. Qed.
Lemma variables_set_name x : Entity.variables (Entity.set_name x e) = Entity.variables e.
Proof. destruct e; reflexivity. Qed.
Lemma variables_set_attributes x :
  Entity.variables (Entity.set_attributes x e) = Entity.variables e.
Proof. destruct e; reflexivity. Qed.
Lemma variables_set_variables x : Entity.variables (Entity.set_variables x e) = x.
Proof. destruct e; reflexivity. Qed.
Lemma variables_set_contexts x :
  Entity.variables (Entity.set_contexts x e) = Entity.variables e.
Proof. destruct e; reflexivity. Qed.
Lemma variables_set_layers x : Entity.variables (Entity.set_layers x e) = Entity.variables e.
Proof. destruct e; reflexivity. Qed.
Lemma variables_set_modifiers x :
  Entity.variables (Entity.set_modifiers x e) = Entity.variables e.
Proof. destruct e; reflexivity. Qed.
Lemma variables_set_modifierStates x :
  Entity.variables (Entity.set_modifierStates x e) = Entity.variables e.
Proof. destruct e; reflexivity. Qed.
Lemma variables_set_compounds x :
  Entity.variables (Entity.set_compounds x e) = Entity.variables e.
Proof. destruct e; reflexivity. Qed.
Lemma variables_set_derived x :
  Entity.variables (Entity.set_derived x e) = Entity.variables e.
Proof. destruct e; reflexivity. Qed.
Lemma variables_set_actions x :
  Entity.variables (Entity.set_actions x e) = Entity.variables e.
Proof. destruct e; reflexivity. Qed.
Lemma variables_set_poolId x : Entity.variables (Entity.set_poolId x e) = Entity.variables e.
Proof. destruct e; reflexivity. Qed.
Lemma variables_set_log x : Entity.variables (Entity.set_log x e) = Entity.variables e.
Proof. destruct e; reflexivity. Qed.
Lemma variables_set_lastTick x :
  Entity.variables (Entity.set_lastTick x e) = Entity.variables e.
Proof. destruct e; reflexivity. Qed.
End Setters.

Create Rewrite HintDb vars.
#[local] Hint Rewrite variables_set_id variables_set_createdAt variables_set_presetId
  variables_set_name variables_set_attributes variables_set_variables variables_set_contexts
  variables_set_layers variables_set_modifiers variables_set_modifierStates
  variables_set_compounds variables_set_derived variables_set_actions variables_set_poolId
  variables_set_log variables_set_lastTick : vars.

(* a function made of setters of other fields *)
Ltac vars_tac :=
  repeat match goal with
    | |- context [match ?x with _ => _ end] => destruct x
    end;
  cbn [fst snd]; autorewrite with vars; try reflexivity.

Lemma fold_left_vars {X : Type} (f : Entity.t -> X -> Entity.t) (l : list X) :
  (forall e x, Entity.variables (f e x) = Entity.variables e) ->
  forall e, Entity.variables (fold_left f l e) = Entity.variables e.
Proof.
  intros Hf. induction l as [|x l IH]; intros e; cbn; [reflexivity|].
  rewrite IH. apply Hf.
Qed.

Lemma vars_log now event data e :
  Entity.variables (SpawnManager.log now event data e) = Entity.variables e.
Proof. unfold SpawnManager.log. vars_tac. Qed.

Lemma vars_setLayerActive layerId active e :
  Entity.variables (SpawnManager.setLayerActive layerId active e) = Entity.variables e.
Proof. unfold SpawnManager.setLayerActive. vars_tac. Qed.

Lemma vars_ensureLayer layerId e :
  Entity.variables (SpawnManager.ensureLayer layerId e) = Entity.variables e.
Proof. unfold SpawnManager.ensureLayer. vars_tac. Qed.

Lemma vars_deactivateTrait cfg e traitId :
  Entity.variables (snd (SpawnManager.deactivateTrait cfg e traitId)) = Entity.variables e.
Proof.
  unfold SpawnManager.deactivateTrait. vars_tac. apply vars_setLayerActive.
Qed.

Lemma vars_activateTrait cfg now e traitId :
  Entity.variables (snd (SpawnManager.activateTrait cfg now e traitId)) = Entity.variables e.
Proof.
  unfold SpawnManager.activateTrait.
  destruct (SpawnManager.getNode cfg traitId) as [trait|]; [|reflexivity].
  destruct (negb _); [reflexivity|]. cbv zeta.
  destruct (JS.includes _ _); cbn [snd]; [apply vars_ensureLayer|].
  rewrite vars_log, vars_setLayerActive, fold_left_vars; [apply vars_ensureLayer|].
  intros e' x. apply vars_deactivateTrait.
Qed.

Lemma vars_forceActivateTrait cfg e traitId :
  Entity.variables (snd (SpawnManager.forceActivateTrait cfg e traitId))
  = Entity.variables e.
Proof.
  unfold SpawnManager.forceActivateTrait.
  destruct (SpawnManager.getNode cfg traitId) as [trait|]; [|reflexivity].
  destruct (negb _); [reflexivity|]. cbv zeta.
  destruct (JS.includes _ _); cbn [snd]; [apply vars_ensureLayer|].
  rewrite vars_setLayerActive. apply vars_ensureLayer.
Qed.

Lemma vars_checkCompounds cfg e :
  Entity.variables (SpawnManager.checkCompounds cfg e) = Entity.variables e.
Proof.
  unfold SpawnManager.checkCompounds. apply fold_left_vars. intros e' c.
  unfold SpawnManager.checkCompound. vars_tac.
Qed.

Lemma vars_calculateDerived cfg e :
  Entity.variables (SpawnManager.calculateDerived cfg e) = Entity.variables e.
Proof.
  unfold SpawnManager.calculateDerived. apply fold_left_vars. intros e' d.
  unfold SpawnManager.calculateDerived1. vars_tac.
Qed.

Lemma vars_initActions cfg e :
  Entity.variables (SpawnManager.initActions cfg e) = Entity.variables e.
Proof.
  unfold SpawnManager.initActions. apply fold_left_vars. intros e' a. vars_tac.
Qed.

Lemma vars_remainingOverrides overrides e :
  Entity.variables (SpawnManager.remainingOverrides overrides e) = Entity.variables e.
Proof.
  unfold SpawnManager.remainingOverrides. apply fold_left_vars. intros e' kv. vars_tac.
Qed.

Lemma vars_setLastRoll now layerId e :
  Entity.variables (SpawnManager.setLastRoll now layerId e) = Entity.variables e.
Proof. unfold SpawnManager.setLastRoll. vars_tac. Qed.

Lemma vars_activateSelected cfg now e selected :
  Entity.variables (SpawnManager.activateSelected cfg now e selected) = Entity.variables e.
Proof.
  unfold SpawnManager.activateSelected. apply fold_left_vars. intros e' [t|]; [|reflexivity].
  apply vars_activateTrait.
Qed.

Lemma hresult_ret {A : Type} (a : A) (P : A -> Prop) : P a -> hresult (hret a) P.
Proof. intros H h. exact H. Qed.

Lemma hresult_bind {A B : Type} (m : H A) (k : A -> H B) (P : B -> Prop) :
  (forall a, hresult (k a) P) -> hresult (hbind m k) P.
Proof. intros Hk h. unfold hbind. destruct (m h) as [a h']. apply Hk. Qed.

Lemma hresult_bind_with {A B : Type} (m : H A) (k : A -> H B) (Q : A -> Prop)
    (P : B -> Prop) :
  hresult m Q -> (forall a, Q a -> hresult (k a) P) -> hresult (hbind m k) P.
Proof.
  intros Hm Hk h. unfold hbind. specialize (Hm h). destruct (m h) as [a h']. apply Hk, Hm.
Qed.

Lemma hresult_hfold {X S : Type} (f : S -> X -> H S) (l : list X) (P : S -> Prop) :
  (forall s x, P s -> hresult (f s x) P) -> forall s, P s -> hresult (hfold f l s) P.
Proof.
  intros Hf. induction l as [|x l IH]; intros s Hs; cbn.
  - apply hresult_ret. exact Hs.
  - apply hresult_bind_with with (Q := P); [apply Hf, Hs|]. intros s' Hs'. apply IH, Hs'.
Qed.

Lemma vars_rollLayer cfg e layerId :
  hresult (SpawnManager.rollLayer cfg e layerId)
    (fun r => Entity.variables (snd r) = Entity.variables e).
Proof.
  unfold SpawnManager.rollLayer.
  destruct (SpawnManager.getNode cfg layerId) as [layer|]; [|apply hresult_ret; reflexivity].
  destruct (Node.layer layer) as [selection|]; [|apply hresult_ret; reflexivity].
  cbv zeta. destruct (Z.geb _ _); [apply hresult_ret; reflexivity|].
  apply hresult_bind. intros result.
  destruct (SpawnManager.RollResult.selected result) as [[|t ts]|]; try (apply hresult_ret; reflexivity).
  apply hresult_bind. intros now. apply hresult_ret. cbn [snd].
  rewrite vars_setLastRoll. apply vars_activateSelected.
Qed.

Lemma vars_rollInitial cfg n layerId :
  forall e, hresult (SpawnManager.rollInitial cfg n layerId e)
              (fun e' => Entity.variables e' = Entity.variables e).
Proof.
  induction n as [|n IH]; intros e; cbn.
  - apply hresult_ret. reflexivity.
  - eapply hresult_bind_with; [apply vars_rollLayer|]. intros r Hr.
    intros h. rewrite (IH (snd r) h). exact Hr.
Qed.

Lemma vars_spawnStep cfg overrides e item :
  hresult (SpawnManager.spawnStep cfg overrides e item)
    (fun e' => Entity.variables e' = Entity.variables e).
Proof.
  unfold SpawnManager.spawnStep. cbv zeta.
  destruct (String.eqb _ "attribute").
  - destruct (JS.get _ _).
    + apply hresult_ret. vars_tac.
    + apply hresult_bind. intros v. apply hresult_ret. vars_tac.
  - destruct (String.eqb _ "layer"); [apply vars_rollInitial|apply hresult_ret; reflexivity].
Qed.

(** The rates change, the values and the bounds do not. *)

Lemma map_set_same {V W : Type} (g : string * V -> string * W) (k : string) (v v' : V)
    (o : JS.Obj V) :
  (forall k0 v0, fst (g (k0, v0)) = k0) ->
  JS.get k o = Some v -> g (k, v') = g (k, v) -> map g (JS.set k v' o) = map g o.
Proof.
  intros Hfst Hget Hg. induction o as [|[k0 v0] o IH]; cbn in *; [discriminate|].
  destruct (String.eqb k k0) eqn:E.
  - apply String.eqb_eq in E. subst k0. inversion Hget; subst v0. cbn. rewrite Hg.
    reflexivity.
  - cbn. rewrite IH by exact Hget. reflexivity.
Qed.

Lemma ranges_recalculateRates cfg e :
  ranges (SpawnManager.recalculateRates cfg e) = ranges e.
Proof.
  unfold SpawnManager.recalculateRates.
  generalize (SpawnManager.getVariables cfg). intros nodes. revert e.
  induction nodes as [|n nodes IH]; intros e; cbn; [reflexivity|].
  rewrite IH. unfold SpawnManager.recalculateRate.
  destruct (JS.get (Node.id n) (Entity.variables e)) as [vs|] eqn:E; [|reflexivity].
  unfold ranges. rewrite variables_set_variables.
  apply map_set_same with (v := vs); [reflexivity|exact E|]. destruct vs; reflexivity.
Qed.

Lemma ranges_vars e e' : Entity.variables e' = Entity.variables e -> ranges e' = ranges e.
Proof. unfold ranges. intros ->. reflexivity. Qed.

Lemma get_ranges k e :
  JS.get k (ranges e) = option_map range (JS.get k (Entity.variables e)).
Proof.
  unfold ranges. induction (Entity.variables e) as [|[k0 v0] o IH]; cbn; [reflexivity|].
  destruct (String.eqb k k0); [reflexivity|exact IH].
Qed.

Lemma keys_ranges e : JS.keys (ranges e) = JS.keys (Entity.variables e).
Proof. unfold ranges, JS.keys. rewrite map_map. reflexivity. Qed.

Lemma conforms_ranges cfg e e' : ranges e' = ranges e -> conforms cfg e -> conforms cfg e'.
Proof.
  intros Hr [Hnd He]. split.
  { rewrite <- keys_ranges, Hr, keys_ranges. exact Hnd. }
  intros k vs' Hget.
  pose proof (get_ranges k e') as H'. rewrite Hr, get_ranges, Hget in H'. cbn in H'.
  destruct (JS.get k (Entity.variables e)) as [vs|] eqn:E; [|discriminate].
  cbn in H'. inversion H' as [[Hv Hlo Hhi]].
  destruct (He k vs E) as [Hb [H1 H2]]. unfold inRange.
  rewrite <- Hv, <- Hlo, <- Hhi. auto.
Qed.

Lemma conforms_vars cfg e e' :
  Entity.variables e' = Entity.variables e -> conforms cfg e -> conforms cfg e'.
Proof. intros Hv. apply conforms_ranges, ranges_vars, Hv. Qed.

(** Generation. *)

Lemma get_fold_set {V : Type} (mk : Node.t -> V) (nodes : list Node.t) (o : JS.Obj V)
    (k : string) :
  JS.get k (fold_left (fun o n => JS.set (Node.id n) (mk n) o) nodes o)
  = match find (fun n => String.eqb (Node.id n) k) (rev nodes) with
    | Some n => Some (mk n)
    | None => JS.get k o
    end.
Proof.
  induction nodes as [|n nodes IH] using rev_ind; [reflexivity|].
  rewrite fold_left_app, rev_app_distr. cbn. rewrite get_set.
  destruct (String.eqb (Node.id n) k); [reflexivity|exact IH].
Qed.

Lemma vars_initVariables (nodes : list Node.t) :
  forall e,
    Entity.variables (fold_left SpawnManager.initVariable nodes e)
    = fold_left (fun o n => JS.set (Node.id n) (initState n) o) nodes (Entity.variables e).
Proof.
  induction nodes as [|n nodes IH]; intros e; cbn; [reflexivity|].
  rewrite IH. unfold SpawnManager.initVariable. cbv zeta. rewrite variables_set_variables.
  reflexivity.
Qed.

Lemma vars_resetVariables (nodes : list Node.t) :
  forall e,
    Entity.variables (fold_left EntityManager.resetVariable nodes e)
    = fold_left (fun o n => JS.set (Node.id n) (resetState n) o) nodes (Entity.variables e).
Proof.
  induction nodes as [|n nodes IH]; intros e; cbn; [reflexivity|].
  rewrite IH. unfold EntityManager.resetVariable. cbv zeta. rewrite variables_set_variables.
  reflexivity.
Qed.

Lemma keys_set {V : Type} (k : string) (v : V) (o : JS.Obj V) :
  JS.keys (JS.set k v o) = if JS.has k o then JS.keys o else JS.keys o ++ [k].
Proof.
  unfold JS.has, JS.keys. induction o as [|[k0 v0] o IH]; cbn; [reflexivity|].
  destruct (String.eqb k k0) eqn:E; cbn.
  - apply String.eqb_eq in E. subst. reflexivity.
  - rewrite IH. destruct (JS.get k o); reflexivity.
Qed.

Lemma get_None_keys {V : Type} (k : string) (o : JS.Obj V) :
  JS.get k o = None -> ~ In k (JS.keys o).
Proof.
  unfold JS.keys. induction o as [|[k0 v0] o IH]; cbn; [auto|].
  destruct (String.eqb k k0) eqn:E; [discriminate|].
  intros H [Hk|Hk]; [subst; rewrite String.eqb_refl in E; discriminate|].
  apply IH; assumption.
Qed.

Lemma NoDup_keys_set {V : Type} (k : string) (v : V) (o : JS.Obj V) :
  List.NoDup (JS.keys o) -> List.NoDup (JS.keys (JS.set k v o)).
Proof.
  intros Hnd. rewrite keys_set. unfold JS.has.
  destruct (JS.get k o) eqn:E; [exact Hnd|].
  apply List.NoDup_app; [exact Hnd|constructor; [intros []|constructor]|].
  intros x Hx [<-|[]]. apply (get_None_keys k o E Hx).
Qed.

Lemma NoDup_keys_fold_set {V : Type} (mk : Node.t -> V) (nodes : list Node.t) :
  forall o : JS.Obj V,
    List.NoDup (JS.keys o) ->
    List.NoDup (JS.keys (fold_left (fun o n => JS.set (Node.id n) (mk n) o) nodes o)).
Proof.
  induction nodes as [|n nodes IH]; intros o Hnd; cbn; [exact Hnd|].
  apply IH, NoDup_keys_set, Hnd.
Qed.

Lemma In_get {V : Type} (k : string) (v : V) (o : JS.Obj V) :
  List.NoDup (JS.keys o) -> In (k, v) o -> JS.get k o = Some v.
Proof.
  unfold JS.keys. induction o as [|[k0 v0] o IH]; cbn; [intros _ []|].
  intros Hnd [Hin|Hin].
  - inversion Hin; subst. rewrite String.eqb_refl. reflexivity.
  - inversion Hnd as [|? ? Hnotin Hnd']; subst.
    destruct (String.eqb k k0) eqn:E.
    + apply String.eqb_eq in E. subst k0. exfalso. apply Hnotin.
      change k with (fst (k, v)). apply in_map. exact Hin.
    + apply IH; assumption.
Qed.

Lemma lastVariable_ranged cfg k n :
  rangedConfig cfg -> lastVariable cfg k = Some n -> minOf n <= initialOf n <= maxOf n.
Proof.
  intros Hcfg Hlast. unfold lastVariable in Hlast. apply find_some in Hlast.
  destruct Hlast as [Hin _]. apply in_rev in Hin.
  unfold rangedConfig in Hcfg. rewrite Forall_forall in Hcfg. apply Hcfg, Hin.
Qed.

(* an entity whose variables are the template conforms *)
Lemma template_conforms cfg e :
  rangedConfig cfg -> Entity.variables e = template cfg -> conforms cfg e.
Proof.
  intros Hcfg Hv. split.
  { rewrite Hv. apply NoDup_keys_fold_set. constructor. }
  intros k vs Hget. rewrite Hv in Hget. unfold template in Hget.
  rewrite get_fold_set in Hget. fold (lastVariable cfg k) in Hget.
  unfold boundsOf. destruct (lastVariable cfg k) as [n|] eqn:E; [|discriminate].
  inversion Hget; subst vs. cbn. split; [reflexivity|].
  apply (lastVariable_ranged cfg k n Hcfg E).
Qed.

Lemma hresult_spied (name : string) (f : Entity.t -> Entity.t) (e : Entity.t) :
  hresult (SpawnManager.spied name f e) (fun r => r = f e).
Proof. intros h. reflexivity. Qed.

Lemma generate_ranges cfg overrides :
  hresult (SpawnManager.generate cfg overrides)
    (fun e => exists e0, Entity.variables e0 = template cfg /\ ranges e = ranges e0).
Proof.
  unfold SpawnManager.generate.
  apply hresult_bind. intros entityId. apply hresult_bind. intros now. cbv zeta.
  eapply hresult_bind_with.
  { apply hresult_hfold with (P := fun e => Entity.variables e = template cfg).
    - intros s x Hs h. rewrite (vars_spawnStep cfg overrides s x h). exact Hs.
    - rewrite (fold_left_vars SpawnManager.initLayer)
        by (intros e x; unfold SpawnManager.initLayer; vars_tac).
      rewrite (fold_left_vars (SpawnManager.initContext overrides))
        by (intros e x; unfold SpawnManager.initContext; vars_tac).
      rewrite vars_initVariables. reflexivity. }
  intros e1 H1.
  eapply hresult_bind_with; [apply hresult_spied|]. intros e2 ->.
  eapply hresult_bind_with; [apply hresult_spied|]. intros e3 ->.
  eapply hresult_bind_with; [apply hresult_spied|]. intros e4 ->.
  apply hresult_bind. intros now'. apply hresult_ret.
  exists e1. split; [exact H1|].
  rewrite (ranges_vars _ _ (vars_log _ _ _ _)), (ranges_vars _ _ (vars_initActions _ _)),
    ranges_recalculateRates.
  apply ranges_vars.
  rewrite vars_calculateDerived, vars_checkCompounds. apply vars_remainingOverrides.
Qed.

Lemma generate_conforms cfg overrides :
  rangedConfig cfg -> hresult (SpawnManager.generate cfg overrides) (conforms cfg).
Proof.
  intros Hcfg h. destruct (generate_ranges cfg overrides h) as (e0 & Hv & Hr).
  apply (conforms_ranges cfg e0 _ Hr). apply template_conforms; assumption.
Qed.

Lemma spawn_conforms cfg presets presetId overrides :
  rangedConfig cfg ->
  hresult (SpawnManager.spawn cfg presets presetId overrides)
    (fun oe => forall e, oe = Some e -> conforms cfg e).
Proof.
  intros Hcfg. unfold SpawnManager.spawn.
  destruct (SpawnManager.getPreset presets presetId) as [preset|];
    [|apply hresult_ret; discriminate].
  apply hresult_bind. intros pa. apply hresult_bind. intros oa.
  apply hresult_bind. intros pt. apply hresult_bind. intros ot. cbv zeta.
  eapply hresult_bind_with; [apply generate_conforms, Hcfg|]. intros e0 He0.
  apply hresult_bind. intros now. apply hresult_ret. intros e He. inversion He; subst e.
  apply (conforms_vars cfg e0); [|exact He0].
  rewrite vars_log, variables_set_name, variables_set_presetId.
  apply fold_left_vars. intros e' t. apply vars_forceActivateTrait.
Qed.

(** The mutations of one entity. *)

Lemma vars_applyTo now modifierId config e :
  Entity.variables (EntityManager.applyTo now modifierId config e) = Entity.variables e.
Proof. unfold EntityManager.applyTo. cbv zeta. vars_tac. Qed.

Lemma vars_removeFrom modifierId index e :
  Entity.variables (EntityManager.removeFrom modifierId index e) = Entity.variables e.
Proof. unfold EntityManager.removeFrom. vars_tac. Qed.

Lemma vars_expireModifiers now e :
  Entity.variables (snd (EntityManager.expireModifiers now e)) = Entity.variables e.
Proof. unfold EntityManager.expireModifiers. vars_tac. Qed.

Lemma vars_tickCooldowns deltaSeconds e :
  Entity.variables (EntityManager.tickCooldowns deltaSeconds e) = Entity.variables e.
Proof. unfold EntityManager.tickCooldowns. vars_tac. Qed.

Lemma vars_clearLayers e : Entity.variables (EntityManager.clearLayers e) = Entity.variables e.
Proof. unfold EntityManager.clearLayers. vars_tac. Qed.

Lemma vars_prepareEntityForPool e :
  Entity.variables (EntityManager._prepareEntityForPool e) = Entity.variables e.
Proof. unfold EntityManager._prepareEntityForPool. rewrite vars_clearLayers. vars_tac. Qed.

Lemma clamp_range (lo hi v : Z) : lo <= hi -> lo <= JS.clamp lo hi v <= hi.
Proof. unfold JS.clamp. lia. Qed.

(* a write of one variable that keeps its bounds and gives a value within *)
Lemma conforms_set cfg e (k : string) (vs vs' : VarState.t) :
  conforms cfg e ->
  JS.get k (Entity.variables e) = Some vs ->
  VarState.min vs' = VarState.min vs -> VarState.max vs' = VarState.max vs ->
  inRange vs' ->
  conforms cfg (Entity.set_variables (JS.set k vs' (Entity.variables e)) e).
Proof.
  intros [Hnd He] Hget Hlo Hhi Hin. unfold conforms. rewrite variables_set_variables. split.
  { apply NoDup_keys_set, Hnd. }
  intros k' v' Hget'. rewrite get_set in Hget'.
  destruct (String.eqb k k') eqn:E; [|apply He, Hget'].
  apply String.eqb_eq in E. subst k'. inversion Hget'; subst v'.
  rewrite Hlo, Hhi. split; [apply (He k vs Hget)|exact Hin].
Qed.

Lemma conforms_writeValue cfg e (k : string) (v lo hi : Z) :
  conforms cfg e -> boundsOf cfg k = Some (lo, hi) -> lo <= v <= hi ->
  conforms cfg (EntityManager.writeValue k v e).
Proof.
  intros He Hb Hv. unfold EntityManager.writeValue.
  destruct (JS.get k (Entity.variables e)) as [vs|] eqn:E; [|exact He].
  apply (conforms_set cfg e k vs); try assumption; try (destruct vs; reflexivity).
  destruct (proj2 He k vs E) as [Hb' _]. rewrite Hb in Hb'. inversion Hb'; subst.
  destruct vs; exact Hv.
Qed.

Lemma conforms_restore cfg snap e :
  conforms cfg e -> snapConforms cfg snap -> conforms cfg (EntityManager.restore snap e).
Proof.
  intros He Hsnap. unfold EntityManager.restore. cbv zeta.
  set (e0 := Entity.set_derived _ _).
  assert (He0 : conforms cfg e0).
  { apply (conforms_vars cfg e); [|exact He]. unfold e0. autorewrite with vars. reflexivity. }
  clearbody e0. clear He e. unfold snapConforms in Hsnap.
  enough (Hfold : forall vars e1,
             Entity.variables e1 = vars -> conforms cfg e1 ->
             conforms cfg
               (Entity.set_variables
                  (fold_left EntityManager.restoreValue (Snapshot.variables snap) vars) e0)).
  { apply (Hfold (Entity.variables e0) e0 eq_refl He0). }
  induction (Snapshot.variables snap) as [|[k sv] entries IH]; intros vars e1 Hv He1; cbn.
  - apply (conforms_vars cfg e1); [|exact He1]. rewrite variables_set_variables. auto.
  - inversion Hsnap as [|? ? (lo & hi & Hb & Hrange) Hrest]; subst. cbn in Hb, Hrange.
    apply (IH Hrest _ (Entity.set_variables
                         (EntityManager.restoreValue (Entity.variables e1) (k, sv)) e1)).
    { rewrite variables_set_variables. reflexivity. }
    unfold EntityManager.restoreValue. cbn [fst snd].
    destruct (JS.get k (Entity.variables e1)) as [varState|] eqn:E.
    + apply (conforms_set cfg e1 k varState); try assumption;
        try (destruct varState; reflexivity).
      destruct (proj2 He1 k varState E) as [Hb' _]. rewrite Hb in Hb'.
      inversion Hb'; subst. destruct varState; exact Hrange.
    + apply (conforms_vars cfg e1); [|exact He1]. rewrite variables_set_variables. auto.
Qed.

Lemma conforms_deductCost cfg e (kv : string * Z) :
  0 <= snd kv -> conforms cfg e -> conforms cfg (SpawnManager.deductCost e kv).
Proof.
  intros Hcost He. unfold SpawnManager.deductCost.
  destruct (JS.get (fst kv) (Entity.variables e)) as [vs|] eqn:E; [|exact He].
  apply (conforms_set cfg e (fst kv) vs); try assumption; try (destruct vs; reflexivity).
  destruct (proj2 He _ vs E) as [_ Hr]. unfold inRange in *. destruct vs; cbn in *. lia.
Qed.

Lemma conforms_executeAction cfg now e actionId :
  nonNegativeCosts cfg -> conforms cfg e ->
  conforms cfg (snd (SpawnManager.executeAction cfg now e actionId)).
Proof.
  intros Hcosts He. unfold SpawnManager.executeAction.
  destruct (negb _); [exact He|]. cbv zeta. cbn [snd].
  eapply conforms_vars; [rewrite vars_log, variables_set_actions; reflexivity|].
  destruct (SpawnManager.getNode cfg actionId) as [action|] eqn:E; [|exact He].
  unfold SpawnManager.getNode in E. apply find_some in E. destruct E as [Hin _].
  apply in_rev in Hin. unfold nonNegativeCosts in Hcosts. rewrite Forall_forall in Hcosts.
  specialize (Hcosts action Hin).
  revert e He. induction (ActionCfg.costs (SpawnManager.actionCfg action)) as [|kv costs IH];
    intros e He; cbn; [exact He|].
  inversion Hcosts; subst. apply IH; [assumption|]. apply conforms_deductCost; assumption.
Qed.

Lemma conforms_reset cfg e0 e :
  rangedConfig cfg -> conforms cfg e0 ->
  Entity.variables e
  = fold_left (fun o n => JS.set (Node.id n) (resetState n) o) (SpawnManager.getVariables cfg)
      (Entity.variables e0) ->
  conforms cfg e.
Proof.
  intros Hcfg [Hnd He0] Hv. split.
  { rewrite Hv. apply NoDup_keys_fold_set, Hnd. }
  intros k vs Hget. rewrite Hv, get_fold_set in Hget. fold (lastVariable cfg k) in Hget.
  destruct (lastVariable cfg k) as [n|] eqn:E; [|apply He0, Hget].
  inversion Hget; subst vs. unfold boundsOf. rewrite E. cbn. split; [reflexivity|].
  pose proof (lastVariable_ranged cfg k n Hcfg E) as Hr.
  unfold inRange, resetState, initialOf in *. cbn.
  destruct (VariableCfg.initial (varCfg n)); cbn in *; lia.
Qed.

Lemma vars_resetAttribute cfg preset finalOverrides e attr :
  hresult (EntityManager.resetAttribute cfg preset finalOverrides e attr)
    (fun e' => Entity.variables e' = Entity.variables e).
Proof.
  unfold EntityManager.resetAttribute. cbv zeta.
  apply hresult_bind. intros v. apply hresult_ret. apply variables_set_attributes.
Qed.

Lemma vars_rerollLayer cfg e layer :
  hresult (EntityManager.rerollLayer cfg e layer)
    (fun e' => Entity.variables e' = Entity.variables e).
Proof.
  unfold EntityManager.rerollLayer. cbv zeta.
  destruct (_ || _); [|apply hresult_ret; reflexivity].
  eapply hresult_bind_with; [apply vars_rollLayer|]. intros r Hr. apply hresult_ret. exact Hr.
Qed.

Lemma resetEntity_conforms cfg presets presetIdOrOverrides overrides e :
  rangedConfig cfg -> conforms cfg e ->
  hresult (EntityManager.resetEntity cfg presets presetIdOrOverrides overrides e)
    (conforms cfg).
Proof.
  intros Hcfg He. unfold EntityManager.resetEntity. cbv zeta.
  apply hresult_bind. intros id. apply hresult_bind. intros now.
  eapply hresult_bind_with.
  { apply hresult_hfold with (P := fun e' => Entity.variables e' = Entity.variables e).
    - intros s x Hs h. rewrite (vars_resetAttribute _ _ _ s x h). exact Hs.
    - autorewrite with vars. reflexivity. }
  intros e1 H1. apply hresult_bind. intros now'.
  eapply hresult_bind_with.
  { apply hresult_hfold
      with (P := fun e' =>
                   Entity.variables e'
                   = fold_left (fun o n => JS.set (Node.id n) (resetState n) o)
                       (SpawnManager.getVariables cfg) (Entity.variables e)).
    - intros s x Hs h. rewrite (vars_rerollLayer cfg s x h). exact Hs.
    - autorewrite with vars. rewrite vars_clearLayers, vars_resetVariables, H1.
      reflexivity. }
  intros e2 H2. apply hresult_bind. intros pt. apply hresult_bind. intros ot.
  apply hresult_ret. apply (conforms_reset cfg e _ Hcfg He).
  rewrite fold_left_vars; [exact H2|]. intros e' t. apply vars_forceActivateTrait.
Qed.

(** The runtime. *)

Lemma ranged_ext cfg (w w' : World.t) :
  World.spawnManager w' = World.spawnManager w ->
  World.heap w' = World.heap w ->
  World.history w' = World.history w ->
  ranged cfg w -> ranged cfg w'.
Proof. unfold ranged. intros -> -> ->. auto. Qed.

Lemma ranged_ret {A : Type} cfg (a : A) : hoare (ranged cfg) (ret a) (fun _ => ranged cfg).
Proof. apply hoare_ret. auto. Qed.

Lemma ranged_gets {A : Type} cfg (f : World.t -> A) :
  hoare (ranged cfg) (gets f) (fun _ => ranged cfg).
Proof. apply hoare_gets. auto. Qed.

Lemma ranged_deref cfg (l : loc) : hoare (ranged cfg) (deref l) (fun _ => ranged cfg).
Proof. apply ranged_gets. Qed.

Lemma ranged_liftH {A : Type} cfg (m : H A) :
  hoare (ranged cfg) (liftH m) (fun _ => ranged cfg).
Proof.
  intros w Hw. unfold liftH. destruct (m (World.host w)) as [a h]. cbn.
  apply (ranged_ext cfg w); try exact Hw; destruct w; reflexivity.
Qed.

Lemma ranged_emit cfg event data :
  hoare (ranged cfg) (EntityManager.emit event data) (fun _ => ranged cfg).
Proof.
  intros w Hw. apply (ranged_ext cfg w); try exact Hw; destruct w; reflexivity.
Qed.

(* a state change that writes neither the heap nor the history *)
Lemma ranged_modify cfg (f : World.t -> World.t) :
  (forall w, World.spawnManager (f w) = World.spawnManager w /\
             World.heap (f w) = World.heap w /\
             World.history (f w) = World.history w) ->
  hoare (ranged cfg) (modify f) (fun _ => ranged cfg).
Proof.
  intros Hf w Hw. destruct (Hf w) as (H1 & H2 & H3). apply (ranged_ext cfg w); assumption.
Qed.

Lemma ranged_update cfg (l : loc) (g : Entity.t -> Entity.t) :
  (forall e, conforms cfg e -> conforms cfg (g e)) ->
  hoare (ranged cfg) (update l g) (fun _ => ranged cfg).
Proof.
  intros Hg w (Hsm & Hheap & Hhist). unfold update, modify. cbn.
  destruct (World.heap w !! l) as [e|] eqn:He; [|repeat split; assumption].
  assert (Hins : Forall (conforms cfg) (<[l := g e]> (World.heap w))).
  { apply Forall_insert; [exact Hheap|]. apply Hg.
    apply (Forall_lookup_1 _ _ _ _ Hheap He). }
  destruct w; cbn in *. repeat split; assumption.
Qed.

(* what a dereference under the invariant gives *)
Lemma ranged_deref_bind {B : Type} cfg (l : loc) (k : option Entity.t -> M B)
    (Q : B -> World.t -> Prop) :
  (forall oe, (forall e, oe = Some e -> conforms cfg e) -> hoare (ranged cfg) (k oe) Q) ->
  hoare (ranged cfg) (bind (deref l) k) Q.
Proof.
  intros Hk w Hw. unfold bind, deref, gets. apply Hk; [|exact Hw].
  intros e He. destruct Hw as (_ & Hheap & _). apply (Forall_lookup_1 _ _ _ _ Hheap He).
Qed.

Lemma ranged_sm_bind {B : Type} cfg (k : option Config.t -> M B)
    (Q : B -> World.t -> Prop) :
  hoare (ranged cfg) (k (Some cfg)) Q ->
  hoare (ranged cfg) (bind (gets World.spawnManager) k) Q.
Proof. intros Hk. apply hoare_gets_val with (v := Some cfg); [intros w Hw; apply Hw|exact Hk]. Qed.

Lemma ranged_onEntity {A : Type} cfg (l : loc) (d : A) (g : Entity.t -> H (A * Entity.t)) :
  (forall e, conforms cfg e -> hresult (g e) (fun r => conforms cfg (snd r))) ->
  hoare (ranged cfg) (onEntity l d g) (fun _ => ranged cfg).
Proof.
  intros Hg. unfold onEntity. apply ranged_deref_bind. intros [e|] He; [|apply ranged_ret].
  specialize (He e eq_refl).
  intros w Hw. unfold bind, liftH. specialize (Hg e He (World.host w)).
  destruct (g e (World.host w)) as [r h]. cbn [fst snd] in *.
  pose proof (ranged_update cfg l (fun _ => snd r) (fun _ _ => Hg) (World.set_host h w))
    as Hupd.
  destruct (update l (fun _ => snd r) (World.set_host h w)) as [u w'] eqn:E. cbn in *.
  apply Hupd. apply (ranged_ext cfg w); try exact Hw; destruct w; reflexivity.
Qed.

Lemma ranged_alloc cfg (e : Entity.t) :
  conforms cfg e -> hoare (ranged cfg) (alloc e) (fun _ => ranged cfg).
Proof.
  intros He w (Hsm & Hheap & Hhist). unfold alloc. cbn.
  assert (Happ : Forall (conforms cfg) (World.heap w ++ [e])).
  { apply Forall_app. split; [exact Hheap|]. constructor; [exact He|constructor]. }
  destruct w; cbn in *. repeat split; assumption.
Qed.

Create HintDb ranged.
#[local] Hint Resolve ranged_ret ranged_gets ranged_deref ranged_liftH ranged_emit : ranged.

(* the three fields of the invariant, for a change of other fields *)
Ltac ranged_field :=
  let w := fresh "w" in
  intros w;
  repeat match goal with
    | |- context [match ?x with _ => _ end] => destruct x
    end;
  destruct w; repeat split; reflexivity.

Ltac ranged_step :=
  match goal with
  | |- hoare (ranged ?cfg) (bind _ _) (fun _ => ranged ?cfg) =>
      eapply hoare_bind with (R := fun _ => ranged cfg); [|intros ?]
  | |- hoare (ranged _) (forEach _ _) _ => apply hoare_forEach; intros ? _
  | |- hoare (ranged _) (modify _) _ => apply ranged_modify; ranged_field
  | |- hoare (ranged _) (match ?x with _ => _ end) _ => destruct x
  | |- hoare (ranged _) _ _ => solve [eauto with ranged]
  end.

Ltac ranged_tac := repeat ranged_step.

Lemma ranged_update_vars cfg (l : loc) (g : Entity.t -> Entity.t) :
  (forall e, Entity.variables (g e) = Entity.variables e) ->
  hoare (ranged cfg) (update l g) (fun _ => ranged cfg).
Proof. intros Hg. apply ranged_update. intros e. apply conforms_vars, Hg. Qed.

Lemma ranged_cascadeTriple cfg cfg' (entity : loc) :
  hoare (ranged cfg) (EntityManager.cascadeTriple cfg' entity) (fun _ => ranged cfg).
Proof.
  unfold EntityManager.cascadeTriple. apply ranged_onEntity. intros e He.
  eapply hresult_bind_with; [apply hresult_spied|]. intros e1 ->.
  eapply hresult_bind_with; [apply hresult_spied|]. intros e2 ->.
  eapply hresult_bind_with; [apply hresult_spied|]. intros e3 ->.
  apply hresult_ret. cbn [snd].
  apply (conforms_ranges cfg e); [|exact He].
  rewrite (ranges_vars _ _ (vars_calculateDerived _ _)),
    (ranges_vars _ _ (vars_checkCompounds _ _)).
  apply ranges_recalculateRates.
Qed.
#[local] Hint Resolve ranged_cascadeTriple : ranged.

Lemma ranged_runCascade cfg (entity : loc) :
  hoare (ranged cfg) (EntityManager._runCascade entity) (fun _ => ranged cfg).
Proof. unfold EntityManager._runCascade. ranged_tac. Qed.
#[local] Hint Resolve ranged_runCascade : ranged.

Lemma ranged_applyModifier cfg entityId modifierId config :
  hoare (ranged cfg) (EntityManager.applyModifier entityId modifierId config)
    (fun _ => ranged cfg).
Proof.
  unfold EntityManager.applyModifier, EntityManager.retrieve. ranged_tac.
  apply ranged_update_vars. intros e. apply vars_applyTo.
Qed.
#[local] Hint Resolve ranged_applyModifier : ranged.

Lemma ranged_removeModifier cfg entityId modifierId :
  hoare (ranged cfg) (EntityManager.removeModifier entityId modifierId)
    (fun _ => ranged cfg).
Proof.
  unfold EntityManager.removeModifier, EntityManager.retrieve. ranged_tac.
  apply ranged_update_vars. intros e. apply vars_removeFrom.
Qed.
#[local] Hint Resolve ranged_removeModifier : ranged.

Lemma ranged_activateTrait cfg entityId traitId :
  hoare (ranged cfg) (EntityManager.activateTrait entityId traitId) (fun _ => ranged cfg).
Proof.
  unfold EntityManager.activateTrait, EntityManager.retrieve. ranged_tac.
  apply ranged_onEntity. intros e He. apply hresult_ret.
  apply (conforms_vars cfg e); [apply vars_activateTrait|exact He].
Qed.
#[local] Hint Resolve ranged_activateTrait : ranged.

Lemma ranged_deactivateTrait cfg entityId traitId :
  hoare (ranged cfg) (EntityManager.deactivateTrait entityId traitId) (fun _ => ranged cfg).
Proof.
  unfold EntityManager.deactivateTrait, EntityManager.retrieve. ranged_tac.
  apply ranged_onEntity. intros e He. apply hresult_ret.
  apply (conforms_vars cfg e); [apply vars_deactivateTrait|exact He].
Qed.
#[local] Hint Resolve ranged_deactivateTrait : ranged.

Lemma ranged_checkThresholds cfg (entity : loc) (varId : string) :
  hoare (ranged cfg) (EntityManager.checkThresholds entity varId) (fun _ => ranged cfg).
Proof.
  unfold EntityManager.checkThresholds, EntityManager.checkThreshold. ranged_tac.
Qed.
#[local] Hint Resolve ranged_checkThresholds : ranged.

Lemma ranged_checkModifierThresholds cfg (entity : loc) :
  hoare (ranged cfg) (EntityManager.checkModifierThresholds entity) (fun _ => ranged cfg).
Proof.
  unfold EntityManager.checkModifierThresholds, EntityManager.checkModifier. ranged_tac.
Qed.
#[local] Hint Resolve ranged_checkModifierThresholds : ranged.

Lemma ranged_calculateDerived cfg (entity : loc) :
  hoare (ranged cfg) (EntityManager.calculateDerived entity) (fun _ => ranged cfg).
Proof.
  unfold EntityManager.calculateDerived. ranged_tac.
  apply ranged_onEntity. intros e He.
  eapply hresult_bind_with; [apply hresult_spied|]. intros e1 ->. apply hresult_ret.
  apply (conforms_vars cfg e); [apply vars_calculateDerived|exact He].
Qed.
#[local] Hint Resolve ranged_calculateDerived : ranged.

(* a clamped write of a variable read from a conforming entity *)
Lemma ranged_write_clamped cfg (l : loc) (e : Entity.t) (varId : string)
    (varState : VarState.t) (v : Z) :
  conforms cfg e ->
  JS.get varId (Entity.variables e) = Some varState ->
  hoare (ranged cfg)
    (update l (EntityManager.writeValue varId
                 (JS.clamp (VarState.min varState) (VarState.max varState) v)))
    (fun _ => ranged cfg).
Proof.
  intros He Hget. destruct (proj2 He varId varState Hget) as [Hb Hr].
  apply ranged_update. intros e' He'.
  apply (conforms_writeValue cfg e' varId _ _ _ He' Hb).
  apply clamp_range. unfold inRange in Hr. lia.
Qed.

Lemma ranged_changeVariable cfg entityId varId newValue :
  hoare (ranged cfg) (EntityManager.changeVariable entityId varId newValue)
    (fun _ => ranged cfg).
Proof.
  unfold EntityManager.changeVariable, EntityManager.retrieve.
  apply hoare_gets_any. intros [entity|]; [|apply ranged_ret].
  apply ranged_deref_bind. intros [e|] He; [|apply ranged_ret].
  specialize (He e eq_refl).
  destruct (JS.get varId (Entity.variables e)) as [varState|] eqn:E; [|apply ranged_ret].
  cbv zeta.
  eapply hoare_bind with (R := fun _ => ranged cfg);
    [apply (ranged_write_clamped cfg entity e varId varState _ He E)|].
  intros ?. ranged_tac.
Qed.

Lemma ranged_tickVariable cfg (entity : loc) (deltaSeconds : Z) (varId : string) :
  hoare (ranged cfg) (EntityManager.tickVariable entity deltaSeconds varId)
    (fun _ => ranged cfg).
Proof.
  unfold EntityManager.tickVariable.
  apply ranged_deref_bind. intros [e|] He; [|apply ranged_ret].
  specialize (He e eq_refl).
  destruct (JS.get varId (Entity.variables e)) as [varState|] eqn:E; [|apply ranged_ret].
  destruct (_ && _); [|apply ranged_ret]. cbv zeta.
  eapply hoare_bind with (R := fun _ => ranged cfg);
    [apply (ranged_write_clamped cfg entity e varId varState _ He E)|].
  intros ?. ranged_tac.
Qed.
#[local] Hint Resolve ranged_tickVariable : ranged.

Lemma ranged_tick cfg entityId deltaSeconds :
  hoare (ranged cfg) (EntityManager.tick entityId deltaSeconds) (fun _ => ranged cfg).
Proof.
  unfold EntityManager.tick. ranged_tac.
  - apply ranged_update_vars. intros e'. apply variables_set_lastTick.
  - apply ranged_onEntity. intros e' He'. apply hresult_ret.
    apply (conforms_vars cfg e'); [apply vars_expireModifiers|exact He'].
  - apply ranged_update_vars. intros e'. apply vars_tickCooldowns.
Qed.

(** Snapshots and rollback. *)

Lemma takeSnapshot_conforms cfg now e :
  conforms cfg e -> snapConforms cfg (EntityManager.takeSnapshot now e).
Proof.
  intros [Hnd He]. unfold snapConforms, EntityManager.takeSnapshot. cbn.
  rewrite Forall_forall. intros [k vs] Hin. cbn.
  destruct (He k vs (In_get k vs _ Hnd Hin)) as [Hb Hr].
  exists (VarState.min vs), (VarState.max vs). split; [exact Hb|exact Hr].
Qed.

Lemma ranged_snapshot cfg entityId :
  hoare (ranged cfg) (EntityManager.snapshot entityId) (fun _ => ranged cfg).
Proof.
  unfold EntityManager.snapshot, EntityManager.retrieve.
  apply hoare_gets_any. intros [l|]; [|apply ranged_ret].
  apply ranged_deref_bind. intros [e|] He; [|apply ranged_ret].
  specialize (He e eq_refl).
  eapply hoare_bind with (R := fun _ => ranged cfg); [apply ranged_liftH|]. intros now.
  cbv zeta.
  eapply hoare_bind with (R := fun _ => ranged cfg); [|intros ?; ranged_tac].
  intros w (Hsm & Hheap & Hhist). unfold modify. cbn.
  assert (Hnew : forall id snaps snap,
             JS.get id
               (JS.set entityId
                  (let snapshots :=
                     JS.nullish (JS.get entityId (World.history w)) []
                     ++ [EntityManager.takeSnapshot now e] in
                   if Z.gtb (Z.of_nat (length snapshots)) (World.maxHistory w)
                   then skipn (length snapshots - Z.to_nat (World.maxHistory w))%nat
                          snapshots
                   else snapshots)
                  (World.history w)) = Some snaps ->
             In snap snaps -> snapConforms cfg snap).
  { intros id snaps snap Hget Hin. rewrite get_set in Hget.
    destruct (String.eqb entityId id) eqn:E; [|apply (Hhist id snaps snap Hget Hin)].
    inversion Hget as [Hs]. clear Hget. cbv zeta in Hs.
    assert (Hin' : In snap (JS.nullish (JS.get entityId (World.history w)) []
                            ++ [EntityManager.takeSnapshot now e])).
    { subst snaps. destruct (Z.gtb _ _); [|exact Hin].
      match type of Hin with In _ (skipn ?n ?l) =>
        rewrite <- (firstn_skipn n l); apply in_or_app; right; exact Hin end. }
    apply in_app_or in Hin'. destruct Hin' as [Hold|[<-|[]]].
    - destruct (JS.get entityId (World.history w)) as [old|] eqn:Eold; [|destruct Hold].
      apply (Hhist entityId old snap Eold Hold).
    - apply takeSnapshot_conforms, He. }
  destruct w; cbn in *. repeat split; assumption.
Qed.

Lemma ranged_rollback cfg entityId timestamp :
  hoare (ranged cfg) (EntityManager.rollback entityId timestamp) (fun _ => ranged cfg).
Proof.
  unfold EntityManager.rollback, EntityManager.retrieve.
  apply hoare_gets_any. intros ol.
  intros w Hw. unfold bind at 1, gets. cbv beta iota.
  destruct ol as [l|]; [|exact Hw].
  destruct (JS.get entityId (World.history w)) as [snapshots|] eqn:Eh; [|exact Hw].
  destruct (find _ (rev snapshots)) as [snap|] eqn:Ef; [|exact Hw].
  assert (Hsnap : snapConforms cfg snap).
  { destruct Hw as (_ & _ & Hhist). apply (Hhist entityId snapshots snap Eh).
    apply find_some in Ef. apply in_rev, Ef. }
  revert w Hw Eh. 
  enough (Hh : hoare (ranged cfg)
                 (bind (update l (EntityManager.restore snap))
                    (fun _ => bind (EntityManager.emit "entityRolledBack"
                                      [("entityId", entityId)])
                                (fun _ => ret true)))
                 (fun _ => ranged cfg)) by (intros w Hw _; apply (Hh w Hw)).
  ranged_tac. apply ranged_update. intros e He. apply conforms_restore; assumption.
Qed.

(** Pools. *)

Lemma ranged_updatePool cfg poolId (g : Pool.t -> Pool.t) :
  hoare (ranged cfg) (EntityManager.updatePool poolId g) (fun _ => ranged cfg).
Proof. unfold EntityManager.updatePool. ranged_tac. Qed.
#[local] Hint Resolve ranged_updatePool : ranged.

Lemma ranged_updateStats cfg poolId (g : Stats.t -> Stats.t) :
  hoare (ranged cfg) (EntityManager.updateStats poolId g) (fun _ => ranged cfg).
Proof. unfold EntityManager.updateStats. ranged_tac. Qed.
#[local] Hint Resolve ranged_updateStats : ranged.

Lemma ranged_syncLegacy cfg poolId g :
  hoare (ranged cfg) (EntityManager.syncLegacy poolId g) (fun _ => ranged cfg).
Proof. unfold EntityManager.syncLegacy. ranged_tac. Qed.
#[local] Hint Resolve ranged_syncLegacy : ranged.

Lemma ranged_addToGroup cfg groupId entityId :
  hoare (ranged cfg) (EntityManager.addToGroup groupId entityId) (fun _ => ranged cfg).
Proof. unfold EntityManager.addToGroup. ranged_tac. Qed.
#[local] Hint Resolve ranged_addToGroup : ranged.

Lemma ranged_store cfg (entity : loc) :
  hoare (ranged cfg) (EntityManager.store entity) (fun _ => ranged cfg).
Proof. unfold EntityManager.store. ranged_tac. Qed.
#[local] Hint Resolve ranged_store : ranged.

Lemma ranged_activate cfg entityOrId :
  hoare (ranged cfg) (EntityManager.activate entityOrId) (fun _ => ranged cfg).
Proof.
  unfold EntityManager.activate. ranged_tac.
  all: apply ranged_update_vars; intros e'; apply variables_set_lastTick.
Qed.
#[local] Hint Resolve ranged_activate : ranged.

Lemma ranged_deactivate cfg entityId :
  hoare (ranged cfg) (EntityManager.deactivate entityId) (fun _ => ranged cfg).
Proof. unfold EntityManager.deactivate. ranged_tac. Qed.
#[local] Hint Resolve ranged_deactivate : ranged.

Lemma ranged_removeFromAllGroups cfg entityId :
  hoare (ranged cfg) (EntityManager.removeFromAllGroups entityId) (fun _ => ranged cfg).
Proof. unfold EntityManager.removeFromAllGroups. ranged_tac. Qed.
#[local] Hint Resolve ranged_removeFromAllGroups : ranged.

Lemma ranged_liftH_result {A : Type} cfg (m : H A) (P : A -> Prop) :
  hresult m P -> hoare (ranged cfg) (liftH m) (fun a w => P a /\ ranged cfg w).
Proof.
  intros Hm w Hw. split.
  - unfold liftH. specialize (Hm (World.host w)). destruct (m (World.host w)). exact Hm.
  - apply ranged_liftH, Hw.
Qed.

Lemma ranged_create cfg presetIdOrOverrides overrides :
  rangedConfig cfg ->
  hoare (ranged cfg) (EntityManager.create cfg presetIdOrOverrides overrides)
    (fun _ => ranged cfg).
Proof.
  intros Hcfg. unfold EntityManager.create.
  apply hoare_gets_any. intros presets.
  eapply hoare_bind.
  { apply ranged_liftH_result with (P := fun oe => forall e, oe = Some e -> conforms cfg e).
    destruct presetIdOrOverrides as [[presetId|o]|].
    - apply spawn_conforms, Hcfg.
    - eapply hresult_bind_with; [apply generate_conforms, Hcfg|].
      intros e He. apply hresult_ret. intros e' H'. inversion H'; subst. exact He.
    - eapply hresult_bind_with; [apply generate_conforms, Hcfg|].
      intros e He. apply hresult_ret. intros e' H'. inversion H'; subst. exact He. }
  intros oe. apply hoare_pure. intros Hoe.
  destruct oe as [e|]; [|apply ranged_ret].
  eapply hoare_bind with (R := fun _ => ranged cfg); [apply ranged_alloc, Hoe; reflexivity|].
  intros l. apply ranged_ret.
Qed.

Lemma ranged_resetEntityForReuse cfg (entity : loc) presetIdOrOverrides overrides :
  rangedConfig cfg ->
  hoare (ranged cfg)
    (EntityManager._resetEntityForReuse entity presetIdOrOverrides overrides)
    (fun _ => ranged cfg).
Proof.
  intros Hcfg. unfold EntityManager._resetEntityForReuse.
  apply ranged_sm_bind. apply hoare_gets_any. intros presets.
  eapply hoare_bind with (R := fun _ => ranged cfg); [|intros ?; ranged_tac].
  apply ranged_onEntity. intros e He.
  eapply hresult_bind_with; [apply resetEntity_conforms; assumption|].
  intros e' He'. apply hresult_ret. exact He'.
Qed.

Lemma ranged_acquire cfg presetIdOrOverrides overrides targetPoolId :
  rangedConfig cfg ->
  hoare (ranged cfg) (EntityManager.acquire presetIdOrOverrides overrides targetPoolId)
    (fun _ => ranged cfg).
Proof.
  intros Hcfg. unfold EntityManager.acquire. cbv zeta.
  apply hoare_gets_any. intros known. unfold EntityManager.getPool.
  apply hoare_gets_any. intros oactual. apply ranged_sm_bind.
  destruct oactual as [actualPool|]; [|apply ranged_ret].
  eapply hoare_bind with (R := fun _ => ranged cfg).
  - destruct (JS.pop (Pool.entities actualPool)) as [[entity|] rest].
    + ranged_tac. apply ranged_resetEntityForReuse, Hcfg.
    + ranged_tac. apply ranged_create, Hcfg.
  - intros r. ranged_tac.
    apply ranged_update_vars. intros e'. apply variables_set_poolId.
Qed.

Lemma get_delete_Some {V : Type} (k k' : string) (v : V) (o : JS.Obj V) :
  JS.get k (JS.delete k' o) = Some v -> JS.get k o = Some v.
Proof.
  induction o as [|[k0 v0] o IH]; cbn; [discriminate|].
  destruct (String.eqb k' k0) eqn:E'.
  - intros H. specialize (IH H). destruct (String.eqb k k0) eqn:E; [|exact IH].
    apply String.eqb_eq in E, E'. subst k0 k'.
    clear -H. exfalso. induction o as [|[k1 v1] o IH]; cbn in H; [discriminate|].
    destruct (String.eqb k k1) eqn:E1; [auto|].
    cbn in H. rewrite E1 in H. auto.
  - cbn. destruct (String.eqb k k0); auto.
Qed.

Lemma ranged_forget cfg entityId :
  hoare (ranged cfg)
    (modify (fun w => World.set_history (JS.delete entityId (World.history w)) w))
    (fun _ => ranged cfg).
Proof.
  intros w (Hsm & Hheap & Hhist). unfold modify. cbn.
  assert (Hnew : forall id snaps snap,
             JS.get id (JS.delete entityId (World.history w)) = Some snaps ->
             In snap snaps -> snapConforms cfg snap).
  { intros id snaps snap Hget. apply (Hhist id snaps snap). eapply get_delete_Some, Hget. }
  destruct w; cbn in *. repeat split; assumption.
Qed.

Lemma ranged_release cfg entityOrId targetPoolId :
  hoare (ranged cfg) (EntityManager.release entityOrId targetPoolId) (fun _ => ranged cfg).
Proof.
  unfold EntityManager.release, EntityManager.getPool,
    EntityManager._scheduleShrinkCheckForPool. cbv zeta.
  eapply hoare_bind with (R := fun _ => ranged cfg); [destruct entityOrId; ranged_tac|].
  intros entityId. apply hoare_gets_any. intros [entity|]; [|apply ranged_ret].
  apply hoare_gets_any. intros oe. apply hoare_gets_any. intros known.
  eapply hoare_bind with (R := fun _ => ranged cfg); [ranged_tac|]. intros ?.
  eapply hoare_bind with (R := fun _ => ranged cfg); [ranged_tac|]. intros ?.
  eapply hoare_bind with (R := fun _ => ranged cfg); [ranged_tac|]. intros ?.
  eapply hoare_bind with (R := fun _ => ranged cfg); [apply ranged_forget|]. intros ?.
  ranged_tac.
  apply ranged_update_vars. intros e'.
  rewrite variables_set_poolId. apply vars_prepareEntityForPool.
Qed.

(** The facade. *)

Lemma ranged_config_bind {B : Type} cfg (k : Config.t -> M B) (Q : B -> World.t -> Prop) :
  hoare (ranged cfg) (k cfg) Q -> hoare (ranged cfg) (bind SpawnEngine.config k) Q.
Proof.
  intros Hk. unfold SpawnEngine.config.
  apply hoare_gets_val with (v := cfg); [|exact Hk].
  intros w (Hsm & _). rewrite Hsm. reflexivity.
Qed.

Lemma ranged_register cfg (l : loc) :
  hoare (ranged cfg) (SpawnEngine.register l) (fun _ => ranged cfg).
Proof. unfold SpawnEngine.register. ranged_tac. Qed.
#[local] Hint Resolve ranged_register : ranged.

Lemma ranged_facade_generate cfg overrides :
  rangedConfig cfg ->
  hoare (ranged cfg) (SpawnEngine.generate overrides) (fun _ => ranged cfg).
Proof.
  intros Hcfg. unfold SpawnEngine.generate. apply ranged_config_bind.
  eapply hoare_bind; [apply ranged_liftH_result, generate_conforms, Hcfg|].
  intros e. apply hoare_pure. intros He.
  eapply hoare_bind with (R := fun _ => ranged cfg); [apply ranged_alloc, He|].
  intros l. ranged_tac.
Qed.

Lemma ranged_facade_spawn cfg presetIdOrOverrides overrides :
  rangedConfig cfg ->
  hoare (ranged cfg) (SpawnEngine.spawn presetIdOrOverrides overrides)
    (fun _ => ranged cfg).
Proof.
  intros Hcfg. unfold SpawnEngine.spawn. apply ranged_config_bind.
  apply hoare_gets_any. intros presets.
  eapply hoare_bind.
  { apply ranged_liftH_result with (P := conforms cfg).
    destruct presetIdOrOverrides as [[presetId|o]|]; try (apply generate_conforms, Hcfg).
    eapply hresult_bind_with; [apply spawn_conforms, Hcfg|].
    intros [e|] He; [apply hresult_ret, He; reflexivity|apply generate_conforms, Hcfg]. }
  intros e. apply hoare_pure. intros He.
  eapply hoare_bind with (R := fun _ => ranged cfg); [apply ranged_alloc, He|].
  intros l. ranged_tac.
Qed.

Lemma ranged_withEntityId cfg entityOrId (k : string -> M bool) :
  (forall id, hoare (ranged cfg) (k id) (fun _ => ranged cfg)) ->
  hoare (ranged cfg) (SpawnEngine.withEntityId entityOrId k) (fun _ => ranged cfg).
Proof.
  intros Hk. unfold SpawnEngine.withEntityId, SpawnEngine.resolve, SpawnEngine.getEntity,
    SpawnEngine.idOf, EntityManager.retrieve.
  eapply hoare_bind with (R := fun _ => ranged cfg); [destruct entityOrId; ranged_tac|].
  intros [l|]; [|apply ranged_ret].
  apply hoare_gets_any. intros id. apply Hk.
Qed.

Lemma ranged_facade_tick cfg entityOrId deltaSeconds :
  hoare (ranged cfg) (SpawnEngine.tick entityOrId deltaSeconds) (fun _ => ranged cfg).
Proof.
  unfold SpawnEngine.tick, SpawnEngine.resolve, SpawnEngine.getEntity, SpawnEngine.idOf,
    EntityManager.retrieve.
  eapply hoare_bind with (R := fun _ => ranged cfg); [destruct entityOrId; ranged_tac|].
  intros [l|]; [|apply ranged_ret].
  apply hoare_gets_any. intros id. apply hoare_gets_any. intros isActive.
  eapply hoare_bind with (R := fun _ => ranged cfg); [ranged_tac|].
  intros ?. apply ranged_tick.
Qed.

Lemma ranged_facade_executeAction cfg (l : loc) actionId :
  nonNegativeCosts cfg ->
  hoare (ranged cfg) (SpawnEngine.executeAction (inr l) actionId) (fun _ => ranged cfg).
Proof.
  intros Hcosts. unfold SpawnEngine.executeAction, SpawnEngine.onResolved,
    SpawnEngine.resolveViaManager.
  eapply hoare_bind with (R := fun r w => r = Returned (Some l) /\ ranged cfg w).
  { apply hoare_ret. auto. }
  intros r. apply hoare_pure. intros ->. cbv beta iota.
  apply ranged_config_bind.
  apply ranged_deref_bind. intros [e|] He; [|apply ranged_ret].
  specialize (He e eq_refl).
  eapply hoare_bind.
  { apply ranged_liftH_result with (P := fun res => conforms cfg (snd res)).
    apply hresult_bind. intros now. apply hresult_ret.
    apply conforms_executeAction; assumption. }
  intros res. apply hoare_pure. intros Hres.
  eapply hoare_bind with (R := fun _ => ranged cfg); [|intros ?; apply ranged_ret].
  apply ranged_update. intros _ _. exact Hres.
Qed.

Lemma ranged_new cfg host : ranged cfg (SpawnEngine.new cfg host).
Proof.
  unfold SpawnEngine.new, ranged. cbn. split; [reflexivity|]. split; [constructor|].
  intros id snaps snap H. discriminate.
Qed.

Lemma ranged_inRange cfg (w : World.t) (l : loc) (e : Entity.t) (k : string)
    (vs : VarState.t) :
  ranged cfg w -> World.heap w !! l = Some e -> JS.get k (Entity.variables e) = Some vs ->
  VarState.min vs <= VarState.value vs <= VarState.max vs.
Proof.
  intros (_ & Hheap & _) He Hget.
  apply (proj2 (Forall_lookup_1 _ _ _ _ Hheap He) k vs Hget).
Qed.

(* on integers the clamp of a number is the clamp of the model *)
Lemma clampNum_Int (lo hi v : Z) : JS.clampNum lo hi (JS.Int v) = JS.Int (JS.clamp lo hi v).
Proof. reflexivity. Qed.




(** ** Incompatible traits and the selection of one trait *)

Lemma includes_In (x : string) (l : list string) : JS.includes x l = true <-> In x l.
Proof.
  unfold JS.includes. rewrite existsb_exists. split.
  - intros (y & Hy & E). apply String.eqb_eq in E. subst. exact Hy.
  - intros H. exists x. split; [exact H|apply String.eqb_refl].
Qed.

Lemma In_splice1 {A : Type} (i : nat) (l : list A) (x : A) : In x (JS.splice1 i l) -> In x l.
Proof.
  revert i. induction l as [|y l IH]; intros [|i]; cbn; auto.
  intros [H|H]; [left; exact H|right; eapply IH, H].
Qed.

Lemma layerActive_setLayerActive (L0 L : option string) (active : list string) e :
  SpawnManager.layerActive (SpawnManager.setLayerActive L0 active e) L
  = if String.eqb (SpawnManager.keyOf L0) (SpawnManager.keyOf L) then active
    else SpawnManager.layerActive e L.
Proof.
  unfold SpawnManager.layerActive, SpawnManager.setLayerActive. cbv zeta.
  destruct e; cbn. rewrite get_set.
  destruct (String.eqb (SpawnManager.keyOf L0) (SpawnManager.keyOf L)); reflexivity.
Qed.

Lemma layerActive_ensureLayer (L0 L : option string) e :
  SpawnManager.layerActive (SpawnManager.ensureLayer L0 e) L = SpawnManager.layerActive e L.
Proof.
  unfold SpawnManager.ensureLayer, JS.has.
  destruct (JS.get (SpawnManager.keyOf L0) (Entity.layers e)) eqn:E; [reflexivity|].
  unfold SpawnManager.layerActive. destruct e; cbn in *. rewrite get_set.
  destruct (String.eqb (SpawnManager.keyOf L0) (SpawnManager.keyOf L)) eqn:E'; [|reflexivity].
  apply String.eqb_eq in E'. rewrite <- E', E. reflexivity.
Qed.

Lemma layerActive_log now event data e L :
  SpawnManager.layerActive (SpawnManager.log now event data e) L
  = SpawnManager.layerActive e L.
Proof. unfold SpawnManager.layerActive, SpawnManager.log. destruct e; reflexivity. Qed.

Lemma layerActive_setLastRoll now layerId e L :
  SpawnManager.layerActive (SpawnManager.setLastRoll now layerId e) L
  = SpawnManager.layerActive e L.
Proof.
  unfold SpawnManager.setLastRoll.
  destruct (JS.get layerId (Entity.layers e)) as [st|] eqn:E; [|reflexivity].
  unfold SpawnManager.layerActive. destruct e; cbn in *. rewrite get_set.
  destruct (String.eqb layerId (SpawnManager.keyOf L)) eqn:E'; [|reflexivity].
  apply String.eqb_eq in E'. rewrite <- E', E. reflexivity.
Qed.

Lemma layerActive_deactivateTrait cfg e traitId L x :
  In x (SpawnManager.layerActive (snd (SpawnManager.deactivateTrait cfg e traitId)) L) ->
  In x (SpawnManager.layerActive e L).
Proof.
  unfold SpawnManager.deactivateTrait.
  destruct (SpawnManager.getNode cfg traitId) as [trait|]; [|auto].
  destruct (negb _); [auto|]. cbv zeta. destruct (negb _); [auto|].
  destruct (JS.indexOf _ _) as [index|]; [|auto]. cbn [snd].
  rewrite layerActive_setLayerActive.
  destruct (String.eqb _ _) eqn:E; [|auto].
  intros H. apply In_splice1 in H.
  unfold SpawnManager.layerActive in *. apply String.eqb_eq in E. rewrite <- E. exact H.
Qed.

(* the other fields that activity reads *)
Lemma others_setLayerActive L0 active e :
  Entity.modifiers (SpawnManager.setLayerActive L0 active e) = Entity.modifiers e /\
  Entity.compounds (SpawnManager.setLayerActive L0 active e) = Entity.compounds e.
Proof. unfold SpawnManager.setLayerActive. destruct e; split; reflexivity. Qed.

Lemma others_ensureLayer L0 e :
  Entity.modifiers (SpawnManager.ensureLayer L0 e) = Entity.modifiers e /\
  Entity.compounds (SpawnManager.ensureLayer L0 e) = Entity.compounds e.
Proof.
  unfold SpawnManager.ensureLayer. destruct (JS.has _ _); [auto|]. destruct e; split; reflexivity.
Qed.

Lemma others_deactivateTrait cfg e traitId :
  Entity.modifiers (snd (SpawnManager.deactivateTrait cfg e traitId)) = Entity.modifiers e /\
  Entity.compounds (snd (SpawnManager.deactivateTrait cfg e traitId)) = Entity.compounds e.
Proof.
  unfold SpawnManager.deactivateTrait.
  destruct (SpawnManager.getNode cfg traitId) as [trait|]; [|auto].
  destruct (negb _); [auto|]. cbv zeta. destruct (negb _); [auto|].
  destruct (JS.indexOf _ _) as [index|]; [|auto]. apply others_setLayerActive.
Qed.

(* activity grows by at most [t] when the layers do *)
Lemma activatedOnly_layers cfg (t : string) (e e' : Entity.t) :
  (forall L x, In x (SpawnManager.layerActive e' L) ->
               x = t \/ In x (SpawnManager.layerActive e L)) ->
  Entity.modifiers e' = Entity.modifiers e ->
  Entity.compounds e' = Entity.compounds e ->
  activatedOnly cfg t e e'.
Proof.
  intros Hl Hm Hc i. unfold SpawnManager.isNodeActive.
  destruct (SpawnManager.getNode cfg i) as [node|]; [|discriminate].
  destruct (SpawnManager.isTrait node).
  - rewrite !includes_In. apply Hl.
  - cbv zeta. rewrite Hm, Hc. auto.
Qed.

Lemma fold_deactivate_layers cfg (replaces : list string) :
  forall e L x,
    In x (SpawnManager.layerActive
            (fold_left (fun e r => snd (SpawnManager.deactivateTrait cfg e r)) replaces e) L) ->
    In x (SpawnManager.layerActive e L).
Proof.
  induction replaces as [|r replaces IH]; intros e L x; cbn; [auto|].
  intros H. apply IH in H. eapply layerActive_deactivateTrait, H.
Qed.

Lemma fold_deactivate_others cfg (replaces : list string) :
  forall e,
    Entity.modifiers
      (fold_left (fun e r => snd (SpawnManager.deactivateTrait cfg e r)) replaces e)
    = Entity.modifiers e /\
    Entity.compounds
      (fold_left (fun e r => snd (SpawnManager.deactivateTrait cfg e r)) replaces e)
    = Entity.compounds e.
Proof.
  induction replaces as [|r replaces IH]; intros e; cbn; [auto|].
  destruct (IH (snd (SpawnManager.deactivateTrait cfg e r))) as [H1 H2].
  destruct (others_deactivateTrait cfg e r) as [H3 H4].
  rewrite H1, H2. auto.
Qed.

Lemma layerActive_key e (L L' : option string) :
  SpawnManager.keyOf L = SpawnManager.keyOf L' ->
  SpawnManager.layerActive e L = SpawnManager.layerActive e L'.
Proof. unfold SpawnManager.layerActive. intros ->. reflexivity. Qed.

Lemma activateTrait_activatedOnly cfg now e (t : string) :
  activatedOnly cfg t e (snd (SpawnManager.activateTrait cfg now e t)).
Proof.
  unfold SpawnManager.activateTrait.
  destruct (SpawnManager.getNode cfg t) as [trait|]; [|intros i; auto].
  destruct (negb _); [intros i; auto|]. cbv zeta.
  destruct (JS.includes _ _); cbn [snd].
  - apply activatedOnly_layers; try apply others_ensureLayer.
    intros L x. rewrite layerActive_ensureLayer. auto.
  - destruct (fold_deactivate_others cfg (SpawnManager.replacesOf trait)
                (SpawnManager.ensureLayer (SpawnManager.layerIdOf trait) e)) as [Hm Hc].
    destruct (others_ensureLayer (SpawnManager.layerIdOf trait) e) as [Hm' Hc'].
    apply activatedOnly_layers.
    + intros L x. rewrite layerActive_log, layerActive_setLayerActive.
      destruct (String.eqb _ _) eqn:E.
      * apply String.eqb_eq in E. intros H. apply in_app_or in H.
        destruct H as [H|[<-|[]]]; [|left; reflexivity]. right.
        apply fold_deactivate_layers in H. rewrite layerActive_ensureLayer in H.
        rewrite <- (layerActive_key e _ _ E). exact H.
      * intros H. right. apply fold_deactivate_layers in H.
        rewrite layerActive_ensureLayer in H. exact H.
    + unfold SpawnManager.log.
      destruct (others_setLayerActive (SpawnManager.layerIdOf trait)
                  (SpawnManager.layerActive
                     (fold_left (fun e r => snd (SpawnManager.deactivateTrait cfg e r))
                        (SpawnManager.replacesOf trait)
                        (SpawnManager.ensureLayer (SpawnManager.layerIdOf trait) e))
                     (SpawnManager.layerIdOf trait) ++ [t])
                  (fold_left (fun e r => snd (SpawnManager.deactivateTrait cfg e r))
                     (SpawnManager.replacesOf trait)
                     (SpawnManager.ensureLayer (SpawnManager.layerIdOf trait) e)))
        as [H1 _].
      match goal with |- Entity.modifiers (Entity.set_log _ ?x) = _ =>
        transitivity (Entity.modifiers x); [destruct x; reflexivity|] end.
      rewrite H1, Hm. exact Hm'.
    + unfold SpawnManager.log.
      destruct (others_setLayerActive (SpawnManager.layerIdOf trait)
                  (SpawnManager.layerActive
                     (fold_left (fun e r => snd (SpawnManager.deactivateTrait cfg e r))
                        (SpawnManager.replacesOf trait)
                        (SpawnManager.ensureLayer (SpawnManager.layerIdOf trait) e))
                     (SpawnManager.layerIdOf trait) ++ [t])
                  (fold_left (fun e r => snd (SpawnManager.deactivateTrait cfg e r))
                     (SpawnManager.replacesOf trait)
                     (SpawnManager.ensureLayer (SpawnManager.layerIdOf trait) e)))
        as [_ H2].
      match goal with |- Entity.compounds (Entity.set_log _ ?x) = _ =>
        transitivity (Entity.compounds x); [destruct x; reflexivity|] end.
      rewrite H2, Hc. exact Hc'.
Qed.

Lemma setLastRoll_active cfg now layerId e i :
  SpawnManager.isNodeActive cfg (SpawnManager.setLastRoll now layerId e) i
  = SpawnManager.isNodeActive cfg e i.
Proof.
  unfold SpawnManager.isNodeActive.
  destruct (SpawnManager.getNode cfg i) as [node|]; [|reflexivity].
  rewrite layerActive_setLastRoll. unfold SpawnManager.setLastRoll.
  destruct (JS.get _ _); [|reflexivity]. destruct e; reflexivity.
Qed.

Lemma setLastRoll_activatedOnly cfg now layerId (t : string) e e' :
  activatedOnly cfg t e e' -> activatedOnly cfg t e (SpawnManager.setLastRoll now layerId e').
Proof. intros H i Hi. apply H. rewrite setLastRoll_active in Hi. exact Hi. Qed.

(** What the selection of one trait returns. *)

Lemma walk_In {A : Type} (weight : A -> float) (pool : list A) :
  forall roll j p, SpawnManager.walk weight roll pool = Some (j, p) -> In p pool.
Proof.
  induction pool as [|q pool IH]; intros roll j p; cbn; [discriminate|].
  destruct (PrimFloat.leb _ 0).
  - intros H. inversion H; subst. left. reflexivity.
  - destruct (SpawnManager.walk weight _ pool) as [[j' q']|] eqn:E; [|discriminate].
    intros H. inversion H; subst. right. eapply IH, E.
Qed.

Lemma getLayerTraits_getNode cfg layerId trait :
  In trait (SpawnManager.getLayerTraits cfg layerId) ->
  SpawnManager.getNode cfg (Node.id trait) = Some trait.
Proof.
  unfold SpawnManager.getLayerTraits.
  destruct (SpawnManager.getNode cfg layerId) as [layer|]; [|intros []].
  destruct (Node.layer layer) as [c|]; [|intros []]. cbv zeta.
  rewrite in_flat_map. intros (id & _ & Hin).
  destruct (SpawnManager.getNode cfg id) as [n|] eqn:E; [|destruct Hin].
  destruct Hin as [<-|[]].
  assert (Hid : Node.id n = id).
  { unfold SpawnManager.getNode in E. apply find_some in E. destruct E as [_ E].
    apply String.eqb_eq in E. exact E. }
  rewrite Hid. exact E.
Qed.

Lemma weightedPool_spec cfg e layerId trait (weight : float) :
  In (trait, weight) (SpawnManager.weightedPool cfg e layerId) ->
  SpawnManager.getNode cfg (Node.id trait) = Some trait /\
  SpawnManager.hasIncompatibility cfg e trait = false.
Proof.
  unfold SpawnManager.weightedPool. cbv zeta. rewrite in_flat_map.
  intros (n & Hn & Hin).
  destruct (JS.includes _ _); [destruct Hin|].
  destruct (JS.strIs _ _); [destruct Hin|].
  destruct (negb _); [destruct Hin|].
  destruct (SpawnManager.hasIncompatibility cfg e n) eqn:E; [destruct Hin|].
  destruct (PrimFloat.ltb _ _); [|destruct Hin].
  destruct Hin as [Hin|[]]. inversion Hin; subst.
  split; [eapply getLayerTraits_getNode, Hn|exact E].
Qed.

Lemma selectWeighted_one cfg e layerId :
  hresult (SpawnManager.selectWeighted cfg e layerId)
    (fun result => oneCompatible cfg e (SpawnManager.RollResult.selected result)).
Proof.
  unfold SpawnManager.selectWeighted. cbv zeta.
  destruct (SpawnManager.weightedPool cfg e layerId) as [|first pool] eqn:E;
    [apply hresult_ret; exact I|].
  assert (Hpool : forall p, In p (first :: pool) ->
                            SpawnManager.getNode cfg (Node.id (fst p)) = Some (fst p) /\
                            SpawnManager.hasIncompatibility cfg e (fst p) = false).
  { intros [trait weight] Hp. rewrite <- E in Hp. eapply weightedPool_spec, Hp. }
  apply hresult_bind. intros u.
  destruct (SpawnManager.walk _ _ _) as [[j p]|] eqn:Ew; apply hresult_ret; cbn.
  - split; [reflexivity|]. exists (fst p). split; [reflexivity|].
    apply Hpool. eapply walk_In, Ew.
  - split; [reflexivity|]. exists (fst first). split; [reflexivity|].
    apply Hpool. left. reflexivity.
Qed.

Lemma selectFirstMatch_one cfg e layerId :
  oneCompatible cfg e
    (SpawnManager.RollResult.selected (SpawnManager.selectFirstMatch cfg e layerId)).
Proof.
  unfold SpawnManager.selectFirstMatch. cbv zeta.
  destruct (find _ _) as [trait|] eqn:E; cbn; [|exact I].
  apply find_some in E. destruct E as [Hin Hp].
  split; [reflexivity|]. exists trait. split; [reflexivity|].
  split; [eapply getLayerTraits_getNode, Hin|].
  apply andb_true_iff in Hp. destruct Hp as [_ Hp]. apply negb_true_iff in Hp. exact Hp.
Qed.

(** Activating a trait that is not incompatible with the entity. *)

Lemma hasIncompatibility_true cfg e trait (i : string) :
  In i (SpawnManager.incompatibleWithOf trait) ->
  SpawnManager.isNodeActive cfg e i = true ->
  SpawnManager.hasIncompatibility cfg e trait = true.
Proof.
  intros Hi Ha. unfold SpawnManager.hasIncompatibility. apply existsb_exists.
  exists i. auto.
Qed.

Lemma compatible_shrink cfg e e' :
  compatible cfg e ->
  (forall i, SpawnManager.isNodeActive cfg e' i = true ->
             SpawnManager.isNodeActive cfg e i = true) ->
  compatible cfg e'.
Proof.
  intros Hc Hsub id trait Hget Htrait Hactive.
  destruct (SpawnManager.hasIncompatibility cfg e' trait) eqn:E; [|reflexivity].
  unfold SpawnManager.hasIncompatibility in E. apply existsb_exists in E.
  destruct E as (i & Hi & Hia).
  rewrite <- (Hc id trait Hget Htrait (Hsub id Hactive)). symmetry.
  apply (hasIncompatibility_true cfg e trait i Hi (Hsub i Hia)).
Qed.

Lemma compatible_activated cfg e e' trait :
  symmetricExclusion cfg -> noSelfExclusion cfg ->
  compatible cfg e ->
  SpawnManager.getNode cfg (Node.id trait) = Some trait ->
  SpawnManager.isTrait trait = true ->
  SpawnManager.hasIncompatibility cfg e trait = false ->
  activatedOnly cfg (Node.id trait) e e' ->
  compatible cfg e'.
Proof.
  intros Hsym Hirr Hc Hget Htrait Hsel Hact id2 trait2 Hget2 Htrait2 Hactive2.
  destruct (SpawnManager.hasIncompatibility cfg e' trait2) eqn:E; [|reflexivity].
  exfalso. unfold SpawnManager.hasIncompatibility in E. apply existsb_exists in E.
  destruct E as (i & Hi & Hia).
  destruct (Hact i Hia) as [->|Hie]; destruct (Hact id2 Hactive2) as [->|Hide].
  - rewrite Hget in Hget2. inversion Hget2; subst trait2.
    apply (Hirr (Node.id trait) trait Hget Htrait Hi).
  - pose proof (Hsym id2 trait2 (Node.id trait) trait Hget2 Htrait2 Hget Htrait Hi) as Hback.
    rewrite (hasIncompatibility_true cfg e trait id2 Hback Hide) in Hsel. discriminate.
  - rewrite Hget in Hget2. inversion Hget2; subst trait2.
    rewrite (hasIncompatibility_true cfg e trait i Hi Hie) in Hsel. discriminate.
  - pose proof (Hc id2 trait2 Hget2 Htrait2 Hide) as Hnone.
    rewrite (hasIncompatibility_true cfg e trait2 i Hi Hie) in Hnone. discriminate.
Qed.

Lemma activateTrait_not_trait cfg now e trait :
  SpawnManager.getNode cfg (Node.id trait) = Some trait ->
  SpawnManager.isTrait trait = false ->
  snd (SpawnManager.activateTrait cfg now e (Node.id trait)) = e.
Proof.
  intros Hget Htrait. unfold SpawnManager.activateTrait. rewrite Hget, Htrait. reflexivity.
Qed.

Lemma rollLayer_compatible cfg e layerId :
  symmetricExclusion cfg -> noSelfExclusion cfg ->
  selectsOne (modeOf cfg layerId) = true ->
  compatible cfg e ->
  hresult (SpawnManager.rollLayer cfg e layerId) (fun r => compatible cfg (snd r)).
Proof.
  intros Hsym Hirr Hone Hc. unfold SpawnManager.rollLayer, modeOf in *.
  destruct (SpawnManager.getNode cfg layerId) as [layer|]; [|apply hresult_ret; exact Hc].
  destruct (Node.layer layer) as [selection|]; [|apply hresult_ret; exact Hc].
  cbv zeta. destruct (Z.geb _ _); [apply hresult_ret; exact Hc|].
  unfold selectsOne in Hone. apply andb_true_iff in Hone. destruct Hone as [Hall Hpick].
  apply negb_true_iff in Hall, Hpick.
  eapply hresult_bind_with
    with (Q := fun result => oneCompatible cfg e (SpawnManager.RollResult.selected result)).
  { destruct (String.eqb _ "weighted"); [apply selectWeighted_one|].
    rewrite Hall, Hpick.
    destruct (String.eqb _ "firstMatch");
      [apply hresult_ret, selectFirstMatch_one|apply selectWeighted_one]. }
  intros result Hres.
  destruct (SpawnManager.RollResult.selected result) as [[|t ts]|];
    try (apply hresult_ret; exact Hc).
  destruct Hres as (-> & trait & -> & Hget & Hsel).
  apply hresult_bind. intros now. apply hresult_ret. cbn [snd].
  unfold SpawnManager.activateSelected. cbn [fold_left].
  destruct (SpawnManager.isTrait trait) eqn:Htrait.
  - apply (compatible_activated cfg e _ trait Hsym Hirr Hc Hget Htrait Hsel).
    apply setLastRoll_activatedOnly, activateTrait_activatedOnly.
  - rewrite (activateTrait_not_trait cfg now e trait Hget Htrait).
    apply (compatible_shrink cfg e); [exact Hc|].
    intros i. rewrite setLastRoll_active. auto.
Qed.

(** C7 (as amended). In a configuration where traits declare their
    incompatibilities on both sides and no trait lists itself, a roll of a
    layer in a mode that selects one trait (weighted, firstMatch, or the
    default) preserves the invariant that whenever a trait is active on the
    entity no member of its incompatibleWith is active: the trait it
    activates had no active member of its list when it was selected. The
    other operations of the claim (allMatching and pickN selection,
    activateTrait, spawn with forced traits) are not covered. *)
Theorem single_selection_keeps_compatible
    (cfg : Config.t) (e : Entity.t) (layerId : string) (h : Host.t) :
  symmetricExclusion cfg -> noSelfExclusion cfg ->
  selectsOne (modeOf cfg layerId) = true ->
  compatible cfg e ->
  compatible cfg (snd (fst (SpawnManager.rollLayer cfg e layerId h))) /\
  oneCompatible cfg e
    (SpawnManager.RollResult.selected (fst (fst (SpawnManager.rollLayer cfg e layerId h)))).
Proof.
  intros Hsym Hirr Hone Hc. split; [apply (rollLayer_compatible cfg e layerId Hsym Hirr Hone Hc h)|].
  revert h. change (hresult (SpawnManager.rollLayer cfg e layerId)
                      (fun r => oneCompatible cfg e (SpawnManager.RollResult.selected (fst r)))).
  unfold SpawnManager.rollLayer, modeOf in *.
  destruct (SpawnManager.getNode cfg layerId) as [layer|]; [|apply hresult_ret; exact I].
  destruct (Node.layer layer) as [selection|]; [|apply hresult_ret; exact I].
  cbv zeta. destruct (Z.geb _ _); [apply hresult_ret; exact I|].
  unfold selectsOne in Hone. apply andb_true_iff in Hone. destruct Hone as [Hall Hpick].
  apply negb_true_iff in Hall, Hpick.
  eapply hresult_bind_with
    with (Q := fun result => oneCompatible cfg e (SpawnManager.RollResult.selected result)).
  { destruct (String.eqb _ "weighted"); [apply selectWeighted_one|].
    rewrite Hall, Hpick.
    destruct (String.eqb _ "firstMatch");
      [apply hresult_ret, selectFirstMatch_one|apply selectWeighted_one]. }
  intros result Hres.
  destruct (SpawnManager.RollResult.selected result) as [[|t ts]|] eqn:E.
  - apply hresult_ret. cbn. rewrite E. exact I.
  - apply hresult_bind. intros now. apply hresult_ret. cbn. rewrite E. exact Hres.
  - apply hresult_ret. cbn. rewrite E. exact I.
Qed.

(* the nodes of a small configuration, one by one *)
Ltac each_node H :=
  unfold SpawnManager.getNode in H; apply find_some in H;
  let Hin := fresh "Hin" in
  let E := fresh "E" in
  destruct H as [Hin E]; cbn in Hin;
  repeat (destruct Hin as [<-|Hin]); try destruct Hin;
  apply String.eqb_eq in E; cbn in E; subst.

Lemma single_selection_keeps_compatible_witness :
  let cfg := Scenario.cfgMoods None None in
  let e := snd (fst (SpawnManager.rollLayer cfg (Scenario.eMoods cfg) "mood"
                       Scenario.hostMoods)) in
  Scenario.moodOf e = ["optimist"] /\
  compatible cfg (snd (fst (SpawnManager.rollLayer cfg e "mood" Scenario.hostMoods))).
Proof.
  cbv zeta. split; [reflexivity|].
  assert (Hsym : symmetricExclusion (Scenario.cfgMoods None None)).
  { intros id trait id' trait' Hg Ht Hg' Ht' Hin.
    each_node Hg; each_node Hg'; cbn in *; try discriminate; intuition discriminate. }
  assert (Hirr : noSelfExclusion (Scenario.cfgMoods None None)).
  { intros id trait Hg Ht Hin. each_node Hg; cbn in *; try discriminate;
      intuition discriminate. }
  assert (Hnone : compatible (Scenario.cfgMoods None None)
                    (Scenario.eMoods (Scenario.cfgMoods None None))).
  { intros id trait Hg Ht Ha. each_node Hg; cbn in *; try discriminate; reflexivity. }
  apply single_selection_keeps_compatible; try assumption; try reflexivity.
  apply single_selection_keeps_compatible; try assumption; reflexivity.
Defined.

(** C7, counterexample: with optimist and pessimist declared incompatible
    with each other, activateTrait activates pessimist while optimist is
    active; a preset that forces both spawns an entity with both; a roll in
    allMatching mode and a roll in pickN mode (pickCount 2) select both.
    With the exclusion declared by pessimist only, a weighted roll
    activates optimist while pessimist is active. *)
Lemma incompatible_traits_counterexample :
  (let cfg := Scenario.cfgMoods None None in
   let e1 := snd (SpawnManager.activateTrait cfg 1000 (Scenario.eMoods cfg) "optimist") in
   let r := SpawnManager.activateTrait cfg 1000 e1 "pessimist" in
   fst r = true /\ Scenario.moodOf (snd r) = ["optimist"; "pessimist"] /\
   SpawnManager.incompatibleWithOf Scenario.optimist = ["pessimist"] /\
   SpawnManager.isNodeActive cfg (snd r) "optimist" = true /\
   SpawnManager.isNodeActive cfg (snd r) "pessimist" = true /\
   SpawnManager.hasIncompatibility cfg (snd r) Scenario.optimist = true) /\
  (let cfg := Scenario.cfgMoods None None in
   option_map Scenario.moodOf
     (fst (SpawnManager.spawn cfg (Some [("bipolar", Scenario.bipolar)]) "bipolar"
             Overrides.empty Scenario.hostMoods))
   = Some ["optimist"; "pessimist"]) /\
  (let cfg := Scenario.cfgMoods (Some "allMatching") None in
   Scenario.moodOf
     (snd (fst (SpawnManager.rollLayer cfg (Scenario.eMoods cfg) "mood" Scenario.hostMoods)))
   = ["optimist"; "pessimist"]) /\
  (let cfg := Scenario.cfgMoods (Some "pickN") (Some 2) in
   Scenario.moodOf
     (snd (fst (SpawnManager.rollLayer cfg (Scenario.eMoods cfg) "mood" Scenario.hostMoods)))
   = ["optimist"; "pessimist"]) /\
  (let cfg := Scenario.cfgOneSided in
   let e1 := snd (SpawnManager.activateTrait cfg 1000 (Scenario.eMoods cfg) "pessimist") in
   let e2 := snd (fst (SpawnManager.rollLayer cfg e1 "mood" Scenario.hostMoods)) in
   Scenario.moodOf e1 = ["pessimist"] /\ Scenario.moodOf e2 = ["pessimist"; "optimist"] /\
   SpawnManager.hasIncompatibility cfg e2 Scenario.pessimist = true).
Proof. vm_compute. repeat split; reflexivity. Qed.

(** ** The CSV line parser reads back what a writer wrote *)

Lemma append_assoc_char (s t : string) (c : ascii) :
  String.append (String.append s (String c "")) t = String.append s (String c t).
Proof. induction s as [|a s IH]; cbn; [reflexivity | now rewrite IH]. Qed.

Lemma append_empty_r (s : string) : String.append s "" = s.
Proof. induction s as [|a s IH]; cbn; [reflexivity | now rewrite IH]. Qed.

Lemma scan_plain (d : ascii) (field rest : string) values current :
  plain d field = true ->
  CSVImporter.scan (String d "") (String.append field rest) values current false
  = CSVImporter.scan (String d "") rest values (String.append current field) false.
Proof.
  revert current. induction field as [|c field IH]; intros current Hp; cbn.
  - now rewrite append_empty_r.
  - cbn in Hp. apply andb_prop in Hp as [Hc Hp]. apply andb_prop in Hc as [Hq Hd].
    apply negb_true_iff in Hq, Hd. rewrite Hq.
    cbn. rewrite Hd. cbn. rewrite IH by assumption. now rewrite append_assoc_char.
Qed.

(* inside quotes, up to the closing quote *)
Lemma scan_escaped (delimiter : string) (field rest : string) values current :
  match rest with
  | EmptyString => True
  | String next _ => Ascii.eqb next CSVImporter.quote = false
  end ->
  CSVImporter.scan delimiter
    (String.append (escape field) (String CSVImporter.quote rest)) values current true
  = CSVImporter.scan delimiter rest values (String.append current field) false.
Proof.
  intros Hrest. revert current. induction field as [|c field IH]; intros current.
  - cbn. rewrite append_empty_r.
    destruct rest as [|next rest']; [reflexivity|]. now rewrite Hrest.
  - cbn [escape]. destruct (Ascii.eqb c CSVImporter.quote) eqn:Hc.
    + apply Ascii.eqb_eq in Hc. subst c. cbn. rewrite IH.
      now rewrite append_assoc_char.
    + cbn. rewrite Hc. rewrite andb_false_r. rewrite IH.
      now rewrite append_assoc_char.
Qed.

Lemma scan_written (d : ascii) (field line rest : string) values :
  Ascii.eqb d CSVImporter.quote = false ->
  written d field line ->
  match rest with
  | EmptyString => True
  | String next _ => next = d
  end ->
  CSVImporter.scan (String d "") (String.append line rest) values "" false
  = CSVImporter.scan (String d "") rest values field false.
Proof.
  intros Hd Hw Hrest. destruct Hw as [field | field Hp].
  - unfold quoted. cbn [String.append CSVImporter.scan].
    rewrite Ascii.eqb_refl.
    replace (String.append (String.append (escape field) (String CSVImporter.quote "")) rest)
      with (String.append (escape field) (String CSVImporter.quote rest)).
    2:{ clear. induction (escape field) as [|a s IH]; cbn; [reflexivity | now rewrite IH]. }
    assert (Hscan := scan_escaped (String d "") field rest values "").
    cbn [negb]. destruct (escape field) eqn:E.
    + cbn in *. apply Hscan. destruct rest; [exact I | now subst].
    + rewrite <- E. cbn [String.append] in Hscan. rewrite <- Hscan.
      2:{ destruct rest; [exact I | now subst]. }
      rewrite E. cbn [String.append]. reflexivity.
  - now rewrite scan_plain by assumption.
Qed.

Lemma scan_lines (d : ascii) (fields lines : list string) values :
  Ascii.eqb d CSVImporter.quote = false ->
  fields <> [] ->
  Forall2 (written d) fields lines ->
  CSVImporter.scan (String d "") (String.concat (String d "") lines) values "" false
  = values ++ fields.
Proof.
  intros Hd Hne Hw. revert values.
  induction Hw as [|field line fields lines Hfield Hrest IH]; [congruence|]. intros values.
  destruct Hrest as [|field' line' fields' lines' Hfield' Hrest'].
  - cbn [String.concat]. rewrite <- (append_empty_r line).
    rewrite (scan_written d field line "" values Hd Hfield I). reflexivity.
  - change (String.concat (String d "") (line :: line' :: lines'))
      with (String.append line
              (String.append (String d "") (String.concat (String d "") (line' :: lines')))).
    cbn [String.append].
    rewrite (scan_written d field line
               (String d (String.concat (String d "") (line' :: lines'))) values Hd Hfield
               eq_refl).
    cbn [CSVImporter.scan]. rewrite Hd.
    rewrite String.eqb_refl. cbn [andb negb].
    rewrite IH by congruence. now rewrite <- app_assoc.
Qed.

(** X1. A line written by joining fields with a one-character delimiter
    other than the quote, every field either wrapped in quotes with its
    quotes doubled, or left as it is when it holds neither a quote nor the
    delimiter, is parsed by [parseLine] back into exactly those fields. *)
Theorem parseLine_reads_written_fields (d : ascii) (fields lines : list string) :
  Ascii.eqb d CSVImporter.quote = false ->
  fields <> [] ->
  Forall2 (written d) fields lines ->
  CSVImporter.parseLine (String.concat (String d "") lines) (String d "") = fields.
Proof.
  intros Hd Hne Hw. unfold CSVImporter.parseLine.
  now rewrite (scan_lines d fields lines [] Hd Hne Hw).
Qed.

Lemma parseLine_reads_written_fields_witness :
  CSVImporter.parseLine
    (String.concat "," [quoted "a,b"; "c"; quoted (String CSVImporter.quote "x")]) ","
  = ["a,b"; "c"; String CSVImporter.quote "x"].
Proof.
  apply (parseLine_reads_written_fields ","%char
           ["a,b"; "c"; String CSVImporter.quote "x"]).
  - reflexivity.
  - discriminate.
  - repeat constructor.
Defined.

(** ** A stable sort by a numeric key *)

Lemma filter_nothing {A : Type} (f : A -> bool) (l : list A) :
  (forall z, In z l -> f z = false) -> List.filter f l = [].
Proof.
  induction l as [|y l IH]; cbn; intros H; [reflexivity|].
  rewrite (H y) by (left; reflexivity). apply IH. intros z Hz. apply H. right. exact Hz.
Qed.

Section StableSort.
Context {A : Type} (cmp : A -> A -> Z) (key : A -> Z).
Hypothesis cmp_key : forall a b, cmp a b = key a - key b.

Let le (a b : A) : Prop := key a <= key b.

Lemma insertBy_Permutation (x : A) (l : list A) :
  Permutation (JS.insertBy cmp x l) (x :: l).
Proof.
  induction l as [|y l IH]; cbn; [reflexivity|].
  destruct (Z.ltb (cmp x y) 0); [reflexivity|].
  rewrite IH. apply perm_swap.
Qed.

Lemma insertBy_sorted (x : A) (l : list A) :
  StronglySorted le l -> StronglySorted le (JS.insertBy cmp x l).
Proof.
  induction 1 as [|y l Hl IH Hy]; cbn.
  - repeat constructor.
  - destruct (Z.ltb (cmp x y) 0) eqn:E.
    + apply Z.ltb_lt in E. rewrite cmp_key in E.
      constructor; [constructor; assumption|].
      constructor; [unfold le; lia|].
      eapply Forall_impl; [|exact Hy]. unfold le. cbn. intros; lia.
    + apply Z.ltb_ge in E. rewrite cmp_key in E.
      constructor; [exact IH|].
      rewrite Forall_forall. intros z Hz.
      apply (Permutation_in _ (insertBy_Permutation x l)) in Hz.
      destruct Hz as [<-|Hz]; [unfold le; lia|].
      rewrite Forall_forall in Hy. apply Hy, Hz.
Qed.

(* the new item goes behind the items of its order *)
Lemma insertBy_ofOrder (x : A) (l : list A) (k : Z) :
  StronglySorted le l ->
  ofOrder key k (JS.insertBy cmp x l)
  = ofOrder key k l ++ (if Z.eqb (key x) k then [x] else []).
Proof.
  unfold ofOrder. induction 1 as [|y l Hl IH Hy]; cbn.
  - destruct (Z.eqb (key x) k); reflexivity.
  - destruct (Z.ltb (cmp x y) 0) eqn:E.
    + apply Z.ltb_lt in E. rewrite cmp_key in E. cbn.
      destruct (Z.eqb (key x) k) eqn:Ex.
      * apply Z.eqb_eq in Ex.
        assert (Hnone : List.filter (fun z => Z.eqb (key z) k) (y :: l) = []).
        { apply filter_nothing. intros z [<-|Hz]; apply Z.eqb_neq.
          - lia.
          - rewrite Forall_forall in Hy. specialize (Hy z Hz). unfold le in Hy. lia. }
        cbn in Hnone. rewrite Hnone. reflexivity.
      * now rewrite app_nil_r.
    + cbn. rewrite IH. destruct (Z.eqb (key y) k); reflexivity.
Qed.

Lemma sort_stable (l : list A) :
  Permutation (JS.sort cmp l) l /\
  StronglySorted le (JS.sort cmp l) /\
  forall k, ofOrder key k (JS.sort cmp l) = ofOrder key k l.
Proof.
  unfold JS.sort.
  assert (H : forall acc,
             StronglySorted le acc ->
             Permutation (fold_left (fun acc x => JS.insertBy cmp x acc) l acc) (acc ++ l) /\
             StronglySorted le (fold_left (fun acc x => JS.insertBy cmp x acc) l acc) /\
             forall k,
               ofOrder key k (fold_left (fun acc x => JS.insertBy cmp x acc) l acc)
               = ofOrder key k acc ++ ofOrder key k l).
  { induction l as [|x l IH]; intros acc Hacc; cbn [fold_left].
    - rewrite app_nil_r. split; [reflexivity|]. split; [exact Hacc|].
      intros k. unfold ofOrder. cbn. now rewrite app_nil_r.
    - destruct (IH _ (insertBy_sorted x acc Hacc)) as (Hp & Hs & Hk).
      split; [|split; [exact Hs|]].
      + rewrite Hp, insertBy_Permutation. apply Permutation_middle.
      + intros k. rewrite Hk, insertBy_ofOrder by exact Hacc.
        unfold ofOrder. cbn. rewrite <- app_assoc.
        destruct (Z.eqb (key x) k); reflexivity. }
  destruct (H [] (SSorted_nil _)) as (Hp & Hs & Hk). auto.
Qed.
End StableSort.

(** X2. [getSpawnOrder] returns every attribute and every layer rolled at
    spawn or create time exactly once, in non-decreasing order; items of
    equal order keep the order in which they were collected, attributes
    before layers. *)
Theorem getSpawnOrder_is_stable_sort (cfg : Config.t) :
  Permutation (SpawnManager.getSpawnOrder cfg) (spawnItems cfg) /\
  StronglySorted
    (fun a b => SpawnManager.SpawnItem.order a <= SpawnManager.SpawnItem.order b)
    (SpawnManager.getSpawnOrder cfg) /\
  forall k,
    ofOrder SpawnManager.SpawnItem.order k (SpawnManager.getSpawnOrder cfg)
    = ofOrder SpawnManager.SpawnItem.order k (spawnItems cfg).
Proof.
  change (SpawnManager.getSpawnOrder cfg)
    with (JS.sort (fun a b => SpawnManager.SpawnItem.order a - SpawnManager.SpawnItem.order b)
            (spawnItems cfg)).
  apply (sort_stable _ SpawnManager.SpawnItem.order). reflexivity.
Qed.

(** ** Picks without replacement *)

(* the walk stops at an entry of the pool, and taking it out leaves the
   others *)
Lemma walk_splice {A : Type} (weight : A -> float) (pool : list A) :
  forall roll j p,
    SpawnManager.walk weight roll pool = Some (j, p) ->
    Permutation pool (p :: JS.splice1 j pool).
Proof.
  induction pool as [|q pool IH]; intros roll j p; cbn; [discriminate|].
  destruct (PrimFloat.leb _ 0).
  - intros H. inversion H; subst. reflexivity.
  - destruct (SpawnManager.walk weight _ pool) as [[j' q']|] eqn:E; [|discriminate].
    intros H. inversion H; subst. cbn.
    rewrite (IH _ _ _ E) at 1. apply perm_swap.
Qed.

Lemma selectNLoop_without_replacement (n : nat) :
  forall remaining picks,
    hresult (SpawnManager.selectNLoop n remaining picks)
      (fun picks' =>
         (length picks' <= length picks + n)%nat /\
         exists rest,
           Permutation (picks ++ map SpawnManager.itemId remaining) (picks' ++ rest)).
Proof.
  induction n as [|n IH]; intros remaining picks.
  - cbn. apply hresult_ret. split; [lia|]. eexists. reflexivity.
  - destruct remaining as [|item remaining'].
    + cbn. apply hresult_ret. split; [lia|]. eexists. reflexivity.
    + set (remaining := item :: remaining').
      cbn [SpawnManager.selectNLoop]. fold remaining.
      apply hresult_bind. intros u.
      destruct (SpawnManager.walk _ _ remaining) as [[j picked]|] eqn:E.
      * intros h. destruct (IH (JS.splice1 j remaining)
                              (picks ++ [SpawnManager.itemId picked]) h)
          as [Hlen [rest Hperm]].
        split.
        -- rewrite length_app in Hlen. cbn in Hlen. lia.
        -- exists rest. rewrite <- Hperm.
           rewrite (walk_splice _ _ _ _ _ E) at 1. cbn [map].
           rewrite <- app_assoc. reflexivity.
      * intros h. destruct (IH remaining picks h) as [Hlen Hperm].
        split; [lia | exact Hperm].
Qed.

(** X3. [selectNFromPool] picks without replacement: it returns at most
    [n] ids, and the ids it returns, taken together with some remainder,
    are the ids of the pool, entry for entry; so no entry of the pool is
    picked twice, and the picks of a pool of distinct ids are distinct. *)
Theorem selectNFromPool_picks_distinct_entries (pool : list PoolItem) (n : Z) :
  hresult (SpawnManager.selectNFromPool pool n)
    (fun picks =>
       Z.of_nat (length picks) <= Z.max 0 n /\
       (exists rest, Permutation (map SpawnManager.itemId pool) (picks ++ rest)) /\
       (List.NoDup (map SpawnManager.itemId pool) -> List.NoDup picks)).
Proof.
  intros h. unfold SpawnManager.selectNFromPool.
  destruct (selectNLoop_without_replacement (Z.to_nat n) pool [] h) as [Hlen [rest Hperm]].
  split; [cbn in Hlen; lia|]. split; [exists rest; exact Hperm|].
  intros Hnd. cbn in Hperm. eapply List.NoDup_app_remove_r.
  eapply Permutation_NoDup; [exact Hperm | exact Hnd].
Qed.

(** ** Actions: selection and cooldown *)

Lemma getAvailableActions_spec cfg presets e (a : string * Z) :
  In a (SpawnManager.getAvailableActions cfg presets e) ->
  SpawnManager.isActionAvailable cfg e (fst a) = true /\ 0 < snd a /\
  exists action,
    In action (SpawnManager.getActions cfg) /\ Node.id action = fst a /\
    snd a = SpawnManager.actionWeight cfg presets e action.
Proof.
  unfold SpawnManager.getAvailableActions. rewrite in_flat_map.
  intros [action [Hin Ha]].
  destruct (SpawnManager.isActionAvailable cfg e (Node.id action)) eqn:Hav; cbn in Ha;
    [|contradiction].
  destruct (Z.gtb (SpawnManager.actionWeight cfg presets e action) 0) eqn:Hw;
    [|contradiction].
  destruct Ha as [<-|[]]. cbn. split; [exact Hav|]. split; [lia|].
  exists action. auto.
Qed.

(** X4. [selectAction] returns null exactly when no action is available
    with a positive weight; otherwise it returns one of the entries of
    [getAvailableActions], so an action that [isActionAvailable] accepts,
    with its positive weight, whatever the random draw. *)
Theorem selectAction_picks_available_action cfg presets e :
  hresult (SpawnManager.selectAction cfg presets e)
    (fun selected =>
       match selected with
       | None => SpawnManager.getAvailableActions cfg presets e = []
       | Some a =>
           In a (SpawnManager.getAvailableActions cfg presets e) /\
           SpawnManager.isActionAvailable cfg e (fst a) = true /\ 0 < snd a
       end).
Proof.
  unfold SpawnManager.selectAction.
  destruct (SpawnManager.getAvailableActions cfg presets e) as [|first rest] eqn:E.
  - apply hresult_ret. reflexivity.
  - apply hresult_bind. intros u.
    assert (Hall : forall a, In a (first :: rest) ->
                             In a (first :: rest) /\
                             SpawnManager.isActionAvailable cfg e (fst a) = true /\ 0 < snd a).
    { intros a Ha. split; [exact Ha|]. rewrite <- E in Ha.
      destruct (getAvailableActions_spec _ _ _ _ Ha) as (H1 & H2 & _). auto. }
    destruct (SpawnManager.walk _ _ (first :: rest)) as [[j a]|] eqn:Hw; apply hresult_ret.
    + apply Hall. eapply walk_In, Hw.
    + apply Hall. left. reflexivity.
Qed.

Lemma get_map_values {V W : Type} (g : V -> W) (k : string) (o : JS.Obj V) :
  JS.get k (map (fun kv => (fst kv, g (snd kv))) o) = option_map g (JS.get k o).
Proof.
  induction o as [|[k' v] o IH]; cbn; [reflexivity|].
  destruct (String.eqb k k'); [reflexivity | exact IH].
Qed.

Lemma actions_set_actions x e : Entity.actions (Entity.set_actions x e) = x.
Proof. destruct e; reflexivity. Qed.

(** X5. A successful [executeAction] starts the action's cooldown: the
    remaining cooldown is the declared one. While that is positive the
    action is not available and a further [executeAction] fails and leaves
    the entity as it is; the cooldown step of a tick of [deltaSeconds]
    brings the remaining cooldown down by that much, and not below 0. *)
Theorem executeAction_cooldown_blocks_repeat cfg now e actionId e' :
  SpawnManager.executeAction cfg now e actionId = (true, e') ->
  SpawnManager.getActionCooldown cfg e' actionId
  = (cooldownOf cfg actionId, cooldownOf cfg actionId, Z.leb (cooldownOf cfg actionId) 0) /\
  (0 < cooldownOf cfg actionId ->
   SpawnManager.isActionAvailable cfg e' actionId = false /\
   (forall now', SpawnManager.executeAction cfg now' e' actionId = (false, e')) /\
   forall deltaSeconds,
     cooldownRemaining cfg (EntityManager.tickCooldowns deltaSeconds e') actionId
     = Z.max 0 (cooldownOf cfg actionId - deltaSeconds)).
Proof.
  unfold SpawnManager.executeAction.
  destruct (SpawnManager.isActionAvailable cfg e actionId) eqn:Hav; cbn [negb];
    [|discriminate].
  intros H. injection H as <-.
  assert (Hnode : exists action, SpawnManager.getNode cfg actionId = Some action).
  { unfold SpawnManager.isActionAvailable in Hav.
    destruct (SpawnManager.getNode cfg actionId); [eauto | discriminate]. }
  destruct Hnode as [action Hnode].
  set (e1 := fold_left SpawnManager.deductCost _ e).
  assert (Hget : JS.get actionId
                   (Entity.actions
                      (SpawnManager.log now "actionExecuted" [actionId]
                         (Entity.set_actions
                            (JS.set actionId (cooldownOf cfg actionId) (Entity.actions e1))
                            e1)))
                 = Some (cooldownOf cfg actionId)).
  { rewrite log_actions, actions_set_actions. apply get_set_eq. }
  unfold cooldownOf in *. rewrite Hnode in *.
  set (c := JS.orNum (ActionCfg.cooldown (SpawnManager.actionCfg action)) 0) in *.
  set (e' := SpawnManager.log now "actionExecuted" [actionId] _) in *.
  assert (Hc : JS.orNum (Some c) 0 = c).
  { unfold JS.orNum at 1. destruct (Z.eqb c 0) eqn:E; [|reflexivity].
    apply Z.eqb_eq in E. congruence. }
  split.
  - unfold SpawnManager.getActionCooldown. rewrite Hnode, Hget. fold c. now rewrite Hc.
  - intros Hpos.
    assert (Hblocked : SpawnManager.isActionAvailable cfg e' actionId = false).
    { unfold SpawnManager.isActionAvailable. rewrite Hnode, Hget.
      destruct (negb (String.eqb (Node.type action) "action")); [reflexivity|].
      replace (Z.gtb c 0) with true by (symmetry; apply Z.gtb_lt; lia). reflexivity. }
    split; [exact Hblocked|]. split.
    + intros now'. now rewrite Hblocked.
    + intros deltaSeconds. unfold cooldownRemaining, SpawnManager.getActionCooldown.
      cbn [fst]. unfold EntityManager.tickCooldowns.
      rewrite actions_set_actions.
      rewrite (get_map_values
                 (fun v => if Z.gtb v 0 then Z.max 0 (v - deltaSeconds) else v)).
      rewrite Hget. cbn [option_map].
      replace (Z.gtb c 0) with true by (symmetry; apply Z.gtb_lt; lia).
      unfold JS.orNum. destruct (Z.eqb (Z.max 0 (c - deltaSeconds)) 0) eqn:E;
        [apply Z.eqb_eq in E; lia | reflexivity].
Qed.

Lemma executeAction_cooldown_blocks_repeat_witness :
  SpawnManager.isActionAvailable Scenario.cfgActions Scenario.eStruck "strike" = false.
Proof.
  refine (proj1 (proj2 (executeAction_cooldown_blocks_repeat Scenario.cfgActions 1000
                          Scenario.eActions "strike" Scenario.eStruck _) _)).
  - vm_compute. reflexivity.
  - vm_compute. reflexivity.
Defined.

(** ** What a check of the compounds establishes *)

Lemma indexOf_In (x : string) (l : list string) :
  In x l -> exists i, JS.indexOf x l = Some i.
Proof.
  induction l as [|y l IH]; cbn; [contradiction|]. intros H.
  destruct (String.eqb x y) eqn:E; [eauto|].
  apply String.eqb_neq in E. destruct H as [H|H]; [congruence|].
  destruct (IH H) as [i ->]. eauto.
Qed.

Lemma splice1_indexOf_gone (x : string) (l : list string) (i : nat) :
  List.NoDup l -> JS.indexOf x l = Some i -> ~ In x (JS.splice1 i l).
Proof.
  revert i. induction l as [|y l IH]; cbn; intros i Hnd Hi; [discriminate|].
  inversion Hnd as [|? ? Hy Hl]; subst.
  destruct (String.eqb x y) eqn:E.
  - apply String.eqb_eq in E. subst y. injection Hi as <-. exact Hy.
  - apply String.eqb_neq in E.
    destruct (JS.indexOf x l) as [j|] eqn:Ej; [|discriminate]. injection Hi as <-.
    cbn. intros [H|H]; [congruence|]. exact (IH j Hl eq_refl H).
Qed.

Lemma splice1_indexOf_others (x y : string) (l : list string) (i : nat) :
  y <> x -> JS.indexOf x l = Some i -> In y l -> In y (JS.splice1 i l).
Proof.
  revert i. induction l as [|z l IH]; cbn; intros i Hne Hi Hy; [contradiction|].
  destruct (String.eqb x z) eqn:E.
  - apply String.eqb_eq in E. subst z. injection Hi as <-.
    destruct Hy as [Hy|Hy]; [congruence | exact Hy].
  - destruct (JS.indexOf x l) as [j|] eqn:Ej; [|discriminate]. injection Hi as <-.
    cbn. destruct Hy as [Hy|Hy]; [left; exact Hy | right; apply IH; auto].
Qed.

Lemma NoDup_splice1 {A : Type} (i : nat) (l : list A) :
  List.NoDup l -> List.NoDup (JS.splice1 i l).
Proof.
  revert i. induction l as [|y l IH]; intros [|i] Hnd; cbn; try exact Hnd;
    inversion Hnd as [|? ? Hy Hl]; subst; [exact Hl|].
  constructor; [|apply IH, Hl]. intros H. apply Hy. eapply In_splice1, H.
Qed.

Lemma compounds_set_compounds c e : Entity.compounds (Entity.set_compounds c e) = c.
Proof. destruct e; reflexivity. Qed.

Lemma set_compounds_same e : Entity.set_compounds (Entity.compounds e) e = e.
Proof. destruct e; reflexivity. Qed.

Lemma set_compounds_twice c c' e :
  Entity.set_compounds c (Entity.set_compounds c' e) = Entity.set_compounds c e.
Proof. destruct e; reflexivity. Qed.

(* a check changes nothing of the entity but the list of compounds *)
Lemma checkCompound_shape cfg e compound :
  SpawnManager.checkCompound cfg e compound
  = Entity.set_compounds (Entity.compounds (SpawnManager.checkCompound cfg e compound)) e.
Proof.
  unfold SpawnManager.checkCompound.
  destruct (_ && negb _); [now rewrite compounds_set_compounds|].
  destruct (negb _ && _); [|now rewrite set_compounds_same].
  destruct (JS.indexOf _ _); [now rewrite compounds_set_compounds|].
  now rewrite set_compounds_same.
Qed.

Lemma checkCompounds_shape cfg (compounds : list Node.t) e :
  fold_left (SpawnManager.checkCompound cfg) compounds e
  = Entity.set_compounds
      (Entity.compounds (fold_left (SpawnManager.checkCompound cfg) compounds e)) e.
Proof.
  revert e. induction compounds as [|k compounds IH]; intros e; cbn.
  - now rewrite set_compounds_same.
  - rewrite IH at 1. rewrite (checkCompound_shape cfg e k) at 2.
    now rewrite set_compounds_twice.
Qed.

(* the check of one compound settles it, and leaves the others *)
Lemma checkCompound_settles cfg e compound :
  List.NoDup (Entity.compounds e) ->
  List.NoDup (Entity.compounds (SpawnManager.checkCompound cfg e compound)) /\
  (In (Node.id compound) (Entity.compounds (SpawnManager.checkCompound cfg e compound))
   <-> SpawnManager.checkCompoundRequirements cfg e compound = true) /\
  forall id, id <> Node.id compound ->
             (In id (Entity.compounds (SpawnManager.checkCompound cfg e compound))
              <-> In id (Entity.compounds e)).
Proof.
  intros Hnd. unfold SpawnManager.checkCompound.
  destruct (SpawnManager.checkCompoundRequirements cfg e compound) eqn:Hmet;
    destruct (JS.includes (Node.id compound) (Entity.compounds e)) eqn:Hact; cbn [andb negb].
  - apply includes_In in Hact. split; [exact Hnd|]. split; [tauto|]. tauto.
  - rewrite compounds_set_compounds.
    assert (Hout : ~ In (Node.id compound) (Entity.compounds e)).
    { intros H. apply includes_In in H. congruence. }
    split; [|split].
    + apply List.NoDup_app; [exact Hnd | repeat constructor; intros [] |].
      intros x Hx [<-|[]]. exact (Hout Hx).
    + rewrite in_app_iff. cbn. tauto.
    + intros id Hid. rewrite in_app_iff. cbn. intuition congruence.
  - apply includes_In in Hact. destruct (indexOf_In _ _ Hact) as [i Hi]. rewrite Hi.
    rewrite compounds_set_compounds. split; [apply NoDup_splice1, Hnd|]. split.
    + split; [|discriminate]. intros H. exfalso.
      exact (splice1_indexOf_gone _ _ _ Hnd Hi H).
    + intros id Hid. split; [intros H; eapply In_splice1, H|].
      apply (splice1_indexOf_others (Node.id compound)); assumption.
  - split; [exact Hnd|]. split; [|tauto]. split; [|discriminate].
    intros H. apply includes_In in H. congruence.
Qed.

Lemma checkCompounds_others cfg (compounds : list Node.t) e id :
  ~ In id (map Node.id compounds) ->
  List.NoDup (Entity.compounds e) ->
  (In id (Entity.compounds (fold_left (SpawnManager.checkCompound cfg) compounds e))
   <-> In id (Entity.compounds e)).
Proof.
  revert e. induction compounds as [|k compounds IH]; intros e Hid Hnd; cbn; [tauto|].
  cbn in Hid. destruct (checkCompound_settles cfg e k Hnd) as (Hnd' & _ & Hothers).
  rewrite IH by tauto. apply Hothers. intros E. apply Hid. left. congruence.
Qed.

Lemma checkCompounds_settles cfg (compounds : list Node.t) e compound :
  List.NoDup (map Node.id compounds) ->
  List.NoDup (Entity.compounds e) ->
  In compound compounds ->
  compoundFree cfg compound ->
  (In (Node.id compound)
      (Entity.compounds (fold_left (SpawnManager.checkCompound cfg) compounds e))
   <-> SpawnManager.checkCompoundRequirements cfg
         (fold_left (SpawnManager.checkCompound cfg) compounds e) compound = true).
Proof.
  intros Hids Hnd Hin Hfree. revert e Hnd.
  induction compounds as [|k compounds IH]; intros e Hnd; [contradiction|]. cbn.
  inversion Hids as [|? ? Hk Hids']; subst.
  destruct (checkCompound_settles cfg e k Hnd) as (Hnd' & Hsettled & _).
  destruct Hin as [->|Hin]; [|apply IH; assumption].
  rewrite checkCompounds_others by assumption.
  assert (Hreq : SpawnManager.checkCompoundRequirements cfg
                   (fold_left (SpawnManager.checkCompound cfg) compounds
                      (SpawnManager.checkCompound cfg e compound)) compound
                 = SpawnManager.checkCompoundRequirements cfg e compound).
  { rewrite checkCompounds_shape, checkCompound_shape, set_compounds_twice. apply Hfree. }
  rewrite Hreq. exact Hsettled.
Qed.

(** X6. After [checkCompounds], a compound whose requirements do not read
    the list of active compounds is in [entity.compounds] exactly when its
    requirements are met, provided the compounds have distinct ids and the
    list held no duplicate before. *)
Theorem checkCompounds_settles_each_compound cfg e compound :
  List.NoDup (map Node.id (SpawnManager.getCompounds cfg)) ->
  List.NoDup (Entity.compounds e) ->
  In compound (SpawnManager.getCompounds cfg) ->
  compoundFree cfg compound ->
  (In (Node.id compound) (Entity.compounds (SpawnManager.checkCompounds cfg e))
   <-> SpawnManager.checkCompoundRequirements cfg (SpawnManager.checkCompounds cfg e)
         compound = true).
Proof. apply checkCompounds_settles. Qed.

Lemma checkCompounds_settles_each_compound_witness :
  In "weakened" (Entity.compounds (SpawnManager.checkCompounds Scenario.cfgWeakened
                                     Scenario.eHurt)).
Proof.
  apply (proj2 (checkCompounds_settles_each_compound Scenario.cfgWeakened Scenario.eHurt
                  Scenario.weakened
                  ltac:(repeat constructor; intros [])
                  ltac:(vm_compute; constructor)
                  ltac:(left; reflexivity)
                  ltac:(intros e0 c; destruct e0; reflexivity))).
  vm_compute. reflexivity.
Defined.

(** ** Trigger conditions without connectors *)

Lemma fold_left_andb {A : Type} (f : A -> bool) (l : list A) (a : bool) :
  fold_left (fun r x => r && f x) l a = a && forallb f l.
Proof.
  revert a. induction l as [|x l IH]; intros a; cbn.
  - now rewrite andb_true_r.
  - rewrite IH. now rewrite andb_assoc.
Qed.

Lemma fold_left_orb {A : Type} (f : A -> bool) (l : list A) (a : bool) :
  fold_left (fun r x => r || f x) l a = a || existsb f l.
Proof.
  revert a. induction l as [|x l IH]; intros a; cbn.
  - now rewrite orb_false_r.
  - rewrite IH. now rewrite orb_assoc.
Qed.

(** X7. [evaluateConditionsWithConnectors] on conditions in the legacy
    format, where no condition after the first carries a connector: with
    the logic [any] it holds when some condition holds, with any other
    logic (or none) when every condition holds. The connector of the first
    condition is not read, and an empty list of conditions never holds. *)
Theorem conditions_without_connectors_follow_logic sm entity c0 rest fallbackLogic :
  Forall (fun c => SCond.connector (TCond.leaf c) = None) rest ->
  EntityManager.evaluateConditionsWithConnectors sm entity (c0 :: rest) fallbackLogic
  = (if JS.strIs fallbackLogic "any"
     then existsb (EntityManager.evaluateConditionOrGroup sm entity) (c0 :: rest)
     else forallb (EntityManager.evaluateConditionOrGroup sm entity) (c0 :: rest)) /\
  EntityManager.evaluateConditionsWithConnectors sm entity [] fallbackLogic = false.
Proof.
  intros Hnone. split; [|reflexivity].
  unfold EntityManager.evaluateConditionsWithConnectors.
  destruct (JS.strIs fallbackLogic "any").
  - cbn [existsb]. rewrite <- fold_left_orb.
    generalize (EntityManager.evaluateConditionOrGroup sm entity c0) as a.
    induction Hnone as [|c rest Hc Hrest IH]; intros a; cbn; [reflexivity|].
    rewrite Hc. cbn. apply IH.
  - cbn [forallb]. rewrite <- fold_left_andb.
    generalize (EntityManager.evaluateConditionOrGroup sm entity c0) as a.
    induction Hnone as [|c rest Hc Hrest IH]; intros a; cbn; [reflexivity|].
    rewrite Hc. cbn. apply IH.
Qed.

Lemma conditions_without_connectors_follow_logic_witness :
  EntityManager.evaluateConditionsWithConnectors (Some Scenario.cfgWounds)
    Scenario.eHurt [Scenario.when "hp" "<=" 50; Scenario.when "hp" ">=" 20] (Some "any")
  = existsb (EntityManager.evaluateConditionOrGroup (Some Scenario.cfgWounds) Scenario.eHurt)
      [Scenario.when "hp" "<=" 50; Scenario.when "hp" ">=" 20].
Proof.
  apply (proj1 (conditions_without_connectors_follow_logic (Some Scenario.cfgWounds)
                  Scenario.eHurt (Scenario.when "hp" "<=" 50)
                  [Scenario.when "hp" ">=" 20] (Some "any")
                  ltac:(repeat constructor))).
Defined.

(** ** The verdicts of the arbiter of exclusive groups *)

Lemma pop_inv {A : Type} (q q' : list A) (o : option A) :
  JS.pop q = (o, q') ->
  match o with
  | Some x => q = q' ++ [x]
  | None => q = []
  end.
Proof.
  unfold JS.pop. destruct (rev q) as [|x r] eqn:E; intros H; injection H as <- <-.
  - apply (f_equal (@rev A)) in E. now rewrite rev_involutive in E.
  - apply (f_equal (@rev A)) in E. rewrite rev_involutive in E. exact E.
Qed.

Lemma sort_Permutation {A : Type} (cmp : A -> A -> Z) (l : list A) :
  Permutation (JS.sort cmp l) l.
Proof.
  unfold JS.sort.
  assert (H : forall acc,
             Permutation (fold_left (fun acc x => JS.insertBy cmp x acc) l acc) (acc ++ l)).
  { induction l as [|x l IH]; intros acc; cbn [fold_left].
    - now rewrite app_nil_r.
    - rewrite IH, insertBy_Permutation. apply Permutation_middle. }
  apply (H []).
Qed.

Lemma head_In {A : Type} (l : list A) (x : A) : head l = Some x -> In x l.
Proof. destruct l; cbn; [discriminate|]. intros H. injection H as <-. now left. Qed.

Lemma getMostSpecificModifier_In (candidates : list Node.t) (w : Node.t) :
  EntityManager.getMostSpecificModifier candidates = Some w -> In w candidates.
Proof.
  unfold EntityManager.getMostSpecificModifier.
  set (conds := flat_map _ candidates).
  assert (Hconds : forall c, In c conds -> In (fst c) candidates).
  { intros c Hc. unfold conds in Hc. apply in_flat_map in Hc as [m [Hm Hc]].
    destruct (EntityManager.singleCondition m); [|contradiction].
    destruct Hc as [<-|[]]. exact Hm. }
  assert (Hsorted : forall cmp (f : Node.t * SCond.t -> bool) c,
             head (JS.sort cmp (List.filter f conds)) = Some c -> In (fst c) candidates).
  { intros cmp f c Hc. apply head_In in Hc.
    apply (Permutation_in _ (sort_Permutation cmp _)) in Hc.
    apply filter_In in Hc as [Hc _]. apply Hconds, Hc. }
  destruct (Nat.eqb (length conds) (length candidates)); [|apply head_In].
  destruct (EntityManager.sameTargets conds); [|apply head_In].
  destruct (Nat.eqb (length (List.filter EntityManager.isLe conds)) (length conds)).
  - destruct (head (JS.sort _ (List.filter EntityManager.isLe conds))) as [c|] eqn:E;
      [|apply head_In].
    intros H. injection H as <-. eapply Hsorted, E.
  - destruct (Nat.eqb (length (List.filter EntityManager.isGe conds)) (length conds));
      [|apply head_In].
    destruct (head (JS.sort _ (List.filter EntityManager.isGe conds))) as [c|] eqn:E;
      [|apply head_In].
    intros H. injection H as <-. eapply Hsorted, E.
Qed.

(* the verdicts written for the members of a group *)
Lemma get_fold_verdicts (v : string -> bool) (group : list string) (results : JS.Obj bool)
    (x : string) :
  JS.get x (fold_left (fun results id => JS.set id (v id) results) group results)
  = if JS.includes x group then Some (v x) else JS.get x results.
Proof.
  revert results. induction group as [|id group IH]; intros results; cbn; [reflexivity|].
  rewrite IH. unfold JS.includes in *. destruct (existsb (String.eqb x) group) eqn:E.
  - now rewrite orb_true_r.
  - rewrite orb_false_r. rewrite get_set. rewrite String.eqb_sym.
    destruct (String.eqb x id) eqn:E'; [|reflexivity].
    apply String.eqb_eq in E'. now subst.
Qed.

Section Closure.
Variable exclusiveMap : JS.Obj (list string).

(* the body of the traversal's inner loop *)
Let step (gq : list string * list string) (p : string) : list string * list string :=
  if JS.includes p (fst gq) then gq else (fst gq ++ [p], snd gq ++ [p]).

Lemma addPartners_spec (ps : list string) :
  forall g q,
  exists news,
    fold_left step ps (g, q) = (g ++ news, q ++ news) /\
    (forall p, In p ps -> In p (g ++ news)) /\
    (forall n, In n news -> In n ps /\ ~ In n g) /\
    List.NoDup news.
Proof.
  induction ps as [|p ps IH]; intros g q; cbn [fold_left].
  - exists []. rewrite !app_nil_r. repeat split; try contradiction. constructor.
  - unfold step at 2. cbn [fst snd]. destruct (JS.includes p g) eqn:E.
    + destruct (IH g q) as (news & Hr & Hall & Hnew & Hnd). exists news.
      split; [exact Hr|]. split; [|split; [|exact Hnd]].
      * intros p' [<-|Hp']; [|apply Hall, Hp'].
        apply in_or_app. left. apply includes_In, E.
      * intros n Hn. destruct (Hnew n Hn). split; [right|]; assumption.
    + assert (Hp : ~ In p g) by (intros H; apply includes_In in H; congruence).
      destruct (IH (g ++ [p]) (q ++ [p])) as (news & Hr & Hall & Hnew & Hnd).
      exists (p :: news). rewrite Hr, <- !app_assoc. cbn.
      split; [reflexivity|]. split; [|split].
      * intros p' [<-|Hp'].
        -- apply in_or_app. right. left. reflexivity.
        -- specialize (Hall p' Hp'). rewrite <- app_assoc in Hall. exact Hall.
      * intros n [<-|Hn]; [split; [left; reflexivity | exact Hp]|].
        destruct (Hnew n Hn) as [H1 H2]. split; [right; exact H1|].
        intros H. apply H2. apply in_or_app. left. exact H.
      * constructor; [|exact Hnd]. intros H. destruct (Hnew p H) as [_ H2].
        apply H2. apply in_or_app. right. left. reflexivity.
Qed.

(* how many members of [universe] the group does not hold yet *)
Let missing (universe group : list string) : nat :=
  length (List.filter (fun p => negb (JS.includes p group)) universe).

Lemma includes_app (x : string) (l l' : list string) :
  JS.includes x (l ++ l') = JS.includes x l || JS.includes x l'.
Proof. unfold JS.includes. apply existsb_app. Qed.

Lemma missing_add (universe g : list string) (p : string) :
  List.NoDup universe -> ~ In p g ->
  (In p universe -> missing universe (g ++ [p]) + 1 = missing universe g)%nat /\
  (~ In p universe -> missing universe (g ++ [p]) = missing universe g).
Proof.
  intros Hnd Hp. unfold missing.
  induction universe as [|y universe IH]; cbn [List.filter].
  - split; [contradiction | reflexivity].
  - inversion Hnd as [|? ? Hy Hnd']; subst. destruct (IH Hnd') as [IH1 IH2].
    rewrite includes_app. cbn [JS.includes existsb]. rewrite orb_false_r.
    destruct (String.eqb y p) eqn:E.
    + apply String.eqb_eq in E. subst y.
      assert (Hg : JS.includes p g = false).
      { destruct (JS.includes p g) eqn:E'; [|reflexivity].
        apply includes_In in E'. contradiction. }
      rewrite Hg. cbn. split; [intros _ | intros H; exfalso; apply H; now left].
      rewrite (IH2 Hy). lia.
    + apply String.eqb_neq in E. rewrite orb_false_r.
      destruct (negb (JS.includes y g)); cbn [length].
      * split.
        -- intros [H|H]; [congruence|]. rewrite <- (IH1 H). lia.
        -- intros H. rewrite IH2; [reflexivity|]. intros H'. apply H. now right.
      * split.
        -- intros [H|H]; [congruence|]. apply IH1, H.
        -- intros H. apply IH2. intros H'. apply H. now right.
Qed.

Lemma missing_news (universe news : list string) :
  List.NoDup universe -> List.NoDup news ->
  forall g,
    (forall n, In n news -> In n universe /\ ~ In n g) ->
    (missing universe (g ++ news) + length news = missing universe g)%nat.
Proof.
  intros Hu. induction 1 as [|n news Hn Hnd IH]; intros g Hnew; cbn [length].
  - rewrite app_nil_r. lia.
  - destruct (Hnew n (or_introl eq_refl)) as [Hnu Hng].
    change (g ++ n :: news) with (g ++ [n] ++ news). rewrite app_assoc.
    rewrite <- (proj1 (missing_add universe g n Hu Hng) Hnu).
    rewrite <- (IH (g ++ [n])); [lia|].
    intros n' Hn'. destruct (Hnew n' (or_intror Hn')) as [H1 H2]. split; [exact H1|].
    intros H. apply in_app_or in H as [H|[<-|[]]]; [exact (H2 H) | exact (Hn Hn')].
Qed.

Lemma partnersOf_universe (x p : string) :
  In p (partnersOf exclusiveMap x) -> In p (concat (JS.values exclusiveMap)).
Proof.
  unfold partnersOf, JS.values.
  induction exclusiveMap as [|[k v] m IH]; cbn; [contradiction|].
  destruct (String.eqb x k); cbn.
  - intros H. apply in_or_app. now left.
  - intros H. apply in_or_app. right. apply IH, H.
Qed.

(* with fuel for every pop, the traversal returns a group that holds the
   partners of each of its members *)
Lemma collectGroup_closed (fuel : nat) :
  forall queue group,
    (length queue
     + missing (nodup string_dec (concat (JS.values exclusiveMap))) group <= fuel)%nat ->
    (forall x, In x group ->
               In x queue \/ forall p, In p (partnersOf exclusiveMap x) -> In p group) ->
    let result := EntityManager.collectGroup fuel exclusiveMap queue group in
    (forall x, In x group -> In x result) /\
    (forall x p, In x result -> In p (partnersOf exclusiveMap x) -> In p result).
Proof.
  set (universe := nodup string_dec (concat (JS.values exclusiveMap))).
  assert (Hu : List.NoDup universe) by apply NoDup_nodup.
  induction fuel as [|fuel IH]; intros queue group Hfuel Hinv; cbn.
  - destruct queue; [|cbn in Hfuel; lia].
    split; [auto|]. intros x p Hx Hp. destruct (Hinv x Hx) as [[]|H]. apply H, Hp.
  - destruct (JS.pop queue) as [[current|] queue'] eqn:Epop; apply pop_inv in Epop.
    2:{ subst queue. split; [auto|]. intros x p Hx Hp.
        destruct (Hinv x Hx) as [[]|H]. apply H, Hp. }
    subst queue. fold (partnersOf exclusiveMap current).
    destruct (addPartners_spec (partnersOf exclusiveMap current) group queue')
      as (news & Hr & Hall & Hnew & Hnd).
    change (fold_left _ (partnersOf exclusiveMap current) (group, queue'))
      with (fold_left step (partnersOf exclusiveMap current) (group, queue')).
    rewrite Hr. cbn [fst snd].
    destruct (IH (queue' ++ news) (group ++ news)) as [Hsub Hclosed].
    + rewrite length_app in *. cbn [length] in Hfuel.
      assert (Hm := missing_news universe news Hu Hnd group).
      rewrite <- Hm in Hfuel; [lia|].
      intros n Hn. destruct (Hnew n Hn) as [H1 H2]. split; [|exact H2].
      apply nodup_In. eapply partnersOf_universe, H1.
    + intros x Hx. apply in_app_or in Hx as [Hx|Hx].
      * destruct (Hinv x Hx) as [H|H].
        -- apply in_app_or in H as [H|[<-|[]]].
           ++ left. apply in_or_app. now left.
           ++ right. exact Hall.
        -- right. intros p Hp. apply in_or_app. left. apply H, Hp.
      * left. apply in_or_app. now right.
    + split; [|exact Hclosed]. intros x Hx. apply Hsub. apply in_or_app. now left.
Qed.

Lemma collectGroup_from (modId : string) :
  let group :=
    EntityManager.collectGroup (EntityManager.groupFuel exclusiveMap) exclusiveMap
      [modId] [modId] in
  In modId group /\
  forall x p, In x group -> In p (partnersOf exclusiveMap x) -> In p group.
Proof.
  destruct (collectGroup_closed (EntityManager.groupFuel exclusiveMap) [modId] [modId])
    as [Hsub Hclosed].
  - unfold EntityManager.groupFuel, missing. cbn [length].
    set (universe := concat (JS.values exclusiveMap)).
    assert (length (List.filter (fun p => negb (JS.includes p [modId]))
                      (nodup string_dec universe)) <= length universe)%nat; [|lia].
    etransitivity; [apply List.filter_length_le|].
    apply List.NoDup_incl_length; [apply NoDup_nodup|].
    intros x Hx. eapply nodup_In, Hx.
  - intros x [<-|[]]. left. now left.
  - split; [apply Hsub; now left | exact Hclosed].
Qed.
End Closure.

Section Verdicts.
Variables (sm : option Config.t) (entity : Entity.t).
Variables (exclusiveMap : JS.Obj (list string)) (modifiers : list Node.t).

(* a modifier of the list with this id whose trigger passes *)
Let qualifies (id : string) : Prop :=
  exists mod_,
    In mod_ modifiers /\ Node.id mod_ = id /\
    EntityManager.evaluateModifierTrigger sm entity (EntityManager.triggerOf mod_) = true.

(* what one group's resolution does to the verdicts: those of the group's
   members say who is the winner, the others stay *)
Lemma resolveGroup_verdicts (acc : JS.Obj bool * list string) (entry : string * list string) :
  fst (EntityManager.resolveGroup sm entity exclusiveMap modifiers acc entry) = fst acc \/
  exists (group : list string) (winner : option Node.t),
    (forall x p, In x group -> In p (partnersOf exclusiveMap x) -> In p group) /\
    (forall w, winner = Some w -> qualifies (Node.id w)) /\
    forall x,
      JS.get x (fst (EntityManager.resolveGroup sm entity exclusiveMap modifiers acc entry))
      = if JS.includes x group
        then Some (match winner with
                   | Some w => String.eqb x (Node.id w)
                   | None => false
                   end)
        else JS.get x (fst acc).
Proof.
  unfold EntityManager.resolveGroup.
  destruct (JS.includes (fst entry) (snd acc)); [left; reflexivity|]. right.
  set (group := EntityManager.collectGroup _ exclusiveMap [fst entry] [fst entry]).
  set (candidates := flat_map _ group).
  set (winner := match candidates with
                 | [] => None
                 | [only] => Some only
                 | _ => EntityManager.getMostSpecificModifier candidates
                 end).
  exists group, winner. split; [apply collectGroup_from|]. split.
  - intros w Hw.
    assert (Hin : In w candidates).
    { unfold winner in Hw. destruct candidates as [|c [|c' cs]]; [discriminate| |].
      - injection Hw as <-. now left.
      - apply getMostSpecificModifier_In, Hw. }
    unfold candidates in Hin. apply in_flat_map in Hin as [id [_ Hin]].
    destruct (find _ modifiers) as [mod_|] eqn:Efind; [|contradiction].
    destruct (EntityManager.evaluateModifierTrigger sm entity _) eqn:Etrig; [|contradiction].
    destruct Hin as [<-|[]]. apply find_some in Efind as [Hmod _].
    exists mod_. auto.
  - intros x. cbn [fst]. apply get_fold_verdicts.
Qed.

(* no verdict for a modifier whose trigger fails, no two winners among
   partners *)
Let sound (verdicts : JS.Obj bool) : Prop :=
  (forall id, JS.get id verdicts = Some true -> qualifies id) /\
  (forall a b,
      a <> b -> In b (partnersOf exclusiveMap a) -> In a (partnersOf exclusiveMap b) ->
      ~ (JS.get a verdicts = Some true /\ JS.get b verdicts = Some true)).

Lemma resolveGroups_sound (entries : JS.Obj (list string)) :
  forall acc,
    sound (fst acc) ->
    sound (fst (fold_left (EntityManager.resolveGroup sm entity exclusiveMap modifiers)
                  entries acc)).
Proof.
  induction entries as [|entry entries IH]; intros acc Hacc; cbn [fold_left]; [exact Hacc|].
  apply IH. destruct Hacc as [HA HB].
  destruct (resolveGroup_verdicts acc entry) as [-> | (group & winner & Hclosed & Hw & Hget)];
    [split; assumption|].
  split.
  - intros id. rewrite Hget. destruct (JS.includes id group); [|apply HA].
    destruct winner as [w|]; [|discriminate].
    intros H. injection H as H. apply String.eqb_eq in H. subst id. now apply Hw.
  - intros a b Hab Hba Hab' [Ha Hb]. rewrite Hget in Ha, Hb.
    destruct (JS.includes a group) eqn:Ea.
    + assert (Eb : JS.includes b group = true).
      { apply includes_In. apply includes_In in Ea. eapply Hclosed; eauto. }
      rewrite Eb in Hb. destruct winner as [w|]; [|discriminate].
      injection Ha as Ha. injection Hb as Hb.
      apply String.eqb_eq in Ha, Hb. congruence.
    + destruct (JS.includes b group) eqn:Eb.
      * assert (Ea' : JS.includes a group = true).
        { apply includes_In. apply includes_In in Eb. eapply Hclosed; eauto. }
        congruence.
      * exact (HB a b Hab Hba Hab' (conj Ha Hb)).
Qed.

Lemma resolveExclusiveGroups_sound :
  (forall id,
      JS.get id (EntityManager.resolveExclusiveGroups sm entity exclusiveMap modifiers)
      = Some true ->
      exists mod_,
        In mod_ modifiers /\ Node.id mod_ = id /\
        EntityManager.evaluateModifierTrigger sm entity (EntityManager.triggerOf mod_)
        = true) /\
  (forall a b,
      a <> b -> In b (partnersOf exclusiveMap a) -> In a (partnersOf exclusiveMap b) ->
      ~ (JS.get a (EntityManager.resolveExclusiveGroups sm entity exclusiveMap modifiers)
         = Some true /\
         JS.get b (EntityManager.resolveExclusiveGroups sm entity exclusiveMap modifiers)
         = Some true)).
Proof.
  apply (resolveGroups_sound exclusiveMap ([], [])).
  split; [intros id; discriminate | intros a b _ _ _ [H' _]; discriminate].
Qed.
End Verdicts.

(** X8. The verdicts of [resolveExclusiveGroups]: a modifier is marked as
    a winner only if it is one of the given modifiers and its trigger
    passes; and two modifiers that exclude each other are never both marked
    as winners. The traversal that collects a group runs to its end: the
    group holds the partners of each of its members. *)
Theorem exclusive_partners_never_both_win sm entity exclusiveMap modifiers :
  (forall id,
      JS.get id (EntityManager.resolveExclusiveGroups sm entity exclusiveMap modifiers)
      = Some true ->
      exists mod_,
        In mod_ modifiers /\ Node.id mod_ = id /\
        EntityManager.evaluateModifierTrigger sm entity (EntityManager.triggerOf mod_)
        = true) /\
  (forall a b,
      a <> b -> In b (partnersOf exclusiveMap a) -> In a (partnersOf exclusiveMap b) ->
      ~ (JS.get a (EntityManager.resolveExclusiveGroups sm entity exclusiveMap modifiers)
         = Some true /\
         JS.get b (EntityManager.resolveExclusiveGroups sm entity exclusiveMap modifiers)
         = Some true)) /\
  (forall modId x p,
      In x (EntityManager.collectGroup (EntityManager.groupFuel exclusiveMap) exclusiveMap
              [modId] [modId]) ->
      In p (partnersOf exclusiveMap x) ->
      In p (EntityManager.collectGroup (EntityManager.groupFuel exclusiveMap) exclusiveMap
              [modId] [modId])).
Proof.
  destruct (resolveExclusiveGroups_sound sm entity exclusiveMap modifiers) as [HA HB].
  split; [exact HA|]. split; [exact HB|].
  intros modId. apply collectGroup_from.
Qed.

Lemma exclusive_partners_never_both_win_witness :
  ~ (JS.get "wounded"
       (EntityManager.resolveExclusiveGroups (Some Scenario.cfgWounds) Scenario.eHurt
          (SpawnManager._exclusiveGroups Scenario.cfgWounds)
          (SpawnManager._thresholdModifiers Scenario.cfgWounds)) = Some true /\
     JS.get "critical"
       (EntityManager.resolveExclusiveGroups (Some Scenario.cfgWounds) Scenario.eHurt
          (SpawnManager._exclusiveGroups Scenario.cfgWounds)
          (SpawnManager._thresholdModifiers Scenario.cfgWounds)) = Some true).
Proof.
  apply (proj1 (proj2 (exclusive_partners_never_both_win (Some Scenario.cfgWounds)
                         Scenario.eHurt
                         (SpawnManager._exclusiveGroups Scenario.cfgWounds)
                         (SpawnManager._thresholdModifiers Scenario.cfgWounds)))).
  - discriminate.
  - vm_compute. tauto.
  - vm_compute. tauto.
Defined.

(** ** The scan for expired modifiers *)

Section Expiry.
Variables (now : Z) (states0 : JS.Obj ModState.t).

(* the scan changes tick counters only *)
Let deadline (st : ModState.t) : bool * option Z :=
  (ModState.isStatic st, ModState.expiresAt st).

Let sameDeadlines (states : JS.Obj ModState.t) : Prop :=
  forall k, option_map deadline (JS.get k states) = option_map deadline (JS.get k states0).

Lemma expireStep_spec (acc : list string * JS.Obj ModState.t) (modId : string) :
  sameDeadlines (snd acc) ->
  let r := EntityManager.expireStep now acc modId in
  sameDeadlines (snd r) /\
  (forall m, In m (fst acc) -> In m (fst r)) /\
  (forall m, In m (fst r) ->
             In m (fst acc) \/
             m = modId /\ exists st, JS.get m states0 = Some st /\ ModState.isStatic st = false) /\
  (forall st, JS.get modId states0 = Some st -> timeUp now st -> In modId (fst r)).
Proof.
  intros Hsame. unfold EntityManager.expireStep.
  specialize (Hsame modId) as Hmod.
  destruct (JS.get modId (snd acc)) as [st|] eqn:Est; cbn [option_map] in Hmod.
  2:{ cbn zeta. split; [exact Hsame|]. split; [auto|]. split; [auto|].
      intros st Hst. rewrite Hst in Hmod. discriminate. }
  destruct (JS.get modId states0) as [st0|] eqn:Est0; [|discriminate].
  injection Hmod as Hstatic Hexpires.
  destruct (ModState.isStatic st) eqn:Es.
  { cbn zeta. split; [exact Hsame|]. split; [auto|]. split; [auto|].
    intros st' Hst' [Hns _]. assert (st' = st0) by congruence; subst st'. congruence. }
  destruct (match ModState.expiresAt st with
            | Some t => negb (Z.eqb t 0) && Z.geb now t
            | None => false
            end) eqn:Eexp.
  { cbn zeta. cbn [fst snd]. split; [exact Hsame|]. split.
    - intros m Hm. apply in_or_app. now left.
    - split.
      + intros m Hm. apply in_app_or in Hm as [Hm|[<-|[]]]; [now left|].
        right. split; [reflexivity|]. exists st0. split; [exact Est0 | congruence].
      + intros _ _ _. apply in_or_app. right. now left. }
  assert (Hnot : ~ timeUp now st0).
  { intros [_ (t & Ht & Hne & Hle)].
    rewrite Hexpires, Ht in Eexp.
    apply andb_false_iff in Eexp as [E|E].
    - apply negb_false_iff, Z.eqb_eq in E. contradiction.
    - rewrite Z.geb_leb in E. apply Z.leb_gt in E. lia. }
  destruct (ModState.ticksRemaining st) as [n|] eqn:Eticks.
  2:{ cbn zeta. split; [exact Hsame|]. split; [auto|]. split; [auto|].
      intros st' Hst' Hup. assert (st' = st0) by congruence. subst st'. contradiction. }
  cbn zeta. cbn [fst snd]. split; [|split; [|split]].
  - intros k. rewrite get_set. destruct (String.eqb modId k) eqn:E.
    + apply String.eqb_eq in E. subst k. rewrite Est0. cbn. unfold deadline. cbn.
      now rewrite Hstatic, Hexpires.
    + apply Hsame.
  - intros m Hm. destruct (Z.leb (n - 1) 0); [apply in_or_app; now left | exact Hm].
  - intros m Hm. destruct (Z.leb (n - 1) 0); [|now left].
    apply in_app_or in Hm as [Hm|[<-|[]]]; [now left|].
    right. split; [reflexivity|]. exists st0. split; [exact Est0 | congruence].
  - intros st' Hst' Hup. assert (st' = st0) by congruence. subst st'. contradiction.
Qed.

Lemma expireSteps_spec (modifiers : list string) :
  forall acc,
    sameDeadlines (snd acc) ->
    let r := fold_left (EntityManager.expireStep now) modifiers acc in
    sameDeadlines (snd r) /\
    (forall m, In m (fst acc) -> In m (fst r)) /\
    (forall m, In m (fst r) ->
               In m (fst acc) \/
               In m modifiers /\
               exists st, JS.get m states0 = Some st /\ ModState.isStatic st = false) /\
    (forall m st, In m modifiers -> JS.get m states0 = Some st -> timeUp now st ->
                  In m (fst r)).
Proof.
  induction modifiers as [|modId modifiers IH]; intros acc Hsame; cbn [fold_left].
  - cbn zeta. split; [exact Hsame|]. split; [auto|]. split; [auto|]. intros m st [].
  - destruct (expireStep_spec acc modId Hsame) as (H1 & H2 & H3 & H4).
    destruct (IH _ H1) as (I1 & I2 & I3 & I4). cbn zeta.
    split; [exact I1|]. split; [auto|]. split.
    + intros m Hm. destruct (I3 m Hm) as [Hm'|[Hm' Hst]].
      * destruct (H3 m Hm') as [Hacc|[-> Hst]]; [now left|].
        right. split; [now left | exact Hst].
      * right. split; [now right | exact Hst].
    + intros m st [<-|Hm] Hst Hup; [apply I2; eapply H4; eauto | eapply I4; eauto].
Qed.
End Expiry.

(** X9. The scan of [tick] for expired modifiers: every modifier it
    reports is active on the entity and has a state that is not static, so
    a static modifier never expires; every active modifier that is not
    static and whose [expiresAt] has passed is reported; and the scan
    changes no state's [isStatic] or [expiresAt]. *)
Theorem static_modifiers_never_expire (now : Z) (e : Entity.t) :
  (forall modId,
      In modId (fst (EntityManager.expireModifiers now e)) ->
      In modId (Entity.modifiers e) /\
      exists st, modStateOf e modId = Some st /\ ModState.isStatic st = false) /\
  (forall modId st,
      In modId (Entity.modifiers e) -> modStateOf e modId = Some st -> timeUp now st ->
      In modId (fst (EntityManager.expireModifiers now e))) /\
  (forall modId,
      option_map (fun st => (ModState.isStatic st, ModState.expiresAt st))
        (modStateOf (snd (EntityManager.expireModifiers now e)) modId)
      = option_map (fun st => (ModState.isStatic st, ModState.expiresAt st))
          (modStateOf e modId)).
Proof.
  unfold EntityManager.expireModifiers, modStateOf.
  destruct (Entity.modifierStates e) as [states|] eqn:Estates.
  2:{ cbn [fst snd]. rewrite Estates. cbn.
      split; [intros modId []|]. split; [intros modId st _ H; discriminate | reflexivity]. }
  destruct (expireSteps_spec now states (rev (Entity.modifiers e)) ([], states))
    as (H1 & _ & H3 & H4); [intros k; reflexivity|].
  cbn [fst snd] in *. cbn [JS.nullish].
  split; [|split].
  - intros modId Hm. destruct (H3 modId Hm) as [[]|[Hin Hst]].
    split; [apply in_rev, Hin | exact Hst].
  - intros modId st Hin Hst Hup. eapply H4; eauto. apply in_rev in Hin. exact Hin.
  - intros modId.
    assert (Hs : Entity.modifierStates
                   (Entity.set_modifierStates
                      (Some (snd (fold_left (EntityManager.expireStep now)
                                    (rev (Entity.modifiers e)) ([], states)))) e)
                 = Some (snd (fold_left (EntityManager.expireStep now)
                                (rev (Entity.modifiers e)) ([], states))))
      by (destruct e; reflexivity).
    rewrite Hs. cbn [JS.nullish]. apply H1.
Qed.

(** ** Operations on an entity the manager does not know *)

(** X10. An id that is neither stored nor active is rejected by every
    operation that looks an entity up by id: the operation returns false
    (or null) and changes nothing, and no event is emitted. *)
Theorem unknown_entity_is_rejected (w : World.t) (entityId : string) :
  JS.get entityId (World.stored w) = None ->
  JS.get entityId (World.active w) = None ->
  (forall varId value, EntityManager.setVariable entityId varId value w = (false, w)) /\
  (forall varId delta, EntityManager.modifyVariable entityId varId delta w = (false, w)) /\
  (forall modifierId config,
      EntityManager.applyModifier entityId modifierId config w = (false, w)) /\
  (forall modifierId, EntityManager.removeModifier entityId modifierId w = (false, w)) /\
  (forall traitId, EntityManager.activateTrait entityId traitId w = (false, w)) /\
  (forall traitId, EntityManager.deactivateTrait entityId traitId w = (false, w)) /\
  (forall deltaSeconds, EntityManager.tick entityId deltaSeconds w = (None, w)) /\
  EntityManager.snapshot entityId w = (None, w) /\
  (forall timestamp, EntityManager.rollback entityId timestamp w = (false, w)) /\
  EntityManager.activate (inl entityId) w = (None, w) /\
  EntityManager.deactivate entityId w = (false, w) /\
  EntityManager.remove entityId w = (false, w) /\
  (forall targetPoolId, EntityManager.release (inl entityId) targetPoolId w = (false, w)) /\
  (forall targetPoolId, EntityManager.moveToPool (inl entityId) targetPoolId w = (false, w)).
Proof.
  intros Hs Ha.
  assert (Hr : EntityManager.retrieve entityId w = (None, w)).
  { unfold EntityManager.retrieve, gets. now rewrite Hs, Ha. }
  repeat split; intros;
    unfold EntityManager.setVariable, EntityManager.modifyVariable,
      EntityManager.changeVariable, EntityManager.applyModifier,
      EntityManager.removeModifier, EntityManager.activateTrait,
      EntityManager.deactivateTrait, EntityManager.tick, EntityManager.snapshot,
      EntityManager.rollback, EntityManager.activate, EntityManager.deactivate,
      EntityManager.remove, EntityManager.release, EntityManager.moveToPool, bind;
    rewrite ?Hr; unfold gets, ret, JS.has; rewrite ?Hs, ?Ha; try reflexivity.
  all: destruct (World.spawnManager w); reflexivity.
Qed.

Lemma unknown_entity_is_rejected_witness :
  EntityManager.setVariable "ghost" "hp" 10 Scenario.wHero = (false, Scenario.wHero).
Proof.
  apply (proj1 (unknown_entity_is_rejected Scenario.wHero "ghost" eq_refl eq_refl)).
Defined.

(** ** Storing, retrieving and removing entities *)

Lemma get_delete_eq {V : Type} (k : string) (o : JS.Obj V) : JS.get k (JS.delete k o) = None.
Proof.
  induction o as [|[k' v] o IH]; cbn; [reflexivity|].
  destruct (String.eqb k k') eqn:E; [exact IH|]. cbn. now rewrite E.
Qed.

Lemma get_delete_ne {V : Type} (k k' : string) (o : JS.Obj V) :
  k <> k' -> JS.get k' (JS.delete k o) = JS.get k' o.
Proof.
  intros Hne. induction o as [|[k0 v] o IH]; cbn; [reflexivity|].
  destruct (String.eqb k k0) eqn:E.
  - apply String.eqb_eq in E. subst k0.
    destruct (String.eqb k' k) eqn:E'; [apply String.eqb_eq in E'; congruence | exact IH].
  - cbn. destruct (String.eqb k' k0); [reflexivity | exact IH].
Qed.

Lemma lastEmitted_emit event data (w : World.t) :
  lastEmitted (snd (EntityManager.emit event data w)) = Some (Event.mk event data).
Proof.
  unfold lastEmitted, EntityManager.emit, modify. destruct w; cbn.
  rewrite map_app. cbn. apply last_last.
Qed.

(** X11. [store] at the storage limit rejects the entity, whether or not
    its id is already stored: it returns null, emits [storageLimitReached]
    and changes nothing else. Below the limit, or with no limit, it returns
    the entity, which [retrieve] then finds under its id; the entries of
    other ids, the active set and the entities themselves stay as they
    were, and the last event is [entityStored]. *)
Theorem store_then_retrieve (w : World.t) (entity : loc) (e : Entity.t) :
  World.heap w !! entity = Some e ->
  (storageFull w = true ->
   EntityManager.store entity w
   = (None, World.set_events (World.events w ++ [Event.mk "storageLimitReached" []]) w)) /\
  (storageFull w = false ->
   fst (EntityManager.store entity w) = Some entity /\
   retrieved (Entity.id e) (snd (EntityManager.store entity w)) = Some entity /\
   (forall id, id <> Entity.id e ->
               JS.get id (World.stored (snd (EntityManager.store entity w)))
               = JS.get id (World.stored w)) /\
   World.active (snd (EntityManager.store entity w)) = World.active w /\
   World.heap (snd (EntityManager.store entity w)) = World.heap w /\
   lastEmitted (snd (EntityManager.store entity w))
   = Some (Event.mk "entityStored" [("entityId", Entity.id e)])).
Proof.
  intros He. unfold EntityManager.store, bind, deref, gets. rewrite He.
  fold (storageFull w). split; intros Hfull; rewrite Hfull.
  - reflexivity.
  - unfold retrieved, EntityManager.retrieve, gets, modify, EntityManager.addToGroup, bind,
      gets, modify, ret, EntityManager.emit, modify.
    destruct (String.eqb (Entity.configId e) ""); cbn;
      [|destruct (JS.has _ (World.groups _)); cbn].
    all: unfold lastEmitted; destruct w; cbn; rewrite get_set_eq;
      repeat split; try (intros id Hid; apply get_set_ne; congruence);
      rewrite !map_app; cbn; rewrite ?app_assoc; apply last_last.
Qed.

Lemma store_then_retrieve_witness :
  retrieved "hero" (snd (EntityManager.store 0%nat Scenario.wHero)) = Some 0%nat.
Proof.
  refine (proj1 (proj2 (proj2 (store_then_retrieve Scenario.wHero 0%nat Scenario.eHero _)
                          _))).
  - vm_compute. reflexivity.
  - reflexivity.
Defined.

(** X12. [remove] of a stored or active entity returns true and forgets
    it: [retrieve] no longer finds the id, its history is gone, and no
    group lists it. The entries of other ids stay as they were, the entity
    object itself is not touched, and the last event is [entityRemoved]. *)
Theorem remove_forgets_entity (w : World.t) (entityId : string) (entity : loc) :
  retrieved entityId w = Some entity ->
  fst (EntityManager.remove entityId w) = true /\
  retrieved entityId (snd (EntityManager.remove entityId w)) = None /\
  fst (EntityManager.getHistory entityId (snd (EntityManager.remove entityId w))) = [] /\
  (forall groupId members,
      JS.get groupId (World.groups (snd (EntityManager.remove entityId w))) = Some members ->
      ~ In entityId members) /\
  (forall id, id <> entityId ->
              retrieved id (snd (EntityManager.remove entityId w)) = retrieved id w) /\
  World.heap (snd (EntityManager.remove entityId w)) = World.heap w /\
  lastEmitted (snd (EntityManager.remove entityId w))
  = Some (Event.mk "entityRemoved" [("entityId", entityId)]).
Proof.
  unfold retrieved. intros Hr. unfold EntityManager.remove, bind.
  destruct (EntityManager.retrieve entityId w) as [ol w0] eqn:Er.
  assert (w0 = w) by (unfold EntityManager.retrieve, gets in Er; congruence). subst w0.
  cbn in Hr. subst ol.
  unfold EntityManager.removeFromAllGroups, EntityManager.getHistory,
    EntityManager.retrieve, EntityManager.emit, modify, gets, ret, lastEmitted.
  destruct w; cbn. rewrite !get_delete_eq. repeat split.
  - intros groupId members.
    rewrite (get_map_values
               (List.filter (fun x => negb (String.eqb x entityId)))).
    destruct (JS.get groupId groups) as [ms|]; [|discriminate].
    cbn. intros H. injection H as <-. rewrite filter_In.
    intros [_ H]. now rewrite String.eqb_refl in H.
  - intros id Hid. rewrite !get_delete_ne by congruence. reflexivity.
  - rewrite map_app. cbn. apply last_last.
Qed.

Lemma remove_forgets_entity_witness :
  retrieved "hero" (snd (EntityManager.remove "hero" Scenario.wHero)) = None.
Proof.
  apply (proj1 (proj2 (remove_forgets_entity Scenario.wHero "hero" 0%nat eq_refl))).
Defined.

(** ** Snapshots: the cap on the history, and an immediate rollback *)

Lemma snapshot_run (w : World.t) (entityId : string) (entity : loc) (e : Entity.t) :
  retrieved entityId w = Some entity ->
  World.heap w !! entity = Some e ->
  let snap := EntityManager.takeSnapshot (Host.now (World.host w)) e in
  let all := historyOf entityId w ++ [snap] in
  EntityManager.snapshot entityId w
  = (Some snap,
     World.set_events (World.events w ++ [Event.mk "snapshotTaken" [("entityId", entityId)]])
       (World.set_history
          (JS.set entityId
             (if Z.gtb (Z.of_nat (length all)) (World.maxHistory w)
              then skipn (length all - Z.to_nat (World.maxHistory w)) all
              else all)
             (World.history w)) w)).
Proof.
  unfold retrieved. intros Hr He. unfold EntityManager.snapshot, bind.
  destruct (EntityManager.retrieve entityId w) as [ol w0] eqn:Er.
  assert (w0 = w) by (unfold EntityManager.retrieve, gets in Er; congruence). subst w0.
  cbn in Hr. subst ol. unfold deref, gets. rewrite He.
  unfold liftH, Date_now, historyOf, EntityManager.getHistory, gets, modify,
    EntityManager.emit, modify, ret.
  destruct w; cbn. destruct host; reflexivity.
Qed.

(** X13. [snapshot] returns the snapshot it takes and keeps the history
    of the entity capped: the history becomes the old one with the new
    snapshot appended, cut from the front to the last [maxHistory]
    snapshots. With [maxHistory] at least 1 the new snapshot is the last of
    the history. The histories of other entities and the entities
    themselves are not touched. *)
Theorem snapshot_caps_history (w : World.t) (entityId : string) (entity : loc)
    (e : Entity.t) :
  retrieved entityId w = Some entity ->
  World.heap w !! entity = Some e ->
  let snap := EntityManager.takeSnapshot (Host.now (World.host w)) e in
  let w' := snd (EntityManager.snapshot entityId w) in
  fst (EntityManager.snapshot entityId w) = Some snap /\
  (exists dropped, historyOf entityId w ++ [snap] = dropped ++ historyOf entityId w') /\
  Z.of_nat (length (historyOf entityId w'))
  = Z.max 0 (Z.min (Z.of_nat (length (historyOf entityId w)) + 1) (World.maxHistory w)) /\
  (1 <= World.maxHistory w -> last (map Some (historyOf entityId w')) None = Some snap) /\
  (forall id, id <> entityId -> historyOf id w' = historyOf id w) /\
  World.heap w' = World.heap w.
Proof.
  intros Hr He snap w'. subst w'. rewrite (snapshot_run w entityId entity e Hr He).
  fold snap. cbn [fst snd].
  set (all := historyOf entityId w ++ [snap]).
  set (kept := if Z.gtb (Z.of_nat (length all)) (World.maxHistory w)
               then skipn (length all - Z.to_nat (World.maxHistory w)) all else all).
  assert (Hall : length all = S (length (historyOf entityId w))).
  { unfold all. rewrite length_app. cbn. lia. }
  assert (Hh : forall id,
             historyOf id
               (World.set_events
                  (World.events w ++ [Event.mk "snapshotTaken" [("entityId", entityId)]])
                  (World.set_history (JS.set entityId kept (World.history w)) w))
             = if String.eqb entityId id then kept else historyOf id w).
  { intros id. unfold historyOf, EntityManager.getHistory, gets. destruct w; cbn.
    rewrite get_set. destruct (String.eqb entityId id); reflexivity. }
  rewrite (Hh entityId), String.eqb_refl.
  split; [reflexivity|]. split; [|split; [|split; [|split]]].
  - unfold kept. destruct (Z.gtb _ _).
    + exists (firstn (length all - Z.to_nat (World.maxHistory w)) all).
      symmetry. apply firstn_skipn.
    + exists []. reflexivity.
  - unfold kept. destruct (Z.gtb _ _) eqn:E.
    + apply Z.gtb_lt in E. rewrite length_skipn. lia.
    + rewrite Z.gtb_ltb in E. apply Z.ltb_ge in E. lia.
  - intros Hmax. unfold kept. destruct (Z.gtb _ _).
    + unfold all. rewrite skipn_app, map_app.
      replace (length (historyOf entityId w ++ [snap]) - Z.to_nat (World.maxHistory w)
               - length (historyOf entityId w))%nat with O
        by (rewrite length_app; cbn; lia).
      cbn. apply last_last.
    + unfold all. rewrite map_app. cbn. apply last_last.
  - intros id Hid. rewrite Hh.
    destruct (String.eqb entityId id) eqn:E; [|reflexivity].
    apply String.eqb_eq in E. congruence.
  - destruct w; reflexivity.
Qed.

Lemma snapshot_caps_history_witness :
  Z.of_nat (length (historyOf "hero" (snd (EntityManager.snapshot "hero" Scenario.wHero))))
  = Z.max 0 (Z.min (Z.of_nat (length (historyOf "hero" Scenario.wHero)) + 1)
               (World.maxHistory Scenario.wHero)).
Proof.
  refine (proj1 (proj2 (proj2 (snapshot_caps_history Scenario.wHero "hero" 0%nat
                                 Scenario.eHero _ _)))).
  - reflexivity.
  - vm_compute. reflexivity.
Defined.

Lemma set_same {V : Type} (k : string) (v : V) (o : JS.Obj V) :
  JS.get k o = Some v -> JS.set k v o = o.
Proof.
  induction o as [|[k' v'] o IH]; cbn; [discriminate|].
  destruct (String.eqb k k') eqn:E.
  - apply String.eqb_eq in E. subst k'. intros H. injection H as ->. reflexivity.
  - intros H. now rewrite IH.
Qed.

Lemma assign_same {V : Type} (o s : JS.Obj V) :
  (forall kv, In kv s -> JS.get (fst kv) o = Some (snd kv)) -> JS.assign o s = o.
Proof.
  unfold JS.assign. induction s as [|kv s IH]; intros H; cbn; [reflexivity|].
  rewrite set_same by (apply H; now left). apply IH. intros kv' Hkv'. apply H. now right.
Qed.

Lemma restoreValues_same (vars s : JS.Obj VarState.t) :
  (forall kv, In kv s -> JS.get (fst kv) vars = Some (snd kv)) ->
  fold_left EntityManager.restoreValue s vars = vars.
Proof.
  induction s as [|kv s IH]; intros H; cbn; [reflexivity|].
  unfold EntityManager.restoreValue at 2. rewrite (H kv) by now left.
  replace (VarState.set_value (VarState.value (snd kv)) (snd kv)) with (snd kv)
    by (destruct (snd kv); reflexivity).
  rewrite set_same by (apply H; now left). apply IH. intros kv' Hkv'. apply H. now right.
Qed.

(* finite derived values come back from a snapshot as they were *)
Lemma restoredDerived_takeSnapshot (now : Z) (e : Entity.t) :
  finiteDerived e ->
  EntityManager.restoredDerived (EntityManager.takeSnapshot now e) = Entity.derived e.
Proof.
  unfold finiteDerived, EntityManager.restoredDerived, EntityManager.takeSnapshot. cbn.
  induction 1 as [|[k [[z| | |]|]] d Hkv Hd IH]; cbn in *; try contradiction;
    [reflexivity|rewrite IH; reflexivity..].
Qed.

(* restoring the snapshot just taken changes nothing *)
Lemma restore_takeSnapshot (now : Z) (e : Entity.t) :
  wellKeyed e -> finiteDerived e ->
  EntityManager.restore (EntityManager.takeSnapshot now e) e = e.
Proof.
  intros (Ha & Hv & Hc) Hd. unfold EntityManager.restore.
  rewrite restoredDerived_takeSnapshot by exact Hd.
  unfold EntityManager.takeSnapshot.
  destruct e; cbn -[JS.assign JS.get] in *.
  rewrite assign_same by (intros [k v] H; now apply In_get).
  rewrite assign_same
    by (intros [k v] H; apply filter_In in H as [H _]; now apply In_get).
  rewrite restoreValues_same by (intros [k v] H; now apply In_get).
  reflexivity.
Qed.



(* an empty cart: [Math.floor(100 / load)] is Infinity, which the snapshot
   records as null, and the rollback writes the null back *)
Example rollback_nulls_infinite_derived :
  let w := Scenario.wLoad 0 in
  let w' := snd (EntityManager.rollback "cart" 2000 (snd (EntityManager.snapshot "cart" w))) in
  option_map Entity.derived (Scenario.entityAt 0%nat w)
  = Some [("double", Some (JS.Int 0)); ("perUnit", Some JS.PosInf)] /\
  option_map Entity.derived (Scenario.entityAt 0%nat w')
  = Some [("double", Some (JS.Int 0)); ("perUnit", None)].
Proof. vm_compute. split; reflexivity. Qed.


(** ** Pools never hold more than their capacity *)

Lemma hoare_gets_eq {A B : Type} (P : World.t -> Prop) (f : World.t -> A)
    (k : A -> M B) (Q : B -> World.t -> Prop) :
  (forall v, hoare (fun w => P w /\ f w = v) (k v) Q) -> hoare P (bind (gets f) k) Q.
Proof. intros Hk w Hw. unfold bind, gets. apply (Hk (f w)). split; [exact Hw|reflexivity]. Qed.

Lemma hoare_pools {A : Type} (I : World.t -> Prop) (m : M A) :
  (forall w w', World.pools w' = World.pools w -> I w -> I w') ->
  keeps World.pools m -> hoare I m (fun _ => I).
Proof. intros HI Hm w Hw. eapply HI; [apply Hm|exact Hw]. Qed.

Lemma capacity_pools (w w' : World.t) :
  World.pools w' = World.pools w -> capacity w -> capacity w'.
Proof. unfold capacity. intros ->. auto. Qed.

Lemma capacity_keeps {A : Type} (m : M A) :
  keeps World.pools m -> hoare capacity m (fun _ => capacity).
Proof. apply hoare_pools. exact capacity_pools. Qed.

Lemma capacity_updatePool_at (q : string) (g : Pool.t -> Pool.t) (w : World.t) :
  capacity w ->
  (forall pool, JS.get q (World.pools w) = Some pool -> fits (g pool)) ->
  capacity (snd (EntityManager.updatePool q g w)).
Proof.
  intros [Hd Hfits] Hg. split.
  - unfold JS.has in *. rewrite get_updatePool.
    destruct (String.eqb q EntityManager.defaultPoolId) eqn:E; [|exact Hd].
    apply String.eqb_eq in E. subst q.
    destruct (JS.get EntityManager.defaultPoolId (World.pools w)); [reflexivity|discriminate].
  - intros q' pool'. rewrite get_updatePool.
    destruct (String.eqb q q'); [|apply Hfits].
    destruct (JS.get q (World.pools w)) as [pool|] eqn:E; cbn; [|discriminate].
    intros H. injection H as <-. apply Hg. reflexivity.
Qed.

Lemma capacity_updatePool (q : string) (g : Pool.t -> Pool.t) :
  (forall pool, fits pool -> fits (g pool)) ->
  hoare capacity (EntityManager.updatePool q g) (fun _ => capacity).
Proof.
  intros Hg w Hw. apply capacity_updatePool_at; [exact Hw|].
  intros pool Hpool. apply Hg. exact (proj2 Hw q pool Hpool).
Qed.

Lemma capacity_updateStats (q : string) (g : Stats.t -> Stats.t) :
  hoare capacity (EntityManager.updateStats q g) (fun _ => capacity).
Proof. apply capacity_updatePool. intros [] H. exact H. Qed.

Lemma keeps_pools_syncLegacy (q : string) g : keeps World.pools (EntityManager.syncLegacy q g).
Proof.
  unfold EntityManager.syncLegacy. destruct (String.eqb q _); [|apply keeps_ret].
  apply keeps_modify. intros w. destruct (JS.get q (World.pools w)); [|reflexivity].
  destruct w; reflexivity.
Qed.

Lemma capacity_scheduleShrinkCheckForPool (q : string) :
  hoare capacity (EntityManager._scheduleShrinkCheckForPool q) (fun _ => capacity).
Proof.
  apply capacity_updatePool. intros pool H.
  destruct (Pool.shrinkTimeout pool); [exact H|].
  destruct (Z.eqb _ 0); [exact H|]. destruct pool; exact H.
Qed.

Lemma keeps_pools_deactivate entityId : keeps World.pools (EntityManager.deactivate entityId).
Proof. unfold EntityManager.deactivate. keeps_tac. Qed.

Lemma keeps_pools_removeFromAllGroups entityId :
  keeps World.pools (EntityManager.removeFromAllGroups entityId).
Proof. unfold EntityManager.removeFromAllGroups. keeps_tac. Qed.

Ltac cap_keep := apply capacity_keeps; keeps_tac.

Lemma capacity_release entityOrId targetPoolId :
  hoare capacity (EntityManager.release entityOrId targetPoolId) (fun _ => capacity).
Proof.
  unfold EntityManager.release.
  eapply hoare_bind with (R := fun _ => capacity).
  { destruct entityOrId; [apply hoare_ret; auto|apply hoare_gets; auto]. }
  intros entityId. apply hoare_gets_any. intros [entity|]; [|apply hoare_ret; auto].
  eapply hoare_bind; [cap_keep|]. intros oe. cbv zeta.
  apply hoare_gets_any. intros known.
  eapply hoare_bind; [apply capacity_keeps, keeps_pools_deactivate|]. intros ?.
  eapply hoare_bind; [cap_keep|]. intros ?.
  eapply hoare_bind; [cap_keep|]. intros ?.
  eapply hoare_bind; [cap_keep|]. intros ?.
  eapply hoare_bind; [apply capacity_keeps, keeps_pools_removeFromAllGroups|]. intros ?.
  eapply hoare_bind; [apply capacity_updateStats|]. intros ?.
  eapply hoare_bind with (R := fun _ => capacity).
  { destruct (String.eqb _ _);
      [apply capacity_keeps, keeps_pools_syncLegacy|apply hoare_ret; auto]. }
  intros ?. unfold EntityManager.getPool. apply hoare_gets_eq.
  intros [pool|]; [|apply hoare_ret; tauto].
  destruct (Z.ltb _ _) eqn:Hroom.
  - apply Z.ltb_lt in Hroom.
    eapply hoare_bind.
    { apply hoare_pools with (m := update _ _); [|keeps_tac].
      intros w w' Hp [Hc Hg]. rewrite Hp. split; [|exact Hg].
      eapply capacity_pools; [exact Hp|exact Hc]. }
    intros ?. eapply hoare_bind with (R := fun _ => capacity).
    { intros w [Hc Hg]. apply capacity_updatePool_at; [exact Hc|].
      intros pool'. rewrite Hg. intros H.
      assert (pool' = pool) by congruence. subst pool'.
      unfold fits. destruct pool; cbn in *. rewrite length_app. cbn. lia. }
    intros ?. eapply hoare_bind with (R := fun _ => capacity).
    { destruct (String.eqb _ _);
        [apply capacity_keeps, keeps_pools_syncLegacy|apply hoare_ret; auto]. }
    intros ?. eapply hoare_bind; [cap_keep|]. intros ?.
    eapply hoare_bind; [apply capacity_scheduleShrinkCheckForPool|]. intros ?.
    apply hoare_ret; auto.
  - eapply hoare_bind with (R := fun _ => capacity).
    { eapply hoare_conseq; [apply capacity_keeps; keeps_tac| |]; cbn; tauto. }
    intros ?. apply hoare_ret; auto.
Qed.

Lemma pop_length {A : Type} (l rest : list A) (x : option A) :
  JS.pop l = (x, rest) -> (length rest <= length l)%nat.
Proof.
  unfold JS.pop. destruct (rev l) as [|y r] eqn:E; intros H; injection H as <- <-.
  - cbn. lia.
  - apply (f_equal (@length A)) in E. rewrite length_rev in E. cbn in E.
    rewrite length_rev. lia.
Qed.

Lemma capacity_acquire presetIdOrOverrides overrides targetPoolId :
  hoare capacity (EntityManager.acquire presetIdOrOverrides overrides targetPoolId)
    (fun _ => capacity).
Proof.
  unfold EntityManager.acquire. cbv zeta.
  apply hoare_gets_any. intros known.
  unfold EntityManager.getPool. apply hoare_gets_eq. intros oactual.
  apply hoare_bind with (R := fun _ w => capacity w /\
    JS.get (if known
            then (if JS.truthyStr targetPoolId then SpawnManager.keyOf targetPoolId
                  else EntityManager.defaultPoolId)
            else EntityManager.defaultPoolId) (World.pools w) = oactual).
  { apply hoare_gets. auto. }
  intros sm. destruct oactual as [actualPool|]; [|apply hoare_ret; tauto].
  eapply hoare_bind with (R := fun _ => capacity).
  - destruct (JS.pop (Pool.entities actualPool)) as [[entity|] rest] eqn:Hpop.
    + eapply hoare_bind with (R := fun _ => capacity).
      { intros w [Hc Hg]. apply capacity_updatePool_at; [exact Hc|].
        intros pool'. rewrite Hg. intros H.
        assert (pool' = actualPool) by congruence. subst pool'.
        pose proof (proj2 Hc _ _ Hg) as Hfits. apply pop_length in Hpop.
        unfold fits in *. destruct actualPool; cbn in *. lia. }
      intros ?. eapply hoare_bind; [cap_keep|]. intros ?.
      eapply hoare_bind; [apply capacity_updateStats|]. intros ?.
      apply hoare_ret; auto.
    + destruct sm as [cfg|]; [|apply hoare_ret; tauto].
      eapply hoare_bind with (R := fun _ => capacity).
      { eapply hoare_conseq;
          [apply capacity_keeps, keeps_pools_create| |]; cbn; tauto. }
      intros ?. eapply hoare_bind; [apply capacity_updateStats|]. intros ?.
      apply hoare_ret; auto.
  - intros [[[entity|] fromPool]|err]; try (apply hoare_ret; auto).
    eapply hoare_bind; [cap_keep|]. intros oe.
    apply hoare_gets_any. intros pools.
    eapply hoare_bind; [cap_keep|]. intros ?.
    eapply hoare_bind; [cap_keep|]. intros ?.
    eapply hoare_bind; [cap_keep|]. intros ?.
    eapply hoare_bind; [apply capacity_updateStats|]. intros ?.
    eapply hoare_bind with (R := fun _ => capacity).
    { destruct (String.eqb _ _); [|apply hoare_ret; auto].
      apply capacity_keeps, keeps_modify. intros w.
      destruct (JS.get _ _); [|reflexivity]. destruct w; reflexivity. }
    intros ?. apply hoare_gets_any. intros id.
    eapply hoare_bind; [cap_keep|]. intros ?. apply hoare_ret; auto.
Qed.

Lemma roomFor_pools (q : string) (n : Z) (w w' : World.t) :
  World.pools w' = World.pools w -> roomFor q n w -> roomFor q n w'.
Proof. unfold roomFor. intros ->. auto. Qed.

Lemma preWarmOne_room cfg presetId (q : string) (n : Z) :
  0 <= n ->
  hoare (fun w => capacity w /\ roomFor q (n + 1) w)
    (EntityManager.preWarmOne cfg presetId q)
    (fun _ w => capacity w /\ roomFor q n w).
Proof.
  intros Hn. unfold EntityManager.preWarmOne.
  eapply hoare_bind.
  { apply hoare_pools; [|apply keeps_pools_create].
    intros w w' Hp [Hc Hr]. split; [eapply capacity_pools|eapply roomFor_pools]; eauto. }
  intros [l|].
  - eapply hoare_bind.
    { apply hoare_pools with (m := update _ _); [|keeps_tac].
      intros w w' Hp [Hc Hr]. split; [eapply capacity_pools|eapply roomFor_pools]; eauto. }
    intros ?. eapply hoare_bind with (R := fun _ w => capacity w /\ roomFor q n w).
    + intros w [Hc Hr]. split.
      * apply capacity_updatePool_at; [exact Hc|]. intros pool Hpool.
        specialize (Hr pool Hpool). unfold fits. destruct pool; cbn in *.
        rewrite length_app. cbn. lia.
      * intros pool'. rewrite get_updatePool, String.eqb_refl.
        destruct (JS.get q (World.pools w)) as [pool|] eqn:E; cbn; [|discriminate].
        intros H. assert (pool' = Pool.set_entities (Pool.entities pool ++ [l]) pool)
          by congruence. subst pool'.
        specialize (Hr pool E). destruct pool; cbn in *.
        rewrite length_app. cbn. lia.
    + intros ?. intros w [Hc Hr]. split; [apply capacity_updateStats, Hc|].
      intros pool'. unfold EntityManager.updateStats.
      rewrite get_updatePool, String.eqb_refl.
      destruct (JS.get q (World.pools w)) as [pool|] eqn:E; cbn; [|discriminate].
      intros H.
      assert (Hp' : pool' = Pool.set_stats
                (Stats.mk (Stats.size (Pool.stats pool)) (Stats.available (Pool.stats pool))
                   (Stats.inUse (Pool.stats pool)) (Stats.totalAcquired (Pool.stats pool))
                   (Stats.totalReleased (Pool.stats pool))
                   (Stats.totalCreated (Pool.stats pool) + 1)) pool) by congruence.
      subst pool'. specialize (Hr pool E). destruct pool; cbn in *. exact Hr.
  - apply hoare_ret. intros w [Hc Hr]. split; [exact Hc|].
    intros pool Hpool. specialize (Hr pool Hpool). lia.
Qed.

Lemma preWarmLoop_capacity cfg presetId (q : string) (k : nat) :
  hoare (fun w => capacity w /\ roomFor q (Z.of_nat k) w)
    (forEach (repeat tt k) (fun _ => EntityManager.preWarmOne cfg presetId q))
    (fun _ => capacity).
Proof.
  induction k as [|k IH]; cbn [repeat forEach].
  - apply hoare_ret. tauto.
  - eapply hoare_bind; [|intros ?; exact IH].
    eapply hoare_conseq; [apply (preWarmOne_room cfg presetId q (Z.of_nat k)); lia| |].
    + intros w [Hc Hr]. split; [exact Hc|].
      replace (Z.of_nat k + 1) with (Z.of_nat (S k)) by lia. exact Hr.
    + cbn. tauto.
Qed.

Lemma capacity_preWarmPool count presetId poolId :
  hoare capacity (EntityManager.preWarmPool count presetId poolId) (fun _ => capacity).
Proof.
  unfold EntityManager.preWarmPool. cbv zeta.
  unfold EntityManager.getPool. apply hoare_gets_eq. intros op.
  eapply hoare_bind with (R := fun _ w => capacity w /\
    JS.get (JS.orStr poolId EntityManager.defaultPoolId) (World.pools w) = op).
  { apply hoare_gets. auto. }
  intros sm. destruct op as [pool|]; [|apply hoare_ret; tauto].
  destruct sm as [cfg|]; [|apply hoare_ret; tauto].
  eapply hoare_bind with (R := fun _ => capacity).
  - set (toCreate := Z.min count _).
    destruct (Z.to_nat toCreate) as [|k] eqn:Hk.
    + apply hoare_ret. tauto.
    + rewrite <- Hk. eapply hoare_conseq; [apply preWarmLoop_capacity| |].
      * intros w [Hc Hg]. split; [exact Hc|]. intros pool'. rewrite Hg. intros H.
        assert (pool' = pool) by congruence. subst pool'. unfold toCreate in *. lia.
      * cbn. tauto.
  - intros ?. eapply hoare_bind.
    { apply capacity_updatePool. intros [] H. exact H. }
    intros ?. apply capacity_keeps, keeps_pools_syncLegacy.
Qed.

Lemma capacity_createPool poolId options :
  hoare capacity (EntityManager.createPool poolId options) (fun _ => capacity).
Proof.
  unfold EntityManager.createPool. apply hoare_gets_any.
  intros [|]; [apply hoare_ret; auto|]. cbv zeta.
  eapply hoare_bind with (R := fun _ => capacity).
  { apply hoare_modify. intros w [Hd Hfits]. destruct w. split; cbn -[JS.get JS.set JS.has JS.delete] in *.
    - unfold JS.has in *. rewrite get_set.
      destruct (String.eqb poolId _); [reflexivity|exact Hd].
    - intros q pool. rewrite get_set. destruct (String.eqb poolId q); [|apply Hfits].
      intros H. injection H as <-. unfold fits. cbn. lia. }
  intros ?. eapply hoare_bind; [cap_keep|]. intros ?.
  cbn [Pool.config PoolConfig.preWarm PoolConfig.preWarmPreset].
  destruct (Z.gtb _ 0); [apply capacity_preWarmPool|apply hoare_ret; auto].
Qed.

Lemma capacity_moveToDefault (entity : loc) :
  hoare capacity (EntityManager.moveToDefault entity) (fun _ => capacity).
Proof.
  unfold EntityManager.moveToDefault, EntityManager.getPool. apply hoare_gets_eq.
  intros [defaultPool|]; [|apply hoare_ret; tauto].
  destruct (Z.ltb _ _) eqn:Hroom; [|apply hoare_ret; tauto].
  apply Z.ltb_lt in Hroom. eapply hoare_bind.
  { apply hoare_pools with (m := update _ _); [|keeps_tac].
    intros w w' Hp [Hc Hg]. rewrite Hp. split; [|exact Hg].
    eapply capacity_pools; [exact Hp|exact Hc]. }
  intros ? w [Hc Hg]. apply capacity_updatePool_at; [exact Hc|].
  intros pool'. rewrite Hg. intros H.
  assert (pool' = defaultPool) by congruence. subst pool'.
  unfold fits. destruct defaultPool; cbn in *. rewrite length_app. cbn. lia.
Qed.

Lemma capacity_default (w : World.t) :
  capacity w -> JS.get EntityManager.defaultPoolId (World.pools w) <> None.
Proof. intros [Hd _] H. unfold JS.has in Hd. rewrite H in Hd. discriminate. Qed.

(* with its default pool in place [removePool] does not throw *)
Lemma capacity_removePool poolId :
  hoare capacity (EntityManager.removePool poolId)
    (fun r w => capacity w /\ exists removed, r = Returned removed).
Proof.
  unfold EntityManager.removePool.
  destruct (String.eqb poolId EntityManager.defaultPoolId) eqn:Hne;
    [apply hoare_ret; eauto|].
  apply String.eqb_neq in Hne.
  unfold EntityManager.getPool. apply hoare_gets_any.
  intros [pool|]; [|apply hoare_ret; eauto].
  apply hoare_gets_eq. intros [d|].
  2:{ intros w [Hc Hg]. now apply capacity_default in Hc. }
  eapply hoare_bind with (R := fun _ => capacity).
  { eapply hoare_conseq with (P' := capacity) (Q' := fun _ => capacity).
    - apply hoare_forEach. intros x _. apply capacity_moveToDefault.
    - intros w [Hc _]. exact Hc.
    - intros ? w H. exact H. }
  intros ?. eapply hoare_bind with (R := fun _ => capacity).
  { apply hoare_modify. intros w [Hd Hfits]. destruct w.
    split; cbn -[JS.get JS.set JS.has JS.delete] in *.
    - unfold JS.has in *. rewrite get_delete_ne by exact Hne. exact Hd.
    - intros q pool' H. apply get_delete_Some in H. eapply Hfits, H. }
  intros ?. eapply hoare_bind; [cap_keep|]. intros ?.
  apply hoare_gets_eq. intros [defaultPool|].
  2:{ intros w [Hc Hg]. now apply capacity_default in Hc. }
  eapply hoare_bind with (R := fun _ => capacity); [|intros ?; apply hoare_ret; eauto].
  eapply hoare_conseq with (P' := capacity) (Q' := fun _ => capacity).
  - apply capacity_keeps, keeps_modify. intros w. destruct w; reflexivity.
  - intros w [Hc _]. exact Hc.
  - intros ? w H. exact H.
Qed.

Lemma capacity_clearPool poolId :
  hoare capacity (EntityManager.clearPool poolId) (fun _ => capacity).
Proof.
  unfold EntityManager.clearPool. cbv zeta. eapply hoare_bind.
  { apply capacity_updatePool. intros pool _. unfold fits. destruct pool; cbn. lia. }
  intros ?. apply capacity_keeps, keeps_pools_syncLegacy.
Qed.

Lemma capacity_checkPoolShrink poolId :
  hoare capacity (EntityManager._checkPoolShrink poolId) (fun _ => capacity).
Proof.
  unfold EntityManager._checkPoolShrink, EntityManager.getPool. apply hoare_gets_any.
  intros [pool|]; [|apply hoare_ret; auto].
  destruct (EntityManager.shrinks pool); [|apply hoare_ret; auto].
  eapply hoare_bind.
  { apply capacity_updatePool. intros p Hp. unfold fits in *. destruct p; cbn in *.
    rewrite length_firstn. lia. }
  intros ?. apply capacity_keeps, keeps_pools_syncLegacy.
Qed.

Lemma capacity_moveToPool entityOrId targetPoolId :
  hoare capacity (EntityManager.moveToPool entityOrId targetPoolId) (fun _ => capacity).
Proof.
  unfold EntityManager.moveToPool.
  eapply hoare_bind with (R := fun _ => capacity).
  { destruct entityOrId; [apply hoare_ret; auto|apply hoare_gets; auto]. }
  intros entityId. apply hoare_gets_any. intros [entity|]; [|apply hoare_ret; auto].
  apply hoare_gets_any. intros [|]; cbn [negb]; [|apply hoare_ret; auto].
  eapply hoare_bind; [cap_keep|]. intros oe. cbv zeta.
  destruct (String.eqb _ targetPoolId); [apply hoare_ret; auto|].
  eapply hoare_bind; [apply capacity_updateStats|]. intros ?.
  eapply hoare_bind; [apply capacity_updateStats|]. intros ?.
  eapply hoare_bind; [cap_keep|]. intros ?.
  eapply hoare_bind; [cap_keep|]. intros ?. apply hoare_ret; auto.
Qed.

Lemma capacity_setPoolRules poolId rules :
  hoare capacity (EntityManager.setPoolRules poolId rules) (fun _ => capacity).
Proof.
  unfold EntityManager.setPoolRules. apply hoare_gets_any.
  intros [|]; [|apply hoare_ret; auto].
  eapply hoare_bind; [|intros ?; cap_keep].
  apply capacity_updatePool. intros pool H. exact H.
Qed.

Lemma capacity_facade_acquire presetIdOrOverrides overrides :
  hoare capacity (SpawnEngine.acquire presetIdOrOverrides overrides) (fun _ => capacity).
Proof.
  unfold SpawnEngine.acquire, SpawnEngine.idOf.
  eapply hoare_bind; [apply capacity_acquire|].
  intros [[entity|]|err]; try (apply hoare_ret; auto).
  apply hoare_gets_any. intros id.
  eapply hoare_bind; [|intros ?; apply hoare_ret; intros w H; exact H].
  apply capacity_keeps, keeps_modify. intros w. destruct w; reflexivity.
Qed.

Lemma capacity_facade_release entityOrId :
  hoare capacity (SpawnEngine.release entityOrId) (fun _ => capacity).
Proof.
  unfold SpawnEngine.release, SpawnEngine.idOf.
  eapply hoare_bind with (R := fun _ => capacity).
  { destruct entityOrId; [apply hoare_ret; auto|apply hoare_gets; auto]. }
  intros entityId. eapply hoare_bind; [|intros ?; apply capacity_release].
  apply capacity_keeps, keeps_modify. intros w. destruct w; reflexivity.
Qed.

(** X15. No pool ever holds more entities than its [maxSize] allows, and
    the default pool is never lost. The state of a new engine has its
    default pool, empty; and [acquire], [release], [preWarmPool],
    [createPool], [removePool], [clearPool], [_checkPoolShrink],
    [moveToPool], [setPoolRules] and the facade's [acquire] and [release]
    keep the invariant that the default pool exists and every pool holds at
    most max(0, maxSize) entities. Under it [removePool] returns without
    throwing. *)
Theorem pools_stay_within_capacity :
  (forall cfg host, capacity (SpawnEngine.new cfg host)) /\
  (forall w : World.t,
      capacity w ->
      (forall p overrides targetPoolId,
          capacity (snd (EntityManager.acquire p overrides targetPoolId w))) /\
      (forall entityOrId targetPoolId,
          capacity (snd (EntityManager.release entityOrId targetPoolId w))) /\
      (forall count presetId poolId,
          capacity (snd (EntityManager.preWarmPool count presetId poolId w))) /\
      (forall poolId options,
          capacity (snd (EntityManager.createPool poolId options w))) /\
      (forall poolId,
          capacity (snd (EntityManager.removePool poolId w)) /\
          exists removed, fst (EntityManager.removePool poolId w) = Returned removed) /\
      (forall poolId, capacity (snd (EntityManager.clearPool poolId w))) /\
      (forall poolId, capacity (snd (EntityManager._checkPoolShrink poolId w))) /\
      (forall entityOrId targetPoolId,
          capacity (snd (EntityManager.moveToPool entityOrId targetPoolId w))) /\
      (forall poolId rules, capacity (snd (EntityManager.setPoolRules poolId rules w))) /\
      (forall p overrides, capacity (snd (SpawnEngine.acquire p overrides w))) /\
      (forall entityOrId, capacity (snd (SpawnEngine.release entityOrId w)))).
Proof.
  split.
  - intros cfg host. split; [reflexivity|].
    intros q pool. unfold SpawnEngine.new. cbn [World.pools JS.get].
    destruct (String.eqb q EntityManager.defaultPoolId); [|discriminate].
    intros H. injection H as <-. unfold fits. cbn. lia.
  - intros w Hw.
    split; [intros p overrides targetPoolId; now apply capacity_acquire|].
    split; [intros entityOrId targetPoolId; now apply capacity_release|].
    split; [intros count presetId poolId; now apply capacity_preWarmPool|].
    split; [intros poolId options; now apply capacity_createPool|].
    split; [intros poolId; exact (capacity_removePool poolId w Hw)|].
    split; [intros poolId; now apply capacity_clearPool|].
    split; [intros poolId; now apply capacity_checkPoolShrink|].
    split; [intros entityOrId targetPoolId; now apply capacity_moveToPool|].
    split; [intros poolId rules; now apply capacity_setPoolRules|].
    split; [intros p overrides; now apply capacity_facade_acquire|].
    intros entityOrId. now apply capacity_facade_release.
Qed.

(** ** Release: into the pool or dropped, and only once *)

Lemma get_delete {V : Type} (k k' : string) (o : JS.Obj V) :
  JS.get k' (JS.delete k o) = if String.eqb k k' then None else JS.get k' o.
Proof.
  destruct (String.eqb k k') eqn:E.
  - apply String.eqb_eq in E. subst k'. apply get_delete_eq.
  - apply String.eqb_neq in E. now apply get_delete_ne.
Qed.

Lemma release_run (w : World.t) (entityId : string) (targetPoolId : option string)
    (entity : loc) (e : Entity.t) (pool : Pool.t) :
  JS.get entityId (World.stored w) = Some entity ->
  World.heap w !! entity = Some e ->
  JS.get (destination targetPoolId e) (World.pools w) = Some pool ->
  let r := EntityManager.release (inl entityId) targetPoolId w in
  fst r = hasRoom pool /\
  World.stored (snd r) = JS.delete entityId (World.stored w) /\
  (forall k, JS.get k (World.active (snd r))
             = if String.eqb entityId k then None else JS.get k (World.active w)) /\
  World.history (snd r) = JS.delete entityId (World.history w) /\
  World.heap (snd r)
  = (if hasRoom pool
     then <[entity := Entity.set_poolId (Some (destination targetPoolId e))
                        (EntityManager._prepareEntityForPool e)]> (World.heap w)
     else World.heap w) /\
  forall q, pooled q (snd r)
            = if String.eqb (destination targetPoolId e) q && hasRoom pool
              then Some (Pool.entities pool ++ [entity])
              else pooled q w.
Proof.
  intros Hs He Hp. unfold EntityManager.release, destination, hasRoom in *.
  unfold bind, ret, gets, deref, EntityManager.deactivate, bind, ret, gets, modify,
    EntityManager.emit, modify, EntityManager.removeFromAllGroups, modify,
    EntityManager.updateStats, EntityManager.updatePool, modify,
    EntityManager.syncLegacy, EntityManager.getPool, gets, update, modify,
    EntityManager._scheduleShrinkCheckForPool, EntityManager.updatePool, modify, pooled.
  destruct w; cbn -[JS.get JS.set JS.has JS.delete String.eqb JS.truthyStr JS.orStr] in *.
  rewrite Hs. cbn -[JS.get JS.set JS.has JS.delete String.eqb JS.truthyStr JS.orStr].
  rewrite He.
  set (q0 := if JS.truthyStr targetPoolId then SpawnManager.keyOf targetPoolId
             else JS.orStr (Entity.poolId e) EntityManager.defaultPoolId) in *.
  clearbody q0.
  unfold JS.has. rewrite Hp.
  destruct (JS.get entityId active); cbn -[JS.get JS.set JS.has JS.delete String.eqb];
    rewrite ?Hp; cbn -[JS.get JS.set JS.has JS.delete String.eqb].
  all: destruct (String.eqb q0 EntityManager.defaultPoolId) eqn:Hq;
    cbn -[JS.get JS.set JS.has JS.delete String.eqb];
    rewrite ?get_set_eq; cbn -[JS.get JS.set JS.has JS.delete String.eqb].
  all: match goal with
       | |- context [Z.ltb ?a ?b] => destruct (Z.ltb a b) eqn:Hroom
       end;
    repeat (progress (rewrite ?get_set_eq, ?He, ?Hq, ?Hroom;
                      cbn -[JS.get JS.set JS.has JS.delete String.eqb])).
  all: repeat match goal with |- _ /\ _ => split end; try reflexivity.
  all: try (intros k; rewrite ?get_delete; destruct (String.eqb entityId k); reflexivity).
  all: intros q; rewrite ?get_set; destruct (String.eqb q0 q) eqn:Hqq;
    cbn -[JS.get JS.set JS.has JS.delete String.eqb]; try reflexivity.
  all: try (destruct (Pool.shrinkTimeout pool); [|destruct (Z.eqb _ 0)];
            destruct pool; reflexivity).
  all: apply String.eqb_eq in Hqq; subst q; rewrite Hp; reflexivity.
Qed.

(** X16. [release] of a stored entity, when the pool it names exists (the
    pool is [targetPoolId || entity.poolId || 'default']): it returns true
    exactly when that pool holds fewer than [maxSize] entities. Either way
    the entity is forgotten: [retrieve] no longer finds its id and its
    history is empty, while every other id is found as before. With room,
    the object is appended to that pool, cleaned for reuse and tagged with
    the pool's id; without room no pool changes and the object is left as
    it is. No other pool and no other object changes, and releasing the
    same id again returns false and changes nothing. *)
Theorem release_pools_or_drops_once (w : World.t) (entityId : string)
    (targetPoolId : option string) (entity : loc) (e : Entity.t) (pool : Pool.t) :
  JS.get entityId (World.stored w) = Some entity ->
  World.heap w !! entity = Some e ->
  JS.get (destination targetPoolId e) (World.pools w) = Some pool ->
  fst (EntityManager.release (inl entityId) targetPoolId w) = hasRoom pool /\
  retrieved entityId (snd (EntityManager.release (inl entityId) targetPoolId w)) = None /\
  historyOf entityId (snd (EntityManager.release (inl entityId) targetPoolId w)) = [] /\
  (forall id, id <> entityId ->
              retrieved id (snd (EntityManager.release (inl entityId) targetPoolId w))
              = retrieved id w) /\
  pooled (destination targetPoolId e)
    (snd (EntityManager.release (inl entityId) targetPoolId w))
  = Some (if hasRoom pool then Pool.entities pool ++ [entity] else Pool.entities pool) /\
  (forall q, q <> destination targetPoolId e ->
             pooled q (snd (EntityManager.release (inl entityId) targetPoolId w))
             = pooled q w) /\
  World.heap (snd (EntityManager.release (inl entityId) targetPoolId w)) !! entity
  = Some (if hasRoom pool
          then Entity.set_poolId (Some (destination targetPoolId e))
                 (EntityManager._prepareEntityForPool e)
          else e) /\
  (forall l, l <> entity ->
             World.heap (snd (EntityManager.release (inl entityId) targetPoolId w)) !! l
             = World.heap w !! l) /\
  (forall again,
      EntityManager.release (inl entityId) again
        (snd (EntityManager.release (inl entityId) targetPoolId w))
      = (false, snd (EntityManager.release (inl entityId) targetPoolId w))).
Proof.
  intros Hs He Hp.
  destruct (release_run w entityId targetPoolId entity e pool Hs He Hp)
    as (Hr & Hstored & Hactive & Hhistory & Hheap & Hpooled).
  set (w' := snd (EntityManager.release (inl entityId) targetPoolId w)) in *.
  split; [exact Hr|].
  split.
  { unfold retrieved, EntityManager.retrieve, gets. cbn.
    rewrite Hstored, get_delete_eq, Hactive, String.eqb_refl. reflexivity. }
  split.
  { unfold historyOf, EntityManager.getHistory, gets. cbn.
    rewrite Hhistory, get_delete_eq. reflexivity. }
  split.
  { intros id Hid. unfold retrieved, EntityManager.retrieve, gets. cbn.
    rewrite Hstored, get_delete_ne, Hactive by congruence.
    replace (String.eqb entityId id) with false
      by (symmetry; apply String.eqb_neq; congruence).
    reflexivity. }
  split.
  { rewrite Hpooled, String.eqb_refl. cbn. unfold pooled. rewrite Hp.
    destruct (hasRoom pool); reflexivity. }
  split.
  { intros q Hq. rewrite Hpooled.
    replace (String.eqb (destination targetPoolId e) q) with false
      by (symmetry; apply String.eqb_neq; congruence).
    reflexivity. }
  split.
  { rewrite Hheap. destruct (hasRoom pool); [|exact He].
    apply list_lookup_insert_eq. now apply lookup_lt_Some in He. }
  split.
  { intros l Hl. rewrite Hheap. destruct (hasRoom pool); [|reflexivity].
    apply list_lookup_insert_ne. congruence. }
  intros again. unfold EntityManager.release at 1. unfold bind, ret, gets. cbn.
  rewrite Hstored, get_delete_eq. reflexivity.
Qed.

Lemma release_pools_or_drops_once_witness :
  fst (EntityManager.release (inl "hero") None Scenario.wHero) = true /\
  pooled EntityManager.defaultPoolId
    (snd (EntityManager.release (inl "hero") None Scenario.wHero))
  = Some [0%nat].
Proof.
  pose proof (release_pools_or_drops_once Scenario.wHero "hero" None 0%nat Scenario.eHero
                EntityManager.defaultPool
                ltac:(vm_compute; reflexivity) ltac:(vm_compute; reflexivity)
                ltac:(vm_compute; reflexivity)) as (Hr & _ & _ & _ & Hpool & _).
  split; [exact Hr|exact Hpool].
Defined.


(** ** Modifiers: listed once, each with a state *)

Section ModSetters.
Variable e : Entity.t.
Lemma mods_set_id x : mods (Entity.set_id x e) = mods e.
Proof. destruct e; reflexivity. Qed.
Lemma mods_set_createdAt x : mods (Entity.set_createdAt x e) = mods e.
Proof. destruct e; reflexivity. Qed.
Lemma mods_set_presetId x : mods (Entity.set_presetId x e) = mods e.
Proof. destruct e; reflexivity. Qed.
Lemma mods_set_name x : mods (Entity.set_name x e) = mods e.
Proof. destruct e; reflexivity. Qed.
Lemma mods_set_attributes x : mods (Entity.set_attributes x e) = mods e.
Proof. destruct e; reflexivity. Qed.
Lemma mods_set_variables x : mods (Entity.set_variables x e) = mods e.
Proof. destruct e; reflexivity. Qed.
Lemma mods_set_contexts x : mods (Entity.set_contexts x e) = mods e.
Proof. destruct e; reflexivity. Qed.
Lemma mods_set_layers x : mods (Entity.set_layers x e) = mods e.
Proof. destruct e; reflexivity. Qed.
Lemma mods_set_compounds x : mods (Entity.set_compounds x e) = mods e.
Proof. destruct e; reflexivity. Qed.
Lemma mods_set_derived x : mods (Entity.set_derived x e) = mods e.
Proof. destruct e; reflexivity. Qed.
Lemma mods_set_actions x : mods (Entity.set_actions x e) = mods e.
Proof. destruct e; reflexivity. Qed.
Lemma mods_set_poolId x : mods (Entity.set_poolId x e) = mods e.
Proof. destruct e; reflexivity. Qed.
Lemma mods_set_log x : mods (Entity.set_log x e) = mods e.
Proof. destruct e; reflexivity. Qed.
Lemma mods_set_lastTick x : mods (Entity.set_lastTick x e) = mods e.
Proof. destruct e; reflexivity. Qed.
End ModSetters.

Create Rewrite HintDb mods.
#[local] Hint Rewrite mods_set_id mods_set_createdAt mods_set_presetId mods_set_name
  mods_set_attributes mods_set_variables mods_set_contexts mods_set_layers
  mods_set_compounds mods_set_derived mods_set_actions mods_set_poolId mods_set_log
  mods_set_lastTick : mods.

(* a function made of setters of other fields *)
Ltac mods_tac :=
  repeat match goal with
    | |- context [match ?x with _ => _ end] => destruct x
    end;
  cbn [fst snd]; autorewrite with mods; try reflexivity.

Lemma fold_left_mods {X : Type} (f : Entity.t -> X -> Entity.t) (l : list X) :
  (forall e x, mods (f e x) = mods e) -> forall e, mods (fold_left f l e) = mods e.
Proof.
  intros Hf. induction l as [|x l IH]; intros e; cbn; [reflexivity|].
  rewrite IH. apply Hf.
Qed.

Lemma mods_log now event data e : mods (SpawnManager.log now event data e) = mods e.
Proof. unfold SpawnManager.log. mods_tac. Qed.

Lemma mods_setLayerActive layerId active e :
  mods (SpawnManager.setLayerActive layerId active e) = mods e.
Proof. unfold SpawnManager.setLayerActive. mods_tac. Qed.

Lemma mods_ensureLayer layerId e : mods (SpawnManager.ensureLayer layerId e) = mods e.
Proof. unfold SpawnManager.ensureLayer. mods_tac. Qed.

Lemma mods_deactivateTrait cfg e traitId :
  mods (snd (SpawnManager.deactivateTrait cfg e traitId)) = mods e.
Proof. unfold SpawnManager.deactivateTrait. mods_tac. apply mods_setLayerActive. Qed.

Lemma mods_activateTrait cfg now e traitId :
  mods (snd (SpawnManager.activateTrait cfg now e traitId)) = mods e.
Proof.
  unfold SpawnManager.activateTrait.
  destruct (SpawnManager.getNode cfg traitId) as [trait|]; [|reflexivity].
  destruct (negb _); [reflexivity|]. cbv zeta.
  destruct (JS.includes _ _); cbn [snd]; [apply mods_ensureLayer|].
  rewrite mods_log, mods_setLayerActive, fold_left_mods; [apply mods_ensureLayer|].
  intros e' x. apply mods_deactivateTrait.
Qed.

Lemma mods_forceActivateTrait cfg e traitId :
  mods (snd (SpawnManager.forceActivateTrait cfg e traitId)) = mods e.
Proof.
  unfold SpawnManager.forceActivateTrait.
  destruct (SpawnManager.getNode cfg traitId) as [trait|]; [|reflexivity].
  destruct (negb _); [reflexivity|]. cbv zeta.
  destruct (JS.includes _ _); cbn [snd]; [apply mods_ensureLayer|].
  rewrite mods_setLayerActive. apply mods_ensureLayer.
Qed.

Lemma mods_checkCompounds cfg e : mods (SpawnManager.checkCompounds cfg e) = mods e.
Proof.
  unfold SpawnManager.checkCompounds. apply fold_left_mods. intros e' c.
  unfold SpawnManager.checkCompound. mods_tac.
Qed.

Lemma mods_calculateDerived cfg e : mods (SpawnManager.calculateDerived cfg e) = mods e.
Proof.
  unfold SpawnManager.calculateDerived. apply fold_left_mods. intros e' d.
  unfold SpawnManager.calculateDerived1. mods_tac.
Qed.

Lemma mods_recalculateRates cfg e : mods (SpawnManager.recalculateRates cfg e) = mods e.
Proof.
  unfold SpawnManager.recalculateRates. apply fold_left_mods. intros e' n.
  unfold SpawnManager.recalculateRate. mods_tac.
Qed.

Lemma mods_initActions cfg e : mods (SpawnManager.initActions cfg e) = mods e.
Proof. unfold SpawnManager.initActions. apply fold_left_mods. intros e' a. mods_tac. Qed.

Lemma mods_remainingOverrides overrides e :
  mods (SpawnManager.remainingOverrides overrides e) = mods e.
Proof.
  unfold SpawnManager.remainingOverrides. apply fold_left_mods. intros e' kv. mods_tac.
Qed.

Lemma mods_setLastRoll now layerId e : mods (SpawnManager.setLastRoll now layerId e) = mods e.
Proof. unfold SpawnManager.setLastRoll. mods_tac. Qed.

Lemma mods_activateSelected cfg now e selected :
  mods (SpawnManager.activateSelected cfg now e selected) = mods e.
Proof.
  unfold SpawnManager.activateSelected. apply fold_left_mods. intros e' [t|]; [|reflexivity].
  apply mods_activateTrait.
Qed.

Lemma mods_rollLayer cfg e layerId :
  hresult (SpawnManager.rollLayer cfg e layerId) (fun r => mods (snd r) = mods e).
Proof.
  unfold SpawnManager.rollLayer.
  destruct (SpawnManager.getNode cfg layerId) as [layer|]; [|apply hresult_ret; reflexivity].
  destruct (Node.layer layer) as [selection|]; [|apply hresult_ret; reflexivity].
  cbv zeta. destruct (Z.geb _ _); [apply hresult_ret; reflexivity|].
  apply hresult_bind. intros result.
  destruct (SpawnManager.RollResult.selected result) as [[|t ts]|];
    try (apply hresult_ret; reflexivity).
  apply hresult_bind. intros now. apply hresult_ret. cbn [snd].
  rewrite mods_setLastRoll. apply mods_activateSelected.
Qed.

Lemma mods_rollInitial cfg n layerId :
  forall e, hresult (SpawnManager.rollInitial cfg n layerId e) (fun e' => mods e' = mods e).
Proof.
  induction n as [|n IH]; intros e; cbn.
  - apply hresult_ret. reflexivity.
  - eapply hresult_bind_with; [apply mods_rollLayer|]. intros r Hr.
    intros h. rewrite (IH (snd r) h). exact Hr.
Qed.

Lemma mods_spawnStep cfg overrides e item :
  hresult (SpawnManager.spawnStep cfg overrides e item) (fun e' => mods e' = mods e).
Proof.
  unfold SpawnManager.spawnStep. cbv zeta.
  destruct (String.eqb _ "attribute").
  - destruct (JS.get _ _).
    + apply hresult_ret. mods_tac.
    + apply hresult_bind. intros v. apply hresult_ret. mods_tac.
  - destruct (String.eqb _ "layer"); [apply mods_rollInitial|apply hresult_ret; reflexivity].
Qed.

Lemma mods_hfold {X : Type} (f : Entity.t -> X -> H Entity.t) (l : list X) :
  (forall e x, hresult (f e x) (fun e' => mods e' = mods e)) ->
  forall e, hresult (hfold f l e) (fun e' => mods e' = mods e).
Proof.
  intros Hf e. apply hresult_hfold with (P := fun e' => mods e' = mods e); [|reflexivity].
  intros s x Hs h. rewrite (Hf s x h). exact Hs.
Qed.

(* a generated entity carries no modifier *)
Lemma mods_generate cfg overrides :
  hresult (SpawnManager.generate cfg overrides) (fun e => mods e = ([], None)).
Proof.
  unfold SpawnManager.generate.
  apply hresult_bind. intros entityId. apply hresult_bind. intros now. cbv zeta.
  eapply hresult_bind_with.
  { apply mods_hfold. intros e x. apply mods_spawnStep. }
  intros e1 H1.
  eapply hresult_bind_with; [apply hresult_spied|]. intros e2 ->.
  eapply hresult_bind_with; [apply hresult_spied|]. intros e3 ->.
  eapply hresult_bind_with; [apply hresult_spied|]. intros e4 ->.
  apply hresult_bind. intros now'. apply hresult_ret.
  rewrite mods_log, mods_initActions, mods_recalculateRates, mods_calculateDerived,
    mods_checkCompounds, mods_remainingOverrides, H1.
  rewrite !fold_left_mods; [reflexivity| | |].
  - intros e x. unfold SpawnManager.initVariable. cbv zeta. mods_tac.
  - intros e x. unfold SpawnManager.initContext. cbv zeta. mods_tac.
  - intros e x. unfold SpawnManager.initLayer. mods_tac.
Qed.

Lemma mods_spawn cfg presets presetId overrides :
  hresult (SpawnManager.spawn cfg presets presetId overrides)
    (fun oe => forall e, oe = Some e -> mods e = ([], None)).
Proof.
  unfold SpawnManager.spawn.
  destruct (SpawnManager.getPreset presets presetId) as [preset|];
    [|apply hresult_ret; discriminate].
  apply hresult_bind. intros pa. apply hresult_bind. intros oa.
  apply hresult_bind. intros pt. apply hresult_bind. intros ot. cbv zeta.
  eapply hresult_bind_with; [apply mods_generate|]. intros e He.
  apply hresult_bind. intros now. apply hresult_ret.
  intros e' H. injection H as <-.
  rewrite mods_log, mods_set_name, mods_set_presetId, fold_left_mods; [exact He|].
  intros e' t. apply mods_forceActivateTrait.
Qed.

Lemma tracked_mods (e e' : Entity.t) : mods e' = mods e -> tracked e -> tracked e'.
Proof.
  unfold mods, tracked, modStateOf. intros H. injection H as -> ->. auto.
Qed.

Lemma tracked_none (e : Entity.t) : Entity.modifiers e = [] -> tracked e.
Proof. unfold tracked. intros ->. split; [constructor|contradiction]. Qed.

Lemma modifiers_set_modifierStates x e :
  Entity.modifiers (Entity.set_modifierStates x e) = Entity.modifiers e.
Proof. destruct e; reflexivity. Qed.

Lemma modifierStates_set_modifierStates x e :
  Entity.modifierStates (Entity.set_modifierStates x e) = x.
Proof. destruct e; reflexivity. Qed.

Lemma modifiers_set_modifiers x e : Entity.modifiers (Entity.set_modifiers x e) = x.
Proof. destruct e; reflexivity. Qed.

Lemma modifierStates_set_modifiers x e :
  Entity.modifierStates (Entity.set_modifiers x e) = Entity.modifierStates e.
Proof. destruct e; reflexivity. Qed.

(* what [applyModifier] does to the list and to the states *)
Lemma applyTo_mods now (modifierId : string) config e :
  tracked e ->
  exists modState,
    mods (EntityManager.applyTo now modifierId config e)
    = (if JS.includes modifierId (Entity.modifiers e) then Entity.modifiers e
       else Entity.modifiers e ++ [modifierId],
       Some (JS.set modifierId modState (JS.nullish (Entity.modifierStates e) []))).
Proof.
  intros [_ Hst]. unfold EntityManager.applyTo. cbv zeta.
  destruct (JS.includes modifierId (Entity.modifiers e)) eqn:Hin.
  - apply includes_In in Hin. specialize (Hst _ Hin). unfold modStateOf in Hst.
    destruct (JS.get modifierId (JS.nullish (Entity.modifierStates e) [])) as [st|];
      [|congruence].
    eexists. unfold mods.
    rewrite modifiers_set_modifierStates, modifierStates_set_modifierStates. reflexivity.
  - eexists. unfold mods.
    rewrite modifiers_set_modifierStates, modifierStates_set_modifierStates,
      modifiers_set_modifiers. reflexivity.
Qed.

Lemma tracked_applyTo now (modifierId : string) config e :
  tracked e -> tracked (EntityManager.applyTo now modifierId config e).
Proof.
  intros He. destruct (applyTo_mods now modifierId config e He) as [st Hm].
  destruct He as [Hnd Hst]. unfold mods in Hm. injection Hm as Hl Hs.
  unfold tracked, modStateOf. rewrite Hl, Hs. cbn [JS.nullish]. split.
  - destruct (JS.includes modifierId (Entity.modifiers e)) eqn:Hin; [exact Hnd|].
    apply NoDup_app; [exact Hnd|repeat constructor; intros []|].
    intros x Hx [<-|[]]. apply includes_In in Hx. congruence.
  - intros k Hk. rewrite get_set.
    destruct (String.eqb modifierId k) eqn:E; [discriminate|].
    apply Hst. destruct (JS.includes modifierId (Entity.modifiers e)); [exact Hk|].
    apply in_app_or in Hk as [Hk|[Hk|[]]]; [exact Hk|].
    apply String.eqb_neq in E. congruence.
Qed.

(* what [removeModifier] leaves of a listed modifier: nothing *)
Lemma removeFrom_gone (modifierId : string) (index : nat) e :
  tracked e ->
  JS.indexOf modifierId (Entity.modifiers e) = Some index ->
  tracked (EntityManager.removeFrom modifierId index e) /\
  ~ In modifierId (Entity.modifiers (EntityManager.removeFrom modifierId index e)) /\
  modStateOf (EntityManager.removeFrom modifierId index e) modifierId = None /\
  (forall k, k <> modifierId ->
             (In k (Entity.modifiers (EntityManager.removeFrom modifierId index e))
              <-> In k (Entity.modifiers e)) /\
             modStateOf (EntityManager.removeFrom modifierId index e) k = modStateOf e k).
Proof.
  intros [Hnd Hst] Hi. unfold EntityManager.removeFrom, tracked, modStateOf in *.
  rewrite !modifiers_set_modifierStates, !modifierStates_set_modifierStates,
    !modifiers_set_modifiers.
  assert (Hgone : ~ In modifierId (JS.splice1 index (Entity.modifiers e)))
    by (apply splice1_indexOf_gone; assumption).
  assert (Hothers : forall k, k <> modifierId ->
            JS.get k (JS.nullish
                        match Entity.modifierStates e with
                        | Some states => Some (JS.delete modifierId states)
                        | None => None
                        end [])
            = JS.get k (JS.nullish (Entity.modifierStates e) [])).
  { intros k Hk. destruct (Entity.modifierStates e); [|reflexivity]. cbn.
    apply get_delete_ne. congruence. }
  split; [split|split; [|split]].
  - apply NoDup_splice1, Hnd.
  - intros k Hk. rewrite Hothers by (intros ->; contradiction).
    apply Hst. eapply In_splice1, Hk.
  - exact Hgone.
  - destruct (Entity.modifierStates e); [|reflexivity]. cbn. apply get_delete_eq.
  - intros k Hk. split; [|apply Hothers, Hk]. split; [apply In_splice1|].
    apply (splice1_indexOf_others modifierId); assumption.
Qed.

Lemma expireSteps_keys now (l : list string) (k : string) :
  forall acc,
    JS.get k (snd acc) <> None ->
    JS.get k (snd (fold_left (EntityManager.expireStep now) l acc)) <> None.
Proof.
  induction l as [|x l IH]; intros acc H; cbn; [exact H|]. apply IH.
  unfold EntityManager.expireStep.
  destruct (JS.get x (snd acc)) as [st|] eqn:E; [|exact H].
  destruct (ModState.isStatic st); [exact H|].
  destruct (match ModState.expiresAt st with Some _ => _ | None => _ end); [exact H|].
  destruct (ModState.ticksRemaining st); [|exact H]. cbn [snd].
  rewrite get_set. destruct (String.eqb x k); [discriminate|exact H].
Qed.

Lemma tracked_expireModifiers now e :
  tracked e -> tracked (snd (EntityManager.expireModifiers now e)).
Proof.
  intros [Hnd Hst]. unfold EntityManager.expireModifiers, tracked, modStateOf in *.
  destruct (Entity.modifierStates e) as [states|] eqn:E; cbn [snd].
  - rewrite modifiers_set_modifierStates, modifierStates_set_modifierStates.
    split; [exact Hnd|]. intros k Hk. cbn [JS.nullish].
    apply expireSteps_keys. cbn [snd]. apply (Hst k Hk).
  - rewrite E. split; assumption.
Qed.

Lemma tracked_prepareEntityForPool e : tracked (EntityManager._prepareEntityForPool e).
Proof.
  apply tracked_none. unfold EntityManager._prepareEntityForPool, EntityManager.clearLayers.
  destruct e; reflexivity.
Qed.

Lemma mods_resetAttribute cfg preset finalOverrides e attr :
  hresult (EntityManager.resetAttribute cfg preset finalOverrides e attr)
    (fun e' => mods e' = mods e).
Proof.
  unfold EntityManager.resetAttribute. cbv zeta.
  apply hresult_bind. intros v. apply hresult_ret. apply mods_set_attributes.
Qed.

Lemma mods_rerollLayer cfg e layer :
  hresult (EntityManager.rerollLayer cfg e layer) (fun e' => mods e' = mods e).
Proof.
  unfold EntityManager.rerollLayer. cbv zeta.
  destruct (_ || _); [|apply hresult_ret; reflexivity].
  eapply hresult_bind_with; [apply mods_rollLayer|]. intros r Hr. apply hresult_ret. exact Hr.
Qed.

(* an entity reset for reuse carries no modifier *)
Lemma resetEntity_tracked cfg presets presetIdOrOverrides overrides e :
  hresult (EntityManager.resetEntity cfg presets presetIdOrOverrides overrides e) tracked.
Proof.
  unfold EntityManager.resetEntity. cbv zeta.
  apply hresult_bind. intros id. apply hresult_bind. intros now.
  apply hresult_bind. intros e1. apply hresult_bind. intros now'.
  eapply hresult_bind_with.
  { apply mods_hfold. intros e' x. apply mods_rerollLayer. }
  intros e2 H2. apply hresult_bind. intros pt. apply hresult_bind. intros ot.
  apply hresult_ret. apply tracked_none.
  assert (Hm : forall e0 e0', mods e0' = mods e0 ->
                              Entity.modifiers e0' = Entity.modifiers e0)
    by (unfold mods; intros ? ? H; now injection H).
  rewrite (Hm _ _ (fold_left_mods _ _ (fun e' t => mods_forceActivateTrait cfg e' t) e2)).
  rewrite (Hm _ _ H2). destruct (EntityManager.clearLayers _); reflexivity.
Qed.

Lemma allTracked_ext (w w' : World.t) :
  World.heap w' = World.heap w -> allTracked w -> allTracked w'.
Proof. unfold allTracked. intros ->. auto. Qed.

Lemma trk_ret {A : Type} (a : A) : hoare allTracked (ret a) (fun _ => allTracked).
Proof. apply hoare_ret. auto. Qed.

Lemma trk_gets {A : Type} (f : World.t -> A) :
  hoare allTracked (gets f) (fun _ => allTracked).
Proof. apply hoare_gets. auto. Qed.

Lemma trk_deref (l : loc) : hoare allTracked (deref l) (fun _ => allTracked).
Proof. apply trk_gets. Qed.

Lemma trk_liftH {A : Type} (m : H A) : hoare allTracked (liftH m) (fun _ => allTracked).
Proof.
  intros w Hw. unfold liftH. destruct (m (World.host w)) as [a h]. cbn.
  apply (allTracked_ext w); [destruct w; reflexivity|exact Hw].
Qed.

Lemma trk_emit event data :
  hoare allTracked (EntityManager.emit event data) (fun _ => allTracked).
Proof. intros w Hw. apply (allTracked_ext w); [destruct w; reflexivity|exact Hw]. Qed.

(* a state change that does not write the heap *)
Lemma trk_modify (f : World.t -> World.t) :
  (forall w, World.heap (f w) = World.heap w) ->
  hoare allTracked (modify f) (fun _ => allTracked).
Proof. intros Hf w Hw. apply (allTracked_ext w); [apply Hf|exact Hw]. Qed.

Lemma trk_update_at (l : loc) (e : Entity.t) (g : Entity.t -> Entity.t) :
  tracked (g e) ->
  hoare (fun w => allTracked w /\ World.heap w !! l = Some e) (update l g)
    (fun _ => allTracked).
Proof.
  intros Hg w [Hw He]. unfold update, modify, allTracked in *. cbn. rewrite He.
  assert (Hins : Forall tracked (<[l := g e]> (World.heap w)))
    by (apply Forall_insert; assumption).
  destruct w; exact Hins.
Qed.

Lemma trk_update (l : loc) (g : Entity.t -> Entity.t) :
  (forall e, tracked e -> tracked (g e)) ->
  hoare allTracked (update l g) (fun _ => allTracked).
Proof.
  intros Hg w Hw. destruct (World.heap w !! l) as [e|] eqn:He.
  - apply (trk_update_at l e g); [|split; assumption].
    apply Hg. apply (Forall_lookup_1 _ _ _ _ Hw He).
  - unfold update, modify. cbn. rewrite He. exact Hw.
Qed.

Lemma trk_update_mods (l : loc) (g : Entity.t -> Entity.t) :
  (forall e, mods (g e) = mods e) -> hoare allTracked (update l g) (fun _ => allTracked).
Proof. intros Hg. apply trk_update. intros e. apply tracked_mods, Hg. Qed.

(* what a dereference under the invariant gives *)
Lemma trk_deref_bind {B : Type} (l : loc) (k : option Entity.t -> M B)
    (Q : B -> World.t -> Prop) :
  (forall oe, (forall e, oe = Some e -> tracked e) ->
              hoare (fun w => allTracked w /\ World.heap w !! l = oe) (k oe) Q) ->
  hoare allTracked (bind (deref l) k) Q.
Proof.
  intros Hk w Hw. unfold bind, deref, gets. apply Hk; [|split; [exact Hw|reflexivity]].
  intros e He. apply (Forall_lookup_1 _ _ _ _ Hw He).
Qed.

Lemma trk_weaken {A : Type} (P : World.t -> Prop) (m : M A) :
  hoare allTracked m (fun _ => allTracked) ->
  hoare (fun w => allTracked w /\ P w) m (fun _ => allTracked).
Proof. intros H w [Hw _]. apply H, Hw. Qed.

Lemma trk_onEntity {A : Type} (l : loc) (d : A) (g : Entity.t -> H (A * Entity.t)) :
  (forall e, tracked e -> hresult (g e) (fun r => tracked (snd r))) ->
  hoare allTracked (onEntity l d g) (fun _ => allTracked).
Proof.
  intros Hg. unfold onEntity. apply trk_deref_bind.
  intros [e|] He; [|apply trk_weaken, trk_ret].
  specialize (He e eq_refl). apply trk_weaken.
  intros w Hw. unfold bind, liftH. specialize (Hg e He (World.host w)).
  destruct (g e (World.host w)) as [r h]. cbn [fst snd] in *.
  pose proof (trk_update l (fun _ => snd r) (fun _ _ => Hg) (World.set_host h w)) as Hupd.
  destruct (update l (fun _ => snd r) (World.set_host h w)) as [u w'] eqn:E. cbn in *.
  apply Hupd. apply (allTracked_ext w); [destruct w; reflexivity|exact Hw].
Qed.

Lemma trk_onEntity_mods {A : Type} (l : loc) (d : A) (g : Entity.t -> H (A * Entity.t)) :
  (forall e, hresult (g e) (fun r => mods (snd r) = mods e)) ->
  hoare allTracked (onEntity l d g) (fun _ => allTracked).
Proof.
  intros Hg. apply trk_onEntity. intros e He h. apply (tracked_mods e); [apply Hg|exact He].
Qed.

Lemma trk_alloc (e : Entity.t) :
  tracked e -> hoare allTracked (alloc e) (fun _ => allTracked).
Proof.
  intros He w Hw. unfold alloc, allTracked in *. cbn.
  assert (Happ : Forall tracked (World.heap w ++ [e])).
  { apply Forall_app. split; [exact Hw|]. constructor; [exact He|constructor]. }
  destruct w; exact Happ.
Qed.

Create HintDb trk.
#[local] Hint Resolve trk_ret trk_gets trk_deref trk_liftH trk_emit : trk.

Ltac trk_field :=
  let w := fresh "w" in
  intros w;
  repeat match goal with
    | |- context [match ?x with _ => _ end] => destruct x
    end;
  destruct w; reflexivity.

Ltac trk_step :=
  match goal with
  | |- hoare allTracked (bind _ _) (fun _ => allTracked) =>
      eapply hoare_bind with (R := fun _ => allTracked); [|intros ?]
  | |- hoare allTracked (forEach _ _) _ => apply hoare_forEach; intros ? _
  | |- hoare allTracked (modify _) _ => apply trk_modify; trk_field
  | |- hoare allTracked (match ?x with _ => _ end) _ => destruct x
  | |- hoare allTracked _ _ => solve [eauto with trk]
  end.

Ltac trk_tac := repeat trk_step.

Lemma trk_cascadeTriple cfg (entity : loc) :
  hoare allTracked (EntityManager.cascadeTriple cfg entity) (fun _ => allTracked).
Proof.
  unfold EntityManager.cascadeTriple. apply trk_onEntity_mods. intros e.
  eapply hresult_bind_with; [apply hresult_spied|]. intros e1 ->.
  eapply hresult_bind_with; [apply hresult_spied|]. intros e2 ->.
  eapply hresult_bind_with; [apply hresult_spied|]. intros e3 ->.
  apply hresult_ret. cbn [snd].
  rewrite mods_calculateDerived, mods_checkCompounds. apply mods_recalculateRates.
Qed.
#[local] Hint Resolve trk_cascadeTriple : trk.

Lemma trk_runCascade (entity : loc) :
  hoare allTracked (EntityManager._runCascade entity) (fun _ => allTracked).
Proof. unfold EntityManager._runCascade. trk_tac. Qed.
#[local] Hint Resolve trk_runCascade : trk.

Lemma trk_applyModifier entityId modifierId config :
  hoare allTracked (EntityManager.applyModifier entityId modifierId config)
    (fun _ => allTracked).
Proof.
  unfold EntityManager.applyModifier, EntityManager.retrieve. trk_tac.
  apply trk_update. intros e. apply tracked_applyTo.
Qed.
#[local] Hint Resolve trk_applyModifier : trk.

Lemma trk_removeModifier entityId modifierId :
  hoare allTracked (EntityManager.removeModifier entityId modifierId) (fun _ => allTracked).
Proof.
  unfold EntityManager.removeModifier, EntityManager.retrieve.
  apply hoare_gets_any. intros [entity|]; [|apply trk_ret].
  apply trk_deref_bind. intros [e|] He; [|apply trk_weaken, trk_ret].
  specialize (He e eq_refl).
  destruct (JS.indexOf modifierId (Entity.modifiers e)) as [index|] eqn:Hi;
    [|apply trk_weaken, trk_ret].
  eapply hoare_bind with (R := fun _ => allTracked).
  - apply trk_update_at. apply (removeFrom_gone modifierId index e He Hi).
  - intros ?. trk_tac.
Qed.
#[local] Hint Resolve trk_removeModifier : trk.

Lemma trk_activateTrait entityId traitId :
  hoare allTracked (EntityManager.activateTrait entityId traitId) (fun _ => allTracked).
Proof.
  unfold EntityManager.activateTrait, EntityManager.retrieve. trk_tac.
  apply trk_onEntity_mods. intros e. apply hresult_ret. apply mods_activateTrait.
Qed.
#[local] Hint Resolve trk_activateTrait : trk.

Lemma trk_deactivateTrait entityId traitId :
  hoare allTracked (EntityManager.deactivateTrait entityId traitId) (fun _ => allTracked).
Proof.
  unfold EntityManager.deactivateTrait, EntityManager.retrieve. trk_tac.
  apply trk_onEntity_mods. intros e. apply hresult_ret. apply mods_deactivateTrait.
Qed.
#[local] Hint Resolve trk_deactivateTrait : trk.

Lemma trk_checkThresholds (entity : loc) (varId : string) :
  hoare allTracked (EntityManager.checkThresholds entity varId) (fun _ => allTracked).
Proof. unfold EntityManager.checkThresholds, EntityManager.checkThreshold. trk_tac. Qed.
#[local] Hint Resolve trk_checkThresholds : trk.

Lemma trk_checkModifierThresholds (entity : loc) :
  hoare allTracked (EntityManager.checkModifierThresholds entity) (fun _ => allTracked).
Proof.
  unfold EntityManager.checkModifierThresholds, EntityManager.checkModifier. trk_tac.
Qed.
#[local] Hint Resolve trk_checkModifierThresholds : trk.

Lemma trk_calculateDerived (entity : loc) :
  hoare allTracked (EntityManager.calculateDerived entity) (fun _ => allTracked).
Proof.
  unfold EntityManager.calculateDerived. trk_tac.
  apply trk_onEntity_mods. intros e.
  eapply hresult_bind_with; [apply hresult_spied|]. intros e1 ->. apply hresult_ret.
  apply mods_calculateDerived.
Qed.
#[local] Hint Resolve trk_calculateDerived : trk.

Lemma mods_writeValue varId value e : mods (EntityManager.writeValue varId value e) = mods e.
Proof. unfold EntityManager.writeValue. mods_tac. Qed.

Lemma trk_changeVariable entityId varId newValue :
  hoare allTracked (EntityManager.changeVariable entityId varId newValue)
    (fun _ => allTracked).
Proof.
  unfold EntityManager.changeVariable, EntityManager.retrieve. trk_tac.
  apply trk_update_mods. intros e. apply mods_writeValue.
Qed.

Lemma trk_tickVariable (entity : loc) (deltaSeconds : Z) (varId : string) :
  hoare allTracked (EntityManager.tickVariable entity deltaSeconds varId)
    (fun _ => allTracked).
Proof.
  unfold EntityManager.tickVariable. trk_tac.
  apply trk_update_mods. intros e. apply mods_writeValue.
Qed.
#[local] Hint Resolve trk_tickVariable : trk.

Lemma trk_tick entityId deltaSeconds :
  hoare allTracked (EntityManager.tick entityId deltaSeconds) (fun _ => allTracked).
Proof.
  unfold EntityManager.tick. trk_tac.
  - apply trk_update_mods. intros e'. apply mods_set_lastTick.
  - apply trk_onEntity. intros e' He'. apply hresult_ret.
    apply tracked_expireModifiers, He'.
  - apply trk_update_mods. intros e'. unfold EntityManager.tickCooldowns.
    apply mods_set_actions.
Qed.

Lemma trk_updatePool poolId (g : Pool.t -> Pool.t) :
  hoare allTracked (EntityManager.updatePool poolId g) (fun _ => allTracked).
Proof. unfold EntityManager.updatePool. trk_tac. Qed.
#[local] Hint Resolve trk_updatePool : trk.

Lemma trk_updateStats poolId (g : Stats.t -> Stats.t) :
  hoare allTracked (EntityManager.updateStats poolId g) (fun _ => allTracked).
Proof. unfold EntityManager.updateStats. trk_tac. Qed.
#[local] Hint Resolve trk_updateStats : trk.

Lemma trk_syncLegacy poolId g :
  hoare allTracked (EntityManager.syncLegacy poolId g) (fun _ => allTracked).
Proof. unfold EntityManager.syncLegacy. trk_tac. Qed.
#[local] Hint Resolve trk_syncLegacy : trk.

Lemma trk_addToGroup groupId entityId :
  hoare allTracked (EntityManager.addToGroup groupId entityId) (fun _ => allTracked).
Proof. unfold EntityManager.addToGroup. trk_tac. Qed.
#[local] Hint Resolve trk_addToGroup : trk.

Lemma trk_store (entity : loc) :
  hoare allTracked (EntityManager.store entity) (fun _ => allTracked).
Proof. unfold EntityManager.store. trk_tac. Qed.
#[local] Hint Resolve trk_store : trk.

Lemma trk_activate entityOrId :
  hoare allTracked (EntityManager.activate entityOrId) (fun _ => allTracked).
Proof.
  unfold EntityManager.activate. trk_tac.
  all: apply trk_update_mods; intros e'; apply mods_set_lastTick.
Qed.
#[local] Hint Resolve trk_activate : trk.

Lemma trk_deactivate entityId :
  hoare allTracked (EntityManager.deactivate entityId) (fun _ => allTracked).
Proof. unfold EntityManager.deactivate. trk_tac. Qed.
#[local] Hint Resolve trk_deactivate : trk.

Lemma trk_removeFromAllGroups entityId :
  hoare allTracked (EntityManager.removeFromAllGroups entityId) (fun _ => allTracked).
Proof. unfold EntityManager.removeFromAllGroups. trk_tac. Qed.
#[local] Hint Resolve trk_removeFromAllGroups : trk.

Lemma trk_liftH_result {A : Type} (m : H A) (P : A -> Prop) :
  hresult m P -> hoare allTracked (liftH m) (fun a w => allTracked w /\ P a).
Proof.
  intros Hm w Hw. unfold liftH. specialize (Hm (World.host w)).
  destruct (m (World.host w)) as [a h]. cbn in *. split; [|exact Hm].
  apply (allTracked_ext w); [destruct w; reflexivity|exact Hw].
Qed.

Lemma hoare_pure_r {A : Type} (phi : Prop) (P : World.t -> Prop) (m : M A)
    (Q : A -> World.t -> Prop) :
  (phi -> hoare P m Q) -> hoare (fun w => P w /\ phi) m Q.
Proof. intros H w [Hw Hphi]. apply H; assumption. Qed.

Lemma trk_create cfg presetIdOrOverrides overrides :
  hoare allTracked (EntityManager.create cfg presetIdOrOverrides overrides)
    (fun _ => allTracked).
Proof.
  unfold EntityManager.create. apply hoare_gets_any. intros presets.
  eapply hoare_bind.
  - apply trk_liftH_result with (P := fun oe => forall e, oe = Some e -> tracked e).
    destruct presetIdOrOverrides as [[presetId|o]|].
    + intros h. intros e He. apply tracked_none.
      pose proof (mods_spawn cfg (Some presets) presetId overrides h e He) as Hm.
      unfold mods in Hm. now injection Hm.
    + apply hresult_bind_with with (Q := fun e => mods e = ([], None));
        [apply mods_generate|].
      intros e Hm. apply hresult_ret. intros e' H. injection H as <-.
      apply tracked_none. unfold mods in Hm. now injection Hm.
    + apply hresult_bind_with with (Q := fun e => mods e = ([], None));
        [apply mods_generate|].
      intros e Hm. apply hresult_ret. intros e' H. injection H as <-.
      apply tracked_none. unfold mods in Hm. now injection Hm.
  - intros [e|]; cbn beta iota.
    + apply hoare_pure_r. intros He. trk_tac. apply trk_alloc. apply He. reflexivity.
    + apply trk_weaken, trk_ret.
Qed.

Lemma trk_resetEntityForReuse (entity : loc) presetIdOrOverrides overrides :
  hoare allTracked (EntityManager._resetEntityForReuse entity presetIdOrOverrides overrides)
    (fun _ => allTracked).
Proof.
  unfold EntityManager._resetEntityForReuse. trk_tac.
  apply trk_onEntity. intros e He.
  eapply hresult_bind_with; [apply resetEntity_tracked|]. intros e' He'.
  apply hresult_ret. exact He'.
Qed.
#[local] Hint Resolve trk_resetEntityForReuse trk_create : trk.

Lemma trk_acquire presetIdOrOverrides overrides targetPoolId :
  hoare allTracked (EntityManager.acquire presetIdOrOverrides overrides targetPoolId)
    (fun _ => allTracked).
Proof.
  unfold EntityManager.acquire, EntityManager.getPool. trk_tac.
  all: apply trk_update_mods; intros e'; apply mods_set_poolId.
Qed.

Lemma trk_release entityOrId targetPoolId :
  hoare allTracked (EntityManager.release entityOrId targetPoolId) (fun _ => allTracked).
Proof.
  unfold EntityManager.release, EntityManager.getPool,
    EntityManager._scheduleShrinkCheckForPool. trk_tac.
  all: apply trk_update; intros e' _; apply (tracked_mods (EntityManager._prepareEntityForPool e'));
    [apply mods_set_poolId|apply tracked_prepareEntityForPool].
Qed.

Lemma trk_snapshot entityId :
  hoare allTracked (EntityManager.snapshot entityId) (fun _ => allTracked).
Proof. unfold EntityManager.snapshot, EntityManager.retrieve. trk_tac. Qed.

#[local] Instance modsAt_HostFree l : HostFree (modsAt l).
Proof. intros [] ?. reflexivity. Qed.
#[local] Instance modsAt_EventFree l : EventFree (modsAt l).
Proof. intros [] ?. reflexivity. Qed.
#[local] Instance modsAt_IndexFree l : IndexFree (modsAt l).
Proof. intros []. repeat split. Qed.
#[local] Instance modsAt_FlagFree l : FlagFree (modsAt l).
Proof. intros []. repeat split. Qed.

Lemma modsAt_update (l l' : loc) (g : Entity.t -> Entity.t) :
  (forall e, mods (g e) = mods e) -> keeps (modsAt l) (update l' g).
Proof.
  intros Hg w. unfold update, modify, modsAt. cbn.
  destruct (World.heap w !! l') as [e|] eqn:E; [|reflexivity].
  destruct w; cbn in *. destruct (decide (l = l')) as [->|Hne].
  - rewrite list_lookup_insert_eq by (now apply lookup_lt_Some in E).
    rewrite E. cbn. f_equal. apply Hg.
  - rewrite list_lookup_insert_ne by congruence. reflexivity.
Qed.

Lemma modsAt_onEntity {A : Type} (l l' : loc) (d : A) (g : Entity.t -> H (A * Entity.t)) :
  (forall e, hresult (g e) (fun r => mods (snd r) = mods e)) ->
  keeps (modsAt l) (onEntity l' d g).
Proof.
  intros Hg w. unfold onEntity, bind, deref, gets, liftH, ret. cbn.
  destruct (World.heap w !! l') as [e|] eqn:E; [|reflexivity].
  specialize (Hg e (World.host w)). destruct (g e (World.host w)) as [r h]. cbn in *.
  unfold update, modify, modsAt. cbn.
  replace (World.heap (World.set_host h w)) with (World.heap w) by (destruct w; reflexivity).
  rewrite E. destruct w; cbn in *. destruct (decide (l = l')) as [->|Hne].
  - rewrite list_lookup_insert_eq by (now apply lookup_lt_Some in E).
    rewrite E. cbn. f_equal. exact Hg.
  - rewrite list_lookup_insert_ne by congruence. reflexivity.
Qed.

Lemma modsAt_cascadeTriple (l : loc) cfg (entity : loc) :
  keeps (modsAt l) (EntityManager.cascadeTriple cfg entity).
Proof.
  unfold EntityManager.cascadeTriple. apply modsAt_onEntity. intros e.
  eapply hresult_bind_with; [apply hresult_spied|]. intros e1 ->.
  eapply hresult_bind_with; [apply hresult_spied|]. intros e2 ->.
  eapply hresult_bind_with; [apply hresult_spied|]. intros e3 ->.
  apply hresult_ret. cbn [snd].
  rewrite mods_calculateDerived, mods_checkCompounds. apply mods_recalculateRates.
Qed.

Lemma modsAt_runCascade (l : loc) (entity : loc) :
  keeps (modsAt l) (EntityManager._runCascade entity).
Proof.
  unfold EntityManager._runCascade.
  apply keeps_bind; [apply keeps_gets|]. intros [|].
  - apply keeps_modify. intros w. destruct w; reflexivity.
  - apply keeps_bind; [apply keeps_gets|]. intros [cfg|]; [|apply keeps_ret].
    apply modsAt_cascadeTriple.
Qed.

(* the tail of [applyModifier] and [removeModifier]: the cascade and the
   event leave the modifiers as the update made them *)
Lemma cascade_then_emit (l : loc) (entity : loc) event data (w : World.t) :
  let r := bind (EntityManager._runCascade entity)
             (fun _ => bind (EntityManager.emit event data) (fun _ => ret true)) w in
  fst r = true /\ modsAt l (snd r) = modsAt l w.
Proof.
  cbv zeta. unfold bind.
  pose proof (modsAt_runCascade l entity w) as Hc.
  destruct (EntityManager._runCascade entity w) as [u w1]. cbn in *.
  split; [reflexivity|]. rewrite <- Hc. unfold EntityManager.emit, modify, ret. cbn.
  apply event_free.
Qed.

Lemma applyModifier_run (w : World.t) (entityId modifierId : string) config
    (l : loc) (e : Entity.t) :
  retrieved entityId w = Some l ->
  World.heap w !! l = Some e ->
  fst (EntityManager.applyModifier entityId modifierId config w) = true /\
  modsAt l (snd (EntityManager.applyModifier entityId modifierId config w))
  = Some (mods (EntityManager.applyTo (Host.now (World.host w)) modifierId config e)).
Proof.
  intros Hr He.
  set (w1 := snd (update l (EntityManager.applyTo (Host.now (World.host w)) modifierId
                              config) w)).
  assert (Hrun : EntityManager.applyModifier entityId modifierId config w
                 = bind (EntityManager._runCascade l)
                     (fun _ =>
                        bind (EntityManager.emit "modifierApplied"
                                [("entityId", entityId); ("modifierId", modifierId)])
                          (fun _ => ret true)) w1).
  { unfold EntityManager.applyModifier. unfold bind at 1.
    unfold retrieved in Hr. rewrite (surjective_pairing (EntityManager.retrieve _ w)), Hr.
    cbn [snd]. replace (snd (EntityManager.retrieve entityId w)) with w by reflexivity.
    unfold bind at 1. unfold liftH, Date_now. cbn [fst snd].
    replace (World.set_host (World.host w) w) with w by (destruct w; reflexivity).
    unfold bind at 1. subst w1. destruct (update l _ w). reflexivity. }
  rewrite Hrun.
  destruct (cascade_then_emit l l "modifierApplied"
              [("entityId", entityId); ("modifierId", modifierId)] w1) as [H1 H2].
  split; [exact H1|]. rewrite H2. subst w1.
  unfold update, modify, modsAt. cbn. rewrite He. destruct w; cbn in *.
  rewrite list_lookup_insert_eq by (now apply lookup_lt_Some in He). reflexivity.
Qed.

Lemma removeModifier_run (w : World.t) (entityId modifierId : string)
    (l : loc) (e : Entity.t) (index : nat) :
  retrieved entityId w = Some l ->
  World.heap w !! l = Some e ->
  JS.indexOf modifierId (Entity.modifiers e) = Some index ->
  fst (EntityManager.removeModifier entityId modifierId w) = true /\
  modsAt l (snd (EntityManager.removeModifier entityId modifierId w))
  = Some (mods (EntityManager.removeFrom modifierId index e)).
Proof.
  intros Hr He Hi.
  set (w1 := snd (update l (EntityManager.removeFrom modifierId index) w)).
  assert (Hrun : EntityManager.removeModifier entityId modifierId w
                 = bind (EntityManager._runCascade l)
                     (fun _ =>
                        bind (EntityManager.emit "modifierRemoved"
                                [("entityId", entityId); ("modifierId", modifierId)])
                          (fun _ => ret true)) w1).
  { unfold EntityManager.removeModifier. unfold bind at 1.
    unfold retrieved in Hr. rewrite (surjective_pairing (EntityManager.retrieve _ w)), Hr.
    cbn [snd]. replace (snd (EntityManager.retrieve entityId w)) with w by reflexivity.
    unfold bind at 1. unfold deref, gets. cbn [fst snd]. rewrite He, Hi.
    unfold bind at 1. subst w1. destruct (update l _ w). reflexivity. }
  rewrite Hrun.
  destruct (cascade_then_emit l l "modifierRemoved"
              [("entityId", entityId); ("modifierId", modifierId)] w1) as [H1 H2].
  split; [exact H1|]. rewrite H2. subst w1.
  unfold update, modify, modsAt. cbn. rewrite He. destruct w; cbn in *.
  rewrite list_lookup_insert_eq by (now apply lookup_lt_Some in He). reflexivity.
Qed.

Lemma mods_facts (e e' : Entity.t) :
  mods e' = mods e ->
  Entity.modifiers e' = Entity.modifiers e /\
  (forall k, modStateOf e' k = modStateOf e k) /\
  (forall k, stacksOf e' k = stacksOf e k).
Proof.
  unfold mods, stacksOf, modStateOf. intros H. injection H as -> ->. auto.
Qed.

Lemma modsAt_Some (l : loc) (w : World.t) (e0 : Entity.t) :
  modsAt l w = Some (mods e0) -> exists e', World.heap w !! l = Some e' /\ mods e' = mods e0.
Proof.
  unfold modsAt. destruct (World.heap w !! l) as [e'|]; cbn; [|discriminate].
  intros H. exists e'. split; [reflexivity|]. congruence.
Qed.

(* one application: a new entry with one stack, or one more stack *)
Lemma applyTo_spec now (modifierId : string) config e :
  tracked e ->
  (JS.includes modifierId (Entity.modifiers e) = false ->
   Entity.modifiers (EntityManager.applyTo now modifierId config e)
   = Entity.modifiers e ++ [modifierId] /\
   stacksOf (EntityManager.applyTo now modifierId config e) modifierId = Some (Some 1)) /\
  (JS.includes modifierId (Entity.modifiers e) = true ->
   Entity.modifiers (EntityManager.applyTo now modifierId config e) = Entity.modifiers e /\
   (JS.strIs (EntityManager.ApplyConfig.stacking config) "stack" = true ->
    forall st,
      modStateOf e modifierId = Some st ->
      stacksOf (EntityManager.applyTo now modifierId config e) modifierId
      = Some (Some (Z.min (JS.orNum (ModState.stacks st) 1 + 1)
                      (JS.orNum (EntityManager.ApplyConfig.maxStacks config) 99)))) /\
   (JS.strIs (EntityManager.ApplyConfig.stacking config) "stack" = false ->
    stacksOf (EntityManager.applyTo now modifierId config e) modifierId
    = stacksOf e modifierId)) /\
  (forall k, k <> modifierId ->
             modStateOf (EntityManager.applyTo now modifierId config e) k = modStateOf e k).
Proof.
  intros [_ Hst]. unfold EntityManager.applyTo, stacksOf, modStateOf in *. cbv zeta.
  destruct (JS.includes modifierId (Entity.modifiers e)) eqn:Hin.
  - apply includes_In in Hin. specialize (Hst _ Hin).
    destruct (JS.get modifierId (JS.nullish (Entity.modifierStates e) [])) as [st|] eqn:E;
      [|congruence].
    rewrite !modifiers_set_modifierStates, !modifierStates_set_modifierStates.
    cbn [JS.nullish]. split; [discriminate|]. split.
    + intros _. split; [reflexivity|]. rewrite get_set_eq. split.
      * intros Hs st' H. injection H as <-.
        assert (Hr : JS.strIs (EntityManager.ApplyConfig.stacking config) "refresh" = false).
        { destruct (EntityManager.ApplyConfig.stacking config) as [s|]; [|discriminate].
          cbn in Hs. apply String.eqb_eq in Hs. subst s. reflexivity. }
        rewrite Hr, Hs. reflexivity.
      * intros Hs. rewrite Hs. destruct (JS.strIs _ "refresh"); reflexivity.
    + intros k Hk. rewrite get_set_ne by congruence. reflexivity.
  - rewrite !modifiers_set_modifierStates, !modifierStates_set_modifierStates,
      !modifiers_set_modifiers.
    cbn [JS.nullish]. split; [|split; [discriminate|]].
    + intros _. split; [reflexivity|]. rewrite get_set_eq. reflexivity.
    + intros k Hk. rewrite get_set_ne by congruence. reflexivity.
Qed.

Lemma removeModifier_absent (w : World.t) (entityId modifierId : string)
    (l : loc) (e : Entity.t) :
  retrieved entityId w = Some l ->
  World.heap w !! l = Some e ->
  JS.indexOf modifierId (Entity.modifiers e) = None ->
  EntityManager.removeModifier entityId modifierId w = (false, w).
Proof.
  intros Hr He Hi. unfold EntityManager.removeModifier. unfold bind at 1.
  unfold retrieved in Hr. rewrite (surjective_pairing (EntityManager.retrieve _ w)), Hr.
  cbn [snd]. replace (snd (EntityManager.retrieve entityId w)) with w by reflexivity.
  unfold bind at 1. unfold deref, gets. cbn [fst snd]. rewrite He, Hi. reflexivity.
Qed.

Lemma includes_indexOf (x : string) (l : list string) :
  JS.includes x l = JS.isSome (JS.indexOf x l).
Proof.
  induction l as [|y l IH]; cbn; [reflexivity|].
  destruct (String.eqb x y); cbn; [reflexivity|].
  change (existsb (String.eqb x) l) with (JS.includes x l). rewrite IH.
  destruct (JS.indexOf x l); reflexivity.
Qed.

(** X17. Every active modifier is listed once and has a state. An entity
    made by [generate] carries no modifier, a new engine holds no entity,
    and [applyModifier], [removeModifier], [activateTrait],
    [deactivateTrait], [setVariable], [modifyVariable], [tick], [acquire],
    [release] and [snapshot] keep the invariant that in every entity the
    list [modifiers] has no duplicate and each listed modifier has an entry
    in [_modifierStates]. *)
Theorem modifiers_stay_tracked :
  (forall cfg host, allTracked (SpawnEngine.new cfg host)) /\
  (forall cfg overrides h, tracked (fst (SpawnManager.generate cfg overrides h))) /\
  (forall (w : World.t) (l : loc) (e : Entity.t),
      allTracked w -> World.heap w !! l = Some e ->
      List.NoDup (Entity.modifiers e) /\
      forall modId, In modId (Entity.modifiers e) -> modStateOf e modId <> None) /\
  (forall w : World.t,
      allTracked w ->
      (forall entityId modifierId config,
          allTracked (snd (EntityManager.applyModifier entityId modifierId config w))) /\
      (forall entityId modifierId,
          allTracked (snd (EntityManager.removeModifier entityId modifierId w))) /\
      (forall entityId traitId,
          allTracked (snd (EntityManager.activateTrait entityId traitId w))) /\
      (forall entityId traitId,
          allTracked (snd (EntityManager.deactivateTrait entityId traitId w))) /\
      (forall entityId varId value,
          allTracked (snd (EntityManager.setVariable entityId varId value w))) /\
      (forall entityId varId delta,
          allTracked (snd (EntityManager.modifyVariable entityId varId delta w))) /\
      (forall entityId deltaSeconds,
          allTracked (snd (EntityManager.tick entityId deltaSeconds w))) /\
      (forall p overrides targetPoolId,
          allTracked (snd (EntityManager.acquire p overrides targetPoolId w))) /\
      (forall entityOrId targetPoolId,
          allTracked (snd (EntityManager.release entityOrId targetPoolId w))) /\
      (forall entityId, allTracked (snd (EntityManager.snapshot entityId w)))).
Proof.
  split; [intros cfg host; constructor|].
  split.
  { intros cfg overrides h. apply tracked_none.
    pose proof (mods_generate cfg overrides h) as Hm. unfold mods in Hm. now injection Hm. }
  split; [intros w l e Hw He; exact (Forall_lookup_1 _ _ _ _ Hw He)|].
  intros w Hw.
  split; [intros entityId modifierId config; now apply trk_applyModifier|].
  split; [intros entityId modifierId; now apply trk_removeModifier|].
  split; [intros entityId traitId; now apply trk_activateTrait|].
  split; [intros entityId traitId; now apply trk_deactivateTrait|].
  split; [intros entityId varId value; now apply trk_changeVariable|].
  split; [intros entityId varId delta; now apply trk_changeVariable|].
  split; [intros entityId deltaSeconds; now apply trk_tick|].
  split; [intros p overrides targetPoolId; now apply trk_acquire|].
  split; [intros entityOrId targetPoolId; now apply trk_release|].
  intros entityId. now apply trk_snapshot.
Qed.

(** X18. For an entity that [retrieve] finds and whose modifiers are
    listed once, each with a state: [applyModifier] returns true; a
    modifier not yet listed is appended to the list with one stack, a
    listed one is not listed again, and with stacking 'stack' its stacks
    become min((stacks || 1) + 1, maxStacks || 99), otherwise they stay.
    [removeModifier] returns whether the modifier was listed, and leaves it
    neither listed nor, if it was listed, with a state. Neither touches the
    state of another modifier, and [removeModifier] keeps the others
    listed. The cascade that follows changes none of this. *)
Theorem applyModifier_lists_once_removeModifier_unlists
    (w : World.t) (entityId modifierId : string) (l : loc) (e : Entity.t) :
  retrieved entityId w = Some l ->
  World.heap w !! l = Some e ->
  tracked e ->
  (forall config,
      fst (EntityManager.applyModifier entityId modifierId config w) = true /\
      exists e',
        World.heap (snd (EntityManager.applyModifier entityId modifierId config w)) !! l
        = Some e' /\
        tracked e' /\
        Entity.modifiers e'
        = (if JS.includes modifierId (Entity.modifiers e) then Entity.modifiers e
           else Entity.modifiers e ++ [modifierId]) /\
        (JS.includes modifierId (Entity.modifiers e) = false ->
         stacksOf e' modifierId = Some (Some 1)) /\
        (JS.includes modifierId (Entity.modifiers e) = true ->
         forall st,
           modStateOf e modifierId = Some st ->
           stacksOf e' modifierId
           = Some (if JS.strIs (EntityManager.ApplyConfig.stacking config) "stack"
                   then Some (Z.min (JS.orNum (ModState.stacks st) 1 + 1)
                                (JS.orNum (EntityManager.ApplyConfig.maxStacks config) 99))
                   else ModState.stacks st)) /\
        (forall k, k <> modifierId -> modStateOf e' k = modStateOf e k)) /\
  (fst (EntityManager.removeModifier entityId modifierId w)
   = JS.includes modifierId (Entity.modifiers e) /\
   exists e',
     World.heap (snd (EntityManager.removeModifier entityId modifierId w)) !! l = Some e' /\
     tracked e' /\
     ~ In modifierId (Entity.modifiers e') /\
     (In modifierId (Entity.modifiers e) -> modStateOf e' modifierId = None) /\
     (forall k, k <> modifierId ->
                (In k (Entity.modifiers e') <-> In k (Entity.modifiers e)) /\
                modStateOf e' k = modStateOf e k)).
Proof.
  intros Hr He Ht. split.
  - intros config.
    destruct (applyModifier_run w entityId modifierId config l e Hr He) as [H1 H2].
    split; [exact H1|].
    destruct (modsAt_Some _ _ _ H2) as (e' & He' & Hm).
    destruct (mods_facts _ _ Hm) as (Hl & Hs & Hk).
    destruct (applyTo_spec (Host.now (World.host w)) modifierId config e Ht)
      as (Hnew & Hold & Hothers).
    exists e'. split; [exact He'|].
    split; [apply (tracked_mods _ _ Hm), tracked_applyTo, Ht|].
    rewrite Hl, Hk. split.
    { destruct (JS.includes modifierId (Entity.modifiers e)) eqn:Hin;
        [apply (Hold eq_refl)|apply (Hnew eq_refl)]. }
    split; [intros Hin; apply (Hnew Hin)|].
    split.
    { intros Hin st Hst. destruct (Hold Hin) as (_ & Hstack & Hkeep).
      destruct (JS.strIs _ "stack") eqn:Hs'.
      - apply (Hstack eq_refl st Hst).
      - rewrite (Hkeep eq_refl). unfold stacksOf. rewrite Hst. reflexivity. }
    intros k Hne. rewrite Hs. apply Hothers, Hne.
  - rewrite includes_indexOf.
    destruct (JS.indexOf modifierId (Entity.modifiers e)) as [index|] eqn:Hi.
    + destruct (removeModifier_run w entityId modifierId l e index Hr He Hi) as [H1 H2].
      split; [exact H1|].
      destruct (modsAt_Some _ _ _ H2) as (e' & He' & Hm).
      destruct (mods_facts _ _ Hm) as (Hl & Hs & _).
      destruct (removeFrom_gone modifierId index e Ht Hi) as (Ht' & Hgone & Hnone & Hothers).
      exists e'. split; [exact He'|].
      split; [apply (tracked_mods _ _ Hm), Ht'|].
      rewrite Hl. split; [exact Hgone|].
      split; [intros _; rewrite Hs; exact Hnone|].
      intros k Hk. rewrite Hs. apply Hothers, Hk.
    + rewrite (removeModifier_absent w entityId modifierId l e Hr He Hi). cbn.
      split; [reflexivity|]. exists e. split; [exact He|]. split; [exact Ht|].
      assert (Hnot : ~ In modifierId (Entity.modifiers e)).
      { intros Hin. apply indexOf_In in Hin as [i Hi']. congruence. }
      split; [exact Hnot|]. split; [intros Hin; contradiction|].
      intros k _. split; reflexivity.
Qed.

Lemma applyModifier_lists_once_removeModifier_unlists_witness :
  fst (EntityManager.applyModifier "hero" "rage" EntityManager.ApplyConfig.empty
         Scenario.wHero) = true /\
  fst (EntityManager.removeModifier "hero" "rage" Scenario.wHero) = false.
Proof.
  destruct (applyModifier_lists_once_removeModifier_unlists Scenario.wHero "hero" "rage"
              0%nat Scenario.eHero
              ltac:(vm_compute; reflexivity) ltac:(vm_compute; reflexivity)
              ltac:(apply tracked_none; vm_compute; reflexivity)) as [Happ [Hrem _]].
  split; [apply (Happ EntityManager.ApplyConfig.empty)|].
  rewrite Hrem. vm_compute. reflexivity.
Defined.


(** ** Pools: the pool the rules choose *)

Section SortHead.
Context {A : Type} (cmp : A -> A -> Z).
Hypothesis cmp_anti : forall a b, cmp b a = - cmp a b.
Hypothesis cmp_trans : forall a b c, cmp a b < 0 -> cmp b c <= 0 -> cmp a c < 0.

(* the head of the sorted array: strictly before what came before it, and
   not after what came after it *)
Lemma head_sort_first_best (l : list A) :
  match head (JS.sort cmp l) with
  | None => l = []
  | Some x =>
      exists before after,
        l = before ++ x :: after /\
        (forall y, In y before -> cmp x y < 0) /\
        (forall y, In y after -> cmp x y <= 0)
  end.
Proof.
  unfold JS.sort. induction l as [|z l IH] using rev_ind; [reflexivity|].
  rewrite fold_left_app. cbn [fold_left].
  destruct (fold_left (fun acc x => JS.insertBy cmp x acc) l []) as [|h t]; cbn in *.
  - subst l. exists [], []. split; [reflexivity|]. split; intros y [].
  - destruct IH as (before & after & -> & Hb & Ha).
    destruct (Z.ltb (cmp z h) 0) eqn:E; cbn.
    + apply Z.ltb_lt in E. exists (before ++ h :: after), [].
      split; [reflexivity|]. split; [|intros y []].
      intros y Hy. apply (cmp_trans z h y E).
      apply in_app_or in Hy as [Hy|[<-|Hy]].
      * specialize (Hb y Hy). lia.
      * rewrite (cmp_anti h h) in *. pose proof (cmp_anti h h). lia.
      * apply Ha, Hy.
    + apply Z.ltb_ge in E. exists before, (after ++ [z]).
      split; [rewrite <- app_assoc; reflexivity|]. split; [exact Hb|].
      intros y Hy. apply in_app_or in Hy as [Hy|[<-|[]]]; [apply Ha, Hy|].
      rewrite cmp_anti. lia.
Qed.
End SortHead.

Lemma flat_map_split {X Y : Type} (g : X -> option Y) (l : list X) (mb ma : list Y) (m : Y) :
  flat_map (fun x => match g x with Some y => [y] | None => [] end) l = mb ++ m :: ma ->
  exists lb x la,
    l = lb ++ x :: la /\ g x = Some m /\
    flat_map (fun x => match g x with Some y => [y] | None => [] end) lb = mb /\
    flat_map (fun x => match g x with Some y => [y] | None => [] end) la = ma.
Proof.
  revert mb. induction l as [|x l IH]; intros mb H; cbn in H.
  - destruct mb; discriminate.
  - destruct (g x) as [y|] eqn:E; cbn in H.
    + destruct mb as [|y' mb]; cbn in H.
      * injection H as -> Hl. exists [], x, l. auto.
      * injection H as -> Hl. destruct (IH mb Hl) as (lb & x' & la & -> & Hx & Hb & Ha).
        exists (x :: lb), x', la. cbn. rewrite E, Hb. auto.
    + destruct (IH mb H) as (lb & x' & la & -> & Hx & Hb & Ha).
      exists (x :: lb), x', la. cbn. rewrite E, Hb. auto.
Qed.

(* the match that [getPoolForEntity] records for a pool *)
Lemma getPoolForEntity_matches (pools : JS.Obj Pool.t) (entity : Entity.t) :
  assigned pools entity = false ->
  EntityManager.getPoolForEntity pools entity
  = match JS.sort
            (fun a b =>
               if negb (Z.eqb (EntityManager.Match.priority a) (EntityManager.Match.priority b))
               then EntityManager.Match.priority b - EntityManager.Match.priority a
               else EntityManager.Match.score b - EntityManager.Match.score a)
            (flat_map
               (fun kv =>
                  match option_map
                          (fun r => EntityManager.Match.mk (fst kv) (snd r) (fst r))
                          (rankOf entity kv) with
                  | Some m => [m]
                  | None => []
                  end) pools)
    with
    | m :: _ => EntityManager.Match.poolId m
    | [] => EntityManager.defaultPoolId
    end.
Proof.
  unfold assigned, EntityManager.getPoolForEntity. intros ->. cbv zeta.
  erewrite flat_map_ext; [reflexivity|]. intros kv. unfold rankOf.
  destruct (String.eqb (fst kv) EntityManager.defaultPoolId); [reflexivity|].
  destruct (Pool.rules (snd kv)) as [rules|]; [|reflexivity].
  destruct (PoolRules.conditions rules); [|reflexivity].
  destruct (Z.gtb _ 0); reflexivity.
Qed.

(** X19. [getPoolForEntity] returns the pool the entity is assigned to
    when [entity.poolId] names an existing pool. Otherwise the pools are
    ranked by their rules (a pool counts when it is not the default pool,
    has conditions and scores above 0; its rank is its priority || 0, then
    its score): with no such pool the default pool is returned, and else a
    pool of the highest rank, the first of them in the order of the map:
    it outranks every ranked pool before it and no pool after it outranks
    it. *)
Theorem getPoolForEntity_first_of_highest_rank (pools : JS.Obj Pool.t) (entity : Entity.t) :
  (assigned pools entity = true ->
   EntityManager.getPoolForEntity pools entity = SpawnManager.keyOf (Entity.poolId entity)) /\
  (assigned pools entity = false ->
   (EntityManager.getPoolForEntity pools entity = EntityManager.defaultPoolId /\
    forall kv, In kv pools -> rankOf entity kv = None) \/
   exists before poolId pool after rank,
     pools = before ++ (poolId, pool) :: after /\
     EntityManager.getPoolForEntity pools entity = poolId /\
     rankOf entity (poolId, pool) = Some rank /\
     (forall kv r, In kv before -> rankOf entity kv = Some r -> outranks rank r) /\
     (forall kv r, In kv after -> rankOf entity kv = Some r -> ~ outranks r rank)).
Proof.
  split.
  { unfold assigned, EntityManager.getPoolForEntity. intros ->. reflexivity. }
  intros Hna. rewrite (getPoolForEntity_matches pools entity Hna).
  set (cmp := fun a b : EntityManager.Match.t =>
                if negb (Z.eqb (EntityManager.Match.priority a)
                           (EntityManager.Match.priority b))
                then EntityManager.Match.priority b - EntityManager.Match.priority a
                else EntityManager.Match.score b - EntityManager.Match.score a).
  set (g := fun kv : string * Pool.t =>
              option_map (fun r => EntityManager.Match.mk (fst kv) (snd r) (fst r))
                (rankOf entity kv)).
  assert (Hanti : forall a b, cmp b a = - cmp a b).
  { intros a b. unfold cmp.
    destruct (Z.eqb_spec (EntityManager.Match.priority a) (EntityManager.Match.priority b));
      destruct (Z.eqb_spec (EntityManager.Match.priority b) (EntityManager.Match.priority a));
      cbn; lia. }
  assert (Htrans : forall a b c, cmp a b < 0 -> cmp b c <= 0 -> cmp a c < 0).
  { intros a b c. unfold cmp.
    destruct (Z.eqb_spec (EntityManager.Match.priority a) (EntityManager.Match.priority b));
      destruct (Z.eqb_spec (EntityManager.Match.priority b) (EntityManager.Match.priority c));
      destruct (Z.eqb_spec (EntityManager.Match.priority a) (EntityManager.Match.priority c));
      cbn; lia. }
  pose proof (head_sort_first_best cmp Hanti Htrans
                (flat_map (fun kv => match g kv with Some m => [m] | None => [] end) pools))
    as Hhead.
  destruct (JS.sort cmp _) as [|m sorted]; cbn [head] in Hhead.
  - left. split; [reflexivity|]. intros kv Hkv.
    destruct (rankOf entity kv) as [r|] eqn:E; [|reflexivity]. exfalso.
    assert (Hin : In (EntityManager.Match.mk (fst kv) (snd r) (fst r))
                    (flat_map (fun kv => match g kv with Some m => [m] | None => [] end)
                       pools)).
    { apply in_flat_map. exists kv. split; [exact Hkv|]. unfold g. rewrite E. now left. }
    rewrite Hhead in Hin. exact Hin.
  - right. destruct Hhead as (mb & ma & Hsplit & Hb & Ha).
    destruct (flat_map_split g pools mb ma m Hsplit) as (lb & [q pool] & la & -> & Hq & <- & <-).
    unfold g in Hq. destruct (rankOf entity (q, pool)) as [rank|] eqn:Hrank; [|discriminate].
    cbn in Hq. injection Hq as <-.
    exists lb, q, pool, la, rank. split; [reflexivity|]. split; [reflexivity|].
    split; [exact Hrank|]. split.
    + intros kv r Hkv Hr.
      assert (Hin : In (EntityManager.Match.mk (fst kv) (snd r) (fst r))
                      (flat_map (fun kv => match g kv with Some m => [m] | None => [] end)
                         lb)).
      { apply in_flat_map. exists kv. split; [exact Hkv|]. unfold g. rewrite Hr. now left. }
      specialize (Hb _ Hin). unfold cmp, outranks in *. cbn in Hb.
      destruct (Z.eqb_spec (fst rank) (fst r)); cbn in Hb; lia.
    + intros kv r Hkv Hr.
      assert (Hin : In (EntityManager.Match.mk (fst kv) (snd r) (fst r))
                      (flat_map (fun kv => match g kv with Some m => [m] | None => [] end)
                         la)).
      { apply in_flat_map. exists kv. split; [exact Hkv|]. unfold g. rewrite Hr. now left. }
      specialize (Ha _ Hin). unfold cmp, outranks in *. cbn in Ha.
      destruct (Z.eqb_spec (fst rank) (fst r)); cbn in Ha; lia.
Qed.


(** ** The exclusive groups of the indexes are mutual *)

Lemma In_setAdd (x b : string) (s : list string) :
  In b (SpawnManager.setAdd x s) <-> b = x \/ In b s.
Proof.
  unfold SpawnManager.setAdd. destruct (JS.includes x s) eqn:E.
  - apply includes_In in E. split; [auto|]. intros [->|H]; assumption.
  - rewrite in_app_iff. cbn. intuition.
Qed.

Lemma partnersOf_set (k : string) (v : list string) (groups : JS.Obj (list string))
    (a : string) :
  partnersOf (JS.set k v groups) a = if String.eqb k a then v else partnersOf groups a.
Proof. unfold partnersOf. rewrite get_set. destruct (String.eqb k a); reflexivity. Qed.

Lemma partnersOf_ensureKey (k : string) (groups : JS.Obj (list string)) (a : string) :
  partnersOf (SpawnManager.ensureKey k groups) a = partnersOf groups a.
Proof.
  unfold SpawnManager.ensureKey, JS.has.
  destruct (JS.get k groups) eqn:E; [reflexivity|].
  rewrite partnersOf_set. destruct (String.eqb k a) eqn:Ek; [|reflexivity].
  apply String.eqb_eq in Ek. subst a. unfold partnersOf. rewrite E. reflexivity.
Qed.

Lemma addPartner_partners (modId partnerId : string) (groups : JS.Obj (list string))
    (a b : string) :
  In b (partnersOf (SpawnManager.addPartner modId groups partnerId) a) <->
  In b (partnersOf groups a) \/ (a = modId /\ b = partnerId) \/ (a = partnerId /\ b = modId).
Proof.
  unfold SpawnManager.addPartner. cbv zeta. rewrite partnersOf_set.
  fold (partnersOf groups modId).
  fold (partnersOf (SpawnManager.ensureKey partnerId
                      (JS.set modId
                         (SpawnManager.setAdd partnerId (partnersOf groups modId)) groups))
          partnerId).
  rewrite !partnersOf_ensureKey, !partnersOf_set.
  destruct (String.eqb_spec partnerId a) as [->|Hpa];
    destruct (String.eqb_spec modId a) as [Hma|Hma]; subst;
    rewrite ?In_setAdd; intuition congruence.
Qed.

Lemma addPartners_partners (modId : string) (exclusive : list string) :
  forall (groups : JS.Obj (list string)) (a b : string),
    In b (partnersOf (fold_left (SpawnManager.addPartner modId) exclusive groups) a) <->
    In b (partnersOf groups a)
    \/ (a = modId /\ In b exclusive) \/ (b = modId /\ In a exclusive).
Proof.
  induction exclusive as [|p exclusive IH]; intros groups a b; cbn.
  - intuition.
  - rewrite IH, addPartner_partners. intuition (subst; auto).
Qed.

Lemma exclusiveStep_partners (m : Node.t) (groups : JS.Obj (list string)) (a b : string) :
  In b (partnersOf
          match ModifierCfg.exclusiveWith (SpawnManager.modifierCfg m) with
          | [] => groups
          | exclusive =>
              fold_left (SpawnManager.addPartner (Node.id m)) exclusive
                (SpawnManager.ensureKey (Node.id m) groups)
          end a)
  <-> In b (partnersOf groups a)
      \/ (a = Node.id m /\ In b (ModifierCfg.exclusiveWith (SpawnManager.modifierCfg m)))
      \/ (b = Node.id m /\ In a (ModifierCfg.exclusiveWith (SpawnManager.modifierCfg m))).
Proof.
  destruct (ModifierCfg.exclusiveWith (SpawnManager.modifierCfg m)) as [|p ex] eqn:E.
  - cbn. intuition.
  - rewrite addPartners_partners, partnersOf_ensureKey. reflexivity.
Qed.

Lemma exclusiveGroups_partners (modifiers : list Node.t) :
  forall (groups : JS.Obj (list string)) (a b : string),
    In b (partnersOf
            (fold_left
               (fun groups mod_ =>
                  match ModifierCfg.exclusiveWith (SpawnManager.modifierCfg mod_) with
                  | [] => groups
                  | exclusive =>
                      fold_left (SpawnManager.addPartner (Node.id mod_)) exclusive
                        (SpawnManager.ensureKey (Node.id mod_) groups)
                  end) modifiers groups) a) <->
    In b (partnersOf groups a)
    \/ exists mod_,
         In mod_ modifiers /\
         ((Node.id mod_ = a /\
           In b (ModifierCfg.exclusiveWith (SpawnManager.modifierCfg mod_)))
          \/ (Node.id mod_ = b /\
              In a (ModifierCfg.exclusiveWith (SpawnManager.modifierCfg mod_)))).
Proof.
  induction modifiers as [|m modifiers IH]; intros groups a b; cbn [fold_left].
  - split; [auto|]. intros [H|(m & [] & _)]. exact H.
  - rewrite IH, exclusiveStep_partners. split.
    + intros [[H|[[-> H]|[-> H]]]|(m' & Hin & H)].
      * left. exact H.
      * right. exists m. split; [now left|]. left. split; [reflexivity|exact H].
      * right. exists m. split; [now left|]. right. split; [reflexivity|exact H].
      * right. exists m'. split; [right; exact Hin|exact H].
    + intros [H|(m' & [<-|Hin] & H)].
      * left. left. exact H.
      * left. right. destruct H as [[<- H]|[<- H]]; [left|right]; split; auto.
      * right. exists m'. split; [exact Hin|exact H].
Qed.

(** X20. The exclusive groups that [buildIndexes] computes are mutual:
    modifier b is a partner of a exactly when a threshold modifier with id
    a lists b in its [exclusiveWith] or one with id b lists a; so b is a
    partner of a exactly when a is a partner of b. *)
Theorem exclusive_groups_are_mutual (cfg : Config.t) (a b : string) :
  (In b (partnersOf (SpawnManager._exclusiveGroups cfg) a) <->
   exists mod_,
     In mod_ (SpawnManager._thresholdModifiers cfg) /\
     ((Node.id mod_ = a /\ In b (ModifierCfg.exclusiveWith (SpawnManager.modifierCfg mod_)))
      \/ (Node.id mod_ = b /\
          In a (ModifierCfg.exclusiveWith (SpawnManager.modifierCfg mod_))))) /\
  (In b (partnersOf (SpawnManager._exclusiveGroups cfg) a) <->
   In a (partnersOf (SpawnManager._exclusiveGroups cfg) b)).
Proof.
  assert (H : forall a b,
             In b (partnersOf (SpawnManager._exclusiveGroups cfg) a) <->
             exists mod_,
               In mod_ (SpawnManager._thresholdModifiers cfg) /\
               ((Node.id mod_ = a /\
                 In b (ModifierCfg.exclusiveWith (SpawnManager.modifierCfg mod_)))
                \/ (Node.id mod_ = b /\
                    In a (ModifierCfg.exclusiveWith (SpawnManager.modifierCfg mod_))))).
  { intros a' b'. unfold SpawnManager._exclusiveGroups.
    rewrite exclusiveGroups_partners. split; [|auto]. intros [[]|H]. exact H. }
  split; [apply H|]. rewrite !H.
  split; intros (m & Hin & [Hm|Hm]); exists m; auto.
Qed.


(** ** Tick: how the timed variables move *)

Section ObsAt.
Context {B : Type} (proj : Entity.t -> B) (l : loc).

#[local] Instance obsAt_HostFree : HostFree (obsAt proj l).
Proof. intros [] ?. reflexivity. Qed.
#[local] Instance obsAt_EventFree : EventFree (obsAt proj l).
Proof. intros [] ?. reflexivity. Qed.
#[local] Instance obsAt_IndexFree : IndexFree (obsAt proj l).
Proof. intros []. repeat split. Qed.
#[local] Instance obsAt_FlagFree : FlagFree (obsAt proj l).
Proof. intros []. repeat split. Qed.

Lemma obsAt_insert (heap : list Entity.t) (l' : loc) (e e' : Entity.t) :
  heap !! l' = Some e -> proj e' = proj e ->
  option_map proj (<[l' := e']> heap !! l) = option_map proj (heap !! l).
Proof.
  intros He Hp. destruct (decide (l = l')) as [->|Hne].
  - rewrite list_lookup_insert_eq by (now apply lookup_lt_Some in He).
    rewrite He. cbn. f_equal. exact Hp.
  - rewrite list_lookup_insert_ne by congruence. reflexivity.
Qed.

Lemma obsAt_update (l' : loc) (g : Entity.t -> Entity.t) :
  (forall e, proj (g e) = proj e) -> keeps (obsAt proj l) (update l' g).
Proof.
  intros Hg w. unfold update, modify, obsAt. cbn.
  destruct (World.heap w !! l') as [e|] eqn:E; [|reflexivity].
  destruct w; cbn in *. apply (obsAt_insert _ _ e); [exact E|apply Hg].
Qed.

Lemma obsAt_onEntity {A : Type} (l' : loc) (d : A) (g : Entity.t -> H (A * Entity.t)) :
  (forall e, hresult (g e) (fun r => proj (snd r) = proj e)) ->
  keeps (obsAt proj l) (onEntity l' d g).
Proof.
  intros Hg w. unfold onEntity, bind, deref, gets, liftH, ret. cbn.
  destruct (World.heap w !! l') as [e|] eqn:E; [|reflexivity].
  specialize (Hg e (World.host w)). destruct (g e (World.host w)) as [r h]. cbn in *.
  unfold update, modify, obsAt. cbn.
  replace (World.heap (World.set_host h w)) with (World.heap w) by (destruct w; reflexivity).
  rewrite E. destruct w; cbn in *. apply (obsAt_insert _ _ e); [exact E|exact Hg].
Qed.
End ObsAt.

Section Values.
Variable l : loc.
Let f : World.t -> option (JS.Obj (Z * Z * Z)) := obsAt ranges l.

#[local] Existing Instance obsAt_HostFree.
#[local] Existing Instance obsAt_EventFree.
#[local] Existing Instance obsAt_IndexFree.
#[local] Existing Instance obsAt_FlagFree.

Lemma values_update_vars (l' : loc) (g : Entity.t -> Entity.t) :
  (forall e, Entity.variables (g e) = Entity.variables e) -> keeps f (update l' g).
Proof. intros Hg. apply obsAt_update. intros e. apply ranges_vars, Hg. Qed.

Lemma values_cascadeTriple cfg (entity : loc) :
  keeps f (EntityManager.cascadeTriple cfg entity).
Proof.
  unfold EntityManager.cascadeTriple. apply obsAt_onEntity. intros e.
  eapply hresult_bind_with; [apply hresult_spied|]. intros e1 ->.
  eapply hresult_bind_with; [apply hresult_spied|]. intros e2 ->.
  eapply hresult_bind_with; [apply hresult_spied|]. intros e3 ->.
  apply hresult_ret. cbn [snd].
  rewrite (ranges_vars _ _ (vars_calculateDerived _ _)),
    (ranges_vars _ _ (vars_checkCompounds _ _)).
  apply ranges_recalculateRates.
Qed.

Create HintDb values.
Hint Resolve keeps_ret keeps_gets keeps_deref keeps_liftH keeps_emit values_cascadeTriple
  : values.

Ltac values_step :=
  match goal with
  | |- keeps _ (bind _ _) => apply keeps_bind; [|intros ?]
  | |- keeps _ (forEach _ _) => apply keeps_forEach; intros ?
  | |- keeps _ (modify _) => apply keeps_modify; keeps_field
  | |- keeps _ (match ?x with _ => _ end) => destruct x
  | |- keeps _ _ => solve [eauto with values typeclass_instances]
  end.

Ltac values_tac := repeat values_step.

Lemma values_runCascade (entity : loc) : keeps f (EntityManager._runCascade entity).
Proof. unfold EntityManager._runCascade. values_tac. Qed.
Hint Resolve values_runCascade : values.

Lemma values_applyModifier entityId modifierId config :
  keeps f (EntityManager.applyModifier entityId modifierId config).
Proof.
  unfold EntityManager.applyModifier, EntityManager.retrieve. values_tac.
  apply values_update_vars. intros e. apply vars_applyTo.
Qed.
Hint Resolve values_applyModifier : values.

Lemma values_removeModifier entityId modifierId :
  keeps f (EntityManager.removeModifier entityId modifierId).
Proof.
  unfold EntityManager.removeModifier, EntityManager.retrieve. values_tac.
  apply values_update_vars. intros e. apply vars_removeFrom.
Qed.
Hint Resolve values_removeModifier : values.

Lemma values_checkModifierThresholds (entity : loc) :
  keeps f (EntityManager.checkModifierThresholds entity).
Proof.
  unfold EntityManager.checkModifierThresholds, EntityManager.checkModifier. values_tac.
Qed.

Lemma values_calculateDerived (entity : loc) :
  keeps f (EntityManager.calculateDerived entity).
Proof.
  unfold EntityManager.calculateDerived. values_tac. apply obsAt_onEntity. intros e.
  eapply hresult_bind_with; [apply hresult_spied|]. intros e1 ->. apply hresult_ret.
  apply ranges_vars, vars_calculateDerived.
Qed.

(* what follows the loop over the variables leaves their values *)
Lemma values_tick_rest (entity : loc) (e : Entity.t) (now deltaSeconds : Z) :
  keeps f
    (bind (onEntity entity [] (fun e => hret (EntityManager.expireModifiers now e)))
       (fun expired =>
          bind (forEach expired
                  (fun modId =>
                     bind (EntityManager.removeModifier (Entity.id e) modId)
                       (fun _ => ret tt)))
            (fun _ =>
               bind (EntityManager.checkModifierThresholds entity)
                 (fun _ =>
                    bind (update entity (EntityManager.tickCooldowns deltaSeconds))
                      (fun _ =>
                         bind (EntityManager.calculateDerived entity)
                           (fun _ =>
                              bind (EntityManager.emit "tick"
                                      [("entityId", Entity.id e);
                                       ("deltaSeconds", JS.showZ deltaSeconds)])
                                (fun _ => ret (Some entity)))))))).
Proof.
  apply keeps_bind.
  { apply obsAt_onEntity. intros e'. apply hresult_ret.
    apply ranges_vars, vars_expireModifiers. }
  intros expired. apply keeps_bind; [values_tac|]. intros ?.
  apply keeps_bind; [apply values_checkModifierThresholds|]. intros ?.
  apply keeps_bind; [apply values_update_vars; intros e'; apply vars_tickCooldowns|].
  intros ?. apply keeps_bind; [apply values_calculateDerived|]. intros ?. values_tac.
Qed.
End Values.

Lemma set_value_same (vs : VarState.t) : VarState.set_value (VarState.value vs) vs = vs.
Proof. destruct vs; reflexivity. Qed.

Lemma set_variables_same (e : Entity.t) : Entity.set_variables (Entity.variables e) e = e.
Proof. destruct e; reflexivity. Qed.

Lemma writeValue_same (varId : string) (vs : VarState.t) (e : Entity.t) :
  JS.get varId (Entity.variables e) = Some vs ->
  EntityManager.writeValue varId (VarState.value vs) e = e.
Proof.
  intros H. unfold EntityManager.writeValue. rewrite H, set_value_same, set_same by exact H.
  apply set_variables_same.
Qed.

Lemma get_writeValue (varId k : string) (v : Z) (e : Entity.t) :
  JS.get k (Entity.variables (EntityManager.writeValue varId v e))
  = if String.eqb varId k
    then option_map (VarState.set_value v) (JS.get varId (Entity.variables e))
    else JS.get k (Entity.variables e).
Proof.
  unfold EntityManager.writeValue.
  destruct (JS.get varId (Entity.variables e)) as [vs|] eqn:E.
  - rewrite variables_set_variables, get_set. reflexivity.
  - destruct (String.eqb varId k) eqn:Ek; [|reflexivity].
    apply String.eqb_eq in Ek. subst k. rewrite E. reflexivity.
Qed.

Lemma keys_writeValue (varId : string) (v : Z) (e : Entity.t) :
  JS.keys (Entity.variables (EntityManager.writeValue varId v e))
  = JS.keys (Entity.variables e).
Proof.
  unfold EntityManager.writeValue.
  destruct (JS.get varId (Entity.variables e)) as [vs|] eqn:E; [|reflexivity].
  rewrite variables_set_variables, keys_set. unfold JS.has. rewrite E. reflexivity.
Qed.

(* after the loop each variable has moved once, from the state it had *)
Lemma tickVars_get (deltaSeconds : Z) (keys : list string) (k : string) :
  List.NoDup keys ->
  forall e vs,
    JS.get k (Entity.variables e) = Some vs ->
    JS.get k (Entity.variables (fold_left (tickVar deltaSeconds) keys e))
    = Some (if JS.includes k keys then VarState.set_value (ticked deltaSeconds vs) vs else vs).
Proof.
  induction 1 as [|k0 keys Hk0 Hnd IH]; intros e vs He; cbn [fold_left]; [exact He|].
  cbn [JS.includes existsb]. fold (JS.includes k keys).
  destruct (String.eqb_spec k k0) as [->|Hne]; cbn [orb].
  - rewrite (IH (tickVar deltaSeconds e k0) (VarState.set_value (ticked deltaSeconds vs) vs)).
    + destruct (JS.includes k0 keys) eqn:Hin; [|reflexivity].
      apply includes_In in Hin. contradiction.
    + unfold tickVar. rewrite He, get_writeValue, String.eqb_refl, He. reflexivity.
  - apply IH. unfold tickVar.
    destruct (JS.get k0 (Entity.variables e)) as [vs0|]; [|exact He].
    rewrite get_writeValue.
    replace (String.eqb k0 k) with false by (symmetry; apply String.eqb_neq; congruence).
    exact He.
Qed.

Lemma keys_tickVars (deltaSeconds : Z) (keys : list string) :
  forall e,
    JS.keys (Entity.variables (fold_left (tickVar deltaSeconds) keys e))
    = JS.keys (Entity.variables e).
Proof.
  induction keys as [|k keys IH]; intros e; cbn [fold_left]; [reflexivity|].
  rewrite IH. unfold tickVar.
  destruct (JS.get k (Entity.variables e)); [apply keys_writeValue|reflexivity].
Qed.

(* without threshold traits on the variable, [checkThresholds] does nothing *)
Lemma checkThresholds_idle (entity : loc) (varId : string) (w : World.t) :
  (forall cfg, World.spawnManager w = Some cfg ->
               SpawnManager._thresholdTraitsByVar cfg varId = []) ->
  EntityManager.checkThresholds entity varId w = (tt, w).
Proof.
  intros H. unfold EntityManager.checkThresholds, bind, gets. cbn [fst snd].
  destruct (World.spawnManager w) as [cfg|]; [|reflexivity].
  rewrite (H cfg eq_refl). reflexivity.
Qed.

Lemma tickVariable_world (l : loc) (deltaSeconds : Z) (varId : string) (w : World.t)
    (e : Entity.t) :
  World.heap w !! l = Some e ->
  (forall cfg, World.spawnManager w = Some cfg ->
               SpawnManager._thresholdTraitsByVar cfg varId = []) ->
  exists events,
    snd (EntityManager.tickVariable l deltaSeconds varId w)
    = World.set_events events
        (World.set_heap (<[l := tickVar deltaSeconds e varId]> (World.heap w)) w).
Proof.
  intros He Hsm.
  assert (Hid : w = World.set_events (World.events w)
                      (World.set_heap (<[l := e]> (World.heap w)) w)).
  { rewrite list_insert_id by exact He. destruct w; reflexivity. }
  unfold EntityManager.tickVariable, tickVar, ticked, bind, deref, gets.
  cbn [fst snd]. rewrite He.
  destruct (JS.get varId (Entity.variables e)) as [vs|] eqn:Hv;
    [|exists (World.events w); exact Hid].
  destruct (String.eqb _ "timed" && negb _).
  2:{ exists (World.events w). rewrite (writeValue_same varId vs e Hv). exact Hid. }
  cbv zeta. set (v := JS.clamp _ _ _).
  unfold update, modify. cbn [fst snd]. rewrite He.
  set (w1 := World.set_heap _ w).
  destruct (negb (Z.eqb v (VarState.value vs))).
  - rewrite checkThresholds_idle by (subst w1; destruct w; exact Hsm).
    unfold EntityManager.emit, modify. cbn [fst snd]. eexists. reflexivity.
  - exists (World.events w). subst w1. destruct w; reflexivity.
Qed.

Lemma tickVariable_run (l : loc) (deltaSeconds : Z) (varId : string) (w : World.t)
    (e : Entity.t) :
  World.heap w !! l = Some e ->
  (forall cfg, World.spawnManager w = Some cfg ->
               SpawnManager._thresholdTraitsByVar cfg varId = []) ->
  World.heap (snd (EntityManager.tickVariable l deltaSeconds varId w)) !! l
  = Some (tickVar deltaSeconds e varId) /\
  World.spawnManager (snd (EntityManager.tickVariable l deltaSeconds varId w))
  = World.spawnManager w.
Proof.
  intros He Hsm. destruct (tickVariable_world l deltaSeconds varId w e He Hsm) as [evs ->].
  destruct w; cbn in *. split; [|reflexivity].
  apply list_lookup_insert_eq. now apply lookup_lt_Some in He.
Qed.

Lemma tickVariables_run (l : loc) (deltaSeconds : Z) (keys : list string) :
  forall (w : World.t) (e : Entity.t),
    World.heap w !! l = Some e ->
    (forall cfg varId, World.spawnManager w = Some cfg -> In varId keys ->
                       SpawnManager._thresholdTraitsByVar cfg varId = []) ->
    World.heap (snd (forEach keys (EntityManager.tickVariable l deltaSeconds) w)) !! l
    = Some (fold_left (tickVar deltaSeconds) keys e).
Proof.
  induction keys as [|k keys IH]; intros w e He Hsm; cbn [forEach fold_left]; [exact He|].
  unfold bind.
  destruct (tickVariable_run l deltaSeconds k w e He) as [H1 H2].
  { intros cfg Hcfg. apply (Hsm cfg k Hcfg). now left. }
  destruct (EntityManager.tickVariable l deltaSeconds k w) as [u w1]. cbn [snd] in *.
  apply IH; [exact H1|]. intros cfg varId Hcfg Hin. rewrite H2 in Hcfg.
  apply (Hsm cfg varId Hcfg). now right.
Qed.

Lemma fst_bind {A B : Type} (m : M A) (k : A -> M B) (c : B) (w : World.t) :
  (forall a w', fst (k a w') = c) -> fst (bind m k w) = c.
Proof. intros H. unfold bind. destruct (m w) as [a w']. apply H. Qed.

(** X21. A tick of a whole number of seconds on an active entity moves
    each timed variable (changeMode 'timed', direction not 'none') by its
    current rate times the seconds, kept within [min, max], and leaves the
    value of every other variable; the bounds stay. This holds when no
    trait is switched by a threshold on one of the entity's variables (a
    trait switched during the loop changes the rates of the variables that
    follow); what the tick does afterwards, expiring modifiers, checking
    threshold modifiers, cooldowns and derived values, changes rates but no
    value. *)
Theorem tick_moves_timed_variables (w : World.t) (entityId : string) (l : loc)
    (e : Entity.t) (deltaSeconds : Z) :
  JS.get entityId (World.active w) = Some l ->
  World.heap w !! l = Some e ->
  List.NoDup (JS.keys (Entity.variables e)) ->
  noThresholdTraits w e ->
  fst (EntityManager.tick entityId (Some deltaSeconds) w) = Some l /\
  exists e',
    World.heap (snd (EntityManager.tick entityId (Some deltaSeconds) w)) !! l = Some e' /\
    JS.keys (Entity.variables e') = JS.keys (Entity.variables e) /\
    forall varId vs,
      JS.get varId (Entity.variables e) = Some vs ->
      exists vs',
        JS.get varId (Entity.variables e') = Some vs' /\
        VarState.value vs' = ticked deltaSeconds vs /\
        VarState.min vs' = VarState.min vs /\
        VarState.max vs' = VarState.max vs.
Proof.
  intros Ha He Hnd Hfree.
  set (now := Host.now (World.host w)).
  set (w1 := World.set_heap (<[l := Entity.set_lastTick now e]> (World.heap w)) w).
  set (w2 := snd (forEach (JS.keys (Entity.variables e))
                    (EntityManager.tickVariable l deltaSeconds) w1)).
  set (rest :=
         bind (onEntity l [] (fun e => hret (EntityManager.expireModifiers now e)))
           (fun expired =>
              bind (forEach expired
                      (fun modId =>
                         bind (EntityManager.removeModifier (Entity.id e) modId)
                           (fun _ => ret tt)))
                (fun _ =>
                   bind (EntityManager.checkModifierThresholds l)
                     (fun _ =>
                        bind (update l (EntityManager.tickCooldowns deltaSeconds))
                          (fun _ =>
                             bind (EntityManager.calculateDerived l)
                               (fun _ =>
                                  bind (EntityManager.emit "tick"
                                          [("entityId", Entity.id e);
                                           ("deltaSeconds", JS.showZ deltaSeconds)])
                                    (fun _ => ret (Some l)))))))).
  assert (Hrun : EntityManager.tick entityId (Some deltaSeconds) w = rest w2).
  { unfold EntityManager.tick. unfold bind at 1. unfold gets at 1. cbn [fst snd].
    rewrite Ha. unfold bind at 1. unfold deref, gets. cbn [fst snd]. rewrite He.
    unfold bind at 1. unfold liftH, Date_now. cbn [fst snd].
    replace (World.set_host (World.host w) w) with w by (destruct w; reflexivity).
    unfold bind at 1. unfold update at 1. unfold modify. cbn [fst snd]. rewrite He.
    fold now. fold w1. unfold bind at 1. subst w2.
    destruct (forEach _ _ w1) as [u w2']. reflexivity. }
  rewrite Hrun.
  assert (H1 : World.heap w1 !! l = Some (Entity.set_lastTick now e)).
  { subst w1. destruct w; cbn in *.
    apply list_lookup_insert_eq. now apply lookup_lt_Some in He. }
  assert (H2 : World.heap w2 !! l
               = Some (fold_left (tickVar deltaSeconds) (JS.keys (Entity.variables e))
                         (Entity.set_lastTick now e))).
  { subst w2. apply tickVariables_run; [exact H1|].
    intros cfg varId Hcfg Hin. apply (Hfree cfg varId); [|exact Hin].
    subst w1. destruct w; exact Hcfg. }
  split.
  { subst rest. repeat (apply fst_bind; intros ? ?). reflexivity. }
  pose proof (values_tick_rest l l e now deltaSeconds w2) as Hkeep.
  fold rest in Hkeep. unfold obsAt in Hkeep. rewrite H2 in Hkeep. cbn in Hkeep.
  destruct (World.heap (snd (rest w2)) !! l) as [e'|]; [|discriminate].
  exists e'. split; [reflexivity|]. cbn in Hkeep. injection Hkeep as Hr.
  split.
  { rewrite <- keys_ranges, Hr, keys_ranges, keys_tickVars. destruct e; reflexivity. }
  intros varId vs Hv.
  pose proof (get_ranges varId e') as Hg. rewrite Hr, get_ranges in Hg.
  rewrite (tickVars_get deltaSeconds _ varId Hnd _ vs) in Hg
    by (rewrite variables_set_lastTick; exact Hv).
  replace (JS.includes varId (JS.keys (Entity.variables e))) with true in Hg.
  2:{ symmetry. apply includes_In. unfold JS.keys.
      clear -Hv. induction (Entity.variables e) as [|[k0 v0] o IH]; cbn in *; [discriminate|].
      destruct (String.eqb_spec varId k0); [left; congruence|right; apply IH, Hv]. }
  destruct (JS.get varId (Entity.variables e')) as [vs'|]; [|discriminate].
  exists vs'. split; [reflexivity|]. cbn in Hg. unfold range in Hg.
  destruct vs; cbn in *. injection Hg as -> -> ->. auto.
Qed.

Lemma tick_moves_timed_variables_witness :
  exists e' vs',
    World.heap (snd (EntityManager.tick "pet" (Some 2) Scenario.wHungry)) !! 0%nat = Some e' /\
    JS.get "hunger" (Entity.variables e') = Some vs' /\
    VarState.value vs' = 100.
Proof.
  destruct (tick_moves_timed_variables Scenario.wHungry "pet" 0%nat Scenario.eHungry 2
              ltac:(vm_compute; reflexivity) ltac:(vm_compute; reflexivity)
              ltac:(vm_compute; repeat constructor; intros [])
              ltac:(intros cfg varId Hcfg Hin; vm_compute in Hcfg; injection Hcfg as <-;
                    vm_compute in Hin; destruct Hin as [<-|[]]; vm_compute; reflexivity))
    as (_ & e' & He' & _ & Hv).
  destruct (Hv "hunger" (VarState.mk 95 3 3 0 100 "timed" "up")
              ltac:(vm_compute; reflexivity)) as (vs' & Hget & Hval & _).
  exists e', vs'. split; [exact He'|]. split; [exact Hget|]. rewrite Hval. reflexivity.
Defined.


(** ** Traits: active once, and what an activation replaces *)

Lemma In_splice1_indexOf (x y : string) (l : list string) (i : nat) :
  List.NoDup l -> JS.indexOf x l = Some i ->
  (In y (JS.splice1 i l) <-> In y l /\ y <> x).
Proof.
  intros Hnd Hi. split.
  - intros H. split; [eapply In_splice1, H|]. intros ->.
    exact (splice1_indexOf_gone x l i Hnd Hi H).
  - intros [H Hne]. now apply (splice1_indexOf_others x).
Qed.

Lemma indexOf_None (x : string) (l : list string) : JS.indexOf x l = None -> ~ In x l.
Proof. intros H Hin. apply indexOf_In in Hin as [i Hi]. congruence. Qed.

Lemma traitOf_key cfg (a b : option string) (x : string) :
  SpawnManager.keyOf a = SpawnManager.keyOf b -> traitOf cfg a x <-> traitOf cfg b x.
Proof.
  intros Hk. unfold traitOf.
  split; intros (t & ? & ? & ?); exists t; repeat split; congruence.
Qed.

Lemma deactivateTrait_active cfg (e : Entity.t) (r : string) :
  uniquelyActive e ->
  uniquelyActive (snd (SpawnManager.deactivateTrait cfg e r)) /\
  forall layerId x,
    In x (SpawnManager.layerActive (snd (SpawnManager.deactivateTrait cfg e r)) layerId)
    <-> In x (SpawnManager.layerActive e layerId) /\ ~ (x = r /\ traitOf cfg layerId r).
Proof.
  intros Hu. unfold SpawnManager.deactivateTrait, traitOf.
  destruct (SpawnManager.getNode cfg r) as [trait|] eqn:Hn; cbn [snd].
  2:{ split; [exact Hu|]. intros L x. split; [|tauto].
      intros H. split; [exact H|]. intros (_ & rt & Hrt & _). discriminate. }
  destruct (SpawnManager.isTrait trait) eqn:Ht; cbn [negb snd].
  2:{ split; [exact Hu|]. intros L x. split; [|tauto].
      intros H. split; [exact H|]. intros (_ & rt & Hrt & Ht' & _). congruence. }
  cbv zeta.
  assert (Habsent : ~ In r (SpawnManager.layerActive e (SpawnManager.layerIdOf trait)) ->
                    forall L x,
                      In x (SpawnManager.layerActive e L)
                      <-> In x (SpawnManager.layerActive e L)
                          /\ ~ (x = r /\
                                exists rt, Some trait = Some rt /\
                                           SpawnManager.isTrait rt = true /\
                                           SpawnManager.keyOf (SpawnManager.layerIdOf rt)
                                           = SpawnManager.keyOf L)).
  { intros Hnot L x. split; [|tauto]. intros H. split; [exact H|].
    intros (-> & rt & Hrt & _ & Hk). injection Hrt as <-.
    apply Hnot. rewrite (layerActive_key e _ _ Hk). exact H. }
  destruct (JS.has _ (Entity.layers e)) eqn:Hhas; cbn [negb snd].
  2:{ split; [exact Hu|]. apply Habsent. unfold SpawnManager.layerActive, JS.has in *.
      destruct (JS.get _ (Entity.layers e)); [discriminate|]. auto. }
  destruct (JS.indexOf r _) as [index|] eqn:Hi; cbn [snd].
  2:{ split; [exact Hu|]. apply Habsent, indexOf_None, Hi. }
  split.
  - intros L. rewrite layerActive_setLayerActive.
    destruct (String.eqb _ _); [apply NoDup_splice1|]; apply Hu.
  - intros L x. rewrite layerActive_setLayerActive.
    destruct (String.eqb_spec (SpawnManager.keyOf (SpawnManager.layerIdOf trait))
                (SpawnManager.keyOf L)) as [Hk|Hk].
    + rewrite (In_splice1_indexOf r x _ index (Hu _) Hi), (layerActive_key e _ _ Hk).
      split.
      * intros [H Hne]. split; [exact H|]. intros [-> _]. congruence.
      * intros [H Hnot]. split; [exact H|]. intros ->. apply Hnot. split; [reflexivity|].
        exists trait. auto.
    + split; [|tauto]. intros H. split; [exact H|].
      intros (_ & rt & Hrt & _ & Hk'). injection Hrt as <-. contradiction.
Qed.

Lemma deactivateTraits_active cfg (replaces : list string) :
  forall e,
    uniquelyActive e ->
    uniquelyActive
      (fold_left (fun e r => snd (SpawnManager.deactivateTrait cfg e r)) replaces e) /\
    forall layerId x,
      In x (SpawnManager.layerActive
              (fold_left (fun e r => snd (SpawnManager.deactivateTrait cfg e r)) replaces e)
              layerId)
      <-> In x (SpawnManager.layerActive e layerId)
          /\ ~ (In x replaces /\ traitOf cfg layerId x).
Proof.
  induction replaces as [|r replaces IH]; intros e Hu; cbn [fold_left].
  - split; [exact Hu|]. intros L x. cbn. tauto.
  - destruct (deactivateTrait_active cfg e r Hu) as [Hu1 H1].
    destruct (IH _ Hu1) as [Hu2 H2]. split; [exact Hu2|].
    intros L x. rewrite H2, H1. cbn. split.
    + intros [[H Hr] Hrest]. split; [exact H|]. intros [[<-|Hin] Ht]; tauto.
    + intros [H Hnot]. split; [split; [exact H|]|].
      * intros [-> Ht]. apply Hnot. split; [now left|exact Ht].
      * intros [Hin Ht]. apply Hnot. split; [now right|exact Ht].
Qed.

Lemma activateTrait_cases cfg now e traitId :
  uniquelyActive e ->
  match SpawnManager.getNode cfg traitId with
  | None => SpawnManager.activateTrait cfg now e traitId = (false, e)
  | Some trait =>
      if SpawnManager.isTrait trait then
        if JS.includes traitId
             (SpawnManager.layerActive e (SpawnManager.layerIdOf trait))
        then SpawnManager.activateTrait cfg now e traitId
             = (false, SpawnManager.ensureLayer (SpawnManager.layerIdOf trait) e)
        else
          fst (SpawnManager.activateTrait cfg now e traitId) = true /\
          uniquelyActive (snd (SpawnManager.activateTrait cfg now e traitId)) /\
          forall L x,
            In x (SpawnManager.layerActive
                    (snd (SpawnManager.activateTrait cfg now e traitId)) L)
            <-> (x = traitId /\ traitOf cfg L traitId)
                \/ (In x (SpawnManager.layerActive e L)
                    /\ ~ (In x (SpawnManager.replacesOf trait) /\ traitOf cfg L x))
      else SpawnManager.activateTrait cfg now e traitId = (false, e)
  end.
Proof.
  intros Hu.
  assert (Hue : forall L0, uniquelyActive (SpawnManager.ensureLayer L0 e))
    by (intros L0 L; rewrite layerActive_ensureLayer; apply Hu).
  unfold SpawnManager.activateTrait.
  destruct (SpawnManager.getNode cfg traitId) as [trait|] eqn:Hn; [|reflexivity].
  destruct (SpawnManager.isTrait trait) eqn:Ht; cbn [negb]; [|reflexivity]. cbv zeta.
  rewrite layerActive_ensureLayer.
  destruct (JS.includes traitId _) eqn:Hin; [reflexivity|]. cbn [fst snd].
  split; [reflexivity|].
  destruct (deactivateTraits_active cfg (SpawnManager.replacesOf trait)
              (SpawnManager.ensureLayer (SpawnManager.layerIdOf trait) e) (Hue _))
    as [Hu2 H2].
  assert (Hnot : ~ In traitId (SpawnManager.layerActive e (SpawnManager.layerIdOf trait))).
  { intros H. apply includes_In in H. congruence. }
  split.
  - intros L. rewrite layerActive_log, layerActive_setLayerActive.
    destruct (String.eqb _ _); [|apply Hu2].
    apply NoDup_app; [apply Hu2|repeat constructor; intros []|].
    intros x Hx [<-|[]]. apply H2 in Hx as [Hx _].
    rewrite layerActive_ensureLayer in Hx. contradiction.
  - intros L x. rewrite layerActive_log, layerActive_setLayerActive.
    destruct (String.eqb_spec (SpawnManager.keyOf (SpawnManager.layerIdOf trait))
                (SpawnManager.keyOf L)) as [Hk|Hk].
    + rewrite in_app_iff, H2, layerActive_ensureLayer, (layerActive_key e _ _ Hk).
      rewrite (traitOf_key cfg _ _ x Hk).
      cbn. split.
      * intros [H|[<-|[]]]; [right; exact H|left]. split; [reflexivity|].
        exists trait. auto.
      * intros [[-> _]|H]; [right; left; reflexivity|left; exact H].
    + rewrite H2, layerActive_ensureLayer. split; [auto|].
      intros [[-> (rt & Hrt & _ & Hk')]|H]; [|exact H].
      rewrite Hn in Hrt. injection Hrt as <-. contradiction.
Qed.

(** X22. No trait becomes active twice in a layer, and an activation
    replaces what the trait says it replaces. [activateTrait] returns true
    exactly when the id is a trait that is not active in its layer; then
    the active traits of every layer are those that were active and are
    not traits of that layer named in the trait's [replaces], and the new
    trait in its own layer; when it returns false the active traits are as
    they were. [deactivateTrait] removes the trait from its layer and
    nothing else. Both keep every layer's list of active traits free of
    duplicates, as does [forceActivateTrait]. *)
Theorem activateTrait_replaces_and_adds_once (cfg : Config.t) (now : Z) (e : Entity.t)
    (traitId : string) :
  uniquelyActive e ->
  (uniquelyActive (snd (SpawnManager.activateTrait cfg now e traitId)) /\
   uniquelyActive (snd (SpawnManager.deactivateTrait cfg e traitId)) /\
   uniquelyActive (snd (SpawnManager.forceActivateTrait cfg e traitId))) /\
  (fst (SpawnManager.activateTrait cfg now e traitId) = true <->
   exists trait,
     SpawnManager.getNode cfg traitId = Some trait /\
     SpawnManager.isTrait trait = true /\
     ~ In traitId (SpawnManager.layerActive e (SpawnManager.layerIdOf trait))) /\
  (forall trait layerId x,
      SpawnManager.getNode cfg traitId = Some trait ->
      fst (SpawnManager.activateTrait cfg now e traitId) = true ->
      (In x (SpawnManager.layerActive (snd (SpawnManager.activateTrait cfg now e traitId))
               layerId)
       <-> (x = traitId /\ traitOf cfg layerId traitId)
           \/ (In x (SpawnManager.layerActive e layerId)
               /\ ~ (In x (SpawnManager.replacesOf trait) /\ traitOf cfg layerId x)))) /\
  (forall layerId,
      fst (SpawnManager.activateTrait cfg now e traitId) = false ->
      SpawnManager.layerActive (snd (SpawnManager.activateTrait cfg now e traitId)) layerId
      = SpawnManager.layerActive e layerId) /\
  (forall layerId x,
      In x (SpawnManager.layerActive (snd (SpawnManager.deactivateTrait cfg e traitId))
              layerId)
      <-> In x (SpawnManager.layerActive e layerId)
          /\ ~ (x = traitId /\ traitOf cfg layerId traitId)).
Proof.
  intros Hu.
  destruct (deactivateTrait_active cfg e traitId Hu) as [Hud Hd].
  assert (Hue : forall L0, uniquelyActive (SpawnManager.ensureLayer L0 e))
    by (intros L0 L; rewrite layerActive_ensureLayer; apply Hu).
  pose proof (activateTrait_cases cfg now e traitId Hu) as Hact.
  split; [split; [|split; [exact Hud|]]|split; [|split; [|split; [|exact Hd]]]].
  - destruct (SpawnManager.getNode cfg traitId) as [trait|]; [|rewrite Hact; exact Hu].
    destruct (SpawnManager.isTrait trait); [|rewrite Hact; exact Hu].
    destruct (JS.includes traitId _); [rewrite Hact; apply Hue|apply Hact].
  - clear Hact. unfold SpawnManager.forceActivateTrait.
    destruct (SpawnManager.getNode cfg traitId) as [trait|]; [|exact Hu].
    destruct (SpawnManager.isTrait trait); cbn [negb]; [|exact Hu]. cbv zeta.
    destruct (JS.includes traitId _) eqn:Hin; cbn [snd]; [apply Hue|].
    intros L. rewrite layerActive_setLayerActive.
    destruct (String.eqb _ _); [|apply Hue].
    apply NoDup_app; [apply Hue|repeat constructor; intros []|].
    intros x Hx [<-|[]]. apply includes_In in Hx. congruence.
  - destruct (SpawnManager.getNode cfg traitId) as [trait|] eqn:Hn.
    2:{ rewrite Hact. cbn. split; [discriminate|]. intros (t & Ht & _). discriminate. }
    destruct (SpawnManager.isTrait trait) eqn:Ht.
    2:{ rewrite Hact. cbn. split; [discriminate|].
        intros (t & Hn' & Ht' & _). injection Hn' as <-. congruence. }
    destruct (JS.includes traitId _) eqn:Hin.
    + rewrite Hact. cbn. split; [discriminate|].
      intros (t & Hn' & _ & Hnot). injection Hn' as <-.
      apply includes_In in Hin. contradiction.
    + destruct Hact as [-> _]. split; [|reflexivity]. intros _. exists trait.
      split; [reflexivity|]. split; [exact Ht|]. intros H. apply includes_In in H. congruence.
  - intros trait L x Hn Htrue. rewrite Hn in Hact.
    destruct (SpawnManager.isTrait trait); [|rewrite Hact in Htrue; discriminate].
    destruct (JS.includes traitId _); [rewrite Hact in Htrue; discriminate|].
    apply Hact.
  - intros L Hfalse.
    destruct (SpawnManager.getNode cfg traitId) as [trait|]; [|rewrite Hact; reflexivity].
    destruct (SpawnManager.isTrait trait); [|rewrite Hact; reflexivity].
    destruct (JS.includes traitId _).
    + rewrite Hact. cbn [snd]. apply layerActive_ensureLayer.
    + destruct Hact as [Htrue _]. congruence.
Qed.

Lemma activateTrait_replaces_and_adds_once_witness :
  uniquelyActive Scenario.eChild /\
  SpawnManager.layerActive Scenario.eChild (Some "stage") = ["child"] /\
  fst (SpawnManager.activateTrait Scenario.cfgStages 2000 Scenario.eChild "adult") = true /\
  (forall x,
      In x (SpawnManager.layerActive
              (snd (SpawnManager.activateTrait Scenario.cfgStages 2000 Scenario.eChild
                      "adult")) (Some "stage"))
      <-> (x = "adult" /\ traitOf Scenario.cfgStages (Some "stage") "adult")
          \/ (In x (SpawnManager.layerActive Scenario.eChild (Some "stage"))
              /\ ~ (In x ["child"] /\ traitOf Scenario.cfgStages (Some "stage") x))).
Proof.
  assert (Hu : uniquelyActive Scenario.eChild).
  { intros layerId. unfold SpawnManager.layerActive.
    set (layers := Entity.layers Scenario.eChild). vm_compute in layers. subst layers.
    cbn [JS.get]. destruct (String.eqb _ _); repeat constructor; simpl; tauto. }
  split; [exact Hu|]. split; [reflexivity|]. split; [reflexivity|].
  intros x.
  exact (proj1 (proj2 (proj2 (activateTrait_replaces_and_adds_once Scenario.cfgStages 2000
                                 Scenario.eChild "adult" Hu)))
           (Scenario.node "adult"
              (Trait (TraitCfg.mk (Some "stage") None None [] None None ["child"] [] [])))
           (Some "stage") x eq_refl eq_refl).
Defined.


(** ** Thresholds: which traits a check switches *)

Lemma fold_left_keeps {X B : Type} (proj : Entity.t -> B) (f : Entity.t -> X -> Entity.t)
    (l : list X) :
  (forall e x, proj (f e x) = proj e) -> forall e, proj (fold_left f l e) = proj e.
Proof.
  intros Hf. induction l as [|x l IH]; intros e; cbn; [reflexivity|].
  rewrite IH. apply Hf.
Qed.

Ltac untouched :=
  repeat match goal with
    | |- context [match ?x with _ => _ end] => destruct x
    end;
  match goal with
  | e : Entity.t |- _ => destruct e; reflexivity
  end.

Lemma standing_recalculateRates cfg e :
  standing (SpawnManager.recalculateRates cfg e) = standing e.
Proof.
  unfold standing. rewrite ranges_recalculateRates. do 2 f_equal.
  - unfold SpawnManager.recalculateRates. apply (fold_left_keeps Entity.id).
    intros e' n. unfold SpawnManager.recalculateRate. untouched.
  - unfold SpawnManager.recalculateRates. apply (fold_left_keeps Entity.layers).
    intros e' n. unfold SpawnManager.recalculateRate. untouched.
Qed.

Lemma standing_checkCompounds cfg e :
  standing (SpawnManager.checkCompounds cfg e) = standing e.
Proof.
  unfold standing. rewrite (ranges_vars _ _ (vars_checkCompounds _ _)). do 2 f_equal.
  - unfold SpawnManager.checkCompounds. apply (fold_left_keeps Entity.id).
    intros e' n. unfold SpawnManager.checkCompound. untouched.
  - unfold SpawnManager.checkCompounds. apply (fold_left_keeps Entity.layers).
    intros e' n. unfold SpawnManager.checkCompound. untouched.
Qed.

Lemma standing_calculateDerived cfg e :
  standing (SpawnManager.calculateDerived cfg e) = standing e.
Proof.
  unfold standing. rewrite (ranges_vars _ _ (vars_calculateDerived _ _)). do 2 f_equal.
  - unfold SpawnManager.calculateDerived. apply (fold_left_keeps Entity.id).
    intros e' n. unfold SpawnManager.calculateDerived1. untouched.
  - unfold SpawnManager.calculateDerived. apply (fold_left_keeps Entity.layers).
    intros e' n. unfold SpawnManager.calculateDerived1. untouched.
Qed.

#[local] Instance directory_HostFree id : HostFree (directory id).
Proof. intros [] ?. reflexivity. Qed.
#[local] Instance directory_EventFree id : EventFree (directory id).
Proof. intros [] ?. reflexivity. Qed.
#[local] Instance directory_HeapShape id : HeapShape (directory id).
Proof. intros [] ? ?. reflexivity. Qed.
#[local] Instance directory_FlagFree id : FlagFree (directory id).
Proof. intros []. repeat split. Qed.

Lemma directory_runCascade id entity : keeps (directory id) (EntityManager._runCascade entity).
Proof.
  unfold EntityManager._runCascade, EntityManager.cascadeTriple. keeps_tac.
Qed.

Section Standing.
Variable l : loc.

#[local] Existing Instance obsAt_HostFree.
#[local] Existing Instance obsAt_EventFree.
#[local] Existing Instance obsAt_IndexFree.
#[local] Existing Instance obsAt_FlagFree.

Lemma standing_cascadeTriple cfg (entity : loc) :
  keeps (obsAt standing l) (EntityManager.cascadeTriple cfg entity).
Proof.
  unfold EntityManager.cascadeTriple. apply obsAt_onEntity. intros e.
  eapply hresult_bind_with; [apply hresult_spied|]. intros e1 ->.
  eapply hresult_bind_with; [apply hresult_spied|]. intros e2 ->.
  eapply hresult_bind_with; [apply hresult_spied|]. intros e3 ->.
  apply hresult_ret. cbn [snd].
  now rewrite standing_calculateDerived, standing_checkCompounds,
    standing_recalculateRates.
Qed.

Lemma standing_runCascade (entity : loc) :
  keeps (obsAt standing l) (EntityManager._runCascade entity).
Proof.
  unfold EntityManager._runCascade.
  apply keeps_bind; [apply keeps_gets|]. intros [].
  - apply keeps_modify. keeps_field.
  - apply keeps_bind; [apply keeps_gets|]. intros [cfg|]; [|apply keeps_ret].
    apply standing_cascadeTriple.
Qed.
End Standing.

(* an entity is switched by [g], and the cascade runs if [g] says so *)
Lemma switch_run (g : Entity.t -> bool * Entity.t) (event : string) (data : JS.Obj string)
    (l : loc) (id : string) (w : World.t) (e : Entity.t) :
  World.heap w !! l = Some e ->
  let w' :=
    snd (bind (onEntity l false (fun e => hret (g e)))
           (fun result : bool =>
              if result then
                bind (EntityManager._runCascade l)
                  (fun _ => bind (EntityManager.emit event data) (fun _ => ret true))
              else ret false) w) in
  directory id w' = directory id w /\
  obsAt standing l w' = Some (standing (snd (g e))).
Proof.
  intros He. cbv zeta. split.
  - apply keeps_bind; [apply keeps_onEntity; typeclasses eauto|]. intros [].
    + apply keeps_bind; [apply directory_runCascade|]. intros ?.
      apply keeps_bind; [apply keeps_emit; typeclasses eauto|]. intros ?. apply keeps_ret.
    + apply keeps_ret.
  - unfold bind at 1.
    assert (H1 : obsAt standing l (snd (onEntity l false (fun e => hret (g e)) w))
                 = Some (standing (snd (g e)))).
    { unfold onEntity, bind, deref, gets, liftH, hret, update, modify, ret, obsAt.
      cbn. rewrite He. cbn. destruct w; cbn in *. rewrite He.
      cbn. rewrite list_lookup_insert_eq by (now apply lookup_lt_Some in He).
      reflexivity. }
    destruct (onEntity l false _ w) as [result w1]. cbn [snd] in *.
    rewrite <- H1. destruct result; [|reflexivity].
    apply keeps_bind; [apply standing_runCascade|]. intros ?.
    apply keeps_bind; [apply keeps_emit, obsAt_EventFree|]. intros ?. apply keeps_ret.
Qed.

Lemma activateTrait_switch cfg (w : World.t) (l : loc) (e : Entity.t) (traitId : string) :
  World.spawnManager w = Some cfg ->
  retrieved (Entity.id e) w = Some l ->
  World.heap w !! l = Some e ->
  directory (Entity.id e) (snd (EntityManager.activateTrait (Entity.id e) traitId w))
  = directory (Entity.id e) w /\
  obsAt standing l (snd (EntityManager.activateTrait (Entity.id e) traitId w))
  = Some (standing (snd (SpawnManager.activateTrait cfg (Host.now (World.host w)) e
                           traitId))).
Proof.
  intros Hsm Hr He.
  assert (Hrun : EntityManager.activateTrait (Entity.id e) traitId w
                 = bind (onEntity l false
                           (fun e => hret (SpawnManager.activateTrait cfg
                                             (Host.now (World.host w)) e traitId)))
                     (fun result : bool =>
                        if result then
                          bind (EntityManager._runCascade l)
                            (fun _ =>
                               bind (EntityManager.emit "traitActivated"
                                       [("entityId", Entity.id e); ("traitId", traitId)])
                                 (fun _ => ret true))
                        else ret false) w).
  { unfold EntityManager.activateTrait. unfold bind at 1.
    unfold retrieved in Hr. rewrite (surjective_pairing (EntityManager.retrieve _ w)), Hr.
    cbn [snd]. replace (snd (EntityManager.retrieve (Entity.id e) w)) with w by reflexivity.
    unfold bind at 1. unfold gets at 1. cbn [fst snd]. rewrite Hsm.
    unfold bind at 1. unfold liftH, Date_now. cbn [fst snd].
    replace (World.set_host (World.host w) w) with w by (destruct w; reflexivity).
    reflexivity. }
  rewrite Hrun.
  exact (switch_run
           (fun e => SpawnManager.activateTrait cfg (Host.now (World.host w)) e traitId)
           _ _ l (Entity.id e) w e He).
Qed.

Lemma deactivateTrait_switch cfg (w : World.t) (l : loc) (e : Entity.t) (traitId : string) :
  World.spawnManager w = Some cfg ->
  retrieved (Entity.id e) w = Some l ->
  World.heap w !! l = Some e ->
  directory (Entity.id e) (snd (EntityManager.deactivateTrait (Entity.id e) traitId w))
  = directory (Entity.id e) w /\
  obsAt standing l (snd (EntityManager.deactivateTrait (Entity.id e) traitId w))
  = Some (standing (snd (SpawnManager.deactivateTrait cfg e traitId))).
Proof.
  intros Hsm Hr He.
  assert (Hrun : EntityManager.deactivateTrait (Entity.id e) traitId w
                 = bind (onEntity l false
                           (fun e => hret (SpawnManager.deactivateTrait cfg e traitId)))
                     (fun result : bool =>
                        if result then
                          bind (EntityManager._runCascade l)
                            (fun _ =>
                               bind (EntityManager.emit "traitDeactivated"
                                       [("entityId", Entity.id e); ("traitId", traitId)])
                                 (fun _ => ret true))
                        else ret false) w).
  { unfold EntityManager.deactivateTrait. unfold bind at 1.
    unfold retrieved in Hr. rewrite (surjective_pairing (EntityManager.retrieve _ w)), Hr.
    cbn [snd]. replace (snd (EntityManager.retrieve (Entity.id e) w)) with w by reflexivity.
    unfold bind at 1. unfold gets at 1. cbn [fst snd]. rewrite Hsm.
    reflexivity. }
  rewrite Hrun.
  exact (switch_run (fun e => SpawnManager.deactivateTrait cfg e traitId)
           _ _ l (Entity.id e) w e He).
Qed.

Lemma id_setLayerActive layerId active e :
  Entity.id (SpawnManager.setLayerActive layerId active e) = Entity.id e.
Proof. unfold SpawnManager.setLayerActive. destruct e; reflexivity. Qed.

Lemma id_ensureLayer layerId e : Entity.id (SpawnManager.ensureLayer layerId e) = Entity.id e.
Proof. unfold SpawnManager.ensureLayer. destruct (JS.has _ _); destruct e; reflexivity. Qed.

Lemma id_log now event data e : Entity.id (SpawnManager.log now event data e) = Entity.id e.
Proof. unfold SpawnManager.log. destruct e; reflexivity. Qed.

Lemma id_deactivateTrait cfg e traitId :
  Entity.id (snd (SpawnManager.deactivateTrait cfg e traitId)) = Entity.id e.
Proof.
  unfold SpawnManager.deactivateTrait.
  repeat match goal with
    | |- context [match ?x with _ => _ end] => destruct x
    end; cbn [snd]; try reflexivity.
  apply id_setLayerActive.
Qed.

Lemma id_activateTrait cfg now e traitId :
  Entity.id (snd (SpawnManager.activateTrait cfg now e traitId)) = Entity.id e.
Proof.
  unfold SpawnManager.activateTrait.
  destruct (SpawnManager.getNode cfg traitId) as [trait|]; [|reflexivity].
  destruct (negb _); [reflexivity|]. cbv zeta.
  destruct (JS.includes _ _); cbn [snd]; [apply id_ensureLayer|].
  rewrite id_log, id_setLayerActive, (fold_left_keeps Entity.id); [apply id_ensureLayer|].
  intros e' x. apply id_deactivateTrait.
Qed.

Lemma standing_facts (e1 e2 : Entity.t) :
  standing e1 = standing e2 ->
  Entity.id e1 = Entity.id e2 /\ ranges e1 = ranges e2 /\
  forall L, SpawnManager.layerActive e1 L = SpawnManager.layerActive e2 L.
Proof.
  unfold standing. intros H. injection H as H1 H2 H3.
  split; [exact H1|]. split; [exact H3|]. intros L.
  unfold SpawnManager.layerActive. now rewrite H2.
Qed.

Lemma obsAt_Some {B : Type} (proj : Entity.t -> B) (l : loc) (w : World.t) (b : B) :
  obsAt proj l w = Some b -> exists e, World.heap w !! l = Some e /\ proj e = b.
Proof.
  unfold obsAt. destruct (World.heap w !! l) as [e|]; [|discriminate].
  intros H. injection H as <-. exists e. auto.
Qed.

Lemma layerId_traitCfg (t : Node.t) :
  TraitCfg.layerId (EntityManager.traitCfg t) = SpawnManager.layerIdOf t.
Proof.
  unfold EntityManager.traitCfg, SpawnManager.layerIdOf.
  destruct (Node.trait t); reflexivity.
Qed.

Lemma snd_bind_ret {A : Type} (m : M A) (w : World.t) :
  snd (bind m (fun _ => ret tt) w) = snd (m w).
Proof. unfold bind, ret. destruct (m w). reflexivity. Qed.

Lemma includes_false (x : string) (l : list string) : JS.includes x l = false <-> ~ In x l.
Proof.
  rewrite <- includes_In. destruct (JS.includes x l); split; congruence.
Qed.

(* one trait of the loop of [checkThresholds] *)
Lemma checkThreshold_switch cfg (w : World.t) (l : loc) (e : Entity.t) (varId : string)
    (vs : VarState.t) (t : Node.t) :
  World.spawnManager w = Some cfg ->
  retrieved (Entity.id e) w = Some l ->
  World.heap w !! l = Some e ->
  JS.get varId (Entity.variables e) = Some vs ->
  SpawnManager.getNode cfg (Node.id t) = Some t ->
  SpawnManager.isTrait t = true ->
  uniquelyActive e ->
  exists e1,
    World.spawnManager (snd (EntityManager.checkThreshold l varId t w)) = Some cfg /\
    retrieved (Entity.id e) (snd (EntityManager.checkThreshold l varId t w)) = Some l /\
    World.heap (snd (EntityManager.checkThreshold l varId t w)) !! l = Some e1 /\
    Entity.id e1 = Entity.id e /\
    ranges e1 = ranges e /\
    uniquelyActive e1 /\
    (In (Node.id t) (SpawnManager.layerActive e1 (SpawnManager.layerIdOf t))
     <-> switched e (VarState.value vs) t = true) /\
    (forall L x,
        x <> Node.id t -> ~ In x (SpawnManager.replacesOf t) ->
        (In x (SpawnManager.layerActive e1 L) <-> In x (SpawnManager.layerActive e L))).
Proof.
  intros Hsm Hr He Hv Hn Ht Hu.
  assert (Htrait : traitOf cfg (SpawnManager.layerIdOf t) (Node.id t))
    by (exists t; auto).
  assert (Hsame : exists e1,
             World.spawnManager w = Some cfg /\ retrieved (Entity.id e) w = Some l /\
             World.heap w !! l = Some e1 /\ Entity.id e1 = Entity.id e /\
             ranges e1 = ranges e /\ uniquelyActive e1 /\
             forall L x, In x (SpawnManager.layerActive e1 L)
                         <-> In x (SpawnManager.layerActive e L))
    by (exists e; repeat split; auto).
  unfold switched.
  assert (Hrun :
    snd (EntityManager.checkThreshold l varId t w)
    = if JS.includes (Node.id t) (SpawnManager.layerActive e (SpawnManager.layerIdOf t))
      then if EntityManager.evaluateTraitThreshold (VarState.value vs)
                (TraitCfg.autoRemove (EntityManager.traitCfg t))
           then snd (EntityManager.deactivateTrait (Entity.id e) (Node.id t) w)
           else w
      else if EntityManager.evaluateTraitThreshold (VarState.value vs)
                (TraitCfg.trigger (EntityManager.traitCfg t))
           then snd (EntityManager.activateTrait (Entity.id e) (Node.id t) w)
           else w).
  { unfold EntityManager.checkThreshold. unfold bind at 1. unfold deref, gets.
    cbn [fst snd]. rewrite He, Hv, layerId_traitCfg.
    destruct (JS.includes _ _); cbn [negb andb].
    - unfold bind at 1. cbn [ret fst snd].
      destruct (EntityManager.evaluateTraitThreshold _ _); [|reflexivity].
      apply snd_bind_ret.
    - destruct (EntityManager.evaluateTraitThreshold _ _).
      + rewrite snd_bind_ret. apply snd_bind_ret.
      + reflexivity. }
  rewrite Hrun. clear Hrun.
  destruct (JS.includes _ _) eqn:Hact.
  - apply includes_In in Hact.
    destruct (EntityManager.evaluateTraitThreshold _ _) eqn:Hrem; cbn [negb].
    + destruct (deactivateTrait_switch cfg w l e (Node.id t) Hsm Hr He) as [Hd Hs].
      apply obsAt_Some in Hs as (e1 & He1 & Hs).
      apply standing_facts in Hs as (Hid & Hrg & Hl).
      destruct (deactivateTrait_active cfg e (Node.id t) Hu) as [Hu1 H1].
      rewrite id_deactivateTrait in Hid.
      rewrite (ranges_vars _ _ (vars_deactivateTrait _ _ _)) in Hrg.
      unfold directory in Hd. rewrite Hsm, Hr in Hd. injection Hd as Hd1 Hd2.
      exists e1. split; [exact Hd1|]. split; [exact Hd2|]. split; [exact He1|].
      split; [exact Hid|]. split; [exact Hrg|].
      split; [intros L; rewrite Hl; apply Hu1|]. split.
      * rewrite Hl, H1. split; [|discriminate]. intros [_ H]. exfalso. apply H. auto.
      * intros L x Hx _. rewrite Hl, H1. split; [tauto|]. intros H. split; [exact H|].
        intros [-> _]. congruence.
    + destruct Hsame as (e1 & ? & ? & ? & ? & ? & ? & Hl). exists e1.
      repeat (split; [assumption|]). split; [|intros L x _ _; apply Hl].
      rewrite Hl. tauto.
  - apply includes_false in Hact.
    destruct (EntityManager.evaluateTraitThreshold _ _) eqn:Htrig.
    + destruct (activateTrait_switch cfg w l e (Node.id t) Hsm Hr He) as [Hd Hs].
      apply obsAt_Some in Hs as (e1 & He1 & Hs).
      apply standing_facts in Hs as (Hid & Hrg & Hl).
      pose proof (activateTrait_cases cfg (Host.now (World.host w)) e (Node.id t) Hu) as H1.
      rewrite Hn, Ht in H1.
      replace (JS.includes (Node.id t)
                 (SpawnManager.layerActive e (SpawnManager.layerIdOf t))) with false in H1
        by (symmetry; now apply includes_false).
      destruct H1 as (_ & Hu1 & H1).
      rewrite id_activateTrait in Hid.
      rewrite (ranges_vars _ _ (vars_activateTrait _ _ _ _)) in Hrg.
      unfold directory in Hd. rewrite Hsm, Hr in Hd. injection Hd as Hd1 Hd2.
      exists e1. split; [exact Hd1|]. split; [exact Hd2|]. split; [exact He1|].
      split; [exact Hid|]. split; [exact Hrg|].
      split; [intros L; rewrite Hl; apply Hu1|]. split.
      * rewrite Hl, H1. split; [reflexivity|]. intros _. left. auto.
      * intros L x Hx Hrep. rewrite Hl, H1. split.
        -- intros [[-> _]|[H _]]; [congruence|exact H].
        -- intros H. right. split; [exact H|]. tauto.
    + destruct Hsame as (e1 & ? & ? & ? & ? & ? & ? & Hl). exists e1.
      repeat (split; [assumption|]). split; [|intros L x _ _; apply Hl].
      rewrite Hl. split; [contradiction|discriminate].
Qed.

Lemma includes_iff (x : string) (l l' : list string) :
  (In x l <-> In x l') -> JS.includes x l = JS.includes x l'.
Proof.
  intros H. destruct (JS.includes x l') eqn:E.
  - apply includes_In. apply H. now apply includes_In.
  - apply includes_false. rewrite H. now apply includes_false.
Qed.

Lemma snd_bind {A B : Type} (m : M A) (k : A -> M B) (w : World.t) :
  snd (bind m k w) = snd (k (fst (m w)) (snd (m w))).
Proof. unfold bind. destruct (m w). reflexivity. Qed.

(* the loop of [checkThresholds] *)
Lemma checkThresholds_loop cfg (l : loc) (varId : string) (v : Z) (traits : list Node.t) :
  forall (w : World.t) (e : Entity.t) (vs : VarState.t),
    World.spawnManager w = Some cfg ->
    retrieved (Entity.id e) w = Some l ->
    World.heap w !! l = Some e ->
    JS.get varId (Entity.variables e) = Some vs ->
    VarState.value vs = v ->
    uniquelyActive e ->
    (forall t, In t traits ->
               SpawnManager.getNode cfg (Node.id t) = Some t /\
               SpawnManager.isTrait t = true) ->
    List.NoDup (map Node.id traits) ->
    (forall t t', In t traits -> In t' traits -> Node.id t' <> Node.id t ->
                  ~ In (Node.id t') (SpawnManager.replacesOf t)) ->
    exists e',
      World.heap (snd (forEach traits (EntityManager.checkThreshold l varId) w)) !! l
      = Some e' /\
      ranges e' = ranges e /\
      uniquelyActive e' /\
      (forall t, In t traits ->
                 (In (Node.id t) (SpawnManager.layerActive e' (SpawnManager.layerIdOf t))
                  <-> switched e v t = true)) /\
      (forall L x,
          (forall t, In t traits -> x <> Node.id t /\ ~ In x (SpawnManager.replacesOf t)) ->
          (In x (SpawnManager.layerActive e' L) <-> In x (SpawnManager.layerActive e L))).
Proof.
  induction traits as [|t traits IH]; intros w e vs Hsm Hr He Hv Hval Hu Hnode Hnd Hrep.
  - exists e. cbn. split; [exact He|]. split; [reflexivity|]. split; [exact Hu|].
    split; [intros t []|]. tauto.
  - cbn [forEach]. rewrite snd_bind.
    destruct (Hnode t (or_introl eq_refl)) as [Hn Ht].
    destruct (checkThreshold_switch cfg w l e varId vs t Hsm Hr He Hv Hn Ht Hu)
      as (e1 & Hsm1 & Hr1 & He1 & Hid & Hrg & Hu1 & Hown & Hothers).
    rewrite Hval in Hown.
    set (w1 := snd (EntityManager.checkThreshold l varId t w)) in *.
    assert (Hv1 : exists vs1, JS.get varId (Entity.variables e1) = Some vs1 /\
                              VarState.value vs1 = v).
    { pose proof (get_ranges varId e1) as Hg. rewrite Hrg, get_ranges, Hv in Hg.
      destruct (JS.get varId (Entity.variables e1)) as [vs1|]; [|discriminate].
      exists vs1. split; [reflexivity|]. cbn in Hg. unfold range in Hg. congruence. }
    destruct Hv1 as (vs1 & Hv1 & Hval1).
    cbn [map] in Hnd. apply NoDup_cons_iff in Hnd as [Hfresh Hnd].
    assert (Hne : forall t', In t' traits -> Node.id t' <> Node.id t).
    { intros t' Hin E. apply Hfresh. rewrite <- E. now apply in_map. }
    rewrite <- Hid in Hr1.
    destruct (IH w1 e1 vs1 Hsm1 Hr1 He1 Hv1 Hval1 Hu1) as (e' & He' & Hrg' & Hu' & Hin' & Hout').
    { intros t' Hin. apply Hnode. now right. }
    { exact Hnd. }
    { intros t1 t2 H1 H2. apply Hrep; now right. }
    exists e'. split; [exact He'|]. split; [congruence|]. split; [exact Hu'|]. split.
    + intros t' [<-|Hin].
      * rewrite Hout'; [exact Hown|]. intros t' Hin. split.
        -- intros E. now apply (Hne t' Hin).
        -- apply Hrep; [now right|now left|]. intros E. now apply (Hne t' Hin).
      * rewrite (Hin' t' Hin). unfold switched.
        rewrite (includes_iff _ _ _
                   (Hothers (SpawnManager.layerIdOf t') (Node.id t') (Hne t' Hin)
                      (Hrep t t' (or_introl eq_refl) (or_intror Hin) (Hne t' Hin)))).
        reflexivity.
    + intros L x Hx. rewrite Hout'.
      * apply Hothers; apply (Hx t); now left.
      * intros t' Hin. apply Hx. now right.
Qed.

Lemma find_unique {A : Type} (f : A -> string) (l : list A) (x : A) :
  List.NoDup (map f l) -> In x l ->
  find (fun y => String.eqb (f y) (f x)) l = Some x.
Proof.
  induction l as [|a l IH]; intros Hnd Hin; [destruct Hin|].
  cbn in *. apply NoDup_cons_iff in Hnd as [Hfresh Hnd].
  destruct (String.eqb_spec (f a) (f x)) as [E|E].
  - destruct Hin as [->|Hin]; [reflexivity|]. exfalso. apply Hfresh.
    rewrite E. now apply in_map.
  - destruct Hin as [->|Hin]; [congruence|]. now apply IH.
Qed.

Lemma getNode_unique cfg (n : Node.t) :
  List.NoDup (map Node.id (Config.nodes cfg)) -> In n (Config.nodes cfg) ->
  SpawnManager.getNode cfg (Node.id n) = Some n.
Proof.
  intros Hnd Hin. unfold SpawnManager.getNode. apply (find_unique Node.id).
  - rewrite map_rev. apply NoDup_rev, Hnd.
  - apply in_rev. now rewrite rev_involutive.
Qed.

Lemma NoDup_map_filter {A : Type} (f : A -> string) (p : A -> bool) (l : list A) :
  List.NoDup (map f l) -> List.NoDup (map f (List.filter p l)).
Proof.
  induction l as [|a l IH]; intros Hnd; cbn in *; [constructor|].
  apply NoDup_cons_iff in Hnd as [Hfresh Hnd]. destruct (p a); cbn; [|now apply IH].
  apply NoDup_cons_iff. split; [|now apply IH].
  intros H. apply Hfresh. apply in_map_iff in H as (y & E & Hy).
  apply filter_In in Hy as [Hy _]. rewrite <- E. now apply in_map.
Qed.

Lemma thresholdTraits_nodes cfg (varId : string) (t : Node.t) :
  In t (SpawnManager._thresholdTraitsByVar cfg varId) ->
  In t (Config.nodes cfg) /\ SpawnManager.isTrait t = true.
Proof.
  unfold SpawnManager._thresholdTraitsByVar, SpawnManager.getTraits,
    SpawnManager.getNodesByType, SpawnManager.isTrait.
  cbn [String.eqb Ascii.eqb Bool.eqb]. intros H. apply filter_In in H as [H _].
  apply in_app_iff in H as [H|H]; apply filter_In in H as [H E]; rewrite E;
    split; auto using orb_true_r.
Qed.

Lemma thresholdTraits_NoDup cfg (varId : string) :
  List.NoDup (map Node.id (Config.nodes cfg)) ->
  List.NoDup (map Node.id (SpawnManager._thresholdTraitsByVar cfg varId)).
Proof.
  intros Hnd. unfold SpawnManager._thresholdTraitsByVar, SpawnManager.getTraits,
    SpawnManager.getNodesByType. cbn [String.eqb Ascii.eqb Bool.eqb].
  apply NoDup_map_filter. rewrite map_app. apply NoDup_app.
  1,2: now apply NoDup_map_filter.
  intros x H1 H2.
  apply in_map_iff in H1 as (a & <- & Ha). apply in_map_iff in H2 as (b & E & Hb).
  apply filter_In in Ha as [Ha Ta]. apply filter_In in Hb as [Hb Tb].
  assert (a = b).
  { pose proof (find_unique Node.id _ a Hnd Ha) as F1.
    pose proof (find_unique Node.id _ b Hnd Hb) as F2.
    rewrite E in F2. congruence. }
  subst b. apply String.eqb_eq in Ta, Tb. congruence.
Qed.

(** X23. A check of the thresholds on a variable settles every threshold
    trait of that variable, by the trait's standing before the check: a
    trait that was active stays unless its [autoRemove] holds of the
    value, and one that was not active becomes active exactly when its
    [trigger] holds (a trait just activated is not removed in the same
    check). The values and bounds of the variables are as before, no layer
    lists a trait twice, and a trait that is neither a threshold trait of
    the variable nor replaced by one keeps its standing. This is for an
    object that its own id stands for, in a configuration whose node ids
    are distinct and where no threshold trait of the variable replaces
    another one. *)
Theorem checkThresholds_switches_by_prior_standing (cfg : Config.t) (w : World.t)
    (l : loc) (e : Entity.t) (varId : string) (vs : VarState.t) :
  World.spawnManager w = Some cfg ->
  retrieved (Entity.id e) w = Some l ->
  World.heap w !! l = Some e ->
  JS.get varId (Entity.variables e) = Some vs ->
  uniquelyActive e ->
  List.NoDup (map Node.id (Config.nodes cfg)) ->
  (forall t t',
      In t (SpawnManager._thresholdTraitsByVar cfg varId) ->
      In t' (SpawnManager._thresholdTraitsByVar cfg varId) ->
      Node.id t' <> Node.id t ->
      ~ In (Node.id t') (SpawnManager.replacesOf t)) ->
  exists e',
    World.heap (snd (EntityManager.checkThresholds l varId w)) !! l = Some e' /\
    ranges e' = ranges e /\
    uniquelyActive e' /\
    (forall t,
        In t (SpawnManager._thresholdTraitsByVar cfg varId) ->
        (In (Node.id t) (SpawnManager.layerActive e' (SpawnManager.layerIdOf t))
         <-> switched e (VarState.value vs) t = true)) /\
    (forall layerId x,
        (forall t, In t (SpawnManager._thresholdTraitsByVar cfg varId) ->
                   x <> Node.id t /\ ~ In x (SpawnManager.replacesOf t)) ->
        (In x (SpawnManager.layerActive e' layerId)
         <-> In x (SpawnManager.layerActive e layerId))).
Proof.
  intros Hsm Hr He Hv Hu Hnd Hrep.
  unfold EntityManager.checkThresholds. rewrite snd_bind. unfold gets at 1 2.
  cbn [fst snd]. rewrite Hsm.
  apply (checkThresholds_loop cfg l varId (VarState.value vs) _ w e vs); auto.
  - intros t Hin. apply thresholdTraits_nodes in Hin as [Hin Ht].
    split; [now apply getNode_unique|exact Ht].
  - now apply thresholdTraits_NoDup.
Qed.

Lemma checkThresholds_switches_by_prior_standing_witness :
  SpawnManager.layerActive Scenario.eStarving (Some "mood") = [] /\
  exists e',
    World.heap (snd (EntityManager.checkThresholds 0%nat "hunger" Scenario.wStarving))
      !! 0%nat = Some e' /\
    In "starving" (SpawnManager.layerActive e' (Some "mood")).
Proof.
  split; [vm_compute; reflexivity|].
  destruct (checkThresholds_switches_by_prior_standing Scenario.cfgStarving
              Scenario.wStarving 0%nat Scenario.eStarving "hunger"
              (VarState.mk 95 0 0 0 100 "manual" "none")
              ltac:(vm_compute; reflexivity) ltac:(vm_compute; reflexivity)
              ltac:(vm_compute; reflexivity) ltac:(vm_compute; reflexivity))
    as (e' & He' & _ & _ & Hin & _).
  - intros layerId. unfold SpawnManager.layerActive.
    set (layers := Entity.layers Scenario.eStarving). vm_compute in layers. subst layers.
    cbn [JS.get]. repeat destruct (String.eqb _ _); repeat constructor; simpl; tauto.
  - vm_compute. repeat constructor; simpl; intuition discriminate.
  - intros t t' Ht. vm_compute in Ht. destruct Ht as [<-|[]]. intros _ _ [].
  - exists e'. split; [exact He'|].
    apply (Hin Scenario.starving); [vm_compute; auto|vm_compute; reflexivity].
Defined.


(** ** Variables: what a write switches *)

Lemma standing_applyTo now modifierId config e :
  standing (EntityManager.applyTo now modifierId config e) = standing e.
Proof.
  unfold standing. rewrite (ranges_vars _ _ (vars_applyTo _ _ _ _)). do 2 f_equal.
  - unfold EntityManager.applyTo. cbv zeta. untouched.
  - unfold EntityManager.applyTo. cbv zeta. untouched.
Qed.

Lemma standing_removeFrom modifierId index e :
  standing (EntityManager.removeFrom modifierId index e) = standing e.
Proof.
  unfold standing. rewrite (ranges_vars _ _ (vars_removeFrom _ _ _)). do 2 f_equal.
  - unfold EntityManager.removeFrom. untouched.
  - unfold EntityManager.removeFrom. untouched.
Qed.

Section StandingRest.
Variable l : loc.
Let f : World.t -> option (string * JS.Obj LayerState.t * JS.Obj (Z * Z * Z)) :=
  obsAt standing l.

#[local] Existing Instance obsAt_HostFree.
#[local] Existing Instance obsAt_EventFree.
#[local] Existing Instance obsAt_IndexFree.
#[local] Existing Instance obsAt_FlagFree.

Create HintDb standing.
Hint Resolve keeps_ret keeps_gets keeps_deref keeps_liftH keeps_emit standing_cascadeTriple
  standing_runCascade : standing.

Ltac standing_step :=
  match goal with
  | |- keeps _ (bind _ _) => apply keeps_bind; [|intros ?]
  | |- keeps _ (forEach _ _) => apply keeps_forEach; intros ?
  | |- keeps _ (modify _) => apply keeps_modify; keeps_field
  | |- keeps _ (match ?x with _ => _ end) => destruct x
  | |- keeps _ _ => solve [eauto with standing typeclass_instances]
  end.

Ltac standing_tac := repeat standing_step.

Lemma standing_applyModifier entityId modifierId config :
  keeps f (EntityManager.applyModifier entityId modifierId config).
Proof.
  unfold EntityManager.applyModifier, EntityManager.retrieve. standing_tac.
  apply obsAt_update. intros e. apply standing_applyTo.
Qed.
Hint Resolve standing_applyModifier : standing.

Lemma standing_removeModifier entityId modifierId :
  keeps f (EntityManager.removeModifier entityId modifierId).
Proof.
  unfold EntityManager.removeModifier, EntityManager.retrieve. standing_tac.
  apply obsAt_update. intros e. apply standing_removeFrom.
Qed.
Hint Resolve standing_removeModifier : standing.

Lemma standing_checkModifierThresholds (entity : loc) :
  keeps f (EntityManager.checkModifierThresholds entity).
Proof.
  unfold EntityManager.checkModifierThresholds, EntityManager.checkModifier. standing_tac.
Qed.

Lemma standing_derive (entity : loc) : keeps f (EntityManager.calculateDerived entity).
Proof.
  unfold EntityManager.calculateDerived. standing_tac. apply obsAt_onEntity. intros e.
  eapply hresult_bind_with; [apply hresult_spied|]. intros e1 ->. apply hresult_ret.
  apply standing_calculateDerived.
Qed.

(* what a change of a variable runs after the check of its thresholds *)
Lemma standing_change_rest (entity : loc) event data :
  keeps f
    (bind (EntityManager.checkModifierThresholds entity)
       (fun _ =>
          bind (EntityManager.calculateDerived entity)
            (fun _ => EntityManager.emit event data))).
Proof.
  apply keeps_bind; [apply standing_checkModifierThresholds|]. intros ?.
  apply keeps_bind; [apply standing_derive|]. intros ?. apply keeps_emit, obsAt_EventFree.
Qed.
End StandingRest.

Lemma checkThresholds_settles (cfg : Config.t) (w : World.t) (l : loc) (e : Entity.t)
    (varId : string) (vs : VarState.t) :
  World.spawnManager w = Some cfg ->
  retrieved (Entity.id e) w = Some l ->
  World.heap w !! l = Some e ->
  JS.get varId (Entity.variables e) = Some vs ->
  uniquelyActive e ->
  List.NoDup (map Node.id (Config.nodes cfg)) ->
  (forall t t',
      In t (SpawnManager._thresholdTraitsByVar cfg varId) ->
      In t' (SpawnManager._thresholdTraitsByVar cfg varId) ->
      Node.id t' <> Node.id t ->
      ~ In (Node.id t') (SpawnManager.replacesOf t)) ->
  exists e',
    World.heap (snd (EntityManager.checkThresholds l varId w)) !! l = Some e' /\
    ranges e' = ranges e /\
    uniquelyActive e' /\
    (forall t,
        In t (SpawnManager._thresholdTraitsByVar cfg varId) ->
        (In (Node.id t) (SpawnManager.layerActive e' (SpawnManager.layerIdOf t))
         <-> switched e (VarState.value vs) t = true)).
Proof.
  intros Hsm Hr He Hv Hu Hnd Hrep.
  unfold EntityManager.checkThresholds. rewrite snd_bind. unfold gets at 1 2.
  cbn [fst snd]. rewrite Hsm.
  destruct (checkThresholds_loop cfg l varId (VarState.value vs)
              (SpawnManager._thresholdTraitsByVar cfg varId) w e vs)
    as (e' & He' & Hrg & Hu' & Hin & _); auto.
  - intros t Hin. apply thresholdTraits_nodes in Hin as [Hin Ht].
    split; [now apply getNode_unique|exact Ht].
  - now apply thresholdTraits_NoDup.
  - exists e'. auto.
Qed.

Lemma standing_writeValue (varId : string) (v : Z) (e : Entity.t) :
  Entity.id (EntityManager.writeValue varId v e) = Entity.id e /\
  Entity.layers (EntityManager.writeValue varId v e) = Entity.layers e.
Proof.
  unfold EntityManager.writeValue.
  destruct (JS.get varId (Entity.variables e)); destruct e; auto.
Qed.

Lemma changeVariable_settles (cfg : Config.t) (w : World.t) (l : loc) (e : Entity.t)
    (varId : string) (vs : VarState.t) (newValue : VarState.t -> Z) :
  World.spawnManager w = Some cfg ->
  retrieved (Entity.id e) w = Some l ->
  World.heap w !! l = Some e ->
  JS.get varId (Entity.variables e) = Some vs ->
  uniquelyActive e ->
  List.NoDup (map Node.id (Config.nodes cfg)) ->
  (forall t t',
      In t (SpawnManager._thresholdTraitsByVar cfg varId) ->
      In t' (SpawnManager._thresholdTraitsByVar cfg varId) ->
      Node.id t' <> Node.id t ->
      ~ In (Node.id t') (SpawnManager.replacesOf t)) ->
  fst (EntityManager.changeVariable (Entity.id e) varId newValue w) = true /\
  settledAt cfg l e varId (VarState.value vs)
    (JS.clamp (VarState.min vs) (VarState.max vs) (newValue vs))
    (snd (EntityManager.changeVariable (Entity.id e) varId newValue w)).
Proof.
  intros Hsm Hr He Hv Hu Hnd Hrep.
  set (v := JS.clamp (VarState.min vs) (VarState.max vs) (newValue vs)).
  set (e1 := EntityManager.writeValue varId v e).
  set (w1 := World.set_heap (<[l := e1]> (World.heap w)) w).
  set (rest :=
         bind (if negb (Z.eqb v (VarState.value vs)) then
                 bind (EntityManager.checkThresholds l varId)
                   (fun _ =>
                      bind (EntityManager.checkModifierThresholds l)
                        (fun _ =>
                           bind (EntityManager.calculateDerived l)
                             (fun _ =>
                                EntityManager.emit "variableChanged"
                                  [("entityId", Entity.id e); ("varId", varId);
                                   ("oldValue", JS.showZ (VarState.value vs));
                                   ("newValue", JS.showZ v)])))
               else ret tt)
           (fun _ => ret true)).
  assert (Hrun : EntityManager.changeVariable (Entity.id e) varId newValue w = rest w1).
  { unfold EntityManager.changeVariable. unfold bind at 1.
    unfold retrieved in Hr. rewrite (surjective_pairing (EntityManager.retrieve _ w)), Hr.
    cbn [snd]. replace (snd (EntityManager.retrieve (Entity.id e) w)) with w by reflexivity.
    unfold bind at 1. unfold deref, gets. cbn [fst snd]. rewrite He, Hv. cbv zeta.
    fold v. unfold bind at 1. unfold update at 1. unfold modify. cbn [fst snd].
    rewrite He. reflexivity. }
  rewrite Hrun. split.
  { subst rest. apply fst_bind. reflexivity. }
  assert (Hsm1 : World.spawnManager w1 = Some cfg) by (subst w1; destruct w; exact Hsm).
  assert (Hr1 : retrieved (Entity.id e) w1 = Some l) by (subst w1; destruct w; exact Hr).
  assert (He1 : World.heap w1 !! l = Some e1).
  { subst w1. destruct w; cbn in *.
    apply list_lookup_insert_eq. now apply lookup_lt_Some in He. }
  destruct (standing_writeValue varId v e) as [Hid1 Hl1]. fold e1 in Hid1, Hl1.
  assert (Hact1 : forall L, SpawnManager.layerActive e1 L = SpawnManager.layerActive e L)
    by (intros L; unfold SpawnManager.layerActive; now rewrite Hl1).
  assert (Hu1 : uniquelyActive e1) by (intros L; rewrite Hact1; apply Hu).
  assert (Hv1 : JS.get varId (Entity.variables e1) = Some (VarState.set_value v vs)).
  { subst e1. rewrite get_writeValue, String.eqb_refl, Hv. reflexivity. }
  assert (Hval1 : VarState.value (VarState.set_value v vs) = v) by (destruct vs; reflexivity).
  assert (Hother : forall k, k <> varId -> JS.get k (ranges e1) = JS.get k (ranges e)).
  { intros k Hk. rewrite !get_ranges. subst e1. rewrite get_writeValue.
    destruct (String.eqb_spec varId k); [congruence|reflexivity]. }
  subst rest. rewrite snd_bind. cbn [ret snd].
  destruct (Z.eqb_spec v (VarState.value vs)) as [Hsame|Hnew]; cbn [negb].
  - cbn [ret snd]. exists e1. split; [exact He1|]. split; [eauto|].
    split; [exact Hother|]. split; [exact Hu1|]. split; [contradiction|].
    intros _. exact Hact1.
  - rewrite snd_bind.
    rewrite <- Hid1 in Hr1.
    destruct (checkThresholds_settles cfg w1 l e1 varId _ Hsm1 Hr1 He1 Hv1 Hu1 Hnd Hrep)
      as (e2 & He2 & Hrg2 & Hu2 & Hin2).
    rewrite Hval1 in Hin2.
    set (w2 := snd (EntityManager.checkThresholds l varId w1)) in *.
    pose proof (standing_change_rest l l "variableChanged"
                  [("entityId", Entity.id e); ("varId", varId);
                   ("oldValue", JS.showZ (VarState.value vs)); ("newValue", JS.showZ v)]
                  w2) as Hkeep.
    unfold obsAt at 2 in Hkeep. rewrite He2 in Hkeep. cbn [option_map] in Hkeep.
    apply obsAt_Some in Hkeep as (e3 & He3 & Hs).
    apply standing_facts in Hs as (_ & Hrg3 & Hl3).
    exists e3. split; [exact He3|]. split.
    { pose proof (get_ranges varId e3) as Hg.
      rewrite Hrg3, Hrg2, get_ranges, Hv1 in Hg.
      destruct (JS.get varId (Entity.variables e3)) as [vs3|]; [|discriminate].
      exists vs3. split; [reflexivity|]. cbn in Hg. unfold range in Hg.
      destruct vs, vs3; cbn in *. congruence. }
    split; [intros k Hk; rewrite Hrg3, Hrg2; now apply Hother|].
    split; [intros L; rewrite Hl3; apply Hu2|]. split; [|contradiction].
    intros _ t Ht. rewrite Hl3, (Hin2 t Ht). unfold switched. now rewrite Hact1.
Qed.

(** X24. A write of a variable switches its threshold traits. For an
    entity that retrieve finds under its own id, [setVariable] and
    [modifyVariable] on a variable the entity has return true and leave the
    variable at the written value kept within [min, max] (for
    modifyVariable the old value plus delta); the other variables keep
    value and bounds, and no layer lists a trait twice. If that value is
    new, every threshold trait of the variable is then active exactly when
    it was active and its [autoRemove] does not hold of the new value, or
    was not active and its [trigger] holds; if the value is the old one no
    trait changes. Node ids are distinct and no threshold trait of the
    variable replaces another. *)
Theorem setVariable_switches_threshold_traits (cfg : Config.t) (w : World.t) (l : loc)
    (e : Entity.t) (varId : string) (vs : VarState.t) :
  World.spawnManager w = Some cfg ->
  retrieved (Entity.id e) w = Some l ->
  World.heap w !! l = Some e ->
  JS.get varId (Entity.variables e) = Some vs ->
  uniquelyActive e ->
  List.NoDup (map Node.id (Config.nodes cfg)) ->
  (forall t t',
      In t (SpawnManager._thresholdTraitsByVar cfg varId) ->
      In t' (SpawnManager._thresholdTraitsByVar cfg varId) ->
      Node.id t' <> Node.id t ->
      ~ In (Node.id t') (SpawnManager.replacesOf t)) ->
  (forall value,
      fst (EntityManager.setVariable (Entity.id e) varId value w) = true /\
      settledAt cfg l e varId (VarState.value vs)
        (JS.clamp (VarState.min vs) (VarState.max vs) value)
        (snd (EntityManager.setVariable (Entity.id e) varId value w))) /\
  (forall delta,
      fst (EntityManager.modifyVariable (Entity.id e) varId delta w) = true /\
      settledAt cfg l e varId (VarState.value vs)
        (JS.clamp (VarState.min vs) (VarState.max vs) (VarState.value vs + delta))
        (snd (EntityManager.modifyVariable (Entity.id e) varId delta w))).
Proof.
  intros Hsm Hr He Hv Hu Hnd Hrep. split.
  - intros value.
    exact (changeVariable_settles cfg w l e varId vs (fun _ => value)
             Hsm Hr He Hv Hu Hnd Hrep).
  - intros delta.
    exact (changeVariable_settles cfg w l e varId vs
             (fun varState => VarState.value varState + delta)
             Hsm Hr He Hv Hu Hnd Hrep).
Qed.

Lemma setVariable_switches_threshold_traits_witness :
  SpawnManager.layerActive Scenario.eStarving (Some "mood") = [] /\
  exists e' vs',
    World.heap (snd (EntityManager.setVariable "pet" "hunger" 90 Scenario.wStarving))
      !! 0%nat = Some e' /\
    JS.get "hunger" (Entity.variables e') = Some vs' /\
    VarState.value vs' = 90 /\
    In "starving" (SpawnManager.layerActive e' (Some "mood")).
Proof.
  split; [vm_compute; reflexivity|].
  destruct (setVariable_switches_threshold_traits Scenario.cfgStarving
              Scenario.wStarving 0%nat Scenario.eStarving "hunger"
              (VarState.mk 95 0 0 0 100 "manual" "none")
              ltac:(vm_compute; reflexivity) ltac:(vm_compute; reflexivity)
              ltac:(vm_compute; reflexivity) ltac:(vm_compute; reflexivity))
    as [Hset _].
  - intros layerId. unfold SpawnManager.layerActive.
    set (layers := Entity.layers Scenario.eStarving). vm_compute in layers. subst layers.
    cbn [JS.get]. repeat destruct (String.eqb _ _); repeat constructor; simpl; tauto.
  - vm_compute. repeat constructor; simpl; intuition discriminate.
  - intros t t' Ht. vm_compute in Ht. destruct Ht as [<-|[]]. intros _ _ [].
  - destruct (Hset 90) as (_ & e' & He' & (vs' & Hg & Hval) & _ & _ & Hnew & _).
    exists e', vs'. split; [exact He'|]. split; [exact Hg|]. split; [exact Hval|].
    apply (Hnew ltac:(vm_compute; discriminate) Scenario.starving);
      [vm_compute; auto|vm_compute; reflexivity].
Defined.
